(* ===== verification/_CoqProject ===== *)
-Q . S2P
Prelude.v
External.v
Erasure.v
RSCode.v
Crypto.v
Pipeline.v
Paths.v
Text.v
Instance.v
Manifest.v
ChunkStore.v
ManifestInv.v
Service.v
ServiceProofs.v
ServiceSpec.v
Packs.v
PackProofs.v
ServiceInv.v
ServiceWitness.v
Protocol.v
Server.v
Client.v
Host.v
Listener.v
NetWitness.v
Retention.v
Identity.v
Backup.v
ManifestBackup.v
Dht.v
DhtProofs.v
DhtWitness.v
ReadPath.v
Placement.v
Peers.v
Fleet.v
HostNet.v
Distribute.v
DistributeProofs.v
Survival.v
Repair.v
RepairProofs.v
RepairSpec.v
Rebalance.v
RebalanceProofs.v
FleetWitness.v
Quotas.v
Accounts.v
AccountsProofs.v
AccountsSpec.v
AccountsWitness.v
PackContent.v
FileHealth.v
Recovery.v
RecoveryProofs.v
RecoveryWitness.v
Jobs.v
Wiring.v
Departure.v
Access.v
Browse.v
Discovery.v
Reports.v
