(* ===== verification/Prelude.v ===== *)
(** * p2pnas: verification library of the encrypted peer-to-peer storage module

    p2pnas stores the files of its users encrypted and erasure-coded on this node and on other
    nodes, and hosts the shards of others in return. The Rust workspace [src/server/crates] has
    four crates: [core] (erasure coding, encryption, the upload pipeline), [store] (the SQLite
    manifest, the directory of shards, the service over both, the node's identity and its
    backups), [p2p] (wire protocol, listener, client, DHT node) and [server] (HTTP handlers,
    quotas, placement and the background passes). A push cuts a file into chunks, compresses and
    seals each one, cuts the sealed chunk into ten data shards, adds four parity shards, writes
    the fourteen locally and records them in the manifest; a task per remote shard then moves it
    to the peer the planner chose. A download takes any ten shards of each chunk from wherever
    they are. Repair replaces lost shards, the locality pass re-homes them, packing groups small
    files into containers, the retention passes reclaim what aged out, and the manifest itself is
    backed up at the peers every day.

    ** How the library is laid out

    A Rust function is the definition of the same name (a few are prefixed, as [host_store] for
    [P2pShardHandler::store]); a struct is a [Record], an enum an [Inductive], a table a list of
    rows or a [gmap] by primary key. Fallible code answers [res]: [Ok], [Err], or [Panic] for a
    run that aborts. Integers are [Z] with the wrap-around, saturation or clamp of the source
    written out; bytes are [list byte]; [f64] is the primitive binary64. Code outside the
    repository is a class with its documented laws, and each has a concrete instance on which
    the witnesses run.

    Foundations.
    - [Prelude]: results, bytes, lists, the little-endian and big-endian codecs, shared lemmas.
    - [External]: the classes of the crates called (AES-GCM, HKDF and BLAKE3 in [CryptoPrims],
      zstd, Argon2id, Ed25519), their laws, and the instances of [Toy].
    - [RSCode]: a Cauchy code over GF(16) which satisfies the laws [Erasure] asks of
      reed-solomon-simd.
    - [Paths], [Text]: paths, SQLite's LIKE, trimming and number parsing.

    Crate core.
    - [Erasure] (erasure.rs), [Crypto] (crypto.rs), [Pipeline] (chunker.rs, pipeline.rs).
      Any ten shards give back the sealed buffer; a chunk opens only in the context it was
      sealed for; compression never loses and never grows a chunk.

    Crate store.
    - [Manifest] (manifest.rs): the tables, constraints and statements; [ManifestInv]: the
      invariant every statement keeps.
    - [ChunkStore] (chunkstore.rs): the shard directory, confined to valid ids.
    - [Service] and [Packs] (service.rs), with [ServiceProofs], [ServiceSpec], [PackProofs],
      [ServiceInv] and the runs of [ServiceWitness]: push and pull are inverse, every reachable
      manifest satisfies the invariant, a readable file stays readable until it is destroyed,
      deletions and retention remove exactly what they select, packing is a refinement.
    - [Identity] (identity.rs), [Backup] and [ManifestBackup] (backup.rs): the key file, the
      bundle and its crash-safe import, the envelopes of the distributed manifest backup.

    Crate p2p and the node as a host.
    - [Protocol] (protocol.rs), [Server] (server.rs), [Client] (client.rs), [Dht] with
      [DhtProofs], [DhtWitness] (dht.rs): frames, challenges, dispatch, the verified handshake,
      the routing table and what a datagram can cause.
    - [Host] (server/src/p2p.rs) with [NetWitness]: a request as one step, its authorization and
      accounting. [Listener]: the same requests one step per await, on up to 256 connections
      under any interleaving; alone a connection refines [Host], together the overshoot of the
      capacity check is bounded.
    - [Retention] (retention.rs): what is reclaimed from absent owners.
    - [Peers] (discovery/mod.rs, admin.rs) and [Discovery] (discovery/dht.rs, mdns.rs and the
      receive loop of dht.rs): how an address becomes a peer, the pinned keys, and that only
      addresses which proved themselves, or were announced on the LAN, are contacted.

    The passes over the fleet.
    - [Fleet]: the interface [PeerNet]/[HonestNet] between the passes and the peers, and the
      moves they share; [HostNet]: the listeners of [Host] and [Client] discharge it.
    - [Placement] (placement.rs), [Distribute], [DistributeProofs] (files.rs,
      distribute_shards), [ReadPath] (files.rs, the download), [Survival] (push, distribution and
      download composed), [Repair], [RepairProofs], [RepairSpec] (repair.rs), [Rebalance],
      [RebalanceProofs] (rebalance.rs), with the runs of [FleetWitness]. In any interleaving,
      stopped anywhere, no pass loses a shard of honest peers; a download is exact when ten
      shards of each chunk can be had; a repair restores full redundancy.
    - [Recovery], [RecoveryProofs], [RecoveryWitness] (manifest_backup.rs): the daily backup at
      the peers and the restore of a node that has only its key.

    The HTTP side and the background.
    - [Instance] (config/instance.rs), [Quotas] (quotas.rs, admin.rs), [Accounts] with
      [AccountsProofs], [AccountsSpec], [AccountsWitness] (files.rs): uploads and deletions one
      await per step, and the exactness of the ledger under any interleaving; [PackContent]: the
      background packing keeps the content of every file whatever the peers answer.
    - [FileHealth] (files.rs, durability and placement), [Browse] (files.rs, the folder view),
      [Departure] (events/mod.rs, account deletion), [Access] (router, middleware, errors),
      [Reports] (admin.rs, reports), [Jobs] (jobs.rs, the queue and its workers), [Wiring]
      (main.rs: registration, timers; repair.rs: the node's own address).

    The [*Proofs], [*Spec] and [*Inv] files hold theorems over the file they are named after,
    the [*Witness] files and the [*Run] modules concrete runs, among them the runs that show a
    behaviour the comments of the source do not foresee. A numbered comment (C1, C2, ...) marks
    a property of the manifest of this development.

    ** Concurrency, bounds and fuel

    A concurrent part is a step function over await points, or over statements for the tables:
    [Distribute] (tasks), [Accounts] (uploads, deletions), [Jobs] (workers), [Listener]
    (connections), [Discovery] (discovery tasks). A schedule is an arbitrary list, so a prefix is
    a crash. Where the source only races independent requests (the fetches of a chunk, the
    probes of a pass) the order of completion is an argument. Fuel is used where recursion is not
    structural, and is enough: the bytes of a stream for the frames
    of a connection and for the index of a pack, the number of chunks for the
    window of a download, two for a pull (a member, then its container), the length of a string for trimming and
    decimal printing, seven turns for a distribution task.

    ** What is not modelled

    Failures of the disk and of the control-plane database (a statement succeeds, except where
    the source's answer to a failure matters: the constraints of the manifest, the recorded
    location of a shard, crashes between steps); times as seconds rather than instants; log
    lines and the JSON of answers; sockets, TLS and the HTTP framework (path matching and token
    verification are arguments of [Access]); the requests to the core and to the GeoIP module;
    loading of the configuration files; process start-up; the side channels of cryptographic
    code. SQL migrations, the web and mobile clients, benchmarks and packaging are not part of
    the core logic. *)

From Stdlib Require Import ZArith Lia.
From Stdlib Require Import Strings.Byte Strings.String Strings.Ascii.
From stdpp Require Import base numbers list gmap strings.

#[global] Open Scope Z_scope.

(** ** Results of Rust code

    [Ok] and [Err] are the constructors of [Result]; [Panic] is a run that aborts
    (an out-of-range slice, a failed [copy_from_slice]). *)
Inductive res (E A : Type) : Type :=
| Ok (a : A)
| Err (e : E)
| Panic.
Arguments Ok {E A} a.
Arguments Err {E A} e.
Arguments Panic {E A}.

#[global] Instance res_ret {E} : MRet (res E) := fun A a => Ok a.
#[global] Instance res_bind {E} : MBind (res E) := fun A B f m =>
  match m with Ok a => f a | Err e => Err e | Panic => Panic end.
#[global] Instance res_fmap {E} : FMap (res E) := fun A B f m =>
  match m with Ok a => Ok (f a) | Err e => Err e | Panic => Panic end.

(** [Result::map_err], [Option::ok_or], [Result::ok]. *)
Definition map_err {E F A} (f : E -> F) (m : res E A) : res F A :=
  match m with Ok a => Ok a | Err e => Err (f e) | Panic => Panic end.
Definition ok_or {E A} (o : option A) (e : E) : res E A :=
  match o with Some a => Ok a | None => Err e end.
Definition res_ok {E A} (m : res E A) : option A :=
  match m with Ok a => Some a | _ => None end.
Definition is_ok {E A} (m : res E A) : bool :=
  match m with Ok _ => true | _ => false end.
Definition guard_err {E} (b : bool) (e : E) : res E unit :=
  if b then Ok () else Err e.

(** Iterate a fallible step over a list ([for x in xs { ...? }]). *)
Fixpoint foldM {E S X} (f : S -> X -> res E S) (s : S) (xs : list X) : res E S :=
  match xs with
  | [] => Ok s
  | x :: xs => s ← f s x; foldM f s xs
  end.

(** [iter().map(f).collect::<Result<Vec<_>>>()]. *)
Fixpoint mapR {E A B} (f : A -> res E B) (xs : list A) : res E (list B) :=
  match xs with
  | [] => Ok []
  | x :: xs => y ← f x; ys ← mapR f xs; Ok (y :: ys)
  end.

Lemma bind_ok {E A B} (f : A -> res E B) (m : res E A) b :
  (x ← m; f x) = Ok b -> exists a, m = Ok a /\ f a = Ok b.
Proof. destruct m; cbn; intros H; try discriminate; eauto. Qed.

Lemma ok_or_ok {E A} (o : option A) (e : E) a : ok_or o e = Ok a <-> o = Some a.
Proof. destruct o; cbn; split; congruence. Qed.

Lemma map_err_ok {E F A} (f : E -> F) (m : res E A) a : map_err f m = Ok a <-> m = Ok a.
Proof. destruct m; cbn; split; congruence. Qed.

Lemma mapR_ok {E A B} (f : A -> res E B) xs ys :
  mapR f xs = Ok ys <-> Forall2 (fun x y => f x = Ok y) xs ys.
Proof.
  revert ys; induction xs as [|x xs IH]; intros ys; cbn.
  - split; [intros [= <-]; constructor | intros H; inversion H; done].
  - split.
    + intros (y & Hy & (zs & Hz & [= <-])%bind_ok)%bind_ok.
      constructor; [done | by apply IH].
    + intros H; inversion H as [|? y ? zs Hy Hz]; subst.
      rewrite Hy; cbn. apply IH in Hz. by rewrite Hz.
Qed.

Lemma mapR_all_ok {E A B} (f : A -> res E B) (g : A -> B) xs :
  (forall x, x ∈ xs -> f x = Ok (g x)) -> mapR f xs = Ok (g <$> xs).
Proof.
  intros H. apply mapR_ok. induction xs as [|x xs IH]; cbn; constructor.
  - apply H. left.
  - apply IH. intros; apply H. by right.
Qed.

(** [step_ok] opens a monadic run that succeeded, one bind at a time. *)
Ltac step_ok :=
  repeat match goal with
  | H : (mbind _ _) = Ok _ |- _ =>
      let a := fresh "a" in let Ha := fresh "Ha" in
      apply bind_ok in H as (a & Ha & H)
  | H : Ok _ = Ok _ |- _ => injection H as H; subst
  | H : Err _ = Ok _ |- _ => discriminate H
  | H : Panic = Ok _ |- _ => discriminate H
  | H : ok_or _ _ = Ok _ |- _ => apply ok_or_ok in H
  | H : map_err _ _ = Ok _ |- _ => apply map_err_ok in H
  | H : guard_err ?b _ = Ok _ |- _ => destruct b eqn:?; cbn in H
  | H : (if ?b then _ else _) = Ok _ |- _ => destruct b eqn:?
  end.

(** ** Bytes and integers *)

Abbreviation u8 := Byte.byte.
Abbreviation bytes := (list Byte.byte).

#[global] Instance byte_eq_dec : EqDecision u8 := Byte.byte_eq_dec.
#[global] Instance byte_countable : Countable u8.
Proof.
  refine (inj_countable Byte.to_N Byte.of_N _). intros b; apply Byte.of_to_N.
Qed.

Definition b2z (b : u8) : Z := Z.of_N (Byte.to_N b).
(** [as u8]: the low eight bits. *)
Definition z2b (v : Z) : u8 :=
  match Byte.of_N (Z.to_N (v mod 256)) with Some b => b | None => x00 end.

Definition len {A} (l : list A) : Z := Z.of_nat (length l).
Definition zeros (n : Z) : bytes := replicate (Z.to_nat n) x00.

Lemma len_nonneg {A} (l : list A) : 0 <= len l.
Proof. unfold len; lia. Qed.
Lemma len_nil {A} : len (@nil A) = 0.
Proof. done. Qed.
Lemma len_cons {A} (x : A) l : len (x :: l) = len l + 1.
Proof. unfold len; cbn; lia. Qed.
Lemma len_app {A} (l k : list A) : len (l ++ k) = len l + len k.
Proof. unfold len; rewrite length_app; lia. Qed.
Lemma len_fmap {A B} (f : A -> B) l : len (f <$> l) = len l.
Proof. unfold len; by rewrite length_fmap. Qed.
Lemma len_replicate {A} n (x : A) : len (replicate n x) = Z.of_nat n.
Proof. unfold len; by rewrite length_replicate. Qed.
Lemma len_zeros n : 0 <= n -> len (zeros n) = n.
Proof. intros; unfold zeros; rewrite len_replicate; lia. Qed.

Lemma b2z_range b : 0 <= b2z b < 256.
Proof. unfold b2z. pose proof (Byte.to_N_bounded b). lia. Qed.

Lemma z2b_b2z b : z2b (b2z b) = b.
Proof.
  unfold z2b. rewrite Z.mod_small by apply b2z_range.
  unfold b2z. rewrite N2Z.id, Byte.of_to_N. done.
Qed.

Lemma b2z_z2b v : b2z (z2b v) = v mod 256.
Proof.
  unfold z2b, b2z. pose proof (Z.mod_pos_bound v 256).
  destruct (Byte.of_N (Z.to_N (v mod 256))) as [b|] eqn:E.
  - apply Byte.to_of_N in E. rewrite E. lia.
  - apply Byte.of_N_None_iff in E. lia.
Qed.

Lemma b2z_inj a b : b2z a = b2z b -> a = b.
Proof. intros H. rewrite <- (z2b_b2z a), <- (z2b_b2z b). by rewrite H. Qed.

(** [to_be_bytes] / [to_le_bytes] of an [n]-byte unsigned integer, and
    [from_be_bytes]. *)
Fixpoint be_bytes (n : nat) (v : Z) : bytes :=
  match n with O => [] | S n => z2b (v / 256 ^ Z.of_nat n) :: be_bytes n v end.
Fixpoint le_bytes (n : nat) (v : Z) : bytes :=
  match n with O => [] | S n => z2b v :: le_bytes n (v / 256) end.
Definition of_be (l : bytes) : Z := foldl (fun acc b => acc * 256 + b2z b) 0 l.
Fixpoint of_le (l : bytes) : Z :=
  match l with [] => 0 | b :: l => b2z b + 256 * of_le l end.

Lemma length_be_bytes n v : length (be_bytes n v) = n.
Proof. induction n; cbn; congruence. Qed.
Lemma length_le_bytes n v : length (le_bytes n v) = n.
Proof. revert v; induction n; intros; cbn; [done|]. by rewrite IHn. Qed.

Lemma foldl_be acc l :
  foldl (fun acc b => acc * 256 + b2z b) acc l = acc * 256 ^ len l + of_be l.
Proof.
  unfold of_be. revert acc; induction l as [|b l IH]; intros acc; cbn [foldl].
  { rewrite len_nil. lia. }
  rewrite IH, (IH (0 * 256 + b2z b)), len_cons.
  pose proof (len_nonneg l). rewrite Z.pow_add_r by lia. lia.
Qed.

Lemma of_be_cons b l : of_be (b :: l) = b2z b * 256 ^ len l + of_be l.
Proof. unfold of_be at 1. cbn [foldl]. rewrite foldl_be. lia. Qed.

Lemma of_be_bytes n v : 0 <= v -> of_be (be_bytes n v) = v mod 256 ^ Z.of_nat n.
Proof.
  intros Hv. induction n as [|n IH].
  - cbn. by rewrite Z.mod_1_r.
  - cbn [be_bytes]. rewrite of_be_cons, IH, b2z_z2b. unfold len. rewrite length_be_bytes.
    rewrite Nat2Z.inj_succ, Z.pow_succ_r by lia.
    rewrite (Z.mul_comm 256), Z.rem_mul_r by lia. nia.
Qed.

Lemma of_be_small n v : 0 <= v < 256 ^ Z.of_nat n -> of_be (be_bytes n v) = v.
Proof. intros H. rewrite of_be_bytes by lia. by rewrite Z.mod_small. Qed.

Lemma of_be_range l : 0 <= of_be l < 256 ^ len l.
Proof.
  induction l as [|b l IH]; [by split; vm_compute|].
  rewrite of_be_cons. pose proof (b2z_range b).
  pose proof (len_nonneg l). rewrite len_cons, Z.pow_add_r by lia. nia.
Qed.

Lemma of_le_bytes n v : 0 <= v < 256 ^ Z.of_nat n -> of_le (le_bytes n v) = v.
Proof.
  revert v; induction n as [|n IH]; intros v Hv; cbn [le_bytes of_le].
  - cbn in Hv. lia.
  - rewrite Nat2Z.inj_succ, Z.pow_succ_r in Hv by lia.
    rewrite IH, b2z_z2b.
    + pose proof (Z.div_mod v 256). lia.
    + split; [apply Z.div_pos; lia | apply Z.div_lt_upper_bound; lia].
Qed.

Lemma be_bytes_inj n v w :
  0 <= v < 256 ^ Z.of_nat n -> 0 <= w < 256 ^ Z.of_nat n ->
  be_bytes n v = be_bytes n w -> v = w.
Proof. intros Hv Hw H. apply (f_equal of_be) in H. by rewrite !of_be_small in H. Qed.

Lemma le_bytes_inj n v w :
  0 <= v < 256 ^ Z.of_nat n -> 0 <= w < 256 ^ Z.of_nat n ->
  le_bytes n v = le_bytes n w -> v = w.
Proof. intros Hv Hw H. apply (f_equal of_le) in H. by rewrite !of_le_bytes in H. Qed.

(** [str::as_bytes]. *)
Definition as_bytes (s : string) : bytes := list_byte_of_string s.
Definition of_bytes (l : bytes) : string := string_of_list_byte l.

Lemma of_as_bytes s : of_bytes (as_bytes s) = s.
Proof. apply string_of_list_byte_of_string. Qed.
Lemma as_of_bytes l : as_bytes (of_bytes l) = l.
Proof. apply list_byte_of_string_of_list_byte. Qed.
Lemma as_bytes_inj s t : as_bytes s = as_bytes t -> s = t.
Proof. intros H. rewrite <- (of_as_bytes s), <- (of_as_bytes t). by rewrite H. Qed.

(** ** Sizes, slices and chunks *)

(** [usize::div_ceil]. *)
Definition div_ceil (a b : Z) : Z := a / b + (if 0 <? a mod b then 1 else 0).

Lemma div_ceil_spec a b : 0 < b -> (div_ceil a b - 1) * b < a <= div_ceil a b * b.
Proof.
  intros Hb. unfold div_ceil. pose proof (Z.div_mod a b). pose proof (Z.mod_pos_bound a b Hb).
  destruct (Z.ltb_spec 0 (a mod b)); nia.
Qed.

Lemma div_ceil_unique a b q : 0 < b -> (q - 1) * b < a <= q * b -> div_ceil a b = q.
Proof. intros Hb H. pose proof (div_ceil_spec a b Hb). nia. Qed.

Lemma div_ceil_nonneg a b : 0 <= a -> 0 < b -> 0 <= div_ceil a b.
Proof. intros Ha Hb. pose proof (div_ceil_spec a b Hb). nia. Qed.

(** [&v[a..b]]: panics when the range is not inside the slice. *)
Definition slice {E A} (a b : Z) (v : list A) : res E (list A) :=
  if (0 <=? a) && (a <=? b) && (b <=? len v)
  then Ok (take (Z.to_nat (b - a)) (drop (Z.to_nat a) v))
  else Panic.

(** [v[i]]: panics out of range. *)
Definition index {E A} (v : list A) (i : nat) : res E A :=
  match v !! i with Some x => Ok x | None => Panic end.

(** [Vec::truncate] keeps at most [n] elements. *)
Definition truncate {A} (n : Z) (v : list A) : list A := take (Z.to_nat n) v.

(** [slice::chunks(n)] for a positive [n]: consecutive pieces of [n] elements, the
    last one possibly shorter. The fuel is the length of the slice. *)
Fixpoint chunks_fuel {A} (fuel : nat) (n : nat) (l : list A) : list (list A) :=
  match fuel with
  | O => []
  | S fuel =>
      match l with
      | [] => []
      | _ => take n l :: chunks_fuel fuel n (drop n l)
      end
  end.
Definition chunks {A} (n : Z) (l : list A) : list (list A) :=
  chunks_fuel (length l) (Z.to_nat n) l.

Lemma chunks_fuel_enough {A} f g n (l : list A) :
  (0 < n)%nat -> (length l <= f)%nat -> (length l <= g)%nat ->
  chunks_fuel f n l = chunks_fuel g n l.
Proof.
  intros Hn. revert g l; induction f as [|f IH]; intros g l Hf Hg.
  - destruct l; cbn in Hf; [|lia]. by destruct g.
  - destruct g as [|g]; destruct l as [|x l]; try done; cbn in Hf, Hg; [lia|].
    cbn [chunks_fuel]. f_equal. apply IH; rewrite length_drop; cbn; lia.
Qed.

Lemma chunks_nil {A} n : chunks n (@nil A) = [].
Proof. done. Qed.

Lemma chunks_step {A} n (l : list A) :
  0 < n -> l <> [] -> chunks n l = take (Z.to_nat n) l :: chunks n (drop (Z.to_nat n) l).
Proof.
  intros Hn Hl. unfold chunks. destruct l as [|x l]; [done|].
  cbn [length chunks_fuel]. f_equal.
  apply chunks_fuel_enough; rewrite ?length_drop; cbn; lia.
Qed.

(** Strong induction over the chunk decomposition of a list. *)
Lemma chunks_ind {A} (n : Z) (Hn : 0 < n) (P : list A -> Prop) :
  P [] -> (forall l, l <> [] -> P (drop (Z.to_nat n) l) -> P l) -> forall l, P l.
Proof.
  intros H0 HS l. remember (length l) as k eqn:Hk.
  revert l Hk; induction k as [k IH] using lt_wf_ind; intros l ->.
  destruct l as [|x l]; [done|]. apply HS; [done|].
  eapply IH; [|done]. rewrite length_drop; cbn; lia.
Qed.

Lemma chunks_concat {A} n (l : list A) : 0 < n -> mjoin (chunks n l) = l.
Proof.
  intros Hn. induction l as [|l Hl IH] using (chunks_ind n Hn); [done|].
  rewrite chunks_step by done.
  change (take (Z.to_nat n) l ++ mjoin (chunks n (drop (Z.to_nat n) l)) = l).
  rewrite IH. apply take_drop.
Qed.

Lemma chunks_count {A} n (l : list A) : 0 < n -> len (chunks n l) = div_ceil (len l) n.
Proof.
  intros Hn. induction l as [|l Hl IH] using (chunks_ind n Hn).
  { symmetry. apply (div_ceil_unique 0 n 0); lia. }
  rewrite chunks_step, len_cons, IH by done. clear IH. symmetry.
  apply div_ceil_unique; [done|].
  pose proof (div_ceil_spec (len (drop (Z.to_nat n) l)) n Hn) as H.
  assert (0 < len l) by (destruct l; [done|]; rewrite len_cons; pose proof (len_nonneg l); lia).
  set (q := div_ceil _ n) in *. clearbody q.
  destruct (decide (n <= len l)) as [Hle|Hlt].
  - replace (len (drop (Z.to_nat n) l)) with (len l - n) in H by (unfold len in *; rewrite length_drop; lia).
    lia.
  - replace (len (drop (Z.to_nat n) l)) with 0 in H by (unfold len in *; rewrite length_drop; lia).
    assert (q = 0) as -> by nia. lia.
Qed.

Lemma chunks_bounds {A} n (l : list A) c : 0 < n -> c ∈ chunks n l -> 0 < len c <= n.
Proof.
  intros Hn. induction l as [|l Hl IH] using (chunks_ind n Hn).
  { rewrite chunks_nil. by intros ?%elem_of_nil. }
  rewrite chunks_step by done. intros [->|Hc]%elem_of_cons; [|by apply IH].
  unfold len. rewrite length_take. destruct l; cbn; [done|lia].
Qed.

(** Every chunk but the last is full. *)
Lemma chunks_lookup {A} n (l : list A) i c :
  0 < n -> chunks n l !! i = Some c ->
  c = take (Z.to_nat n) (drop (i * Z.to_nat n) l).
Proof.
  intros Hn. revert i. induction l as [|l Hl IH] using (chunks_ind n Hn); intros i.
  { rewrite chunks_nil. done. }
  rewrite chunks_step by done. destruct i as [|i]; cbn [lookup list_lookup].
  - intros [= <-]. done.
  - intros ->%IH. by rewrite drop_drop.
Qed.

(** Sums of integers, as [iter().sum()]. *)
Definition zsum (l : list Z) : Z := foldr Z.add 0 l.
Lemma zsum_cons x l : zsum (x :: l) = x + zsum l.
Proof. done. Qed.
Lemma zsum_app l k : zsum (l ++ k) = zsum l + zsum k.
Proof. induction l; cbn; unfold zsum in *; cbn; lia. Qed.
Lemma zsum_insert l i x y : l !! i = Some x -> zsum (<[i := y]> l) = zsum l - x + y.
Proof.
  revert i. induction l as [|z l IH]; intros [|i] Hi; [done..| |]; cbn in Hi.
  - injection Hi as ->. change (<[0%nat := y]> (x :: l)) with (y :: l). rewrite !zsum_cons. lia.
  - change (<[S i := y]> (z :: l)) with (z :: <[i := y]> l). rewrite !zsum_cons, (IH i Hi). lia.
Qed.
Lemma zsum_zero l : Forall (fun x => x = 0) l -> zsum l = 0.
Proof. induction 1 as [|x l -> _ IH]; [done|]. by rewrite zsum_cons, IH. Qed.
Lemma zsum_nonneg l : Forall (fun x => 0 <= x) l -> 0 <= zsum l.
Proof. induction 1; cbn; unfold zsum in *; lia. Qed.

(** Machine widths. *)
Definition u16_max : Z := 2 ^ 16 - 1.
Definition u32_max : Z := 2 ^ 32 - 1.
Definition u64_max : Z := 2 ^ 64 - 1.
Definition isize_max : Z := 2 ^ 63 - 1.
Definition i64_min : Z := - 2 ^ 63.
Definition i64_max : Z := 2 ^ 63 - 1.
(** Wrapping [u64] arithmetic. *)
Definition wrap64 (v : Z) : Z := v mod 2 ^ 64.

(** ** Length-prefixed concatenation

    Shared by the key-derivation inputs, the chunk AAD, the handshake transcripts and
    the pack index. [enc] writes a length on a fixed number of bytes and is injective on
    lengths below [bound]. *)
Section LengthPrefix.
Context (enc : Z -> bytes) (w : nat) (bound : Z).
Hypothesis enc_len : forall v, length (enc v) = S w.
Hypothesis enc_inj : forall v v', 0 <= v < bound -> 0 <= v' < bound -> enc v = enc v' -> v = v'.

Definition lp (p : bytes) : bytes := enc (len p) ++ p.
Definition lps (ps : list bytes) : bytes := mjoin (lp <$> ps).

Lemma lp_app_inj p q r s :
  len p < bound -> len q < bound -> lp p ++ r = lp q ++ s -> p = q /\ r = s.
Proof using enc_len enc_inj.
  intros Hp Hq H. unfold lp in H. rewrite <- !app_assoc in H.
  apply app_inj_1 in H as [He H]; [|by rewrite !enc_len].
  apply enc_inj in He; [|split; [apply len_nonneg|done]..].
  apply app_inj_1 in H; [done|]. unfold len in He. lia.
Qed.

Lemma lps_inj ps qs :
  Forall (fun p => len p < bound) ps -> Forall (fun p => len p < bound) qs ->
  lps ps = lps qs -> ps = qs.
Proof using enc_len enc_inj.
  intros Hps. revert qs. induction Hps as [|p ps Hp Hps IH]; intros qs Hqs H.
  - destruct qs as [|q qs]; [done|].
    apply (f_equal length) in H. unfold lps, lp in H. cbn in H.
    rewrite !length_app, enc_len in H. cbn in H. lia.
  - destruct Hqs as [|q qs Hq Hqs].
    + apply (f_equal length) in H. unfold lps, lp in H. cbn in H.
      rewrite !length_app, enc_len in H. cbn in H. lia.
    + unfold lps in H. cbn in H. apply lp_app_inj in H as [-> H]; [|done..].
      f_equal. by apply IH.
Qed.
End LengthPrefix.

Lemma be64_inj v v' : 0 <= v < 2 ^ 64 -> 0 <= v' < 2 ^ 64 -> be_bytes 8 v = be_bytes 8 v' -> v = v'.
Proof. intros; by apply (be_bytes_inj 8). Qed.
Lemma be32_inj v v' : 0 <= v < 2 ^ 32 -> 0 <= v' < 2 ^ 32 -> be_bytes 4 v = be_bytes 4 v' -> v = v'.
Proof. intros; by apply (be_bytes_inj 4). Qed.
Lemma le32_inj v v' : 0 <= v < 2 ^ 32 -> 0 <= v' < 2 ^ 32 -> le_bytes 4 v = le_bytes 4 v' -> v = v'.
Proof. intros; by apply (le_bytes_inj 4). Qed.

#[export] Instance zsum_Permutation : Proper (Permutation ==> eq) zsum.
Proof. intros l k. induction 1; cbn; unfold zsum in *; cbn in *; lia. Qed.

(** ** Automation shared by the components *)

Create HintDb p2p.
Create Rewrite HintDb p2p.
Lemma len_be n v : len (be_bytes n v) = Z.of_nat n.
Proof. unfold len. by rewrite length_be_bytes. Qed.

Lemma omap_insert_none (l : list (option bytes)) i v :
  l !! i = Some None -> length (omap id (<[i := Some v]> l)) = S (length (omap id l)).
Proof.
  revert i; induction l as [|o l IH]; intros [|i] Hi; [done..| |].
  - injection Hi as ->. done.
  - change (o :: l) with ([o] ++ l). change (<[S i := Some v]> ([o] ++ l)) with ([o] ++ <[i := Some v]> l).
    rewrite !omap_app, !length_app, IH by done. lia.
Qed.

#[export] Hint Rewrite @len_nil @len_cons @len_app @len_fmap length_be_bytes length_le_bytes
  @length_take @length_drop @length_replicate : p2p.
#[export] Hint Resolve len_nonneg b2z_range div_ceil_nonneg : p2p.

(** Case on the conditionals and matches that block a goal. *)
Ltac break :=
  repeat match goal with
  | |- context [match ?x with _ => _ end] => destruct x eqn:?; cbn
  end.

(** [usize] literals stay folded in lengths: turn a goal on [len] into one on [length]. *)
Ltac len_lia := unfold len in *; rewrite ?length_app, ?length_take, ?length_drop, ?length_replicate in *; lia.

(** A list of [k] blocks of [n] elements is cut into exactly those blocks. *)
Lemma chunks_blocks {A} n k (l : list A) :
  0 < n -> len l = Z.of_nat k * n ->
  chunks n l = (fun i => take (Z.to_nat n) (drop (i * Z.to_nat n) l)) <$> seq 0 k.
Proof.
  intros Hn Hl. apply list_eq; intros i.
  assert (Hc : len (chunks n l) = Z.of_nat k).
  { rewrite chunks_count by done. apply div_ceil_unique; nia. }
  rewrite list_lookup_fmap.
  destruct (decide (i < k)%nat) as [Hi|Hi].
  - rewrite lookup_seq_lt by lia. cbn.
    destruct (chunks n l !! i) as [c|] eqn:E.
    + f_equal. by apply chunks_lookup.
    + apply lookup_ge_None in E. unfold len in Hc. lia.
  - rewrite (proj2 (lookup_ge_None _ _)) by (unfold len in Hc; lia).
    by rewrite (proj2 (lookup_ge_None (seq 0 k) i)) by (rewrite length_seq; lia).
Qed.

Lemma length_block {A} n k (l : list A) i :
  0 < n -> len l = Z.of_nat k * n -> (i < k)%nat ->
  len (take (Z.to_nat n) (drop (i * Z.to_nat n) l)) = n.
Proof. intros Hn Hl Hi. unfold len in *. rewrite length_take, length_drop. nia. Qed.

Lemma take_app_exact {A} n (l k : list A) : n = length l -> take n (l ++ k) = l.
Proof. intros ->. by rewrite take_app_length. Qed.
Lemma drop_app_exact {A} n (l k : list A) : n = length l -> drop n (l ++ k) = k.
Proof. intros ->. by rewrite drop_app_length. Qed.
Lemma drop_replicate_z n k : drop n (zeros k) = zeros (k - Z.of_nat n).
Proof. unfold zeros. rewrite drop_replicate. f_equal. lia. Qed.
Lemma take_replicate_z n k : (n <= Z.to_nat k)%nat -> take n (zeros k) = zeros (Z.of_nat n).
Proof. intros. unfold zeros. rewrite take_replicate. f_equal. lia. Qed.
Lemma zeros_app a b : 0 <= a -> 0 <= b -> zeros a ++ zeros b = zeros (a + b).
Proof. intros. unfold zeros. rewrite <- replicate_add. f_equal. lia. Qed.

Lemma filter_all {A} (P : A -> Prop) `{!forall x, Decision (P x)} (l : list A) :
  Forall P l -> filter P l = l.
Proof. induction 1 as [|x l Hx Hl IH]; [done|]. rewrite filter_cons_True by done. by rewrite IH. Qed.

Lemma Forall_filter {A} (P Q : A -> Prop) `{!forall x, Decision (Q x)} (l : list A) :
  Forall P l -> Forall P (filter Q l).
Proof. rewrite !Forall_forall. intros Hall x [_ Hx]%list_elem_of_filter. auto. Qed.

Lemma block_app_l {A} m n (l k : list A) :
  (m + n <= length l)%nat -> take n (drop m (l ++ k)) = take n (drop m l).
Proof. intros H. rewrite drop_app_le by lia. rewrite take_app_le; [done|]. rewrite length_drop; lia. Qed.

Lemma slice_ok {E A} a b (v : list A) :
  0 <= a <= b -> b <= len v ->
  slice (E:=E) a b v = Ok (take (Z.to_nat (b - a)) (drop (Z.to_nat a) v)).
Proof.
  intros Ha Hb. unfold slice.
  by replace (_ && _) with true by (symmetry; rewrite !andb_true_iff, !Z.leb_le; lia).
Qed.
