(* ===== verification/External.v ===== *)
(** * The code outside the repository

    Classes for the crates the sources call (AEAD, HKDF, BLAKE3, zstd, Argon2id, Ed25519),
    the laws their documentation states, and small concrete instances ([Toy]) which show
    that the laws are consistent and on which the witnesses run. The Reed-Solomon codec has
    its own class in [Erasure.v] and its instance in [RSCode.v]. *)

From Stdlib Require Import ZArith Lia Strings.Byte.
From stdpp Require Import base numbers list gmap strings.
From S2P Require Import Prelude.

(** The primitives: [aead_seal key nonce aad plaintext] is ciphertext and tag,
    [hkdf salt ikm info] a 32-byte output. *)
Class CryptoPrims := {
  aead_seal : bytes -> bytes -> bytes -> bytes -> option bytes;
  aead_open : bytes -> bytes -> bytes -> bytes -> option bytes;
  hkdf : bytes -> bytes -> bytes -> option bytes;
  blake3 : bytes -> bytes
}.

Definition KEY_LEN : Z := 32.
Definition TAG_LEN : Z := 16.
Definition NONCE_LEN : Z := 12.
(** The plaintext limit of GCM, in bytes. *)
Definition GCM_LIMIT : Z := 2 ^ 36 - 32.

Class CryptoLaws `{CryptoPrims} : Prop := {
  aead_seal_total k n a p :
    len k = KEY_LEN -> len n = NONCE_LEN -> len p <= GCM_LIMIT ->
    exists c, aead_seal k n a p = Some c;
  aead_seal_len k n a p c : aead_seal k n a p = Some c -> len c = len p + TAG_LEN;
  aead_open_seal k n a p c : aead_seal k n a p = Some c -> aead_open k n a c = Some p;
  (** A buffer opens only when it is what sealing the answer gives. *)
  aead_open_authentic k n a c p : aead_open k n a c = Some p -> aead_seal k n a p = Some c;
  hkdf_total salt ikm info : exists okm, hkdf salt ikm info = Some okm /\ len okm = KEY_LEN;
  blake3_len b : len (blake3 b) = 32
}.

(** [zstd::encode_all(data, level)] and [zstd::decode_all]. *)
Class Zstd := {
  zstd_encode : bytes -> Z -> option bytes;
  zstd_decode : bytes -> res string bytes
}.
Class ZstdLaws `{Zstd} : Prop := {
  zstd_roundtrip data level c : zstd_encode data level = Some c -> zstd_decode c = Ok data
}.

(** [Argon2::default().hash_password_into(password, salt, &mut [0u8; 32])]. *)
Class Argon2 := argon2id : bytes -> bytes -> option bytes.
Class Argon2Laws `{Argon2} : Prop := {
  (** A salt of eight bytes or more and a password below 4 GiB are accepted. *)
  argon2_total password salt :
    8 <= len salt -> len password < 2 ^ 32 -> exists k, argon2id password salt = Some k;
  argon2_len password salt k : argon2id password salt = Some k -> len k = KEY_LEN
}.

Module Toy.
(** A checksum: enough structure for the laws, not for security. *)
Definition mix (m : Z) (b : bytes) : Z := foldl (fun acc c => (acc * 257 + b2z c + 1) mod m) 1 b.
Definition tag (k n a p : bytes) : bytes :=
  be_bytes 4 (mix (2 ^ 32) (lps (be_bytes 8) [k; n; a; p])) ++ zeros 12.
Definition seal (k n a p : bytes) : option bytes := Some (p ++ tag k n a p).
Definition open (k n a c : bytes) : option bytes :=
  let p := take (length c - 16) c in
  if decide (c = p ++ tag k n a p) then Some p else None.
Definition kdf (salt ikm info : bytes) : option bytes :=
  Some (be_bytes 4 (mix (2 ^ 32) (lps (be_bytes 8) [salt; ikm; info])) ++ zeros 28).
(** The first byte is kept, so that ids of inputs that differ there never clash. *)
Definition hash (b : bytes) : bytes := default x00 (head b) :: be_bytes 4 (mix (2 ^ 32) b) ++ zeros 27.

#[export] Instance crypto : CryptoPrims :=
  {| aead_seal := seal; aead_open := open; hkdf := kdf; blake3 := hash |}.

Lemma length_tag k n a p : length (tag k n a p) = 16%nat.
Proof. unfold tag. by rewrite length_app, length_be_bytes. Qed.

#[export] Instance crypto_laws : CryptoLaws.
Proof.
  split.
  - intros. by eexists.
  - intros k n a p c [= <-]. rewrite len_app. unfold len at 2. by rewrite length_tag.
  - intros k n a p c [= <-]. change (open k n a (p ++ tag k n a p) = Some p). unfold open.
    rewrite length_app, length_tag, take_app_exact by lia. by rewrite decide_True.
  - intros k n a c p. change (open k n a c = Some p -> seal k n a p = Some c). unfold open, seal. case_decide as E; [|discriminate]. by intros [= <-]; rewrite <- E.
  - intros salt ikm info. exists (be_bytes 4 (mix (2 ^ 32) (lps (be_bytes 8) [salt; ikm; info])) ++ zeros 28).
    split; [done|]. unfold len. by rewrite length_app, length_be_bytes.
  - intros b. change (len (hash b) = 32). unfold hash, len. cbn [length]. by rewrite length_app, length_be_bytes.
Qed.

#[export] Instance argon2 : Argon2 := fun password salt => kdf salt password [].
#[export] Instance argon2_laws : Argon2Laws.
Proof.
  split; [by eexists|]. intros password salt k [= <-]. by vm_compute.
Qed.

(** A run of zeros is encoded by its length, anything else is stored. *)
Definition all_zero (b : bytes) : bool := forallb (fun c => b2z c =? 0) b.
Definition zenc (b : bytes) (level : Z) : option bytes :=
  Some (if all_zero b && (len b <? 2 ^ 64) then x01 :: be_bytes 8 (len b) else x00 :: b).
Definition zdec (c : bytes) : res string bytes :=
  match c with
  | x00 :: b => Ok b
  | x01 :: n => Ok (zeros (of_be n))
  | _ => Err "corrupt frame"%string
  end.
#[export] Instance zstd : Zstd := {| zstd_encode := zenc; zstd_decode := zdec |}.

Lemma all_zero_spec b : all_zero b = true -> zeros (len b) = b.
Proof.
  unfold all_zero, zeros, len. rewrite Nat2Z.id. induction b as [|c b IH]; cbn; [done|].
  rewrite andb_true_iff, Z.eqb_eq. intros [Hc Hb]. f_equal; [|by apply IH].
  by apply b2z_inj.
Qed.

#[export] Instance zstd_laws : ZstdLaws.
Proof.
  split. intros b level c H. change (zenc b level = Some c) in H. unfold zenc in H.
  assert (c = if all_zero b && (len b <? 2 ^ 64) then x01 :: be_bytes 8 (len b) else x00 :: b) as -> by congruence.
  clear H. change (zstd_decode) with zdec.
  destruct (all_zero b && (len b <? 2 ^ 64)) eqn:E; [|done].
  apply andb_true_iff in E as [Ez Hl%Z.ltb_lt]. unfold zdec.
  rewrite of_be_small by (split; [apply len_nonneg|done]). by rewrite all_zero_spec.
Qed.
End Toy.
