(* ===== verification/Erasure.v ===== *)
(** * Erasure coding ([crates/core/src/erasure.rs])

    Striping of a sealed chunk into ten data shards, the two encoders (the zero-copy one
    of the upload path and the materialising one), and the reconstruction from any ten
    of the fourteen shards. [reed_solomon_simd] is a parameter, described by the class
    [ReedSolomon] and its documented laws [ReedSolomonLaws]. *)

From Stdlib Require Import ZArith Lia.
From stdpp Require Import base numbers list gmap strings.
From S2P Require Import Prelude.

(** [CoreError] of [crates/core/src/error.rs]. *)
Inductive CoreError :=
| Crypto (msg : string)
| Compression (msg : string)
| Erasure (msg : string)
| Io (msg : string).

Definition DATA_SHARDS : nat := 10.
Definition PARITY_SHARDS : nat := 4.
Definition TOTAL_SHARDS : nat := DATA_SHARDS + PARITY_SHARDS.
Definition STORAGE_BLOCK_SIZE : Z := 4096.

(** The codec crate: [encode(k, m, originals)] returns the [m] recovery shards,
    [decode(k, m, originals, recovery)] the restored originals by index. *)
Class ReedSolomon := {
  rs_encode : nat -> nat -> list bytes -> res string (list bytes);
  rs_decode : nat -> nat -> list (nat * bytes) -> list (nat * bytes) -> res string (gmap nat bytes)
}.

(** What its documentation promises for the [10 + 4] code. *)
Class ReedSolomonLaws `{ReedSolomon} : Prop := {
  rs_encode_ok os sl :
    length os = DATA_SHARDS -> Forall (fun o => len o = sl) os -> 0 < sl -> sl mod 64 = 0 ->
    exists rs, rs_encode DATA_SHARDS PARITY_SHARDS os = Ok rs /\
      length rs = PARITY_SHARDS /\ Forall (fun r => len r = sl) rs;
  rs_decode_ok os rs orig rec :
    length os = DATA_SHARDS ->
    rs_encode DATA_SHARDS PARITY_SHARDS os = Ok rs ->
    NoDup orig.*1 -> NoDup rec.*1 ->
    Forall (fun '(i, v) => os !! i = Some v) orig ->
    Forall (fun '(i, v) => rs !! i = Some v) rec ->
    (DATA_SHARDS <= length orig + length rec)%nat ->
    exists m, rs_decode DATA_SHARDS PARITY_SHARDS orig rec = Ok m /\
      forall i, (i < DATA_SHARDS)%nat -> i ∉ orig.*1 -> m !! i = os !! i;
  rs_decode_short orig rec :
    (length orig + length rec < DATA_SHARDS)%nat ->
    exists e, rs_decode DATA_SHARDS PARITY_SHARDS orig rec = Err e;
  (** Equally long shards decode to shards of that length, or to an error. *)
  rs_decode_len orig rec sl :
    Forall (fun p => len p.2 = sl) orig -> Forall (fun p => len p.2 = sl) rec ->
    match rs_decode DATA_SHARDS PARITY_SHARDS orig rec with
    | Ok m => forall i v, m !! i = Some v -> len v = sl
    | Err _ => True
    | Panic => False
    end
}.

(** [reed-solomon-simd] wants a non-zero multiple of 64 bytes per shard. *)
Definition shard_len (cipher_len : Z) : Z :=
  let per := Z.max (div_ceil cipher_len (Z.of_nat DATA_SHARDS)) 64 in
  div_ceil per 64 * 64.

Definition shard_disk_cost (shard_len : Z) : Z :=
  div_ceil shard_len STORAGE_BLOCK_SIZE * STORAGE_BLOCK_SIZE.

(** [dst[a..b].copy_from_slice(src)]: panics on a bad range or a length mismatch. *)
Definition copy_at {E} (dst : bytes) (a b : Z) (src : bytes) : res E bytes :=
  if (0 <=? a) && (a <=? b) && (b <=? len dst) && (b - a =? len src)
  then Ok (take (Z.to_nat a) dst ++ src ++ drop (Z.to_nat b) dst)
  else Panic.

(** [chunks_exact]: the trailing partial chunk is dropped. *)
Definition chunks_exact (n : Z) (l : bytes) : list bytes :=
  filter (fun c => len c = n) (chunks n l).

Definition data_shards (cipher : bytes) : res CoreError (list bytes * Z) :=
  let sl := shard_len (len cipher) in
  let padded := zeros (sl * Z.of_nat DATA_SHARDS) in
  padded ← copy_at padded 0 (len cipher) cipher;
  let shards := chunks_exact sl padded in
  Ok (shards, sl).

Definition data_shard {E} (cipher : bytes) (sl : Z) (i : nat) : res E (option bytes) :=
  let start := Z.of_nat i * sl in
  if len cipher <=? start then Ok None
  else Some <$> slice start (Z.min ((Z.of_nat i + 1) * sl) (len cipher)) cipher.

(** The [i]-th original handed to the codec by [encode_recovery]. *)
Definition original_shard (cipher : bytes) (sl full rem : Z) (zero partial : bytes) (i : nat)
  : res CoreError bytes :=
  let i := Z.of_nat i in
  if i <? full then slice (i * sl) ((i + 1) * sl) cipher
  else if (i =? full) && (0 <? rem) then Ok partial
  else Ok zero.

(** [pad_shard] of [service.rs]: a short last slice is padded to the shard length. *)
Definition pad_shard {E} (slice : bytes) (shard_len : Z) : res E bytes :=
  if len slice =? shard_len then Ok slice
  else copy_at (zeros shard_len) 0 (len slice) slice.

(** [iter().enumerate()] and [filter_map] keeping the shards that are present. *)
Definition present_shards (l : list (option bytes)) : list (nat * bytes) :=
  omap (fun '(i, s) => pair i <$> s) (imap pair l).

Section Codec.
Context `{ReedSolomon}.

Definition encode_recovery (cipher : bytes) : res CoreError (Z * list bytes) :=
  let sl := shard_len (len cipher) in
  let full := len cipher / sl in
  let rem := len cipher - full * sl in
  let zero := zeros sl in
  let partial := zeros sl in
  partial ← (if 0 <? rem then
               src ← slice (full * sl) (len cipher) cipher;
               copy_at partial 0 rem src
             else Ok partial);
  originals ← mapR (original_shard cipher sl full rem zero partial) (seq 0 DATA_SHARDS);
  recovery ← map_err Erasure (rs_encode DATA_SHARDS PARITY_SHARDS originals);
  Ok (sl, recovery).

Definition encode (cipher : bytes) : res CoreError (list bytes) :=
  p ← data_shards cipher;
  let '(shards, _) := p : list bytes * Z in
  recovery ← map_err Erasure (rs_encode DATA_SHARDS PARITY_SHARDS shards);
  Ok (shards ++ recovery).

(** One step of the reassembly loop: data shard [i], present or restored. *)
Definition reassemble_step (present : list (option bytes)) (restored : gmap nat bytes) (sl : Z)
    (out : bytes) (i : nat) : res CoreError bytes :=
  slot ← index present i;
  shard ← ok_or (match slot with Some s => Some s | None => restored !! i end)
                (Erasure "missing data shard after decode");
  copy_at out (Z.of_nat i * sl) ((Z.of_nat i + 1) * sl) shard.

Definition reconstruct (present : list (option bytes)) (cipher_len : Z) : res CoreError bytes :=
  if forallb (fun s => match s with Some _ => true | None => false end) (take DATA_SHARDS present)
  then Ok (truncate cipher_len (mjoin (omap id (take DATA_SHARDS present))))
  else
    let original := present_shards (take DATA_SHARDS present) in
    let recovery := present_shards (drop DATA_SHARDS present) in
    restored ← map_err Erasure (rs_decode DATA_SHARDS PARITY_SHARDS original recovery);
    sl ← ok_or (len <$> head (omap id present)) (Erasure "no shards");
    out ← foldM (reassemble_step present restored sl) (zeros (sl * Z.of_nat DATA_SHARDS))
                (seq 0 DATA_SHARDS);
    Ok (truncate cipher_len out).

(** The fourteen shards the upload path stores: padded slices of the sealed buffer, then
    the recovery shards. *)
Definition upload_shards (cipher : bytes) : res CoreError (list bytes) :=
  p ← encode_recovery cipher;
  let '(sl, recovery) := p : Z * list bytes in
  data ← mapR (fun i => s ← data_shard cipher sl i; pad_shard (default [] s) sl) (seq 0 DATA_SHARDS);
  Ok (data ++ recovery).
End Codec.

(** ** Geometry *)

Lemma shard_len_spec n :
  0 <= n ->
  0 < shard_len n /\ shard_len n mod 64 = 0 /\ n <= shard_len n * Z.of_nat DATA_SHARDS /\
  shard_len n <= Z.max (n / 10) 63 + 64.
Proof.
  intros Hn. unfold shard_len, DATA_SHARDS.
  pose proof (div_ceil_spec n 10 ltac:(lia)) as H1.
  set (d := div_ceil n (Z.of_nat 10)) in *. change (div_ceil n 10) with d in H1. clearbody d.
  pose proof (div_ceil_spec (Z.max d 64) 64 ltac:(lia)) as H2.
  set (e := div_ceil (Z.max d 64) 64) in *. clearbody e.
  rewrite Z.mod_mul by lia. pose proof (Z.div_mod n 10). pose proof (Z.mod_pos_bound n 10).
  repeat split; try lia.
Qed.

Lemma shard_disk_cost_spec n :
  0 <= n ->
  n <= shard_disk_cost n < n + STORAGE_BLOCK_SIZE /\ shard_disk_cost n mod STORAGE_BLOCK_SIZE = 0.
Proof.
  intros Hn. unfold shard_disk_cost.
  pose proof (div_ceil_spec n STORAGE_BLOCK_SIZE ltac:(done)).
  rewrite Z.mod_mul by done. unfold STORAGE_BLOCK_SIZE in *. lia.
Qed.

(** The sealed buffer padded with zeros to ten whole shards: what the shards spell. *)
Definition padded (cipher : bytes) : bytes :=
  cipher ++ zeros (shard_len (len cipher) * Z.of_nat DATA_SHARDS - len cipher).

Lemma len_padded c : len (padded c) = Z.of_nat DATA_SHARDS * shard_len (len c).
Proof.
  unfold padded. pose proof (shard_len_spec (len c) (len_nonneg c)).
  rewrite len_app, len_zeros by lia. lia.
Qed.

Lemma copy_at_prefix {E} n (src : bytes) :
  len src <= n -> copy_at (E:=E) (zeros n) 0 (len src) src = Ok (src ++ zeros (n - len src)).
Proof.
  intros H. unfold copy_at. pose proof (len_nonneg src). rewrite len_zeros by lia.
  replace (_ && _) with true by (symmetry; rewrite !andb_true_iff, !Z.leb_le, Z.eqb_eq; lia).
  rewrite drop_replicate_z, Z2Nat.id by done. done.
Qed.

Lemma data_shards_ok c :
  data_shards c = Ok (chunks (shard_len (len c)) (padded c), shard_len (len c)).
Proof.
  unfold data_shards. pose proof (shard_len_spec (len c) (len_nonneg c)) as (Hp & _ & Hl & _).
  rewrite copy_at_prefix by done. cbn. unfold chunks_exact. do 2 f_equal.
  apply filter_all. rewrite (chunks_blocks _ DATA_SHARDS); [|done|apply len_padded].
  apply Forall_fmap, Forall_forall. intros i Hi%elem_of_seq; cbn.
  apply (length_block _ DATA_SHARDS); [done|apply len_padded|lia].
Qed.

(** The ten data shards as blocks of the padded buffer. *)
Definition block (c : bytes) (i : nat) : bytes :=
  let n := Z.to_nat (shard_len (len c)) in take n (drop (i * n) (padded c)).

Lemma data_blocks c : chunks (shard_len (len c)) (padded c) = block c <$> seq 0 DATA_SHARDS.
Proof.
  apply chunks_blocks; [apply shard_len_spec, len_nonneg|apply len_padded].
Qed.

Lemma len_block c i : (i < DATA_SHARDS)%nat -> len (block c i) = shard_len (len c).
Proof.
  intros. apply (length_block _ DATA_SHARDS); [|apply len_padded|done].
  apply shard_len_spec, len_nonneg.
Qed.

(** ** The zero-copy encoder feeds the codec the same blocks as the materialising one *)

Lemma original_shard_ok c (i : nat) :
  let sl := shard_len (len c) in
  let full := len c / sl in
  let rem := len c - full * sl in
  (i < DATA_SHARDS)%nat ->
  original_shard c sl full rem (zeros sl)
    (drop (Z.to_nat (full * sl)) c ++ zeros (sl - rem)) i = Ok (block c i).
Proof.
  intros sl full rem Hi.
  destruct (shard_len_spec (len c) (len_nonneg c)) as (Hp & _ & Hl & _). fold sl in Hp, Hl.
  pose proof (Z.div_mod (len c) sl ltac:(lia)) as Hdm.
  pose proof (Z.mod_pos_bound (len c) sl Hp) as Hm. fold full in Hdm.
  assert (Hrem : rem = len c mod sl) by (unfold rem; lia).
  assert (0 <= full) by (apply Z.div_pos; [apply len_nonneg|done]).
  unfold original_shard, block, padded. fold sl.
  destruct (Z.ltb_spec (Z.of_nat i) full) as [Hf|Hf].
  - assert ((Z.of_nat i + 1) * sl <= len c) by nia.
    rewrite slice_ok by nia. f_equal.
    rewrite block_app_l by (unfold len in *; nia). f_equal; [lia|f_equal; lia].
  - destruct (Z.eqb_spec (Z.of_nat i) full) as [He|He]; cbn [andb].
    + destruct (Z.ltb_spec 0 rem) as [Hr|Hr]; f_equal.
      * rewrite drop_app_le by (unfold len in *; nia).
        replace (i * Z.to_nat sl)%nat with (Z.to_nat (full * sl)) by nia.
        rewrite take_app_ge by (rewrite length_drop; unfold len in *; nia).
        f_equal. rewrite take_replicate_z by (rewrite length_drop; unfold len in *; nia).
        f_equal. rewrite length_drop. unfold len in *. nia.
      * rewrite drop_app_ge by (unfold len in *; nia).
        rewrite drop_replicate_z, take_replicate_z by (unfold len in *; unfold DATA_SHARDS in *; nia).
        f_equal; lia.
    + f_equal. rewrite drop_app_ge by (unfold len in *; nia).
      rewrite drop_replicate_z, take_replicate_z by (unfold len in *; unfold DATA_SHARDS in *; nia).
      f_equal; lia.
Qed.

(** ** The shards that are present *)

Lemma present_shards_off n (l : list (option bytes)) :
  let r := omap (fun '(i, s) => pair i <$> s) (imap (fun i s => ((n + i)%nat, s)) l) in
  NoDup r.*1 /\ length r = length (omap id l) /\
  forall i v, (i, v) ∈ r <-> (n <= i)%nat /\ l !! (i - n)%nat = Some (Some v).
Proof.
  revert n; induction l as [|o l IH]; intros n; cbn.
  { split; [apply NoDup_nil_2|]. split; [done|]. intros i v. rewrite lookup_nil.
    split; [by intros ?%elem_of_nil|by intros [??]]. }
  assert (E : imap ((fun i s => ((n + i)%nat, s)) ∘ S) l = imap (fun i (s : option bytes) => ((S n + i)%nat, s)) l)
    by (apply imap_ext; intros; cbn; f_equal; lia).
  rewrite E. specialize (IH (S n)) as (IH1 & IH2 & IH3).
  assert (Hin : forall i v, (i, v) ∈ omap (fun '(i, s) => pair i <$> s) (imap (fun i (s : option bytes) => ((S n + i)%nat, s)) l)
     <-> (n < i)%nat /\ (o :: l) !! (i - n)%nat = Some (Some v)).
  { intros i v. rewrite IH3. split; intros [Hi Hl]; split; try lia.
    - by replace (i - n)%nat with (S (i - S n))%nat by lia.
    - by replace (i - n)%nat with (S (i - S n))%nat in Hl by lia. }
  destruct o as [x|]; cbn.
  - rewrite Nat.add_0_r. split; [|split; [exact (f_equal S IH2)|]].
    + cbn. constructor; [|done]. intros ([i v] & Hi & [? _]%Hin)%list_elem_of_fmap. cbn in Hi. lia.
    + intros i v. rewrite elem_of_cons, Hin. split.
      * intros [[= -> ->]|[? ?]]; [by rewrite Nat.sub_diag|]. split; [lia|done].
      * intros [Hi Hl]. destruct (decide (i = n)) as [->|Hne]; [left|right; split; [lia|done]].
        rewrite Nat.sub_diag in Hl. by injection Hl as ->.
  - split; [done|split; [done|]]. intros i v. rewrite Hin. split; intros [Hi Hl]; (split; [|done]); [lia|].
    destruct (decide (i = n)) as [->|]; [|lia]. by rewrite Nat.sub_diag in Hl.
Qed.

Lemma present_shards_spec l :
  NoDup (present_shards l).*1 /\ length (present_shards l) = length (omap id l) /\
  forall i v, (i, v) ∈ present_shards l <-> l !! i = Some (Some v).
Proof.
  destruct (present_shards_off 0 l) as (H1 & H2 & H3). split; [done|split; [done|]].
  intros i v. rewrite (H3 i v), Nat.sub_0_r. split; [by intros [_ ?]|]. split; [lia|done].
Qed.

(** [survives present shards]: every slot holds its own shard or nothing. *)
Definition survives (present : list (option bytes)) (shards : list bytes) : Prop :=
  Forall2 (fun p s => p = None \/ p = Some s) present shards.

Lemma survives_lookup present shards i v :
  survives present shards -> present !! i = Some (Some v) -> shards !! i = Some v.
Proof.
  intros H Hp. destruct (Forall2_lookup_l _ _ _ _ _ H Hp) as (s & Hs & [?|[= ->]]); [done|]. done.
Qed.

Lemma survives_full present shards :
  survives present shards ->
  forallb (fun s => match s with Some _ => true | None => false end) present = true ->
  omap id present = shards.
Proof.
  induction 1 as [|p s ps ss [->| ->] Hps IH]; intros Hf; cbn in *; [done|discriminate|].
  by rewrite IH.
Qed.

Section Theorems.
Context `{ReedSolomon}.

Lemma encode_recovery_blocks c :
  encode_recovery c =
    (rec ← map_err Erasure (rs_encode DATA_SHARDS PARITY_SHARDS (block c <$> seq 0 DATA_SHARDS));
     Ok (shard_len (len c), rec)).
Proof.
  unfold encode_recovery. set (sl := shard_len (len c)).
  destruct (shard_len_spec (len c) (len_nonneg c)) as (Hp & _ & Hl & _). fold sl in Hp, Hl.
  pose proof (Z.div_mod (len c) sl ltac:(lia)) as Hdm.
  pose proof (Z.mod_pos_bound (len c) sl Hp) as Hm.
  set (full := len c / sl) in *. set (rem := len c - full * sl).
  assert (0 <= full) by (apply Z.div_pos; [apply len_nonneg|done]).
  assert (Hpart : (if 0 <? rem then src ← slice (full * sl) (len c) c; copy_at (zeros sl) 0 rem src
                   else Ok (E:=CoreError) (zeros sl)) =
                  Ok (drop (Z.to_nat (full * sl)) c ++ zeros (sl - rem))).
  { assert (Hd : len (drop (Z.to_nat (full * sl)) c) = rem)
      by (unfold rem, len in *; rewrite length_drop; lia).
    destruct (Z.ltb_spec 0 rem) as [Hr|Hr].
    - rewrite slice_ok by nia. cbn.
      rewrite take_ge by (rewrite length_drop; unfold rem, len in *; lia).
      rewrite <- Hd at 1. rewrite copy_at_prefix by (unfold rem in *; lia). by rewrite Hd.
    - assert (rem = 0) by (unfold rem in *; lia).
      destruct (drop _ c) as [|x l] eqn:E; [|rewrite len_cons in Hd; pose proof (len_nonneg l); lia].
      cbn. do 2 f_equal. lia. }
  rewrite Hpart. cbn [mbind res_bind].
  rewrite (mapR_all_ok _ (block c)); [done|].
  intros i Hi%elem_of_seq. apply original_shard_ok. lia.
Qed.

Lemma encode_blocks c :
  encode c =
    (rec ← map_err Erasure (rs_encode DATA_SHARDS PARITY_SHARDS (block c <$> seq 0 DATA_SHARDS));
     Ok ((block c <$> seq 0 DATA_SHARDS) ++ rec)).
Proof. unfold encode. rewrite data_shards_ok. cbn [mbind res_bind]. by rewrite data_blocks. Qed.

(** The reassembly loop writes the blocks back in place. *)
Lemma reassemble_loop present restored sl c :
  sl = shard_len (len c) ->
  (DATA_SHARDS <= length present)%nat ->
  (forall i, (i < DATA_SHARDS)%nat ->
     match present !! i with
     | Some (Some s) => s = block c i
     | _ => restored !! i = Some (block c i)
     end) ->
  foldM (reassemble_step present restored sl) (zeros (sl * Z.of_nat DATA_SHARDS)) (seq 0 DATA_SHARDS)
    = Ok (padded c).
Proof.
  intros -> Hlen Hslot. set (sl := shard_len (len c)).
  pose proof (shard_len_spec (len c) (len_nonneg c)) as (Hp & _). fold sl in Hp.
  pose proof (len_padded c) as Hpad. fold sl in Hpad.
  assert (Hgen : forall n k, (k + n = DATA_SHARDS)%nat ->
    foldM (reassemble_step present restored sl)
      (take (k * Z.to_nat sl) (padded c) ++ zeros (Z.of_nat n * sl)) (seq k n) = Ok (padded c)).
  { induction n as [|n IH]; intros k Hk; cbn [seq foldM].
    - rewrite take_ge by (unfold len in Hpad; nia). cbn. by rewrite app_nil_r.
    - assert (Hstep : reassemble_step present restored sl
          (take (k * Z.to_nat sl) (padded c) ++ zeros (Z.of_nat (S n) * sl)) k =
          Ok (take (S k * Z.to_nat sl) (padded c) ++ zeros (Z.of_nat n * sl))).
      { unfold reassemble_step, index. specialize (Hslot k ltac:(lia)).
        destruct (present !! k) as [o|] eqn:Eo; [|apply lookup_ge_None in Eo; lia].
        cbn [mbind res_bind].
        assert (Hb : ok_or match o with Some s => Some s | None => restored !! k end
                  (Erasure "missing data shard after decode") = Ok (block c k))
          by (destruct o; [by subst|by rewrite Hslot]).
        rewrite Hb. cbn [mbind res_bind].
        pose proof (len_block c k ltac:(lia)) as Hlb. fold sl in Hlb.
        assert (Hl1 : length (take (k * Z.to_nat sl) (padded c)) = (k * Z.to_nat sl)%nat)
          by (rewrite length_take; unfold len in Hpad; nia).
        unfold copy_at. rewrite len_app, len_zeros by nia. unfold len at 1 2. rewrite Hl1.
        replace (_ && _) with true
          by (symmetry; rewrite !andb_true_iff, !Z.leb_le, Z.eqb_eq; unfold len in *; nia).
        f_equal. rewrite take_app_exact by nia. rewrite app_assoc. f_equal.
        - unfold block. fold sl. rewrite take_take_drop. f_equal. lia.
        - rewrite drop_app_ge by nia. rewrite drop_replicate_z. f_equal. nia. }
      rewrite Hstep. cbn [mbind res_bind]. apply IH. lia. }
  specialize (Hgen DATA_SHARDS 0%nat ltac:(lia)). cbn [take app Nat.mul] in Hgen.
  rewrite Z.mul_comm in Hgen. done.
Qed.

Lemma truncate_padded c : truncate (len c) (padded c) = c.
Proof. unfold truncate, padded. apply take_app_exact. unfold len; lia. Qed.

Lemma join_blocks c : mjoin (block c <$> seq 0 DATA_SHARDS) = padded c.
Proof. rewrite <- data_blocks. apply chunks_concat, shard_len_spec, len_nonneg. Qed.

(** A stored data shard is the padded slice of the sealed buffer. *)
Lemma data_shard_block {E} c i :
  (i < DATA_SHARDS)%nat ->
  (s ← data_shard c (shard_len (len c)) i; pad_shard (default [] s) (shard_len (len c)))
    = Ok (E:=E) (block c i).
Proof.
  intros Hi. destruct (shard_len_spec (len c) (len_nonneg c)) as (Hp & _ & Hl & _).
  unfold data_shard, block, padded. set (sl := shard_len (len c)) in *.
  destruct (Z.leb_spec (len c) (Z.of_nat i * sl)) as [Hs|Hs].
  - cbn. unfold pad_shard. rewrite len_nil.
    rewrite drop_app_ge, drop_replicate_z, take_replicate_z by (unfold len, DATA_SHARDS in *; nia).
    destruct (Z.eqb_spec 0 sl) as [|_]; [lia|].
    pose proof (copy_at_prefix (E:=E) sl [] ltac:(rewrite len_nil; lia)) as Hc.
    change (len (@nil u8)) with 0 in Hc. rewrite Hc. cbn. do 2 f_equal. lia.
  - rewrite slice_ok by nia. cbn. unfold pad_shard.
    assert (Hd : drop (i * Z.to_nat sl) c = drop (Z.to_nat (Z.of_nat i * sl)) c) by (f_equal; lia).
    destruct (decide ((Z.of_nat i + 1) * sl <= len c)) as [Hf|Hf].
    + rewrite Z.min_l by done. rewrite block_app_l by (unfold len in *; nia). rewrite Hd.
      replace ((Z.of_nat i + 1) * sl - Z.of_nat i * sl) with sl by lia.
      destruct (Z.eqb_spec (len (take (Z.to_nat sl) (drop (Z.to_nat (Z.of_nat i * sl)) c))) sl) as [_|Hne]; [done|].
      exfalso. apply Hne. unfold len in *. rewrite length_take, length_drop. nia.
    + rewrite Z.min_r by lia. rewrite take_ge by (unfold len in *; rewrite length_drop; nia).
      assert (Hlen : len (drop (Z.to_nat (Z.of_nat i * sl)) c) = len c - Z.of_nat i * sl)
        by (unfold len in *; rewrite length_drop; nia).
      destruct (Z.eqb_spec (len (drop (Z.to_nat (Z.of_nat i * sl)) c)) sl) as [?|_]; [lia|].
      rewrite copy_at_prefix by lia. f_equal. rewrite drop_app_le by (unfold len in *; nia).
      rewrite take_app_ge by (rewrite Hd; unfold len in *; nia). rewrite Hd. f_equal.
      rewrite take_replicate_z by (unfold len, DATA_SHARDS in *; nia). f_equal. unfold len in *. nia.
Qed.

(** The upload path, which slices the sealed buffer in place and encodes only the
    parity, stores exactly the fourteen shards of the materialising encoder, for every
    sealed buffer and whatever the codec answers, errors included. *)
Theorem upload_shards_encode c : upload_shards c = encode c.
Proof.
  unfold upload_shards. rewrite encode_recovery_blocks, encode_blocks.
  destruct (map_err _ _) as [rec| |]; cbn [mbind res_bind]; [|done..].
  rewrite (mapR_all_ok _ (block c)); [done|].
  intros i Hi%elem_of_seq. apply data_shard_block. lia.
Qed.

Context `{!ReedSolomonLaws}.

Lemma encode_total c :
  exists rec, rs_encode DATA_SHARDS PARITY_SHARDS (block c <$> seq 0 DATA_SHARDS) = Ok rec /\
    length rec = PARITY_SHARDS /\ Forall (fun r => len r = shard_len (len c)) rec.
Proof.
  pose proof (shard_len_spec (len c) (len_nonneg c)) as (Hp & Hm & _).
  apply (rs_encode_ok _ (shard_len (len c))); [by rewrite length_fmap, length_seq| |done..].
  apply Forall_fmap, Forall_forall. intros i Hi%elem_of_seq. apply len_block. lia.
Qed.

Lemma encode_ok c :
  exists shards, encode c = Ok shards /\ length shards = TOTAL_SHARDS /\
    Forall (fun s => len s = shard_len (len c)) shards.
Proof.
  destruct (encode_total c) as (rec & Hr & Hl & Hf). rewrite encode_blocks, Hr.
  eexists; split; [reflexivity|]. split.
  - by rewrite length_app, length_fmap, length_seq, Hl.
  - apply Forall_app; split; [|done]. apply Forall_fmap, Forall_forall.
    intros i Hi%elem_of_seq. apply len_block. lia.
Qed.

(** Encoding never fails: it yields fourteen shards of one common length, a positive
    multiple of 64 bytes. *)
Theorem encode_uniform c :
  exists shards, encode c = Ok shards /\ length shards = TOTAL_SHARDS /\
    Forall (fun s => len s = shard_len (len c)) shards /\
    0 < shard_len (len c) /\ shard_len (len c) mod 64 = 0.
Proof.
  destruct (encode_ok c) as (shards & He & Hl & Hf). exists shards.
  split; [done|split; [done|split; [done|split; apply shard_len_spec, len_nonneg]]].
Qed.

Lemma present_len c rec present :
  Forall (fun r => len r = shard_len (len c)) rec ->
  survives present ((block c <$> seq 0 DATA_SHARDS) ++ rec) ->
  omap id present <> [] ->
  len <$> head (omap id present) = Some (shard_len (len c)).
Proof.
  intros Hrec Hs Hne. destruct (omap id present) as [|v l] eqn:E; [done|]. cbn. f_equal.
  assert (Hv : v ∈ omap id present) by (rewrite E; left).
  apply list_elem_of_omap in Hv as (o & Ho & Hov); cbn in Hov; subst o.
  apply list_elem_of_lookup in Ho as (i & Hi).
  pose proof (survives_lookup _ _ _ _ Hs Hi) as Hl.
  apply list_elem_of_lookup_2, elem_of_app in Hl as [Hl|Hl].
  - apply list_elem_of_fmap in Hl as (j & -> & Hj%elem_of_seq). apply len_block. lia.
  - by rewrite Forall_forall in Hrec; apply Hrec.
Qed.

(** The slots the loop reads after a decode hold the blocks of the padded buffer. *)
Lemma decoded_slots c rec present (restored : gmap nat bytes) :
  survives present ((block c <$> seq 0 DATA_SHARDS) ++ rec) ->
  (forall i, (i < DATA_SHARDS)%nat -> i ∉ (present_shards (take DATA_SHARDS present)).*1 ->
     restored !! i = (block c <$> seq 0 DATA_SHARDS) !! i) ->
  forall i, (i < DATA_SHARDS)%nat ->
    match present !! i with
    | Some (Some s) => s = block c i
    | _ => restored !! i = Some (block c i)
    end.
Proof.
  intros Hs Hr i Hi. assert (Hb : (block c <$> seq 0 DATA_SHARDS) !! i = Some (block c i))
    by (rewrite list_lookup_fmap, lookup_seq_lt by done; done).
  destruct (present_shards_spec (take DATA_SHARDS present)) as (_ & _ & Hspec).
  assert (Hnone : forall o, present !! i = o -> o <> Some (Some (block c i)) ->
            (forall v, o = Some (Some v) -> v = block c i) -> restored !! i = Some (block c i)).
  { intros o Ho Hne Hall. rewrite Hr, Hb; [done..|].
    intros ([j v] & Hj & Hin)%list_elem_of_fmap. cbn in Hj. subst j.
    apply Hspec in Hin. rewrite lookup_take_lt in Hin by done. rewrite Hin in Ho. subst o.
    apply Hne. by rewrite (Hall v). }
  destruct (present !! i) as [[v|]|] eqn:E.
  - pose proof (survives_lookup _ _ _ _ Hs E) as Hl.
    rewrite lookup_app_l, Hb in Hl by (by rewrite length_fmap, length_seq). by injection Hl.
  - by apply (Hnone (Some None)).
  - by apply (Hnone None).
Qed.

Lemma reconstruct_survivors c shards present :
  encode c = Ok shards -> survives present shards ->
  (DATA_SHARDS <= length (omap id present))%nat ->
  reconstruct present (len c) = Ok c.
Proof.
  intros He Hs Hten. destruct (encode_total c) as (rec & Hrec & Hrl & Hrf).
  rewrite encode_blocks, Hrec in He. cbn [map_err mbind res_bind] in He.
  assert (shards = (block c <$> seq 0 DATA_SHARDS) ++ rec) as -> by congruence. clear He.
  assert (Hlen : length present = TOTAL_SHARDS).
  { apply Forall2_length in Hs. by rewrite Hs, length_app, length_fmap, length_seq, Hrl. }
  unfold reconstruct. destruct (forallb _ _) eqn:Hfull.
  - f_equal. rewrite (survives_full _ (block c <$> seq 0 DATA_SHARDS)), join_blocks; [apply truncate_padded| |done].
    apply (Forall2_take _ _ _ DATA_SHARDS) in Hs. by rewrite take_app_exact in Hs by done.
  - destruct (present_shards_spec (take DATA_SHARDS present)) as (Hn1 & Hl1 & Hin1).
    destruct (present_shards_spec (drop DATA_SHARDS present)) as (Hn2 & Hl2 & Hin2).
    destruct (rs_decode_ok (block c <$> seq 0 DATA_SHARDS) rec _ _ ltac:(by rewrite length_fmap, length_seq)
                Hrec Hn1 Hn2) as (restored & Hdec & Hrest).
    + apply Forall_forall. intros [i v] Hi. apply Hin1 in Hi as Hi'. apply lookup_take_Some in Hi' as [Hi' Hlt].
      pose proof (survives_lookup _ _ _ _ Hs Hi') as Hv.
      by rewrite lookup_app_l in Hv by (by rewrite length_fmap, length_seq).
    + apply Forall_forall. intros [i v] Hi. apply Hin2 in Hi as Hi'. rewrite lookup_drop in Hi'.
      pose proof (survives_lookup _ _ _ _ Hs Hi') as Hv.
      rewrite lookup_app_r in Hv by (rewrite length_fmap, length_seq; lia).
      rewrite length_fmap, length_seq in Hv. by replace (DATA_SHARDS + i - DATA_SHARDS)%nat with i in Hv by lia.
    + rewrite Hl1, Hl2, <- length_app, <- omap_app, take_drop. done.
    + rewrite Hdec. cbn [map_err mbind res_bind].
      rewrite (present_len c rec) by (try done; intros Hnil; rewrite Hnil in Hten; cbn in Hten; unfold DATA_SHARDS in *; lia).
      cbn [ok_or mbind res_bind]. rewrite (reassemble_loop _ _ _ c eq_refl).
      * cbn. by rewrite truncate_padded.
      * rewrite Hlen. unfold TOTAL_SHARDS. lia.
      * by apply (decoded_slots c rec).
Qed.

(** C9. From any ten (or more) of the fourteen shards, in their slots, [reconstruct]
    returns exactly the sealed buffer. *)
Theorem reconstruct_any_ten c shards present :
  encode c = Ok shards -> survives present shards ->
  (DATA_SHARDS <= length (omap id present))%nat ->
  reconstruct present (len c) = Ok c.
Proof. apply reconstruct_survivors. Qed.

(** Equally long shards never make the reconstruction panic. *)
Lemma reassemble_step_total present (restored : gmap nat bytes) sl out k :
  (k < DATA_SHARDS)%nat -> (DATA_SHARDS <= length present)%nat -> 0 <= sl ->
  len out = sl * Z.of_nat DATA_SHARDS ->
  Forall (fun p => forall v, p = Some v -> len v = sl) present ->
  (forall i v, restored !! i = Some v -> len v = sl) ->
  match reassemble_step present restored sl out k with
  | Ok out' => len out' = sl * Z.of_nat DATA_SHARDS
  | Err _ => True
  | Panic => False
  end.
Proof.
  intros Hk Hp Hsl Hout Hpres Hrest. unfold reassemble_step, index.
  destruct (lookup_lt_is_Some_2 present k) as [o Ho]; [lia|]. rewrite Ho. cbn [mbind res_bind].
  pose proof (Forall_lookup_1 _ _ _ _ Hpres Ho) as Hlo. cbv beta in Hlo.
  destruct (match o with Some s => Some s | None => restored !! k end) as [v|] eqn:Ev; [|done].
  assert (Hv : len v = sl) by (destruct o as [w|]; [injection Ev as ->; by apply Hlo|by apply (Hrest k)]).
  cbn [ok_or mbind res_bind]. unfold copy_at.
  replace (_ && _) with true by (symmetry; rewrite !andb_true_iff, !Z.leb_le, Z.eqb_eq; unfold DATA_SHARDS in *; nia).
  rewrite !len_app. unfold len in *. rewrite length_take, length_drop. unfold DATA_SHARDS in *. nia.
Qed.

Lemma reassemble_no_panic present (restored : gmap nat bytes) sl n k out :
  (k + n = DATA_SHARDS)%nat -> (DATA_SHARDS <= length present)%nat -> 0 <= sl ->
  len out = sl * Z.of_nat DATA_SHARDS ->
  Forall (fun p => forall v, p = Some v -> len v = sl) present ->
  (forall i v, restored !! i = Some v -> len v = sl) ->
  foldM (reassemble_step present restored sl) out (seq k n) <> Panic.
Proof.
  intros Hk Hp Hsl Hout Hpres Hrest. revert k out Hk Hout.
  induction n as [|n IH]; intros k out Hk Hout; [done|]. cbn [seq foldM].
  pose proof (reassemble_step_total present restored sl out k ltac:(lia) Hp Hsl Hout Hpres Hrest) as Hst.
  destruct (reassemble_step present restored sl out k) as [out'| |]; cbn [mbind res_bind]; [|done..].
  apply IH; [lia|done].
Qed.

Lemma reconstruct_no_panic present sl n :
  length present = TOTAL_SHARDS -> 0 <= sl ->
  Forall (fun p => forall v, p = Some v -> len v = sl) present -> reconstruct present n <> Panic.
Proof.
  intros Hlen Hsl Hpres. unfold reconstruct. destruct (forallb _ _); [done|].
  assert (Hsub : forall l, (forall i (p : option bytes), l !! i = Some p -> p ∈ present) ->
    Forall (fun p => len p.2 = sl) (present_shards l)).
  { intros l Hl. apply Forall_forall. intros [i v] Hi. apply (proj2 (proj2 (present_shards_spec l))) in Hi.
    rewrite Forall_forall in Hpres. by apply (Hpres (Some v)); [eapply Hl|]. }
  assert (Ht : forall i (p : option bytes), take DATA_SHARDS present !! i = Some p -> p ∈ present)
    by (intros i p [Hp _]%lookup_take_Some; by eapply list_elem_of_lookup_2).
  assert (Hd : forall i (p : option bytes), drop DATA_SHARDS present !! i = Some p -> p ∈ present)
    by (intros i p Hp; rewrite lookup_drop in Hp; by eapply list_elem_of_lookup_2).
  pose proof (rs_decode_len _ _ _ (Hsub _ Ht) (Hsub _ Hd)) as Hdec.
  destruct (rs_decode _ _ _ _) as [m|e|]; cbn [map_err mbind res_bind]; [|done..].
  destruct (omap id present) as [|v l] eqn:Eo; [done|]. cbn [head fmap option_fmap option_map ok_or mbind res_bind].
  assert (Hv : len v = sl).
  { assert (Hin : v ∈ omap id present) by (rewrite Eo; left).
    apply list_elem_of_omap in Hin as (p & Hp & Hpv). cbn in Hpv. subst p.
    rewrite Forall_forall in Hpres. by apply (Hpres (Some v)). }
  rewrite Hv.
  pose proof (reassemble_no_panic present m sl DATA_SHARDS 0%nat (zeros (sl * Z.of_nat DATA_SHARDS))) as Hnp.
  destruct (foldM _ _ _); cbn; try done. intros _.
  apply Hnp; try done; [unfold TOTAL_SHARDS in *; lia|].
  apply len_zeros. lia.
Qed.

Lemma reconstruct_short present n :
  length present = TOTAL_SHARDS -> (length (omap id present) < DATA_SHARDS)%nat ->
  exists e, reconstruct present n = Err (Erasure e).
Proof.
  intros Hlen Hfew. unfold reconstruct. destruct (forallb _ _) eqn:Hfull.
  - exfalso. assert (Hall : length (omap id (take DATA_SHARDS present)) = DATA_SHARDS).
    { assert (Ht : length (take DATA_SHARDS present) = DATA_SHARDS)
        by (rewrite length_take, Hlen; unfold TOTAL_SHARDS; lia).
      rewrite <- Ht at 2. clear Ht. induction (take DATA_SHARDS present) as [|[v|] l IH]; cbn in *; [done| |done].
      f_equal. by apply IH. }
    rewrite <- (take_drop DATA_SHARDS present), omap_app, length_app in Hfew. lia.
  - destruct (present_shards_spec (take DATA_SHARDS present)) as (_ & Hl1 & _).
    destruct (present_shards_spec (drop DATA_SHARDS present)) as (_ & Hl2 & _).
    destruct (rs_decode_short (present_shards (take DATA_SHARDS present))
                (present_shards (drop DATA_SHARDS present))) as (e & He).
    + by rewrite Hl1, Hl2, <- length_app, <- omap_app, take_drop.
    + exists e. by rewrite He.
Qed.

(** With fewer than ten of the fourteen slots filled, [reconstruct] refuses: an error,
    never a wrong buffer. *)
Theorem reconstruct_too_few present n :
  length present = TOTAL_SHARDS -> (length (omap id present) < DATA_SHARDS)%nat ->
  exists e, reconstruct present n = Err (Erasure e).
Proof. apply reconstruct_short. Qed.
End Theorems.
