(* ===== verification/RSCode.v ===== *)
(** * A concrete Reed-Solomon code

    [reed_solomon_simd] is not part of the repository, so [Erasure.v] only assumes its
    documented laws. This file builds a ten-plus-four code over GF(16) (a Cauchy
    generator, decoding by matrix inversion) and proves that it satisfies them: the laws
    are consistent, and the witnesses of the theorems that use them run on it. *)

From Stdlib Require Import ZArith Lia.
From Stdlib Require Import Strings.Byte.
From stdpp Require Import base numbers list gmap strings.
From S2P Require Import Prelude Erasure.

(** ** GF(16), polynomials modulo [x^4 + x + 1] *)
Inductive nib := Nib (a3 a2 a1 a0 : bool).

#[global] Instance nib_eq_dec : EqDecision nib.
Proof. solve_decision. Defined.

Definition n0 : nib := Nib false false false false.
Definition n1 : nib := Nib false false false true.
Definition nadd_bits (x y : nib) : nib :=
  let '(Nib a3 a2 a1 a0) := x in let '(Nib b3 b2 b1 b0) := y in
  Nib (xorb a3 b3) (xorb a2 b2) (xorb a1 b1) (xorb a0 b0).
(** Multiplication by [x]. *)
Definition nxt (x : nib) : nib :=
  let '(Nib a3 a2 a1 a0) := x in Nib a2 a1 (xorb a0 a3) a3.
Definition nif (b : bool) (x : nib) : nib := if b then x else n0.
Definition nmul_bits (x y : nib) : nib :=
  let '(Nib a3 a2 a1 a0) := x in
  nadd_bits (nif a0 y) (nadd_bits (nif a1 (nxt y))
    (nadd_bits (nif a2 (nxt (nxt y))) (nif a3 (nxt (nxt (nxt y)))))).

(** Both operations as decision tables over the bits, so that they evaluate in a few steps. *)
Definition nib_case {A} (x : nib) (f : nib -> A) : A :=
  let '(Nib a b c d) := x in
  if a then if b then if c then if d then f (Nib true true true true) else f (Nib true true true false)
                      else if d then f (Nib true true false true) else f (Nib true true false false)
            else if c then if d then f (Nib true false true true) else f (Nib true false true false)
                 else if d then f (Nib true false false true) else f (Nib true false false false)
  else if b then if c then if d then f (Nib false true true true) else f (Nib false true true false)
                 else if d then f (Nib false true false true) else f (Nib false true false false)
       else if c then if d then f (Nib false false true true) else f (Nib false false true false)
            else if d then f (Nib false false false true) else f (Nib false false false false).
Definition nadd : nib -> nib -> nib :=
  Eval cbv in fun x y => nib_case x (fun x => nib_case y (fun y => nadd_bits x y)).
Definition nmul : nib -> nib -> nib :=
  Eval cbv in fun x y => nib_case x (fun x => nib_case y (fun y => nmul_bits x y)).

Definition bools : list bool := [false; true].
Definition nibs : list nib :=
  a ← bools; b ← bools; c ← bools; d ← bools; [Nib a b c d].
Definition ninv (x : nib) : nib :=
  match filter (fun y => nmul x y = n1) nibs with y :: _ => y | [] => n0 end.

Lemma nadd_0_l x : nadd n0 x = x.
Proof. by destruct x as [[] [] [] []]. Qed.
Lemma nmul_0_l x : nmul n0 x = n0.
Proof. by destruct x as [[] [] [] []]. Qed.

(** ** Bytes as a vector space over GF(16) *)
Definition to_nibs (b : u8) : nib * nib :=
  let '(b0, (b1, (b2, (b3, (b4, (b5, (b6, b7))))))) := Byte.to_bits b in
  (Nib b7 b6 b5 b4, Nib b3 b2 b1 b0).
Definition of_nibs (p : nib * nib) : u8 :=
  let '(Nib b7 b6 b5 b4, Nib b3 b2 b1 b0) := p in
  Byte.of_bits (b0, (b1, (b2, (b3, (b4, (b5, (b6, b7))))))).

Lemma to_of_nibs p : to_nibs (of_nibs p) = p.
Proof. destruct p as [[] []]. unfold to_nibs, of_nibs. by rewrite Byte.to_bits_of_bits. Qed.
Lemma of_to_nibs b : of_nibs (to_nibs b) = b.
Proof.
  rewrite <- (Byte.of_bits_to_bits b) at 2. unfold to_nibs.
  by destruct (Byte.to_bits b) as (?&?&?&?&?&?&?&?).
Qed.

Definition badd (x y : u8) : u8 :=
  of_nibs (nadd (to_nibs x).1 (to_nibs y).1, nadd (to_nibs x).2 (to_nibs y).2).
Definition bmul (a : nib) (x : u8) : u8 := of_nibs (nmul a (to_nibs x).1, nmul a (to_nibs x).2).

(** Identities over GF(16) are decided by running over all the elements. *)
Definition nib_eqb (x y : nib) : bool := bool_decide (x = y).
Lemma nibs_all x : x ∈ nibs.
Proof. apply list_elem_of_In. destruct x as [[] [] [] []]; vm_compute; tauto. Qed.
Lemma nib_decide3 (f g : nib -> nib -> nib -> nib) :
  forallb (fun x => forallb (fun y => forallb (fun z => nib_eqb (f x y z) (g x y z)) nibs) nibs) nibs = true ->
  forall x y z, f x y z = g x y z.
Proof.
  intros H x y z. rewrite forallb_forall in H.
  specialize (H x (proj1 (list_elem_of_In _ _) (nibs_all x))). rewrite forallb_forall in H.
  specialize (H y (proj1 (list_elem_of_In _ _) (nibs_all y))). rewrite forallb_forall in H.
  specialize (H z (proj1 (list_elem_of_In _ _) (nibs_all z))).
  by apply bool_decide_eq_true in H.
Qed.

Lemma nadd_comm x y : nadd x y = nadd y x.
Proof. exact (nib_decide3 (fun x y _ => nadd x y) (fun x y _ => nadd y x) ltac:(by vm_compute) x y n0). Qed.
Lemma nadd_assoc x y z : nadd x (nadd y z) = nadd (nadd x y) z.
Proof. revert x y z. apply nib_decide3. by vm_compute. Qed.
Lemma nmul_add_r a x y : nmul a (nadd x y) = nadd (nmul a x) (nmul a y).
Proof. revert a x y. apply (nib_decide3 (fun a x y => nmul a (nadd x y))). by vm_compute. Qed.
Lemma nmul_add_l a b x : nmul (nadd a b) x = nadd (nmul a x) (nmul b x).
Proof. revert a b x. apply (nib_decide3 (fun a b x => nmul (nadd a b) x)). by vm_compute. Qed.
Lemma nmul_assoc a b x : nmul (nmul a b) x = nmul a (nmul b x).
Proof. revert a b x. apply (nib_decide3 (fun a b x => nmul (nmul a b) x)). by vm_compute. Qed.
Lemma nmul_1_l x : nmul n1 x = x.
Proof. by destruct x as [[] [] [] []]. Qed.

Lemma badd_comm x y : badd x y = badd y x.
Proof. unfold badd. by rewrite (nadd_comm (to_nibs x).1), (nadd_comm (to_nibs x).2). Qed.
Lemma badd_assoc x y z : badd x (badd y z) = badd (badd x y) z.
Proof. unfold badd. rewrite !to_of_nibs. cbn. by rewrite !nadd_assoc. Qed.
Lemma bmul_add_r a x y : bmul a (badd x y) = badd (bmul a x) (bmul a y).
Proof. unfold bmul, badd. rewrite !to_of_nibs. cbn. by rewrite !nmul_add_r. Qed.
Lemma bmul_add_l a b x : bmul (nadd a b) x = badd (bmul a x) (bmul b x).
Proof. unfold bmul, badd. rewrite !to_of_nibs. cbn. by rewrite !nmul_add_l. Qed.
Lemma bmul_assoc a b x : bmul (nmul a b) x = bmul a (bmul b x).
Proof. unfold bmul. rewrite !to_of_nibs. cbn. by rewrite !nmul_assoc. Qed.
Lemma bmul_1_l x : bmul n1 x = x.
Proof. unfold bmul. rewrite !nmul_1_l. rewrite <- surjective_pairing. apply of_to_nibs. Qed.
Lemma bmul_0_l x : bmul n0 x = x00.
Proof. unfold bmul. by rewrite !nmul_0_l. Qed.
Lemma badd_0_l x : badd x00 x = x.
Proof. unfold badd. change (to_nibs x00) with (n0, n0). cbn [fst snd]. rewrite !nadd_0_l, <- surjective_pairing. apply of_to_nibs. Qed.

Arguments badd : simpl never.
Arguments bmul : simpl never.
Arguments nmul : simpl never.
Arguments nadd : simpl never.

(** ** Shards of [n] bytes, combined by rows of coefficients *)
Section Shards.
Context (n : nat).

Definition sadd (x y : bytes) : bytes := zip_with badd x y.
Definition smul (a : nib) (x : bytes) : bytes := bmul a <$> x.
Definition szero : bytes := replicate n x00.

Fixpoint lin (r : list nib) (vs : list bytes) : bytes :=
  match r, vs with
  | a :: r, v :: vs => sadd (smul a v) (lin r vs)
  | _, _ => szero
  end.

Definition radd (x y : list nib) : list nib := zip_with nadd x y.
Definition rmul (a : nib) (x : list nib) : list nib := nmul a <$> x.
Definition is_n0 (a : nib) : bool := match a with Nib false false false false => true | _ => false end.
(** The combination of the rows of a matrix. *)
Fixpoint vecmat (r : list nib) (m : list (list nib)) : list nib :=
  match r, m with
  | a :: r, row :: m => if is_n0 a then vecmat r m else radd (rmul a row) (vecmat r m)
  | _, _ => replicate DATA_SHARDS n0
  end.

Lemma length_sadd x y : length x = n -> length y = n -> length (sadd x y) = n.
Proof. intros Hx Hy. unfold sadd. rewrite length_zip_with. lia. Qed.
Lemma length_lin r vs : Forall (fun v => length v = n) vs -> length (lin r vs) = n.
Proof.
  intros Hvs. revert r. induction Hvs as [|v vs Hv Hvs IH]; intros [|a r]; cbn;
    try apply length_replicate.
  apply length_sadd; [|apply IH]. unfold smul. by rewrite length_fmap.
Qed.

Lemma sadd_assoc x y z : sadd x (sadd y z) = sadd (sadd x y) z.
Proof.
  unfold sadd. revert y z; induction x as [|a x IH]; intros [|b y] [|c z]; cbn; [done..|].
  f_equal; first [apply badd_assoc | apply IH].
Qed.
Lemma sadd_comm x y : sadd x y = sadd y x.
Proof.
  unfold sadd. revert y; induction x as [|a x IH]; intros [|b y]; cbn; [done..|].
  f_equal; first [apply badd_comm | apply IH].
Qed.
Lemma sadd_0_l x : length x = n -> sadd szero x = x.
Proof.
  unfold sadd, szero. intros <-. induction x as [|a x IH]; cbn; [done|].
  f_equal; first [apply badd_0_l | apply IH].
Qed.
Lemma smul_add_r a x y : smul a (sadd x y) = sadd (smul a x) (smul a y).
Proof.
  unfold sadd, smul. revert y; induction x as [|b x IH]; intros [|c y]; cbn; [done..|].
  f_equal; first [apply bmul_add_r | apply IH].
Qed.
Lemma smul_add_l a b x : smul (nadd a b) x = sadd (smul a x) (smul b x).
Proof. unfold sadd, smul. induction x as [|c x IH]; cbn; [done|]. f_equal; first [apply bmul_add_l | apply IH]. Qed.
Lemma smul_mul a b x : smul (nmul a b) x = smul a (smul b x).
Proof. unfold smul. rewrite <- list_fmap_compose. apply list_fmap_ext; intros; cbn. apply bmul_assoc. Qed.
Lemma smul_1 x : smul n1 x = x.
Proof. unfold smul. induction x as [|b x IH]; cbn; [done|]. f_equal; first [apply bmul_1_l | apply IH]. Qed.
Lemma smul_0 x : length x = n -> smul n0 x = szero.
Proof. unfold smul, szero. intros <-. induction x as [|b x IH]; cbn; [done|]. f_equal; first [apply bmul_0_l | apply IH]. Qed.
Lemma smul_szero a : smul a szero = szero.
Proof.
  unfold smul, szero. rewrite fmap_replicate. f_equal. by destruct a as [[] [] [] []].
Qed.

Arguments smul : simpl never.
Arguments sadd : simpl never.

Lemma sadd_swap x y z w : sadd (sadd x y) (sadd z w) = sadd (sadd x z) (sadd y w).
Proof. rewrite !sadd_assoc, <- (sadd_assoc x y z), (sadd_comm y z), sadd_assoc. done. Qed.

Lemma lin_radd x y vs :
  length x = length y -> Forall (fun v => length v = n) vs ->
  lin (radd x y) vs = sadd (lin x vs) (lin y vs).
Proof.
  intros Hxy Hvs. revert x y Hxy.
  induction Hvs as [|v vs Hv Hvs IH]; intros [|a x] [|b y] Hxy; cbn in *; try discriminate;
    try (symmetry; apply sadd_0_l; apply length_replicate).
  rewrite IH, smul_add_l by congruence. apply sadd_swap.
Qed.
Lemma lin_rmul a x vs : lin (rmul a x) vs = smul a (lin x vs).
Proof.
  revert vs; induction x as [|b x IH]; intros [|v vs]; cbn;
    [symmetry; apply smul_szero..|].
  unfold rmul in IH. by rewrite IH, smul_add_r, smul_mul.
Qed.
Lemma lin_zero k vs : Forall (fun v => length v = n) vs -> lin (replicate k n0) vs = szero.
Proof.
  intros Hvs. revert k; induction Hvs as [|v vs Hv Hvs IH]; intros [|k]; cbn; [done..|].
  rewrite IH, smul_0 by done. apply sadd_0_l, length_replicate.
Qed.

Lemma length_vecmat r m :
  Forall (fun row => length row = DATA_SHARDS) m -> length (vecmat r m) = DATA_SHARDS.
Proof.
  intros Hm. revert r; induction Hm as [|row m Hr Hm IH]; intros [|a r]; cbn [vecmat];
    try apply length_replicate.
  destruct (is_n0 a); [apply IH|].
  unfold radd, rmul. rewrite length_zip_with, length_fmap, IH. lia.
Qed.

(** Combining the rows first or the combined shards: the same result. *)
Lemma lin_vecmat r m vs :
  Forall (fun row => length row = DATA_SHARDS) m -> Forall (fun v => length v = n) vs ->
  lin (vecmat r m) vs = lin r ((fun row => lin row vs) <$> m).
Proof.
  intros Hm Hvs. revert r; induction Hm as [|row m Hr Hm IH]; intros [|a r]; cbn [vecmat lin fmap list_fmap];
    try by apply lin_zero.
  destruct (is_n0 a) eqn:Ea.
  - assert (a = n0) as -> by (by destruct a as [[] [] [] []]).
    rewrite smul_0 by by apply length_lin. rewrite sadd_0_l; [apply IH|].
    apply length_lin, Forall_fmap, Forall_forall. intros row' _. by apply length_lin.
  - rewrite lin_radd, lin_rmul, IH; [done| |done].
    unfold rmul. by rewrite length_fmap, length_vecmat.
Qed.
End Shards.

(** ** The generator: ten unit rows and four Cauchy rows *)
Definition nib_of (i : nat) : nib := default n0 (nibs !! i).
Definition unit_row (i : nat) : list nib :=
  (fun j => if decide (i = j) then n1 else n0) <$> seq 0 DATA_SHARDS.
Definition cauchy_row (j : nat) : list nib :=
  (fun i => ninv (nadd (nib_of j) (nib_of i))) <$> seq 0 DATA_SHARDS.
Definition gen_row (i : nat) : list nib :=
  if decide (i < DATA_SHARDS)%nat then unit_row i else cauchy_row i.
Definition gen_table : list (list nib) := Eval vm_compute in gen_row <$> seq 0 TOTAL_SHARDS.
Definition row_at (i : nat) : list nib := default [] (gen_table !! i).

(** Gauss-Jordan elimination on rows of twenty entries. *)
Definition scale_row (c : nat) (r : list nib) : list nib :=
  let a := ninv (default n0 (r !! c)) in
  if is_n0 (nadd a n1) then r else nmul a <$> r.
Definition elim_row (c : nat) (p r : list nib) : list nib :=
  let a := default n0 (r !! c) in
  if is_n0 a then r else zip_with nadd r (nmul a <$> p).
Fixpoint pivot (c : nat) (before after : list (list nib)) : option (list nib * list (list nib)) :=
  match after with
  | [] => None
  | r :: rs =>
      if is_n0 (default n0 (r !! c)) then pivot c (r :: before) rs
      else Some (scale_row c r, before ++ rs)
  end.
Fixpoint eliminate (n c : nat) (done todo : list (list nib)) : list (list nib) :=
  match n with
  | O => done
  | S n =>
      match pivot c [] todo with
      | None => done
      | Some (p, todo) =>
          eliminate n (S c) ((elim_row c p <$> done) ++ [p]) (elim_row c p <$> todo)
      end
  end.
Definition invert (m : list (list nib)) : list (list nib) :=
  drop DATA_SHARDS <$> eliminate DATA_SHARDS 0 [] (zip_with app m (unit_row <$> seq 0 DATA_SHARDS)).

(** The sublists of [k] elements of a list. *)
Fixpoint choose {A} (k : nat) (l : list A) : list (list A) :=
  match k, l with
  | O, _ => [[]]
  | _, [] => []
  | S k', x :: l' => (cons x <$> choose k' l') ++ choose k l'
  end.

Lemma choose_sublist {A} (s l : list A) : s `sublist_of` l -> s ∈ choose (length s) l.
Proof.
  induction 1 as [|x s l H IH|x s l H IH]; cbn.
  - by left.
  - apply elem_of_app. left. apply list_elem_of_fmap. eauto.
  - destruct s as [|y s]; cbn in *; [destruct l; by left|].
    apply elem_of_app. by right.
Qed.

Definition invert_ok (s : list nat) : bool :=
  bool_decide ((fun r => vecmat r (row_at <$> s)) <$> invert (row_at <$> s) = unit_row <$> seq 0 DATA_SHARDS).

(** Every one of the 1001 choices of ten rows is invertible. *)
Lemma all_invertible : forallb invert_ok (choose DATA_SHARDS (seq 0 TOTAL_SHARDS)) = true.
Proof. vm_compute. reflexivity. Qed.

Lemma invert_spec s :
  s `sublist_of` seq 0 TOTAL_SHARDS -> length s = DATA_SHARDS ->
  (fun r => vecmat r (row_at <$> s)) <$> invert (row_at <$> s) = unit_row <$> seq 0 DATA_SHARDS.
Proof.
  intros Hs Hl. pose proof all_invertible as H. rewrite forallb_forall in H.
  apply choose_sublist in Hs. rewrite Hl in Hs.
  specialize (H s (proj1 (list_elem_of_In _ _) Hs)). by apply bool_decide_eq_true in H.
Qed.

(** ** The code as an instance of [ReedSolomon] *)
Definition same_len (n : nat) (l : list bytes) : bool := forallb (fun v => bool_decide (length v = n)) l.
Definition size_of (l : list bytes) : nat := match l with v :: _ => length v | [] => O end.

Definition gf_encode (k m : nat) (os : list bytes) : res string (list bytes) :=
  let n := size_of os in
  if bool_decide (k = DATA_SHARDS) && bool_decide (m = PARITY_SHARDS) &&
     bool_decide (length os = DATA_SHARDS) && same_len n os
  then Ok ((fun i => lin n (row_at i) os) <$> seq DATA_SHARDS PARITY_SHARDS)
  else Err "invalid shards"%string.

Definition slot_of (all : list (nat * bytes)) (i : nat) : bytes :=
  default [] (snd <$> head (filter (fun p => p.1 = i) all)).

Definition gf_decode (k m : nat) (orig rec : list (nat * bytes)) : res string (gmap nat bytes) :=
  let all := orig ++ ((fun '(i, v) => ((DATA_SHARDS + i)%nat, v)) <$> rec) in
  let chosen := take DATA_SHARDS (filter (fun i => i ∈ all.*1) (seq 0 TOTAL_SHARDS)) in
  let n := size_of all.*2 in
  if bool_decide (length orig + length rec < DATA_SHARDS)%nat then Err "not enough shards"%string
  else if negb (same_len n all.*2) then Err "different shard sizes"%string
  else
    let vs := slot_of all <$> chosen in
    Ok (list_to_map (imap (fun i r => (i, lin n r vs)) (invert (row_at <$> chosen)))).

#[export] Instance gf_rs : ReedSolomon := {| rs_encode := gf_encode; rs_decode := gf_decode |}.

Lemma sadd_0_r n x : length x = n -> sadd x (szero n) = x.
Proof. intros. rewrite sadd_comm. by apply sadd_0_l. Qed.

Lemma lin_unit n vs k i :
  Forall (fun v => length v = n) vs ->
  lin n ((fun j => if decide (i = j) then n1 else n0) <$> seq k (length vs)) vs =
  if decide (i < k)%nat then szero n else default (szero n) (vs !! (i - k)%nat).
Proof.
  intros Hvs. revert k; induction Hvs as [|v vs Hv Hvs IH]; intros k; cbn [length seq fmap list_fmap lin].
  { by case_decide. }
  rewrite IH. destruct (decide (i = k)) as [->|Hne].
  - rewrite decide_True by lia. rewrite decide_False by lia. rewrite Nat.sub_diag. cbn.
    rewrite smul_1. by apply sadd_0_r.
  - rewrite (smul_0 n v) by done. destruct (decide (i < k)%nat).
    + rewrite decide_True by lia. apply sadd_0_l, length_replicate.
    + rewrite decide_False by lia. replace (i - k)%nat with (S (i - S k)) by lia. cbn.
      apply sadd_0_l. destruct (vs !! (i - S k)%nat) eqn:E; cbn; [|apply length_replicate].
      by eapply (Forall_lookup_1 _ _ _ _ Hvs).
Qed.

Section Codeword.
Context (os : list bytes) (n : nat).
Hypothesis os_len : length os = DATA_SHARDS.
Hypothesis os_n : Forall (fun v => length v = n) os.

Definition cw (i : nat) : bytes := lin n (row_at i) os.

Lemma row_at_data i : (i < DATA_SHARDS)%nat -> row_at i = unit_row i.
Proof. unfold DATA_SHARDS. intros H. do 10 (destruct i as [|i]; [by vm_compute|]). lia. Qed.

Lemma cw_data i v : os !! i = Some v -> cw i = v.
Proof using os_len os_n.
  intros Hi. pose proof (lookup_lt_Some _ _ _ Hi) as Hlt. unfold cw.
  rewrite row_at_data by lia. unfold unit_row. rewrite <- os_len, lin_unit by done.
  rewrite decide_False by lia. by rewrite Nat.sub_0_r, Hi.
Qed.

Lemma rows_wf s : Forall (fun i => i < TOTAL_SHARDS)%nat s -> Forall (fun r => length r = DATA_SHARDS) (row_at <$> s).
Proof.
  intros H. apply Forall_fmap. eapply Forall_impl; [exact H|]. unfold TOTAL_SHARDS, DATA_SHARDS, PARITY_SHARDS; cbn.
  intros i Hi. do 14 (destruct i as [|i]; [done|]). lia.
Qed.

Lemma decode_chosen s :
  s `sublist_of` seq 0 TOTAL_SHARDS -> length s = DATA_SHARDS ->
  (fun r => lin n r (cw <$> s)) <$> invert (row_at <$> s) = os.
Proof using os_len os_n.
  intros Hs Hl.
  assert (Hw : Forall (fun i => i < TOTAL_SHARDS)%nat s).
  { apply Forall_forall. intros i Hi. eapply elem_of_submseteq in Hi; [|by apply sublist_submseteq].
    apply elem_of_seq in Hi. lia. }
  apply rows_wf in Hw. pose proof (invert_spec s Hs Hl) as Hinv.
  transitivity ((fun r => lin n r os) <$> (unit_row <$> seq 0 DATA_SHARDS)).
  - rewrite <- Hinv, <- list_fmap_compose. apply list_fmap_ext. intros i r _. cbn.
    rewrite lin_vecmat by done. by rewrite <- list_fmap_compose.
  - apply list_eq; intros i. rewrite <- list_fmap_compose, list_lookup_fmap.
    destruct (os !! i) as [v|] eqn:E.
    + pose proof (lookup_lt_Some _ _ _ E). rewrite lookup_seq_lt by lia.
      change (Some (lin n (unit_row i) os) = Some v). rewrite <- row_at_data by lia. f_equal. by apply cw_data.
    + apply lookup_ge_None in E. by rewrite (proj2 (lookup_ge_None _ _)) by (rewrite length_seq; lia).
Qed.
End Codeword.

Lemma same_len_spec n l : same_len n l = true <-> Forall (fun v => length v = n) l.
Proof.
  unfold same_len. rewrite forallb_forall, Forall_forall. split; intros H x Hx.
  - apply list_elem_of_In, H in Hx. by apply bool_decide_eq_true in Hx.
  - apply bool_decide_eq_true, H. by apply list_elem_of_In.
Qed.

Lemma gf_encode_ok os rs :
  gf_encode DATA_SHARDS PARITY_SHARDS os = Ok rs ->
  length os = DATA_SHARDS /\ Forall (fun v => length v = size_of os) os /\
  rs = cw os (size_of os) <$> seq DATA_SHARDS PARITY_SHARDS.
Proof.
  unfold gf_encode. intros H. destruct (_ && _) eqn:E; [|discriminate].
  injection H as <-. rewrite !andb_true_iff in E. destruct E as ((_ & H1) & H2).
  apply bool_decide_eq_true in H1. apply same_len_spec in H2. done.
Qed.

Lemma size_of_eq n l : (0 < length l)%nat -> Forall (fun v => length v = n) l -> size_of l = n.
Proof. intros Hl H. destruct H; cbn in *; [lia|done]. Qed.

(** The index and value of the shards that were handed over. *)
Lemma all_codeword os n rs orig rec :
  length os = DATA_SHARDS -> Forall (fun v => length v = n) os ->
  rs = cw os n <$> seq DATA_SHARDS PARITY_SHARDS ->
  Forall (fun '(i, v) => os !! i = Some v) orig ->
  Forall (fun '(i, v) => rs !! i = Some v) rec ->
  Forall (fun p => (p.1 < TOTAL_SHARDS)%nat /\ p.2 = cw os n p.1)
    (orig ++ ((fun '(i, v) => ((DATA_SHARDS + i)%nat, v)) <$> rec)).
Proof.
  intros Hl Hn -> Ho Hr. apply Forall_app. split.
  - eapply Forall_impl; [exact Ho|]. intros [i v] Hi. cbn.
    pose proof (lookup_lt_Some _ _ _ Hi) as Hlt. rewrite Hl in Hlt. unfold TOTAL_SHARDS. split; [unfold DATA_SHARDS in *; lia|].
    symmetry. by apply cw_data.
  - apply Forall_fmap. eapply Forall_impl; [exact Hr|]. intros [i v] Hi. cbn [fst snd compose].
    rewrite list_lookup_fmap in Hi. apply fmap_Some in Hi as (j & Hj & ->).
    apply lookup_seq in Hj as [-> Hj]. unfold TOTAL_SHARDS, PARITY_SHARDS in *. split; [lia|done].
Qed.

Lemma slot_of_spec all i f :
  Forall (fun p : nat * bytes => p.2 = f p.1) all -> i ∈ all.*1 -> slot_of all i = f i.
Proof.
  intros Hf Hi. unfold slot_of. induction Hf as [|[j v] l Hv Hf IH].
  { by apply elem_of_nil in Hi. }
  rewrite filter_cons. cbn [fst]. case_decide as E.
  - cbn in *. by subst.
  - apply IH. rewrite fmap_cons in Hi. apply elem_of_cons in Hi as [Hi|?]; [by subst|done].
Qed.

Lemma chosen_spec (idx : list nat) :
  NoDup idx -> Forall (fun i => i < TOTAL_SHARDS)%nat idx -> (DATA_SHARDS <= length idx)%nat ->
  let s := take DATA_SHARDS (filter (fun i => i ∈ idx) (seq 0 TOTAL_SHARDS)) in
  s `sublist_of` seq 0 TOTAL_SHARDS /\ length s = DATA_SHARDS /\ Forall (fun i => i ∈ idx) s.
Proof.
  intros Hnd Hlt Hlen s. split; [|split].
  - unfold s. etransitivity; [apply sublist_take|apply sublist_filter].
  - unfold s. rewrite length_take. apply Nat.min_l. etransitivity; [exact Hlen|].
    apply submseteq_length, NoDup_submseteq; [done|]. intros i Hi. apply list_elem_of_filter. split; [done|].
    rewrite Forall_forall in Hlt. apply elem_of_seq. specialize (Hlt i Hi). lia.
  - apply Forall_take, Forall_forall. intros i Hi. by apply list_elem_of_filter in Hi as [? _].
Qed.

Lemma list_to_map_imap_lookup {A B} (f : A -> B) (l : list A) (i : nat) :
  (list_to_map (imap (fun i a => (i, f a)) l) : gmap nat B) !! i = f <$> l !! i.
Proof.
  destruct (l !! i) as [a|] eqn:E; cbn.
  - apply elem_of_list_to_map_1.
    + replace ((imap (fun i a => (i, f a)) l).*1) with (seq 0 (length l)); [apply NoDup_seq|].
      rewrite fmap_imap. apply list_eq. intros j. rewrite list_lookup_imap.
      destruct (l !! j) eqn:Ej; cbn.
      * apply lookup_lt_Some in Ej. by rewrite lookup_seq_lt.
      * apply lookup_ge_None in Ej. by rewrite (proj2 (lookup_ge_None _ _)) by (rewrite length_seq; lia).
    + apply list_elem_of_lookup. exists i. by rewrite list_lookup_imap, E.
  - apply not_elem_of_list_to_map_1. intros ([j b] & -> & Hj)%list_elem_of_fmap. cbn in E.
    apply list_elem_of_lookup in Hj as (k & Hk). rewrite list_lookup_imap in Hk.
    apply fmap_Some in Hk as (a & Ha & [= -> ->]). congruence.
Qed.

Lemma slot_of_in all i : i ∈ all.*1 -> slot_of all i ∈ all.*2.
Proof.
  intros Hi. unfold slot_of. apply list_elem_of_fmap in Hi as ([j v] & -> & Hj). cbn.
  assert (Hf : (j, v) ∈ filter (fun p : nat * bytes => p.1 = j) all) by (apply list_elem_of_filter; done).
  destruct (filter _ all) as [|[k w] l] eqn:E; [by apply elem_of_nil in Hf|]. cbn.
  assert (Hk : (k, w) ∈ filter (fun p : nat * bytes => p.1 = j) all) by (rewrite E; left).
  apply list_elem_of_filter in Hk as [_ Hk]. apply list_elem_of_fmap. by exists (k, w).
Qed.

(** Whatever is decoded has the length of the shards handed in. *)
Lemma gf_decode_sizes orig rec sl :
  Forall (fun p : nat * bytes => len p.2 = sl) orig -> Forall (fun p : nat * bytes => len p.2 = sl) rec ->
  match gf_decode DATA_SHARDS PARITY_SHARDS orig rec with
  | Ok m => forall i v, m !! i = Some v -> len v = sl
  | Err _ => True
  | Panic => False
  end.
Proof.
  intros Ho Hr. unfold gf_decode. case_bool_decide as Hlt; [done|]. set (all := orig ++ _).
  destruct (same_len _ all.*2) eqn:Hs; [|done]. cbn [negb]. apply same_len_spec in Hs.
  intros i v Hv. rewrite (list_to_map_imap_lookup _ _) in Hv. apply fmap_Some in Hv as (r & _ & ->).
  assert (Hall : Forall (fun p : nat * bytes => len p.2 = sl) all).
  { apply Forall_app. split; [done|]. apply Forall_fmap. eapply Forall_impl; [exact Hr|]. by intros [? ?]. }
  unfold len. rewrite length_lin.
  - destruct all as [|[j w] l] eqn:E; [apply (f_equal length) in E; unfold all in E; rewrite length_app, length_fmap in E; cbn in E; unfold DATA_SHARDS in *; lia|].
    apply Forall_cons in Hall as [Hw _]. exact Hw.
  - apply Forall_fmap, Forall_forall. intros k Hk. cbn. rewrite Forall_forall in Hs. apply Hs, slot_of_in.
    apply elem_of_take in Hk as (n & Hk & _). by apply list_elem_of_lookup_2, list_elem_of_filter in Hk as [? _].
Qed.

#[export] Instance gf_rs_laws : ReedSolomonLaws.
Proof.
  split.
  - intros os sl Hl Hs Hp _. set (n := Z.to_nat sl).
    assert (Hn : Forall (fun v => length v = n) os)
      by (eapply Forall_impl; [exact Hs|]; intros v Hv; cbv beta in *; unfold n; rewrite <- Hv; unfold len; lia).
    assert (Hz : size_of os = n) by (apply size_of_eq; [rewrite Hl; unfold DATA_SHARDS; lia|done]).
    exists (cw os n <$> seq DATA_SHARDS PARITY_SHARDS). split; [|split].
    + cbn. unfold gf_encode. rewrite Hz. apply same_len_spec in Hn. rewrite Hn.
      by rewrite !bool_decide_true by done.
    + by rewrite length_fmap, length_seq.
    + apply Forall_fmap, Forall_forall. intros i _. cbn. unfold len, cw.
      rewrite length_lin by done. unfold n. lia.
  - intros os rs orig rec Hl He Ho Hr Hov Hrv Hlen.
    apply gf_encode_ok in He as (_ & Hn & Hrs). set (n := size_of os) in *.
    pose proof (all_codeword os n rs orig rec Hl Hn Hrs Hov Hrv) as Hall.
    cbn. unfold gf_decode. rewrite bool_decide_false by lia.
    set (all := orig ++ _) in *.
    assert (Hsz : Forall (fun v => length v = n) all.*2).
    { apply Forall_fmap. eapply Forall_impl; [exact Hall|]. intros [i v] [_ Hp]. cbn [fst snd] in *. rewrite Hp. by apply length_lin. }
    assert (Hsn : size_of all.*2 = n).
    { apply size_of_eq; [|done]. unfold all. rewrite length_fmap, length_app, length_fmap. unfold DATA_SHARDS in *. lia. }
    rewrite Hsn, (proj2 (same_len_spec _ _) Hsz). cbn [negb]. eexists; split; [reflexivity|].
    assert (Hnd : NoDup all.*1).
    { unfold all. rewrite fmap_app. apply NoDup_app. split; [done|split].
      - intros i Hi Hi'. apply list_elem_of_fmap in Hi as ([j v] & -> & Hj).
        rewrite Forall_forall in Hov. apply Hov, lookup_lt_Some in Hj. rewrite Hl in Hj.
        rewrite <- list_fmap_compose in Hi'. apply list_elem_of_fmap in Hi' as ([k w] & Hk & _). cbn in Hk. unfold DATA_SHARDS in *. lia.
      - replace (((fun '(i, v) => ((DATA_SHARDS + i)%nat, v)) <$> rec).*1) with (Nat.add DATA_SHARDS <$> rec.*1).
        + apply NoDup_fmap_2; [|done]. intros a b. lia.
        + rewrite <- !list_fmap_compose. by apply list_fmap_ext; intros i [j v]. }
    assert (Hlt : Forall (fun i => i < TOTAL_SHARDS)%nat all.*1).
    { apply Forall_fmap. eapply Forall_impl; [exact Hall|]. by intros p []. }
    assert (Hcount : (DATA_SHARDS <= length all.*1)%nat).
    { unfold all. rewrite length_fmap, length_app, length_fmap. lia. }
    destruct (chosen_spec all.*1 Hnd Hlt Hcount) as (Hs & Hsl & Hin). set (s := take _ _) in *.
    assert (Hvs : slot_of all <$> s = cw os n <$> s).
    { apply list_fmap_ext. intros i x Hx. apply slot_of_spec.
      - eapply Forall_impl; [exact Hall|]. by intros p [].
      - rewrite Forall_forall in Hin. by eapply Hin, list_elem_of_lookup_2. }
    rewrite Hvs.
    intros i Hi _. rewrite (list_to_map_imap_lookup _ _), <- list_lookup_fmap.
    by rewrite (decode_chosen os n Hl Hn s Hs Hsl).
  - intros orig rec Hlt. cbn. unfold gf_decode. rewrite bool_decide_true by done. eauto.
  - intros orig rec sl Ho Hr. apply (gf_decode_sizes orig rec sl Ho Hr).
Qed.

(** ** The codec theorems at a concrete buffer *)
Definition sample_cipher : bytes := (fun i => z2b (Z.of_nat (i * i + 7))) <$> seq 0 300.
Definition lose (lost : list nat) (shards : list bytes) : list (option bytes) :=
  imap (fun i s => if decide (i ∈ lost) then None else Some s) shards.
Definition sample_shards : list bytes :=
  match encode sample_cipher with Ok s => s | _ => [] end.

Lemma lose_survives lost shards : survives (lose lost shards) shards.
Proof.
  unfold survives, lose. apply Forall2_lookup. intros i. rewrite list_lookup_imap.
  destruct (shards !! i); cbn; constructor. case_decide; auto.
Qed.

Lemma sample_encodes : encode sample_cipher = Ok sample_shards /\ length sample_shards = TOTAL_SHARDS.
Proof.
  unfold sample_shards. destruct (encode_total sample_cipher) as (rec & Hr & Hl & _).
  rewrite encode_blocks, Hr. cbn [map_err mbind res_bind]. split; [done|]. by rewrite length_app, length_fmap, length_seq, Hl.
Qed.

(** How many slots stay filled depends only on the lost indices. *)
Lemma lose_count lost shards :
  length (omap id (lose lost shards)) = length (filter (fun i => i ∉ lost) (seq 0 (length shards))).
Proof.
  unfold lose. change (fun (i : nat) (s : bytes) => if decide (i ∈ lost) then None else Some s)
    with (fun (i : nat) (s : bytes) => if decide ((0 + i)%nat ∈ lost) then None else Some s).
  generalize 0%nat as k. induction shards as [|s l IH]; intros k; [done|].
  cbn [length seq imap omap list_omap]. rewrite filter_cons, Nat.add_0_r.
  specialize (IH (S k)).
  assert (E : imap ((fun (i : nat) (s : bytes) => if decide ((k + i)%nat ∈ lost) then None else Some s) ∘ S) l =
              imap (fun (i : nat) (s : bytes) => if decide ((S k + i)%nat ∈ lost) then None else Some s) l)
    by (apply imap_ext; intros j x _; cbn; by rewrite Nat.add_succ_r).
  rewrite E. destruct (decide (k ∈ lost)); cbn [id].
  - rewrite decide_False by naive_solver. exact IH.
  - rewrite decide_True by done. cbn [length]. by rewrite <- IH.
Qed.

Lemma reconstruct_any_ten_witness :
  encode sample_cipher = Ok sample_shards /\
  reconstruct (lose [0; 3; 9; 12]%nat sample_shards) (len sample_cipher) = Ok sample_cipher.
Proof.
  split; [apply sample_encodes|].
  apply (reconstruct_any_ten sample_cipher sample_shards); [apply sample_encodes|apply lose_survives|].
  rewrite lose_count, (proj2 sample_encodes). apply Nat.leb_le. by vm_compute.
Defined.

Lemma reconstruct_too_few_witness :
  exists e, reconstruct (lose [0; 3; 9; 12; 13]%nat sample_shards) (len sample_cipher) = Err (Erasure e).
Proof.
  apply reconstruct_too_few.
  - unfold lose. rewrite length_imap. apply sample_encodes.
  - rewrite lose_count, (proj2 sample_encodes). apply Nat.ltb_lt. by vm_compute.
Defined.

Lemma encode_uniform_witness :
  exists shards, encode sample_cipher = Ok shards /\ length shards = TOTAL_SHARDS /\
    Forall (fun s => len s = shard_len (len sample_cipher)) shards /\
    0 < shard_len (len sample_cipher) /\ shard_len (len sample_cipher) mod 64 = 0.
Proof. apply (encode_uniform sample_cipher). Defined.
