(* ===== verification/Crypto.v ===== *)
(** * Content encryption ([crates/core/src/crypto.rs])

    Key derivation (the legacy namespace and the length-prefixed, owner-bound one), the
    per-chunk AEAD with its counter nonce, the canonical AAD of a chunk and the per-file
    cipher. AES-256-GCM, HKDF-SHA256 and BLAKE3 are the methods of the class [CryptoPrims]
    of [External.v]. *)

From Stdlib Require Import ZArith Lia.
From stdpp Require Import base numbers list gmap strings.
From S2P Require Import Prelude External Erasure.

Definition SUBKEY_INFO : bytes := as_bytes "p2pnas/file-subkey/v1".
Definition HKDF_SALT_V2 : bytes := as_bytes "p2pnas/hkdf-salt/v2".
Definition FILE_SUBKEY_DOMAIN_V2 : bytes := as_bytes "p2pnas/file-subkey/v2".
Definition CHUNK_AAD_DOMAIN_V2 : bytes := as_bytes "p2pnas/chunk-aad/v2".
Definition MAX_CHUNK_INDEX : Z := u32_max.

Definition push_lp (out part : bytes) : bytes := out ++ be_bytes 8 (len part) ++ part.
Definition lp_concat (parts : list bytes) : bytes := foldl push_lp [] parts.

Inductive KeyScheme := V1 | V2.
#[export] Instance KeyScheme_eq_dec : EqDecision KeyScheme.
Proof. solve_decision. Defined.

Definition as_u8 (s : KeyScheme) : Z := match s with V1 => 1 | V2 => 2 end.
Definition as_i64 (s : KeyScheme) : Z := as_u8 s.
Definition from_i64 (v : Z) : res CoreError KeyScheme :=
  if v =? 1 then Ok V1 else if v =? 2 then Ok V2 else Err (Crypto "unknown key scheme").

(** 96-bit nonce: the big-endian chunk index after four zero bytes. *)
Definition nonce_for (index : Z) : bytes := zeros (NONCE_LEN - 8) ++ be_bytes 8 index.

Record ChunkAad := {
  aad_scheme : KeyScheme;
  aad_user_id : bytes;
  aad_file_id : bytes;
  aad_chunk_count : Z;
  aad_chunk_index : Z
}.

Definition ChunkAad_encode (a : ChunkAad) : bytes :=
  lp_concat [CHUNK_AAD_DOMAIN_V2; [z2b (as_u8 (aad_scheme a))]; aad_user_id a; aad_file_id a;
             be_bytes 8 (aad_chunk_count a); be_bytes 8 (aad_chunk_index a)].

(** The AES key schedule is the subkey itself. *)
Record FileCipher := {
  fc_scheme : KeyScheme;
  fc_sealer : bytes;
  fc_aad_prefix : bytes;
  fc_chunk_count : Z
}.

Definition aad_for (fc : FileCipher) (index : Z) : bytes :=
  match fc_scheme fc with
  | V1 => []
  | V2 => push_lp (fc_aad_prefix fc) (be_bytes 8 index)
  end.

Section Prims.
Context `{CryptoPrims}.

Definition derive_raw (key info : bytes) : res CoreError bytes :=
  ok_or (hkdf SUBKEY_INFO key info) (Crypto "hkdf expand").
Definition file_subkey (key file_id : bytes) : res CoreError bytes := derive_raw key file_id.

Definition derive_v2 (key domain : bytes) (parts : list bytes) : res CoreError bytes :=
  let info := foldl push_lp (push_lp [] domain) parts in
  ok_or (hkdf HKDF_SALT_V2 key info) (Crypto "hkdf expand").
Definition file_subkey_v2 (key user_id file_id : bytes) : res CoreError bytes :=
  derive_v2 key FILE_SUBKEY_DOMAIN_V2 [user_id; file_id].
Definition file_subkey_for (key : bytes) (scheme : KeyScheme) (user_id file_id : bytes)
    : res CoreError bytes :=
  match scheme with
  | V1 => file_subkey key file_id
  | V2 => file_subkey_v2 key user_id file_id
  end.

(** [seal] answers the sealed buffer and the nonce. *)
Definition seal_inner (k buf : bytes) (index : Z) (aad : bytes) : res CoreError (bytes * bytes) :=
  if MAX_CHUNK_INDEX <? index then Err (Crypto "chunk index above the GCM per-key bound")
  else
    let nonce := nonce_for index in
    buf ← ok_or (aead_seal k nonce aad buf) (Crypto "seal");
    Ok (buf, nonce).
Definition seal (k buf : bytes) (index : Z) := seal_inner k buf index [].
Definition seal_with_aad (k buf : bytes) (index : Z) (aad : bytes) := seal_inner k buf index aad.
Definition open (k : bytes) (index : Z) (buf : bytes) : res CoreError bytes :=
  ok_or (aead_open k (nonce_for index) [] buf) (Crypto "open").
Definition open_with_aad (k : bytes) (index : Z) (buf aad : bytes) : res CoreError bytes :=
  ok_or (aead_open k (nonce_for index) aad buf) (Crypto "open").

Definition FileCipher_new (key : bytes) (scheme : KeyScheme) (user_id file_id : bytes)
    (chunk_count : Z) : res CoreError FileCipher :=
  sealer ← file_subkey_for key scheme user_id file_id;
  let aad_prefix :=
    match scheme with
    | V1 => []
    | V2 => lp_concat [CHUNK_AAD_DOMAIN_V2; [z2b (as_u8 scheme)]; user_id; file_id;
                       be_bytes 8 chunk_count]
    end in
  Ok {| fc_scheme := scheme; fc_sealer := sealer; fc_aad_prefix := aad_prefix;
        fc_chunk_count := chunk_count |}.

Definition seal_chunk (fc : FileCipher) (buf : bytes) (index : Z) : res CoreError (bytes * bytes) :=
  match fc_scheme fc with
  | V1 => seal (fc_sealer fc) buf index
  | V2 => seal_with_aad (fc_sealer fc) buf index (aad_for fc index)
  end.

Definition open_chunk (fc : FileCipher) (index : Z) (buf : bytes) : res CoreError bytes :=
  match fc_scheme fc with
  | V1 => open (fc_sealer fc) index buf
  | V2 =>
      if fc_chunk_count fc <=? index
      then Err (Crypto "chunk index outside the file's chunk count")
      else open_with_aad (fc_sealer fc) index buf (aad_for fc index)
  end.

(** [hex::encode] writes two lowercase digits per byte. *)
Definition hex_digit (v : Z) : u8 := z2b (if v <? 10 then 48 + v else 87 + v).
Definition hex_encode (b : bytes) : bytes :=
  mjoin ((fun c => [hex_digit (b2z c / 16); hex_digit (b2z c mod 16)]) <$> b).
Definition blake3_hex (data : bytes) : string := of_bytes (hex_encode (blake3 data)).
End Prims.

(** ** Encodings *)

Definition fits (b : bytes) : Prop := len b < 2 ^ 64.
Definition u64 (v : Z) : Prop := 0 <= v < 2 ^ 64.

Abbreviation lp64 := (lp (be_bytes 8)).
Abbreviation lps64 := (lps (be_bytes 8)).

Lemma push_lp_lps out parts : foldl push_lp out parts = out ++ lps64 parts.
Proof.
  revert out; induction parts as [|p parts IH]; intros out; cbn [foldl].
  - unfold lps. cbn. by rewrite app_nil_r.
  - rewrite IH. unfold push_lp, lps, lp. cbn. by rewrite <- !app_assoc.
Qed.

Lemma lp_concat_lps parts : lp_concat parts = lps64 parts.
Proof. apply push_lp_lps. Qed.

Lemma be8_len v : length (be_bytes 8 v) = 8%nat.
Proof. apply length_be_bytes. Qed.

Lemma lps64_inj ps qs : Forall fits ps -> Forall fits qs -> lps64 ps = lps64 qs -> ps = qs.
Proof.
  apply (lps_inj (be_bytes 8) 7 (2 ^ 64)); [apply be8_len|]. apply be64_inj.
Qed.

Lemma fits_be8 v : fits (be_bytes 8 v).
Proof. unfold fits, len. rewrite be8_len. by vm_compute. Qed.

(** The canonical concatenation is unambiguous: two different tuples of components
    (lengths on 64 bits) never give the same byte string. *)
Theorem lp_concat_inj ps qs :
  Forall fits ps -> Forall fits qs -> lp_concat ps = lp_concat qs -> ps = qs.
Proof. rewrite !lp_concat_lps. apply lps64_inj. Qed.

Lemma lp_concat_inj_witness :
  Forall fits [as_bytes "ab"; as_bytes "c"] /\ lp_concat [as_bytes "ab"; as_bytes "c"] <> lp_concat [as_bytes "a"; as_bytes "bc"].
Proof.
  split; [by repeat constructor|]. intros H.
  apply lp_concat_inj in H; [discriminate|by repeat constructor..].
Defined.

(** Scheme numbers round trip through the manifest column, and no other value parses. *)
Theorem key_scheme_roundtrip v s : from_i64 v = Ok s <-> v = as_i64 s.
Proof.
  unfold from_i64. destruct (Z.eqb_spec v 1), (Z.eqb_spec v 2), s; subst; split; cbn; intros; try congruence; lia.
Qed.

(** The counter nonce is twelve bytes and injective on [u64] indices. *)
Theorem nonce_for_unique i j :
  u64 i -> u64 j ->
  len (nonce_for i) = NONCE_LEN /\ (nonce_for i = nonce_for j -> i = j).
Proof.
  intros Hi Hj. split.
  - unfold nonce_for, len. rewrite length_app, be8_len. done.
  - unfold nonce_for. intros H%app_inv_head. by apply be64_inj in H.
Qed.

Lemma nonce_for_unique_witness :
  len (nonce_for 0) = NONCE_LEN /\ bool_decide (nonce_for 0 = nonce_for 1) = false.
Proof.
  destruct (nonce_for_unique 0 1) as [Hl Hi]; [by split; vm_compute..|].
  split; [exact Hl|]. apply bool_decide_eq_false. intros E. discriminate (Hi E).
Defined.

Section CipherLemmas.
Context `{CryptoPrims}.

(** The AAD a cipher binds is the documented encoding, prefix precomputed or not. *)
Lemma aad_for_encode key s u f n fc i :
  FileCipher_new key s u f n = Ok fc ->
  aad_for fc i = match s with
                 | V1 => []
                 | V2 => ChunkAad_encode {| aad_scheme := s; aad_user_id := u; aad_file_id := f;
                                            aad_chunk_count := n; aad_chunk_index := i |}
                 end.
Proof.
  unfold FileCipher_new. intros Hn. step_ok. unfold aad_for. cbn [fc_scheme fc_aad_prefix]. destruct s; [done|].
  unfold ChunkAad_encode. rewrite !lp_concat_lps. unfold push_lp, lps, lp.
  cbn [fmap list_fmap mjoin list_join aad_scheme aad_user_id aad_file_id aad_chunk_count aad_chunk_index].
  by rewrite <- !app_assoc, app_nil_r.
Qed.

Lemma FileCipher_new_fields key s u f n fc :
  FileCipher_new key s u f n = Ok fc ->
  fc_scheme fc = s /\ fc_chunk_count fc = n /\ file_subkey_for key s u f = Ok (fc_sealer fc).
Proof. unfold FileCipher_new. intros Hn. step_ok. done. Qed.

(** Both schemes seal under one AEAD call with [aad_for]. *)
Lemma seal_chunk_ok key s u f n fc buf i c nonce :
  FileCipher_new key s u f n = Ok fc -> seal_chunk fc buf i = Ok (c, nonce) ->
  i <= MAX_CHUNK_INDEX /\ nonce = nonce_for i /\
  aead_seal (fc_sealer fc) (nonce_for i) (aad_for fc i) buf = Some c.
Proof.
  intros Hn Hs. destruct (FileCipher_new_fields _ _ _ _ _ _ Hn) as (Hsch & _ & _).
  assert (Hs' : seal_inner (fc_sealer fc) buf i (aad_for fc i) = Ok (c, nonce)).
  { unfold seal_chunk, seal, seal_with_aad in Hs. unfold aad_for in *. by destruct (fc_scheme fc). }
  unfold seal_inner in Hs'. destruct (Z.ltb_spec MAX_CHUNK_INDEX i); [discriminate|].
  step_ok. done.
Qed.

Lemma open_chunk_ok key s u f n fc i c p :
  FileCipher_new key s u f n = Ok fc -> open_chunk fc i c = Ok p ->
  (s = V2 -> i < n) /\ aead_open (fc_sealer fc) (nonce_for i) (aad_for fc i) c = Some p.
Proof.
  intros Hn Ho. destruct (FileCipher_new_fields _ _ _ _ _ _ Hn) as (<- & <- & _).
  unfold open_chunk, open, open_with_aad, aad_for in *. destruct (fc_scheme fc).
  - apply ok_or_ok in Ho. done.
  - destruct (Z.leb_spec (fc_chunk_count fc) i); [discriminate|]. apply ok_or_ok in Ho. done.
Qed.

Lemma open_chunk_unfold fc i c :
  (fc_scheme fc = V2 -> i < fc_chunk_count fc) ->
  open_chunk fc i c = ok_or (aead_open (fc_sealer fc) (nonce_for i) (aad_for fc i) c) (Crypto "open").
Proof.
  intros Hi. unfold open_chunk, open, open_with_aad, aad_for. destruct (fc_scheme fc); [done|].
  destruct (Z.leb_spec (fc_chunk_count fc) i); [specialize (Hi eq_refl); lia|done].
Qed.

(** Two HKDF inputs of one key with the same output. *)
Definition hkdf_collision (key : bytes) : Prop :=
  exists s i s' i', (s, i) <> (s', i') /\ hkdf s key i = hkdf s' key i' /\ hkdf s key i <> None.

(** One buffer sealed under two different AADs: a forged tag. *)
Definition aad_confusion (c : bytes) : Prop :=
  exists k n a p k' n' a' p', a <> a' /\ aead_seal k n a p = Some c /\ aead_seal k' n' a' p' = Some c.

Context `{!CryptoLaws}.

Lemma subkey_total key s u f : exists k, file_subkey_for key s u f = Ok k /\ len k = KEY_LEN.
Proof.
  destruct s; cbn; unfold file_subkey, file_subkey_v2, derive_raw, derive_v2.
  - destruct (hkdf_total SUBKEY_INFO key f) as (k & -> & ?). by exists k.
  - match goal with |- context [hkdf ?a ?b ?c] => destruct (hkdf_total a b c) as (k & -> & ?) end. by exists k.
Qed.

Lemma FileCipher_total key s u f n :
  exists fc, FileCipher_new key s u f n = Ok fc /\ len (fc_sealer fc) = KEY_LEN.
Proof.
  unfold FileCipher_new. destruct (subkey_total key s u f) as (k & -> & Hk). cbn. by eexists.
Qed.

Lemma seal_chunk_total key s u f n fc buf i :
  FileCipher_new key s u f n = Ok fc -> 0 <= i <= MAX_CHUNK_INDEX -> len buf <= GCM_LIMIT ->
  exists c, seal_chunk fc buf i = Ok (c, nonce_for i) /\ len c = len buf + TAG_LEN /\
    ((s = V2 -> i < n) -> open_chunk fc i c = Ok buf).
Proof.
  intros Hn Hi Hb. destruct (FileCipher_new_fields _ _ _ _ _ _ Hn) as (Hs & Hc & Hk).
  destruct (subkey_total key s u f) as (k & Hk' & Hlen). assert (k = fc_sealer fc) as -> by congruence.
  assert (Hnon : len (nonce_for i) = NONCE_LEN) by (unfold nonce_for, len; rewrite length_app, be8_len; done).
  destruct (aead_seal_total (fc_sealer fc) (nonce_for i) (aad_for fc i) buf Hlen Hnon Hb) as (c & Hseal).
  exists c. split; [|split; [by eapply aead_seal_len|]].
  - assert (Hin : seal_inner (fc_sealer fc) buf i (aad_for fc i) = Ok (c, nonce_for i)).
    { unfold seal_inner. destruct (Z.ltb_spec MAX_CHUNK_INDEX i); [lia|]. by rewrite Hseal. }
    unfold seal_chunk, seal, seal_with_aad. unfold aad_for in *. by destruct (fc_scheme fc).
  - intros Hlt. rewrite open_chunk_unfold by (by rewrite Hs, Hc). by erewrite aead_open_seal.
Qed.

Lemma open_sealed key s u f n fc buf i c nonce :
  FileCipher_new key s u f n = Ok fc -> seal_chunk fc buf i = Ok (c, nonce) ->
  (s = V2 -> i < n) -> open_chunk fc i c = Ok buf.
Proof.
  intros Hn Hs Hi. destruct (FileCipher_new_fields _ _ _ _ _ _ Hn) as (Hsch & Hc & _).
  destruct (seal_chunk_ok _ _ _ _ _ _ _ _ _ _ Hn Hs) as (_ & _ & Hseal).
  rewrite open_chunk_unfold by (by rewrite Hsch, Hc). by erewrite aead_open_seal.
Qed.
End CipherLemmas.

Section CipherTheorems.
Context `{CryptoPrims}.

(** The AAD a file cipher binds at each chunk, assembled from its precomputed prefix, is
    the documented canonical encoding of (scheme, user, file, chunk count, index) under v2
    and empty under v1. *)
Theorem file_cipher_aad key s u f n fc i :
  FileCipher_new key s u f n = Ok fc ->
  aad_for fc i = match s with
                 | V1 => []
                 | V2 => ChunkAad_encode {| aad_scheme := s; aad_user_id := u; aad_file_id := f;
                                            aad_chunk_count := n; aad_chunk_index := i |}
                 end.
Proof. apply aad_for_encode. Qed.

Lemma chunk_aad_inj u f n i u' f' n' i' s s' :
  fits u -> fits f -> u64 n -> u64 i -> fits u' -> fits f' -> u64 n' -> u64 i' ->
  ChunkAad_encode (Build_ChunkAad s u f n i) = ChunkAad_encode (Build_ChunkAad s' u' f' n' i') ->
  (s, u, f, n, i) = (s', u', f', n', i').
Proof.
  intros Hu Hf Hn Hi Hu' Hf' Hn' Hi' E. unfold ChunkAad_encode in E.
  apply lp_concat_inj in E;
    [|repeat constructor; cbn [aad_user_id aad_file_id]; try done; apply fits_be8..].
  cbn [aad_scheme aad_user_id aad_file_id aad_chunk_count aad_chunk_index] in E.
  apply (inj2 cons) in E as [_ E]. apply (inj2 cons) in E as [Es E].
  apply (inj2 cons) in E as [-> E]. apply (inj2 cons) in E as [-> E].
  apply (inj2 cons) in E as [En E]. apply (inj2 cons) in E as [Ei _].
  apply be64_inj in En as ->; [|done..]. apply be64_inj in Ei as ->; [|done..].
  by destruct s, s'.
Qed.


(** Sealing a chunk under either scheme and opening it in the same context gives back the
    plaintext, with sixteen bytes of tag and the counter nonce; sealing refuses an index above
    the per-key bound, and v2 opening one at or beyond the chunk count. *)
Theorem seal_open_chunk key s u f n fc buf i :
  CryptoLaws -> FileCipher_new key s u f n = Ok fc -> len buf <= GCM_LIMIT -> 0 <= i ->
  (if MAX_CHUNK_INDEX <? i then exists e, seal_chunk fc buf i = Err e
   else exists c, seal_chunk fc buf i = Ok (c, nonce_for i) /\ len c = len buf + TAG_LEN /\
     (if decide (s = V2 /\ n <= i) then exists e, open_chunk fc i c = Err e
      else open_chunk fc i c = Ok buf)).
Proof.
  intros Laws Hn Hb Hi. destruct (FileCipher_new_fields _ _ _ _ _ _ Hn) as (Hs & Hc & _).
  destruct (Z.ltb_spec MAX_CHUNK_INDEX i) as [Hgt|Hle].
  - unfold seal_chunk, seal, seal_with_aad, seal_inner.
    destruct (Z.ltb_spec MAX_CHUNK_INDEX i); [|lia]. destruct (fc_scheme fc); by eexists.
  - destruct (seal_chunk_total _ _ _ _ _ _ buf i Hn) as (c & Hseal & Hl & Ho); [lia|done|].
    exists c. split; [done|split; [done|]]. destruct (decide (s = V2 /\ n <= i)) as [[-> Hni]|Hno].
    + unfold open_chunk. rewrite Hs, Hc. destruct (Z.leb_spec n i); [by eexists|lia].
    + apply Ho. intros ->. destruct (decide (i < n)); [done|]. exfalso. apply Hno. split; [done|lia].
Qed.

Lemma derive_v2_info key d ps :
  derive_v2 key d ps = ok_or (hkdf HKDF_SALT_V2 key (lps64 (d :: ps))) (Crypto "hkdf expand").
Proof. unfold derive_v2. rewrite push_lp_lps. unfold push_lp, lps. cbn [fmap list_fmap mjoin list_join app]. done. Qed.

(** Content subkeys are separated: one key for two derivations of a data key means the
    same scheme, the same file and, under v2, the same owner, unless HKDF collides. *)
Theorem file_subkey_separation key s u f s' u' f' k :
  fits u -> fits f -> fits u' -> fits f' ->
  file_subkey_for key s u f = Ok k -> file_subkey_for key s' u' f' = Ok k ->
  (s = s' /\ f = f' /\ (s = V2 -> u = u')) \/ hkdf_collision key.
Proof.
  intros Hu Hf Hu' Hf' H1 H2. unfold file_subkey_for, file_subkey, file_subkey_v2, derive_raw in *.
  destruct s, s'; rewrite ?derive_v2_info in *; apply ok_or_ok in H1, H2.
  - destruct (decide (f = f')) as [->|Hne]; [left; split; [done|split; [done|discriminate]]|].
    right. exists SUBKEY_INFO, f, SUBKEY_INFO, f'. split; [congruence|]. split; congruence.
  - right. eexists _, _, _, _. split; [|split; [rewrite H1, H2; reflexivity|congruence]]. intros [=].
  - right. eexists _, _, _, _. split; [|split; [rewrite H1, H2; reflexivity|congruence]]. intros [=].
  - destruct (decide ([FILE_SUBKEY_DOMAIN_V2; u; f] = [FILE_SUBKEY_DOMAIN_V2; u'; f'])) as [E|Hne].
    + injection E as -> ->. by left.
    + right. eexists _, _, _, _. split; [|split; [rewrite H1, H2; reflexivity|congruence]].
      intros E. apply Hne. apply (f_equal snd) in E. cbn [snd] in E.
      apply lps64_inj in E; [done|by repeat constructor..].
Qed.
End CipherTheorems.

(** ** The theorems at concrete inputs *)
Module CryptoWitness.
Import Toy.
Definition key : bytes := zeros 32.
Definition user : bytes := as_bytes "u-1".
Definition file : bytes := as_bytes "0123456789abcdef".
Definition text : bytes := as_bytes "chunk".

(** A cipher of a three-chunk file and its second chunk, sealed. *)
Lemma sealed_chunk :
  exists fc c, FileCipher_new key V2 user file 3 = Ok fc /\ seal_chunk fc text 1 = Ok (c, nonce_for 1) /\
    open_chunk fc 1 c = Ok text.
Proof.
  destruct (FileCipher_total key V2 user file 3) as (fc & Hn & _).
  destruct (seal_chunk_total key V2 user file 3 fc text 1 Hn) as (c & Hs & _ & Ho); [done..|].
  exists fc, c. split; [done|split; [done|]]. by apply Ho.
Qed.

Lemma file_cipher_aad_witness :
  exists fc, FileCipher_new key V2 user file 3 = Ok fc /\
    aad_for fc 1 = ChunkAad_encode (Build_ChunkAad V2 user file 3 1).
Proof.
  destruct sealed_chunk as (fc & _ & Hn & _). exists fc. split; [exact Hn|].
  exact (file_cipher_aad key V2 user file 3 fc 1 Hn).
Defined.


Lemma seal_open_chunk_witness :
  exists fc c, seal_chunk fc text 1 = Ok (c, nonce_for 1) /\ len c = len text + TAG_LEN /\
    open_chunk fc 1 c = Ok text.
Proof.
  destruct sealed_chunk as (fc & _ & Hn & _). exists fc.
  exact (seal_open_chunk key V2 user file 3 fc text 1 crypto_laws Hn ltac:(done) ltac:(done)).
Defined.

Lemma file_subkey_separation_witness :
  (V2 = V2 /\ file = file /\ (V2 = V2 -> user = user)) \/ hkdf_collision key.
Proof.
  destruct (subkey_total key V2 user file) as (k & Hk & _).
  apply (file_subkey_separation key V2 user file V2 user file k); first [exact Hk | by vm_compute].
Defined.
End CryptoWitness.
