(* ===== verification/Pipeline.v ===== *)
(** * The upload pipeline ([crates/core/src/chunker.rs], [pipeline.rs])

    Entropy-gated compression, and the per-file pipeline: cut into chunks, compress, seal
    under the file cipher, compute the parity shards. [f64] is Rocq's primitive binary64;
    [f64::log2], whose last bits the Rust documentation leaves open, is the parameter [log2].
    The chunks are processed in parallel and collected in order: [mapR]. *)

From Stdlib Require Import Floats Uint63.
From Stdlib Require Import ZArith Lia Strings.Byte.
From stdpp Require Import base numbers list gmap strings.
From S2P Require Import Prelude External Erasure Crypto RSCode.

Definition DEFAULT_CHUNK_SIZE : Z := 4 * 1024 * 1024.
Definition FAST_ZSTD_LEVEL : Z := 3.
Definition ENTROPY_SAMPLE : Z := 16 * 1024.
Definition DEFAULT_ENTROPY_SKIP : float := 0x1.f333333333333p+2%float.

(** [as f64] of a count. *)
Definition f64_of (v : Z) : float := PrimFloat.of_uint63 (Uint63.of_Z v).

(** [f64::log2]. *)
Class Log2 := log2 : float -> float.

Record PipelineConfig := {
  chunk_size : Z;
  entropy_skip : float;
  zstd_level : Z
}.
Definition PipelineConfig_default : PipelineConfig :=
  {| chunk_size := DEFAULT_CHUNK_SIZE; entropy_skip := DEFAULT_ENTROPY_SKIP;
     zstd_level := FAST_ZSTD_LEVEL |}.

(** Output for one chunk: [cipher] is the ten data shards, sliced on demand. *)
Record ProcessedChunk := {
  pc_index : Z;
  pc_nonce : bytes;
  pc_is_compressed : bool;
  pc_plaintext_len : Z;
  pc_cipher : bytes;
  pc_shard_len : Z;
  pc_recovery : list bytes
}.

Definition split_chunks (data : bytes) (size : Z) : list bytes := chunks size data.

(** Refuses a zero chunk size; [div_ceil] cannot overflow. *)
Definition chunk_count_for (length size : Z) : res CoreError Z :=
  if size =? 0 then Err (Crypto "chunk size must be non-zero") else Ok (div_ceil length size).

Definition restore `{Zstd} (data : bytes) (is_compressed : bool) : res string bytes :=
  if is_compressed then zstd_decode data else Ok data.

Section Pipeline.
Context `{CryptoPrims} `{Zstd} `{Log2} `{ReedSolomon}.

Definition histogram (sample : bytes) : list Z :=
  foldl (fun hist b => alter (Z.add 1) (Z.to_nat (b2z b)) hist) (replicate 256 0) sample.

Definition sample_entropy (sample : bytes) : float :=
  if len sample =? 0 then 0%float
  else
    let hist := histogram sample in
    let n := f64_of (len sample) in
    foldl (fun h c => if 0 <? c
                      then let p := PrimFloat.div (f64_of c) n in
                           PrimFloat.sub h (PrimFloat.mul p (log2 p))
                      else h) 0%float hist.

Definition maybe_compress (data : bytes) (entropy_skip : float) (level : Z) : bytes * bool :=
  let sample := take (Z.to_nat (Z.min (len data) ENTROPY_SAMPLE)) data in
  if PrimFloat.leb entropy_skip (sample_entropy sample) then (data, false)
  else match zstd_encode data level with
       | Some c => if len c <? len data then (c, true) else (data, false)
       | None => (data, false)
       end.

(** The closure run on each chunk. *)
Definition process_chunk (cipher : FileCipher) (cfg : PipelineConfig) (p : nat * bytes)
    : res CoreError ProcessedChunk :=
  let '(index, chunk) := p in
  let plaintext_len := len chunk in
  let '(buf, is_compressed) := maybe_compress chunk (entropy_skip cfg) (zstd_level cfg) in
  s ← seal_chunk cipher buf (Z.of_nat index);
  let '(buf, nonce) := s : bytes * bytes in
  r ← encode_recovery buf;
  let '(shard_len, recovery) := r : Z * list bytes in
  Ok {| pc_index := Z.of_nat index; pc_nonce := nonce; pc_is_compressed := is_compressed;
        pc_plaintext_len := plaintext_len; pc_cipher := buf; pc_shard_len := shard_len;
        pc_recovery := recovery |}.

Definition process_with_scheme (data data_key : bytes) (scheme : KeyScheme) (user_id file_id : bytes)
    (cfg : PipelineConfig) : res CoreError (list ProcessedChunk) :=
  chunk_count ← chunk_count_for (len data) (chunk_size cfg);
  cipher ← FileCipher_new data_key scheme user_id file_id chunk_count;
  mapR (process_chunk cipher cfg) (imap pair (chunks (chunk_size cfg) data)).

Definition process (data data_key file_id : bytes) (cfg : PipelineConfig) :=
  process_with_scheme data data_key V1 [] file_id cfg.
Definition process_v2 (data data_key user_id file_id : bytes) (cfg : PipelineConfig) :=
  process_with_scheme data data_key V2 user_id file_id cfg.
End Pipeline.

Section PipelineLemmas.
Context `{CryptoPrims} `{Zstd} `{Log2} `{ReedSolomon}.

Lemma maybe_compress_len data skip level : len (maybe_compress data skip level).1 <= len data.
Proof.
  unfold maybe_compress. destruct (PrimFloat.leb _ _); [cbn; lia|].
  destruct (zstd_encode data level) as [c|]; [|cbn; lia].
  destruct (Z.ltb_spec (len c) (len data)); cbn; lia.
Qed.

Lemma restore_compressed `{!ZstdLaws} data skip level buf z :
  maybe_compress data skip level = (buf, z) -> restore buf z = Ok data.
Proof.
  unfold maybe_compress, restore. destruct (PrimFloat.leb _ _); [by intros [= <- <-]|].
  destruct (zstd_encode data level) as [c|] eqn:E; [|by intros [= <- <-]].
  destruct (len c <? len data); intros [= <- <-]; [|done]. by eapply zstd_roundtrip.
Qed.

(** Compression is gated but lossless: whatever the entropy estimate decides, the buffer
    that is sealed is no longer than the chunk and [restore] gives the chunk back. *)
Theorem maybe_compress_restore data skip level :
  ZstdLaws ->
  let '(buf, z) := maybe_compress data skip level in
  restore buf z = Ok data /\ len buf <= len data.
Proof.
  intros Laws. pose proof (maybe_compress_len data skip level) as Hl.
  destruct (maybe_compress data skip level) as [buf z] eqn:E. split; [|exact Hl].
  by eapply restore_compressed.
Qed.

(** The chunk count bound into every tag is the number of pieces the data is cut into,
    and the pieces, all but the last of the full size, concatenate to the data. *)
Theorem chunk_count_agrees data size n :
  0 <= size -> chunk_count_for (len data) size = Ok n ->
  n = len (split_chunks data size) /\ mjoin (split_chunks data size) = data /\
  (forall i c, split_chunks data size !! i = Some c ->
     0 < len c <= size /\ (Z.of_nat i < n - 1 -> len c = size)).
Proof.
  unfold chunk_count_for, split_chunks. intros Hs. destruct (Z.eqb_spec size 0); [discriminate|].
  intros [= <-]. assert (Hp : 0 < size) by lia.
  split; [by rewrite chunks_count|split; [by apply chunks_concat|]].
  intros i c Hi. split; [by eapply (chunks_bounds size data), list_elem_of_lookup_2|].
  intros Hlt. apply chunks_lookup in Hi as ->; [|done].
  pose proof (div_ceil_spec (len data) size Hp).
  unfold len in *. rewrite length_take, length_drop. nia.
Qed.

(** What the pipeline emits for the chunk at [i]. *)
Definition chunk_emitted (fc : FileCipher) (i : nat) (chunk : bytes) (pc : ProcessedChunk) : Prop :=
  pc_index pc = Z.of_nat i /\ pc_plaintext_len pc = len chunk /\
  pc_nonce pc = nonce_for (Z.of_nat i) /\ pc_shard_len pc = shard_len (len (pc_cipher pc)) /\
  encode_recovery (pc_cipher pc) = Ok (pc_shard_len pc, pc_recovery pc) /\
  exists buf, seal_chunk fc buf (Z.of_nat i) = Ok (pc_cipher pc, pc_nonce pc) /\
    restore buf (pc_is_compressed pc) = Ok chunk /\ len buf <= len chunk.

Lemma process_chunk_ok `{!ZstdLaws} key s u f n fc cfg i chunk pc :
  FileCipher_new key s u f n = Ok fc ->
  process_chunk fc cfg (i, chunk) = Ok pc -> chunk_emitted fc i chunk pc.
Proof.
  unfold process_chunk. intros Hn Hp.
  destruct (maybe_compress _ _ _) as [buf z] eqn:Em.
  apply bind_ok in Hp as ([c nonce] & Hs & Hp). apply bind_ok in Hp as ([sl rec] & Hr & Hp).
  injection Hp as <-. unfold chunk_emitted; cbn.
  destruct (seal_chunk_ok _ _ _ _ _ _ _ _ _ _ Hn Hs) as (_ & -> & _).
  split; [done|split; [done|split; [done|split; [|split; [done|]]]]].
  - rewrite encode_recovery_blocks in Hr. apply bind_ok in Hr as (? & _ & [= <- <-]). done.
  - exists buf. split; [done|split; [by eapply restore_compressed|]].
    pose proof (maybe_compress_len chunk (entropy_skip cfg) (zstd_level cfg)) as Hl. by rewrite Em in Hl.
Qed.

Lemma process_chunk_total `{!CryptoLaws} `{!ReedSolomonLaws} key s u f n fc cfg i chunk :
  FileCipher_new key s u f n = Ok fc -> Z.of_nat i <= MAX_CHUNK_INDEX -> len chunk <= GCM_LIMIT ->
  exists pc, process_chunk fc cfg (i, chunk) = Ok pc.
Proof.
  intros Hn Hi Hl. unfold process_chunk.
  pose proof (maybe_compress_len chunk (entropy_skip cfg) (zstd_level cfg)) as Hb.
  destruct (maybe_compress _ _ _) as [buf z]. cbn in Hb.
  destruct (seal_chunk_total _ _ _ _ _ _ buf (Z.of_nat i) Hn) as (c & -> & _); [lia|lia|].
  cbn [mbind res_bind]. rewrite encode_recovery_blocks.
  destruct (encode_total c) as (rec & -> & _). cbn. by eexists.
Qed.

Lemma process_ok `{!ZstdLaws} data key s u f cfg pcs :
  0 <= chunk_size cfg -> process_with_scheme data key s u f cfg = Ok pcs ->
  exists fc, FileCipher_new key s u f (div_ceil (len data) (chunk_size cfg)) = Ok fc /\ 0 < chunk_size cfg /\
    length pcs = length (chunks (chunk_size cfg) data) /\
    forall i pc, pcs !! i = Some pc ->
      exists chunk, chunks (chunk_size cfg) data !! i = Some chunk /\ chunk_emitted fc i chunk pc.
Proof.
  intros Hcs Hp. unfold process_with_scheme in Hp.
  apply bind_ok in Hp as (n & Hc & Hp). apply bind_ok in Hp as (fc & Hfc & Hp).
  unfold chunk_count_for in Hc. destruct (Z.eqb_spec (chunk_size cfg) 0); [discriminate|].
  injection Hc as <-. exists fc. split; [done|split; [lia|]].
  apply mapR_ok in Hp. split.
  - apply Forall2_length in Hp. by rewrite length_imap in Hp.
  - intros i pc Hi. destruct (Forall2_lookup_r _ _ _ _ _ Hp Hi) as ([j chunk] & Hj & Hpc).
    rewrite list_lookup_imap in Hj. apply fmap_Some in Hj as (ch & Hch & [= -> ->]).
    exists ch. split; [done|]. by eapply process_chunk_ok.
Qed.

Lemma mapR_total {E A B} (f : A -> res E B) xs :
  (forall x, x ∈ xs -> exists y, f x = Ok y) -> exists ys, mapR f xs = Ok ys.
Proof.
  induction xs as [|x xs IH]; intros Hx; cbn; [by eexists|].
  destruct (Hx x) as (y & ->); [left|]. destruct IH as (ys & ->); [intros; apply Hx; by right|].
  cbn. by eexists.
Qed.

Lemma process_total `{!CryptoLaws} `{!ReedSolomonLaws} data key s u f cfg :
  0 < chunk_size cfg <= GCM_LIMIT -> len data <= chunk_size cfg * 2 ^ 32 ->
  exists pcs, process_with_scheme data key s u f cfg = Ok pcs.
Proof.
  intros Hcs Hl. unfold process_with_scheme, chunk_count_for.
  destruct (Z.eqb_spec (chunk_size cfg) 0); [lia|]. cbn [mbind res_bind].
  destruct (FileCipher_total key s u f (div_ceil (len data) (chunk_size cfg))) as (fc & Hfc & _).
  rewrite Hfc. cbn [mbind res_bind]. apply mapR_total. intros [i c] Hx.
  apply list_elem_of_lookup in Hx as (j & Hj). rewrite list_lookup_imap in Hj.
  apply fmap_Some in Hj as (ch & Hch & [= -> ->]).
  eapply process_chunk_total; [done| |].
  - apply lookup_lt_Some in Hch. pose proof (chunks_count (chunk_size cfg) data ltac:(lia)) as Hn.
    pose proof (div_ceil_spec (len data) (chunk_size cfg) ltac:(lia)).
    change MAX_CHUNK_INDEX with (2 ^ 32 - 1). unfold len in *. nia.
  - apply list_elem_of_lookup_2, chunks_bounds in Hch; lia.
Qed.
End PipelineLemmas.

(** ** Concrete inputs *)
Module PipelineWitness.
Import Toy.
#[local] Instance flat_log2 : Log2 := fun _ => 0%float.

Lemma maybe_compress_restore_witness :
  maybe_compress (zeros 40) DEFAULT_ENTROPY_SKIP 3 = (x01 :: be_bytes 8 40, true) /\
  restore (x01 :: be_bytes 8 40) true = Ok (zeros 40) /\ len (x01 :: be_bytes 8 40) <= len (zeros 40).
Proof.
  split; [by vm_compute|].
  pose proof (maybe_compress_restore (zeros 40) DEFAULT_ENTROPY_SKIP 3 zstd_laws) as Hm.
  exact Hm.
Defined.

Lemma chunk_count_agrees_witness :
  chunk_count_for (len (zeros 10)) 4 = Ok 3 /\ 3 = len (split_chunks (zeros 10) 4) /\
  mjoin (split_chunks (zeros 10) 4) = zeros 10.
Proof.
  destruct (chunk_count_agrees (zeros 10) 4 3) as (H1 & H2 & _); [done|by vm_compute|].
  split; [by vm_compute|split; [exact H1|exact H2]].
Defined.
End PipelineWitness.
