(* ===== verification/Paths.v ===== *)
(** * Strings, paths and SQL pattern matching

    The string functions the manifest uses: "/"-separated paths ([dirname], [basename],
    trimming, splitting) and SQLite's LIKE operator, which is case-insensitive on ASCII and
    in which [%] and [_] are wildcards. A Rust [String] is the [string] of its UTF-8 bytes. *)

From Stdlib Require Import ZArith Lia Strings.Ascii Strings.String.
From stdpp Require Import base numbers list gmap strings.
From S2P Require Import Prelude.

Definition slash : ascii := "/"%char.
Definition chars (s : string) : list ascii := list_ascii_of_string s.
Definition unchars (l : list ascii) : string := string_of_list_ascii l.

Lemma chars_unchars l : chars (unchars l) = l.
Proof. apply list_ascii_of_string_of_list_ascii. Qed.
Lemma unchars_chars s : unchars (chars s) = s.
Proof. apply string_of_list_ascii_of_string. Qed.
Lemma chars_app s t : chars (s ++ t)%string = chars s ++ chars t.
Proof.
  unfold chars. induction s as [|c s IH]; [done|].
  change (c :: list_ascii_of_string (s ++ t)%string = c :: list_ascii_of_string s ++ list_ascii_of_string t).
  by f_equal.
Qed.
Lemma chars_inj s t : chars s = chars t -> s = t.
Proof. intros H. by rewrite <- (unchars_chars s), H, unchars_chars. Qed.
Lemma unchars_inj l k : unchars l = unchars k -> l = k.
Proof. intros H. by rewrite <- (chars_unchars l), H, chars_unchars. Qed.

Lemma string_app_inj_l (p s t : string) : (p ++ s)%string = (p ++ t)%string -> s = t.
Proof. induction p as [|c p IH]; cbn; [done|]. intros [= H]. by apply IH. Qed.

(** [str::rfind('/')]. *)
Fixpoint rfind_slash (l : list ascii) : option nat :=
  match l with
  | [] => None
  | c :: l =>
      match rfind_slash l with
      | Some i => Some (S i)
      | None => if bool_decide (c = slash) then Some O else None
      end
  end.

(** Directory part of a path ("" for a top-level entry). *)
Definition dirname (path : string) : string :=
  match rfind_slash (chars path) with
  | Some i => unchars (take i (chars path))
  | None => ""
  end.

(** Last segment of a path. *)
Definition basename (path : string) : string :=
  match rfind_slash (chars path) with
  | Some i => unchars (drop (S i) (chars path))
  | None => path
  end.

(** [trim_matches('/')]. *)
Fixpoint trim_start (l : list ascii) : list ascii :=
  match l with c :: l' => if bool_decide (c = slash) then trim_start l' else l | [] => [] end.
Definition trim_slashes (s : string) : string :=
  unchars (reverse (trim_start (reverse (trim_start (chars s))))).

(** [split('/')]: the segments, empty ones included. *)
Fixpoint split_slash (l : list ascii) : list (list ascii) :=
  match l with
  | [] => [[]]
  | c :: l =>
      if bool_decide (c = slash) then [] :: split_slash l
      else match split_slash l with seg :: segs => (c :: seg) :: segs | [] => [[c]] end
  end.

(** [strip_prefix] and [split_once('/')]. *)
Fixpoint strip_prefix (p s : list ascii) : option (list ascii) :=
  match p, s with
  | [], _ => Some s
  | c :: p, d :: s => if bool_decide (c = d) then strip_prefix p s else None
  | _ :: _, [] => None
  end.
Definition starts_with (p s : string) : bool := bool_decide (is_Some (strip_prefix (chars p) (chars s))).
Fixpoint split_once_slash (l : list ascii) : option (list ascii * list ascii) :=
  match l with
  | [] => None
  | c :: l =>
      if bool_decide (c = slash) then Some ([], l)
      else match split_once_slash l with Some (a, b) => Some (c :: a, b) | None => None end
  end.

(** SQLite compares text byte by byte. *)
Definition str_le (s t : string) : Prop := Is_true (String.leb s t).
#[export] Instance str_le_dec s t : Decision (str_le s t).
Proof. unfold str_le. apply _. Defined.

(** ** LIKE *)

(** The characters of a UTF-8 string: a lead byte and its continuation bytes. *)
Definition continuation (c : ascii) : bool :=
  let n := nat_of_ascii c in (128 <=? n)%nat && (n <? 192)%nat.
Fixpoint utf8_chars (l : list ascii) : list (list ascii) :=
  match l with
  | [] => []
  | c :: l =>
      match utf8_chars l with
      | (d :: ds) :: rest =>
          if (192 <=? nat_of_ascii c)%nat && continuation d then (c :: d :: ds) :: rest
          else if continuation c && continuation d then (c :: d :: ds) :: rest
          else [c] :: (d :: ds) :: rest
      | rest => [c] :: rest
      end
  end.

(** Upper case ASCII letters are folded to lower case. *)
Definition fold_char (c : list ascii) : list ascii :=
  match c with
  | [a] => let n := nat_of_ascii a in
           if (65 <=? n)%nat && (n <=? 90)%nat then [ascii_of_nat (n + 32)] else [a]
  | _ => c
  end.

Fixpoint suffixes {A} (l : list A) : list (list A) :=
  match l with [] => [[]] | _ :: l' => l :: suffixes l' end.

(** [%] matches any run of characters, [_] any one character. *)
Fixpoint like_chars (p s : list (list ascii)) : bool :=
  match p with
  | [] => match s with [] => true | _ => false end
  | c :: p =>
      if bool_decide (c = ["%"%char]) then existsb (like_chars p) (suffixes s)
      else match s with
           | [] => false
           | d :: s => (bool_decide (c = ["_"%char]) || bool_decide (fold_char c = fold_char d)) && like_chars p s
           end
  end.
Definition like (s pattern : string) : bool :=
  like_chars (utf8_chars (chars pattern)) (utf8_chars (chars s)).

Example like_wildcard : like "axb/c" "a_b/%" = true.
Proof. reflexivity. Qed.
Example like_case : like "FOO/c" "foo/%" = true.
Proof. reflexivity. Qed.
Example like_no : like "foobar" "foo/%" = false.
Proof. reflexivity. Qed.

(** ** Lemmas *)

Lemma strip_prefix_spec p s r : strip_prefix p s = Some r <-> s = p ++ r.
Proof.
  revert s; induction p as [|c p IH]; intros s; cbn; [split; [intros [= ->]|intros ->]; done|].
  destruct s as [|d s]; [split; discriminate|]. case_bool_decide as E.
  - subst. rewrite IH. split; [by intros ->|by intros [= ->]].
  - split; [discriminate|]. intros [= <- _]. done.
Qed.

Lemma starts_with_spec p s : starts_with p s = true <-> exists r, s = (p ++ r)%string.
Proof.
  unfold starts_with. rewrite bool_decide_eq_true. split.
  - intros [r Hr%strip_prefix_spec]. exists (unchars r). apply chars_inj. by rewrite chars_app, chars_unchars.
  - intros [r ->]. exists (chars r). apply strip_prefix_spec. by rewrite chars_app.
Qed.

Lemma rfind_slash_split l i :
  rfind_slash l = Some i -> l = take i l ++ slash :: drop (S i) l /\ slash ∉ drop (S i) l.
Proof.
  revert i; induction l as [|c l IH]; intros i; cbn; [discriminate|].
  destruct (rfind_slash l) as [j|] eqn:E.
  - intros [= <-]. destruct (IH j eq_refl) as [Hl Hn]. cbn. split; [by rewrite <- Hl|done].
  - case_bool_decide as Hc; [|discriminate]. intros [= <-]. subst. cbn. rewrite drop_0. split; [done|].
    clear IH. induction l as [|d l IHl]; [apply not_elem_of_nil|]. cbn in E.
    destruct (rfind_slash l); [discriminate|]. case_bool_decide; [discriminate|].
    apply not_elem_of_cons. split; [congruence|]. by apply IHl.
Qed.

(** A path with a slash is its directory, a slash and its last segment. *)
Lemma dirname_basename path :
  dirname path <> "" -> path = (dirname path ++ String slash (basename path))%string.
Proof.
  unfold dirname, basename. destruct (rfind_slash (chars path)) as [i|] eqn:E; [|done].
  intros _. apply rfind_slash_split in E as [E _]. apply chars_inj. rewrite chars_app. cbn.
  fold (chars (unchars (drop (S i) (chars path)))). by rewrite !chars_unchars.
Qed.
