(* ===== verification/Text.v ===== *)
(** * Text functions of the standard library

    [str::trim], [str::lines], [str::to_ascii_uppercase] and [str::parse::<i64>] on UTF-8
    bytes, for the parts that read text typed by a person. *)

From Stdlib Require Import ZArith Lia Strings.Ascii Strings.String.
From stdpp Require Import base numbers list strings.
From S2P Require Import Prelude Paths.

(** ** [str::trim] *)

(** The UTF-8 forms of the characters with the [White_Space] property. *)
Definition white_space : list (list ascii) :=
  let c := fun l => ascii_of_nat <$> l in
  (c <$> ((fun n => [n]) <$> [9; 10; 11; 12; 13; 32])%nat) ++
  (c <$> [[194; 133]; [194; 160]; [225; 154; 128]; [226; 128; 168]; [226; 128; 169]; [226; 128; 175];
          [226; 129; 159]; [227; 128; 128]]%nat) ++
  ((fun n => c [226; 128; n]%nat) <$> seq 128 11).

Definition strip_any (ws : list (list ascii)) (l : list ascii) : option (list ascii) :=
  head (omap (fun w => strip_prefix w l) ws).
Fixpoint trim_ws (fuel : nat) (ws : list (list ascii)) (l : list ascii) : list ascii :=
  match fuel with
  | O => l
  | S fuel => match strip_any ws l with Some l => trim_ws fuel ws l | None => l end
  end.
Definition trim (s : string) : string :=
  let l := trim_ws (String.length s) white_space (chars s) in
  unchars (rev (trim_ws (length l) (@rev ascii <$> white_space) (rev l))).

(** ** Lines *)

(** The pieces between newlines. *)
Fixpoint split_newlines (l : list ascii) : list (list ascii) :=
  match l with
  | [] => [[]]
  | c :: l =>
      if (nat_of_ascii c =? 10)%nat then [] :: split_newlines l
      else match split_newlines l with p :: ps => (c :: p) :: ps | [] => [[c]] end
  end.
(** A final empty piece is no line; a carriage return before a newline is dropped. *)
Definition strip_cr (l : list ascii) : list ascii :=
  match rev l with c :: r => if (nat_of_ascii c =? 13)%nat then rev r else l | [] => l end.
Definition lines (s : string) : list string :=
  let ps := split_newlines (chars s) in
  let body := strip_cr <$> take (length ps - 1) ps in
  unchars <$> (body ++ match last ps with Some [] | None => [] | Some p => [p] end).

(** ** Case and numbers *)

Definition upper (c : ascii) : ascii :=
  let n := nat_of_ascii c in if (97 <=? n)%nat && (n <=? 122)%nat then ascii_of_nat (n - 32) else c.
Definition to_ascii_uppercase (s : string) : string := unchars (upper <$> chars s).

Lemma upper_upper c : upper (upper c) = upper c.
Proof. destruct c as [[] [] [] [] [] [] [] []]; reflexivity. Qed.
Lemma uppercase_idem s : to_ascii_uppercase (to_ascii_uppercase s) = to_ascii_uppercase s.
Proof.
  unfold to_ascii_uppercase. rewrite chars_unchars, <- list_fmap_compose. f_equal.
  apply list_fmap_ext. intros _ c _. apply upper_upper.
Qed.

Definition digit (c : ascii) : option Z :=
  let n := nat_of_ascii c in if (48 <=? n)%nat && (n <=? 57)%nat then Some (Z.of_nat (n - 48)) else None.
Fixpoint digits (acc : Z) (l : list ascii) : option Z :=
  match l with
  | [] => Some acc
  | c :: l => match digit c with Some d => digits (acc * 10 + d) l | None => None end
  end.
(** An optional sign, at least one digit, within 64 bits. *)
Definition parse_i64 (s : string) : option Z :=
  n ← match chars s with
      | c :: l =>
          if (nat_of_ascii c =? 45)%nat then match l with [] => None | _ => Z.opp <$> digits 0 l end
          else if (nat_of_ascii c =? 43)%nat then match l with [] => None | _ => digits 0 l end
          else digits 0 (c :: l)
      | [] => None
      end;
  if (- 2 ^ 63 <=? n) && (n <? 2 ^ 63) then Some n else None.

Example parse_padded : parse_i64 (trim " 900 ") = Some 900.
Proof. reflexivity. Qed.
Example parse_overflow : parse_i64 "9223372036854775808" = None.
Proof. reflexivity. Qed.
Example lines_crlf : lines ("a" ++ String (ascii_of_nat 13) (String (ascii_of_nat 10) "b")) = ["a"; "b"]%string.
Proof. reflexivity. Qed.
