(* ===== verification/Instance.v ===== *)
(** * Instance settings ([crates/server/src/config/instance.rs])

    The administrator's settings as the core sends them, read into [InstanceConfig] with the
    compiled defaults for whatever is missing, malformed or out of range. The HTTP request
    that fetches them is not modelled. *)

From Stdlib Require Import ZArith Lia Strings.Ascii Strings.String.
From stdpp Require Import base numbers list strings.
From S2P Require Import Prelude Paths Text.

Definition GIB : Z := 1024 * 1024 * 1024.

Record InstanceConfig := mkInstance {
  default_quota_bytes : Z;
  max_upload_bytes : Z;
  repair_interval_secs : Z;
  peer_down_threshold : Z;
  jurisdiction_allow : list string;
  retention_grace_days : Z;
  retention_reclaim_days : Z;
  retention_evict_days : Z
}.
Definition InstanceConfig_default : InstanceConfig := mkInstance 0 (2 * GIB) 600 5 [] 14 45 180.

(** [serde_json::Value], as far as it is read: [as_i64] of a number, a string, the rest. *)
Inductive Value := Number (as_i64 : option Z) | Str (s : string) | Other.

(** ** Country lists *)

Definition add_code (out : list string) (line : string) : list string :=
  let code := to_ascii_uppercase (trim line) in
  if bool_decide (code = ""%string) || bool_decide (code ∈ out) then out else out ++ [code].
Definition parse_country_list (raw : string) : list string := foldl add_code [] (lines raw).

(** The list of the administrator, without blanks or repeats. *)
Definition is_list_of (raw : list string) (out : list string) : Prop :=
  NoDup out /\ forall code, code ∈ out <-> code <> ""%string /\ exists line, line ∈ raw /\ code = to_ascii_uppercase (trim line).

Lemma add_code_spec raw out line : is_list_of raw out -> is_list_of (raw ++ [line]) (add_code out line).
Proof.
  intros [Hnd Hin]. unfold add_code. set (code := to_ascii_uppercase (trim line)).
  assert (Hline : forall c, (exists l, l ∈ raw ++ [line] /\ c = to_ascii_uppercase (trim l)) <->
                            (exists l, l ∈ raw /\ c = to_ascii_uppercase (trim l)) \/ c = code).
  { intros c. split.
    - intros (l & [Hl|Hl]%elem_of_app & ->); [left; by exists l|]. apply list_elem_of_singleton in Hl as ->. by right.
    - intros [(l & Hl & ->)| ->]; [exists l|exists line]; (split; [apply elem_of_app|done]); [by left|right; left]. }
  destruct (bool_decide (code = ""%string) || bool_decide (code ∈ out)) eqn:E.
  - split; [done|]. intros c. rewrite Hline, Hin. split; [tauto|]. intros [Hne [H| ->]]; [tauto|].
    apply orb_true_iff in E as [E%bool_decide_eq_true|E%bool_decide_eq_true]; [done|]. by apply Hin.
  - apply orb_false_iff in E as [E1%bool_decide_eq_false E2%bool_decide_eq_false]. split.
    + apply NoDup_app. split; [done|split; [|apply NoDup_singleton]]. by intros c Hc ->%list_elem_of_singleton.
    + intros c. rewrite elem_of_app, list_elem_of_singleton, Hline, Hin. split; [|tauto].
      intros [[Hne H]| ->]; [tauto|]. split; [done|by right].
Qed.

Lemma country_list_spec raw : is_list_of (lines raw) (parse_country_list raw).
Proof.
  unfold parse_country_list. induction (lines raw) as [|line ls IH] using rev_ind.
  - split; [constructor|]. intros c. split; [by intros ?%elem_of_nil|]. by intros [_ (l & ?%elem_of_nil & _)].
  - rewrite foldl_app. by apply add_code_spec.
Qed.

(** The entries are in upper case. *)
Lemma countries_upper raw code : code ∈ parse_country_list raw -> to_ascii_uppercase code = code.
Proof. intros Hc. destruct (proj1 (proj2 (country_list_spec raw) code) Hc) as [_ (l & _ & ->)]. apply uppercase_idem. Qed.

(** ** Settings *)

Section Settings.
(** [settings.get]. *)
Variable setting : string -> option Value.

Definition int_in (key : string) (lo hi : Z) : option Z :=
  n ← match setting key with
      | Some (Number n) => n
      | Some (Str s) => parse_i64 (trim s)
      | _ => None
      end;
  if (lo <=? n) && (n <=? hi) then Some n else None.

Definition from_settings : InstanceConfig :=
  let d := InstanceConfig_default in
  let grace := default (retention_grace_days d) (int_in "retention_grace_days" 1 3650) in
  let reclaim := Z.max (default (retention_reclaim_days d) (int_in "retention_reclaim_days" 1 3650)) grace in
  let evict := Z.max (default (retention_evict_days d) (int_in "retention_evict_days" 1 3650)) reclaim in
  mkInstance
    (default (default_quota_bytes d) (int_in "default_quota_bytes" 0 (1024 * GIB)))
    (default (max_upload_bytes d) (int_in "max_upload_bytes" (1024 * 1024) (2 * GIB)))
    (default (repair_interval_secs d) (int_in "repair_interval_secs" 60 86400))
    (default (peer_down_threshold d) (int_in "peer_down_threshold" 1 100))
    match setting "jurisdiction_allow" with Some (Str s) => parse_country_list s | _ => jurisdiction_allow d end
    grace reclaim evict.

(** ** What any settings give *)

Lemma int_in_range key lo hi d : lo <= d <= hi -> lo <= default d (int_in key lo hi) <= hi.
Proof.
  intros Hd. unfold int_in. destruct (match setting key with Some (Number n) => n | Some (Str s) => parse_i64 (trim s) | _ => None end)
    as [n|]; cbn; [|done]. destruct (Z.leb_spec lo n), (Z.leb_spec n hi); cbn; lia.
Qed.

(** Whatever the core sends - keys missing, of another type, out of range, contradictory -
    the settings are within their bounds, the thresholds are ordered so that nothing is evicted
    before it is reclaimed nor reclaimed before its grace is over, and the country list holds
    each non-blank line of the administrator's text once, in upper case, and nothing else. *)
Theorem settings_sane :
  let c := from_settings in
  0 <= default_quota_bytes c <= 1024 * GIB /\ 1024 * 1024 <= max_upload_bytes c <= 2 * GIB /\
  60 <= repair_interval_secs c <= 86400 /\ 1 <= peer_down_threshold c <= 100 /\
  1 <= retention_grace_days c /\ retention_grace_days c <= retention_reclaim_days c /\
  retention_reclaim_days c <= retention_evict_days c /\ retention_evict_days c <= 3650 /\
  match setting "jurisdiction_allow" with
  | Some (Str s) => is_list_of (lines s) (jurisdiction_allow c)
  | _ => jurisdiction_allow c = []
  end.
Proof.
  cbv zeta. unfold from_settings.
  cbn [default_quota_bytes max_upload_bytes repair_interval_secs peer_down_threshold retention_grace_days
       retention_reclaim_days retention_evict_days jurisdiction_allow InstanceConfig_default].
  pose proof (int_in_range "retention_grace_days" 1 3650 14 ltac:(lia)).
  pose proof (int_in_range "retention_reclaim_days" 1 3650 45 ltac:(lia)).
  pose proof (int_in_range "retention_evict_days" 1 3650 180 ltac:(lia)).
  split; [by apply int_in_range|split; [by apply int_in_range|split; [by apply int_in_range|split; [by apply int_in_range|]]]].
  split; [lia|split; [lia|split; [lia|split; [lia|]]]].
  destruct (setting "jurisdiction_allow") as [[n|s|]|]; [done| |done..]. apply country_list_spec.
Qed.
End Settings.
