(* ===== verification/Manifest.v ===== *)
(** * The manifest ([crates/store/src/manifest.rs])

    The SQLite tables as lists of rows with their constraints (primary keys, UNIQUE
    (user_id, path), foreign keys with ON DELETE CASCADE), and every query and statement
    the module issues. A statement either applies or fails with the constraint it breaks;
    I/O failures of the database file are not modelled. ORDER BY is a stable sort on the
    columns of the clause. *)

From Stdlib Require Import ZArith Lia Strings.Ascii Strings.String Strings.Byte.
From stdpp Require Import base numbers list gmap strings sorting.
From S2P Require Import Prelude External Erasure Crypto Paths.

(** [StoreError] of [crates/store/src/error.rs]. *)
Inductive StoreError :=
| Sqlite (msg : string)
| StoreIo (msg : string)
| Core (e : CoreError)
| NotFound
| Integrity (msg : string)
| InvalidFragmentId.

(** A stored row of [files]. *)
Record FileRec := mkFile {
  file_id : string;
  user_id : string;
  path : string;
  size : Z;
  stored_bytes : Z;
  chunk_count : Z;
  created_at : string;
  retired_path : option string;
  deleted_at : option string;
  superseded_at : option string;
  lineage_col : option string;
  key_scheme : Z;
  content_hash : option string;
  pack_id : option string;
  pack_offset : option Z;
  pack_len : option Z
}.

#[export] Instance FileRec_eq_dec : EqDecision FileRec.
Proof. solve_decision. Defined.

Record ChunkRow := mkChunk {
  chunk_id_of : string;
  chunk_file : string;
  idx : Z;
  nonce : bytes;
  is_compressed : bool;
  plaintext_len : Z;
  cipher_len : Z;
  chunk_shard_len : Z
}.

Record ShardRow := mkShard {
  fragment : string;
  shard_chunk : string;
  shard_index : Z;
  location : string;
  hash : string
}.

Record FolderRow := mkFolder { folder_user : string; folder_path : string; folder_parent : string }.

Record Db := mkDb {
  files : list FileRec;
  chunk_rows : list ChunkRow;
  shard_rows : list ShardRow;
  folders : list FolderRow
}.

(** What the queries hand out: the visible path and a usable lineage ([FILE_COLS]). *)
Record FileRow := mkRow {
  r_file_id : string;
  r_user_id : string;
  r_path : string;
  r_size : Z;
  r_stored_bytes : Z;
  r_chunk_count : Z;
  r_created_at : string;
  r_deleted_at : option string;
  r_superseded_at : option string;
  r_lineage : string;
  r_key_scheme : Z;
  r_content_hash : option string;
  r_pack_id : option string;
  r_pack_offset : option Z;
  r_pack_len : option Z
}.

Definition u0001 : string := String (ascii_of_nat 1) EmptyString.
Definition RETIRED_PATH_PREFIX : string := (u0001 ++ "retired/")%string.
Definition PACK_PATH_PREFIX : string := (u0001 ++ "pack/")%string.
Definition retired_key (file_id : string) : string := (RETIRED_PATH_PREFIX ++ file_id)%string.
Definition pack_key (pack_id : string) : string := (PACK_PATH_PREFIX ++ pack_id)%string.

(** The SQL predicates. *)
Definition not_pack (f : FileRec) : bool := negb (like (path f) (PACK_PATH_PREFIX ++ "%")%string).
Definition is_none {A} (o : option A) : bool := match o with None => true | Some _ => false end.
Definition LIVE (f : FileRec) : bool := is_none (deleted_at f) && is_none (superseded_at f).
Definition visible_path (f : FileRec) : string := default (path f) (retired_path f).
Definition lineage (f : FileRec) : string := default (file_id f) (lineage_col f).

Definition map_file (f : FileRec) : FileRow :=
  {| r_file_id := file_id f; r_user_id := user_id f; r_path := visible_path f; r_size := size f;
     r_stored_bytes := stored_bytes f; r_chunk_count := chunk_count f; r_created_at := created_at f;
     r_deleted_at := deleted_at f; r_superseded_at := superseded_at f; r_lineage := lineage f;
     r_key_scheme := key_scheme f; r_content_hash := content_hash f; r_pack_id := pack_id f;
     r_pack_offset := pack_offset f; r_pack_len := pack_len f |}.

Definition is_live (f : FileRow) : bool := is_none (r_deleted_at f) && is_none (r_superseded_at f).
Definition is_pack (f : FileRow) : bool := starts_with PACK_PATH_PREFIX (r_path f).

(** ** Statements *)

Definition same (s t : string) : bool := bool_decide (s = t).
Definition file_key (f : FileRec) : string * string := (user_id f, path f).
(** [UNIQUE (user_id, path)]. *)
Definition unique_paths (fs : list FileRec) : bool := bool_decide (NoDup (file_key <$> fs)).
Definition UNIQUE_FAILED : StoreError := Sqlite "UNIQUE constraint failed".
Definition FK_FAILED : StoreError := Sqlite "FOREIGN KEY constraint failed".

Definition set_files (db : Db) (fs : list FileRec) : Db :=
  mkDb fs (chunk_rows db) (shard_rows db) (folders db).

(** [UPDATE files SET .. WHERE ..]: the number of rows changed. *)
Definition update_files (db : Db) (p : FileRec -> bool) (g : FileRec -> FileRec) : res StoreError (Db * Z) :=
  let fs := (fun f => if p f then g f else f) <$> files db in
  if unique_paths fs then Ok (set_files db fs, len (filter (fun f => p f = true) (files db)))
  else Err UNIQUE_FAILED.

(** [DELETE FROM chunks WHERE ..] and its cascade to the shards. *)
Definition delete_chunks (db : Db) (p : ChunkRow -> bool) : Db :=
  let gone := chunk_id_of <$> filter (fun c => p c = true) (chunk_rows db) in
  mkDb (files db) (filter (fun c => p c = false) (chunk_rows db))
       (filter (fun s => shard_chunk s ∉ gone) (shard_rows db)) (folders db).

(** [DELETE FROM files WHERE ..] and its cascades. *)
Definition delete_files (db : Db) (p : FileRec -> bool) : Db :=
  let gone := file_id <$> filter (fun f => p f = true) (files db) in
  delete_chunks (set_files db (filter (fun f => p f = false) (files db)))
                (fun c => bool_decide (chunk_file c ∈ gone)).

(** [insert_file]: the columns it does not list take their default (NULL). *)
Definition insert_file (db : Db) (f : FileRow) : res StoreError Db :=
  let r := {| file_id := r_file_id f; user_id := r_user_id f; path := r_path f; size := r_size f;
              stored_bytes := r_stored_bytes f; chunk_count := r_chunk_count f;
              created_at := r_created_at f; retired_path := None; deleted_at := None;
              superseded_at := None; lineage_col := Some (r_lineage f); key_scheme := r_key_scheme f;
              content_hash := r_content_hash f; pack_id := r_pack_id f;
              pack_offset := r_pack_offset f; pack_len := r_pack_len f |} in
  if bool_decide (file_id r ∈ file_id <$> files db) || bool_decide (file_key r ∈ file_key <$> files db)
  then Err UNIQUE_FAILED
  else Ok (set_files db (files db ++ [r])).

Definition insert_chunk (db : Db) (c : ChunkRow) : res StoreError Db :=
  if bool_decide (chunk_id_of c ∈ chunk_id_of <$> chunk_rows db) then Err UNIQUE_FAILED
  else if bool_decide (chunk_file c ∈ file_id <$> files db)
  then Ok (mkDb (files db) (chunk_rows db ++ [c]) (shard_rows db) (folders db))
  else Err FK_FAILED.

Definition insert_shard (db : Db) (s : ShardRow) : res StoreError Db :=
  if bool_decide (fragment s ∈ fragment <$> shard_rows db) then Err UNIQUE_FAILED
  else if bool_decide (shard_chunk s ∈ chunk_id_of <$> chunk_rows db)
  then Ok (mkDb (files db) (chunk_rows db) (shard_rows db ++ [s]) (folders db))
  else Err FK_FAILED.

Definition set_shard_location (db : Db) (fragment_id loc : string) : Db :=
  mkDb (files db) (chunk_rows db)
       ((fun s => if same (fragment s) fragment_id
                  then mkShard (fragment s) (shard_chunk s) (shard_index s) loc (hash s) else s)
          <$> shard_rows db) (folders db).

(** ** Queries *)

Definition by_path (f g : FileRow) : Prop := str_le (r_path f) (r_path g).
#[export] Instance by_path_dec f g : Decision (by_path f g).
Proof. unfold by_path. apply _. Defined.

Definition select (db : Db) (p : FileRec -> bool) : list FileRow :=
  map_file <$> filter (fun f => p f = true) (files db).

Definition list_files (db : Db) (user : string) : list FileRow :=
  merge_sort by_path (select db (fun f => same (user_id f) user && LIVE f && not_pack f)).

(** [ORDER BY deleted_at DESC, path]. *)
Definition by_deletion (f g : FileRow) : Prop :=
  let a := default "" (r_deleted_at f) in let b := default "" (r_deleted_at g) in
  if same a b then str_le (r_path f) (r_path g) else str_le b a.
#[export] Instance by_deletion_dec f g : Decision (by_deletion f g).
Proof. unfold by_deletion. destruct (same _ _); apply _. Defined.

Definition list_trashed (db : Db) (user : string) : list FileRow :=
  merge_sort by_deletion
    (select db (fun f => same (user_id f) user && negb (is_none (deleted_at f)) && not_pack f)).

(** [ORDER BY created_at DESC, file_id DESC]. *)
Definition newest_first (f g : FileRow) : Prop :=
  if same (r_created_at f) (r_created_at g) then str_le (r_file_id g) (r_file_id f)
  else str_le (r_created_at g) (r_created_at f).
#[export] Instance newest_first_dec f g : Decision (newest_first f g).
Proof. unfold newest_first. destruct (same _ _); apply _. Defined.

Definition list_lineage (db : Db) (user lin : string) : list FileRow :=
  merge_sort newest_first (select db (fun f => same (user_id f) user && same (lineage f) lin)).

Definition list_user_rows (db : Db) (user : string) : list FileRow :=
  merge_sort by_path (select db (fun f => same (user_id f) user)).

Definition by_user_path (f g : FileRow) : Prop :=
  if same (r_user_id f) (r_user_id g) then str_le (r_path f) (r_path g)
  else str_le (r_user_id f) (r_user_id g).
#[export] Instance by_user_path_dec f g : Decision (by_user_path f g).
Proof. unfold by_user_path. destruct (same _ _); apply _. Defined.

Definition list_all_files (db : Db) : list FileRow := merge_sort by_user_path (select db (fun _ => true)).

Definition get_file (db : Db) (user id : string) : option FileRow :=
  head (select db (fun f => same (user_id f) user && same (file_id f) id)).

Definition get_file_by_path (db : Db) (user p : string) : option FileRow :=
  head (select db (fun f => same (user_id f) user && same (path f) p && LIVE f && not_pack f)).

Definition by_idx (c d : ChunkRow) : Prop := idx c <= idx d.
Definition by_shard_index (s t : ShardRow) : Prop := shard_index s <= shard_index t.
#[export] Instance by_idx_dec c d : Decision (by_idx c d).
Proof. unfold by_idx. apply _. Defined.
#[export] Instance by_shard_index_dec c d : Decision (by_shard_index c d).
Proof. unfold by_shard_index. apply _. Defined.

Definition get_chunks (db : Db) (id : string) : list ChunkRow :=
  merge_sort by_idx (filter (fun c => chunk_file c = id) (chunk_rows db)).
Definition get_shards (db : Db) (cid : string) : list ShardRow :=
  merge_sort by_shard_index (filter (fun s => shard_chunk s = cid) (shard_rows db)).

(** ** Trash and versions *)

(** The two stamps [retire_row] may set: [deleted_at] or [superseded_at]. *)
Inductive RetireColumn := DeletedAt | SupersededAt.
Definition stamp_of (c : RetireColumn) (f : FileRec) : option string :=
  match c with DeletedAt => deleted_at f | SupersededAt => superseded_at f end.

Definition retire (c : RetireColumn) (at_ : string) (f : FileRec) : FileRec :=
  {| file_id := file_id f; user_id := user_id f; path := retired_key (file_id f); size := size f;
     stored_bytes := stored_bytes f; chunk_count := chunk_count f; created_at := created_at f;
     retired_path := Some (visible_path f);
     deleted_at := match c with DeletedAt => Some at_ | SupersededAt => deleted_at f end;
     superseded_at := match c with DeletedAt => superseded_at f | SupersededAt => Some at_ end;
     lineage_col := lineage_col f; key_scheme := key_scheme f; content_hash := content_hash f;
     pack_id := pack_id f; pack_offset := pack_offset f; pack_len := pack_len f |}.

Definition is_row (user id : string) (f : FileRec) : bool := same (user_id f) user && same (file_id f) id.

(** [retire_row]: true when a row was stamped now. *)
Definition retire_row (db : Db) (user id : string) (c : RetireColumn) (at_ : string)
    : res StoreError (Db * bool) :=
  r ← update_files db (fun f => is_row user id f && is_none (stamp_of c f)) (retire c at_);
  Ok (r.1, 0 <? r.2).
Definition trash_file (db : Db) (user id at_ : string) := retire_row db user id DeletedAt at_.
Definition supersede_file (db : Db) (user id at_ : string) := retire_row db user id SupersededAt at_.

Definition unretire (p : string) (f : FileRec) : FileRec :=
  {| file_id := file_id f; user_id := user_id f; path := p; size := size f;
     stored_bytes := stored_bytes f; chunk_count := chunk_count f; created_at := created_at f;
     retired_path := None; deleted_at := None; superseded_at := None;
     lineage_col := lineage_col f; key_scheme := key_scheme f; content_hash := content_hash f;
     pack_id := pack_id f; pack_offset := pack_offset f; pack_len := pack_len f |}.
Definition restore_file (db : Db) (user id p : string) : res StoreError (Db * bool) :=
  r ← update_files db (is_row user id) (unretire p);
  Ok (r.1, 0 <? r.2).

(** [(user_id, file_id, size, stored_bytes)]. *)
Abbreviation PurgeCandidate := (string * string * Z * Z)%type.
Definition candidate (f : FileRec) : PurgeCandidate := (user_id f, file_id f, size f, stored_bytes f).
Definition purge_candidates (db : Db) (p : FileRec -> bool) : list PurgeCandidate :=
  candidate <$> filter (fun f => p f = true) (files db).

Definition before (stamp : option string) (cutoff : string) : bool :=
  match stamp with Some s => String.ltb s cutoff | None => false end.
Definition trashed_before (db : Db) (cutoff : string) : list PurgeCandidate :=
  purge_candidates db (fun f => before (deleted_at f) cutoff).
Definition superseded_before (db : Db) (cutoff : string) : list PurgeCandidate :=
  purge_candidates db (fun f => before (superseded_at f) cutoff).

Definition same_lineage (f g : FileRec) : bool := same (user_id f) (user_id g) && same (lineage f) (lineage g).
(** [ORDER BY created_at DESC, file_id DESC]: [g] ranks ahead of [f]. *)
Definition ranks_before (g f : FileRec) : bool :=
  String.ltb (created_at f) (created_at g) ||
  (same (created_at f) (created_at g) && String.ltb (file_id f) (file_id g)).
(** [ROW_NUMBER() OVER (PARTITION BY user_id, lineage ..)] among the superseded rows. *)
Definition row_number (db : Db) (f : FileRec) : Z :=
  1 + len (filter (fun g => (negb (is_none (superseded_at g)) && same_lineage g f && ranks_before g f) = true) (files db)).
Definition superseded_beyond (db : Db) (keep : Z) : list PurgeCandidate :=
  purge_candidates db (fun f => negb (is_none (superseded_at f)) && (keep <? row_number db f)).

Definition superseded_orphans (db : Db) : list PurgeCandidate :=
  purge_candidates db (fun f =>
    negb (is_none (superseded_at f)) &&
    negb (existsb (fun l => same_lineage l f && is_none (superseded_at l)) (files db))).

(** The shards of a file of the user: fragment and location. *)
Definition file_frags (db : Db) (user id : string) : list (string * string) :=
  (fun s => (fragment s, location s)) <$>
    filter (fun s => existsb (fun c => same (chunk_id_of c) (shard_chunk s) && same (chunk_file c) id &&
                        existsb (fun f => is_row user id f) (files db)) (chunk_rows db) = true) (shard_rows db).

Definition purge_file_row (db : Db) (user id : string) : Db * list (string * string) :=
  (delete_files db (is_row user id), file_frags db user id).

(** ** Packs *)

Definition assign (pack : string) (offset length : Z) (f : FileRec) : FileRec :=
  {| file_id := file_id f; user_id := user_id f; path := path f; size := size f;
     stored_bytes := 0; chunk_count := 0; created_at := created_at f;
     retired_path := retired_path f; deleted_at := deleted_at f; superseded_at := superseded_at f;
     lineage_col := lineage_col f; key_scheme := key_scheme f; content_hash := content_hash f;
     pack_id := Some pack; pack_offset := Some offset; pack_len := Some length |}.
Definition assign_to_pack (db : Db) (user id pack : string) (offset length : Z) : res StoreError (Db * bool) :=
  r ← update_files db (is_row user id) (assign pack offset length);
  Ok (r.1, 0 <? r.2).

Definition strip_file_chunks (db : Db) (user id : string) : Db * list (string * string) :=
  (delete_chunks db (fun c => same (chunk_file c) id && existsb (is_row user id) (files db)),
   file_frags db user id).

Definition packable (max_size : Z) (f : FileRec) : bool :=
  LIVE f && is_none (pack_id f) && (0 <? chunk_count f) && (size f <=? max_size) && not_pack f.
Definition packable_files (db : Db) (user : string) (max_size : Z) : list FileRow :=
  merge_sort by_path (select db (fun f => same (user_id f) user && packable max_size f)).
Definition packable_user_ids (db : Db) (max_size : Z) : list string :=
  merge_sort str_le (remove_dups (user_id <$> filter (fun f => packable max_size f = true) (files db))).

Definition by_offset (f g : FileRow) : Prop := default 0 (r_pack_offset f) <= default 0 (r_pack_offset g).
#[export] Instance by_offset_dec f g : Decision (by_offset f g).
Proof. unfold by_offset. apply _. Defined.
Definition pack_members (db : Db) (user pack : string) : list FileRow :=
  merge_sort by_offset (select db (fun f => same (user_id f) user && bool_decide (pack_id f = Some pack))).

Definition by_user_id (f g : FileRow * Z * Z) : Prop :=
  let f := f.1.1 in let g := g.1.1 in
  if same (r_user_id f) (r_user_id g) then str_le (r_file_id f) (r_file_id g)
  else str_le (r_user_id f) (r_user_id g).
#[export] Instance by_user_id_dec f g : Decision (by_user_id f g).
Proof. unfold by_user_id. destruct (same _ _); apply _. Defined.
(** Each pack with its referenced bytes and member count. *)
Definition pack_occupancy (db : Db) : list (FileRow * Z * Z) :=
  merge_sort by_user_id
    ((fun p => let ms := filter (fun m => pack_id m = Some (file_id p)) (files db) in
               (map_file p, zsum ((fun m => default 0 (pack_len m)) <$> ms), len ms))
     <$> filter (fun p => not_pack p = false) (files db)).

(** ** Folders *)

Definition insert_folder_row (db : Db) (user p : string) : Db :=
  if bool_decide ((user, p) ∈ (fun d => (folder_user d, folder_path d)) <$> folders db) then db
  else mkDb (files db) (chunk_rows db) (shard_rows db) (folders db ++ [mkFolder user p (dirname p)]).

(** The ancestors "a", "a/b", "a/b/c" of a path, empty segments dropped. *)
Fixpoint ancestors (acc : string) (segs : list (list ascii)) : list string :=
  match segs with
  | [] => []
  | seg :: segs =>
      let acc := if same acc "" then unchars seg else (acc ++ String slash (unchars seg))%string in
      acc :: ancestors acc segs
  end.
Definition segments (p : string) : list (list ascii) := filter (fun s => s <> []) (split_slash (chars p)).
Definition insert_folder (db : Db) (user p : string) : Db :=
  let p := trim_slashes p in
  if same p "" then db
  else foldl (fun db acc => insert_folder_row db user acc) db (ancestors "" (segments p)).

Definition folders_in (db : Db) (user parent : string) : list string :=
  merge_sort str_le (folder_path <$> filter (fun d => folder_user d = user /\ folder_parent d = parent) (folders db)).
Definition folder_exists (db : Db) (user p : string) : bool :=
  existsb (fun d => same (folder_user d) user && same (folder_path d) p) (folders db).

(** [path = ?2 OR path LIKE '?2/%']. *)
Definition under (p q : string) : bool := same q p || like q (p ++ "/" ++ "%")%string.

Definition set_folders (db : Db) (fs : list FolderRow) : Db :=
  mkDb (files db) (chunk_rows db) (shard_rows db) fs.
Definition delete_folder_row (db : Db) (user p : string) : Db :=
  set_folders db (filter (fun d => (same (folder_user d) user && same (folder_path d) p) = false) (folders db)).
Definition delete_folder_subtree (db : Db) (user p : string) : Db :=
  set_folders db (filter (fun d => (same (folder_user d) user && under p (folder_path d)) = false) (folders db)).

Definition by_snd_path (f g : string * string) : Prop := str_le f.2 g.2.
#[export] Instance by_snd_path_dec f g : Decision (by_snd_path f g).
Proof. unfold by_snd_path. apply _. Defined.
(** The live files at or under a path, with their paths. *)
Definition files_under (db : Db) (user p : string) : list (string * string) :=
  merge_sort by_snd_path
    ((fun f => (file_id f, path f)) <$>
       filter (fun f => (same (user_id f) user && under p (path f) && LIVE f) = true) (files db)).
Definition folders_under (db : Db) (user p : string) : list string :=
  merge_sort str_le
    (folder_path <$> filter (fun d => (same (folder_user d) user && under p (folder_path d)) = true) (folders db)).

Definition with_path (p : string) (f : FileRec) : FileRec :=
  {| file_id := file_id f; user_id := user_id f; path := p; size := size f;
     stored_bytes := stored_bytes f; chunk_count := chunk_count f; created_at := created_at f;
     retired_path := retired_path f; deleted_at := deleted_at f; superseded_at := superseded_at f;
     lineage_col := lineage_col f; key_scheme := key_scheme f; content_hash := content_hash f;
     pack_id := pack_id f; pack_offset := pack_offset f; pack_len := pack_len f |}.
Definition update_file_path (db : Db) (user id new_path : string) : res StoreError Db :=
  fst <$> update_files db (is_row user id) (with_path new_path).

(** [PRIMARY KEY (user_id, path)] of [folders]. *)
Definition update_folder_path (db : Db) (user old new : string) : res StoreError Db :=
  let fs := (fun d => if same (folder_user d) user && same (folder_path d) old
                      then mkFolder (folder_user d) new (dirname new) else d) <$> folders db in
  if bool_decide (NoDup ((fun d => (folder_user d, folder_path d)) <$> fs)) then Ok (set_folders db fs)
  else Err UNIQUE_FAILED.

(** ** Identifiers *)
Section Ids.
Context `{CryptoPrims}.

(** BLAKE3 of the shard bytes, first sixteen bytes in hex. *)
Definition shard_hash (b : bytes) : string := of_bytes (hex_encode (take 16 (blake3 b))).
Definition verify_hash (b : bytes) (expected : string) : bool :=
  same expected "" || same (shard_hash b) expected.

(** [shard_index as u32]. *)
Definition fragment_id (chunk_id : string) (shard_index : nat) : string :=
  of_bytes (hex_encode (take 16 (blake3 (as_bytes chunk_id ++ as_bytes ":" ++
     be_bytes 4 (Z.of_nat shard_index mod 2 ^ 32))))).
End Ids.

(** Decimal digits of an index ([format!("{idx}")]). *)
Fixpoint decimal_fuel (fuel : nat) (n : nat) : string :=
  let d := String (ascii_of_nat (48 + n mod 10)) EmptyString in
  match fuel with
  | O => d
  | S fuel => if (n <? 10)%nat then d else (decimal_fuel fuel (n / 10) ++ d)%string
  end.
Definition decimal (n : nat) : string := decimal_fuel n n.
Definition chunk_id (file_id : string) (idx : nat) : string := (file_id ++ ":" ++ decimal idx)%string.
