(* ===== verification/ChunkStore.v ===== *)
(** * The local shard store ([crates/store/src/chunkstore.rs])

    The directory of shard files: a map from the path of a shard (fan-out directory, file
    name) below the root to its bytes. A fragment id reaches the store straight from the
    wire, so every operation first validates its shape. Failures of the file system itself
    are not modelled. *)

From Stdlib Require Import ZArith Lia Strings.Ascii Strings.String.
From stdpp Require Import base numbers list gmap strings.
From S2P Require Import Prelude Erasure Paths Manifest.

Definition is_hexdigit (c : ascii) : bool :=
  let n := nat_of_ascii c in
  ((48 <=? n) && (n <=? 57) || (65 <=? n) && (n <=? 70) || (97 <=? n) && (n <=? 102))%nat.

Definition is_valid_fragment_id (id : string) : bool :=
  (String.length id =? 32)%nat && forallb is_hexdigit (chars id).

(** Path of a shard below the root: the two-character directory and the id. *)
Definition shard_path (id : string) : res StoreError (string * string) :=
  if negb (is_valid_fragment_id id) then Err InvalidFragmentId
  else Ok (unchars (take 2 (chars id)), id).

Abbreviation ChunkStore := (gmap (string * string) bytes).

Definition write (st : ChunkStore) (id : string) (data : bytes) : res StoreError ChunkStore :=
  p ← shard_path id; Ok (<[p := data]> st).
Definition read (st : ChunkStore) (id : string) : res StoreError bytes :=
  p ← shard_path id; ok_or (st !! p) NotFound.
(** Deleting an absent shard succeeds. *)
Definition delete (st : ChunkStore) (id : string) : res StoreError ChunkStore :=
  p ← shard_path id; Ok (base.delete p st).
Definition exists_ (st : ChunkStore) (id : string) : bool :=
  match shard_path id with Ok p => bool_decide (is_Some (st !! p)) | _ => false end.

(** ** Lemmas *)

Lemma valid_fragment_id id :
  is_valid_fragment_id id = true <-> length (chars id) = 32%nat /\ Forall (fun c => is_hexdigit c = true) (chars id).
Proof.
  unfold is_valid_fragment_id. rewrite andb_true_iff, Nat.eqb_eq, forallb_forall, List.Forall_forall.
  assert (H : length (chars id) = String.length id)
    by (unfold chars; induction id; cbn; [done|by f_equal]).
  by rewrite H.
Qed.

Lemma shard_path_ok id p : shard_path id = Ok p -> is_valid_fragment_id id = true /\ p = (unchars (take 2 (chars id)), id).
Proof. unfold shard_path. destruct (is_valid_fragment_id id); cbn; [by intros [= <-]|discriminate]. Qed.

Lemma hexdigit_plain c : is_hexdigit c = true -> c <> "/"%char /\ c <> "."%char /\ c <> "\"%char.
Proof. intros H. split; [|split]; intros ->; vm_compute in H; discriminate. Qed.

Lemma write_read st id data st' :
  write st id data = Ok st' -> read st' id = Ok data.
Proof.
  unfold write, read. intros H. step_ok. rewrite Ha. cbn [mbind res_bind]. by rewrite lookup_insert_eq.
Qed.

Lemma read_exists st id b : read st id = Ok b -> exists_ st id = true.
Proof.
  unfold read, exists_. intros H. step_ok. rewrite Ha. apply bool_decide_eq_true. by exists b.
Qed.

Lemma write_read_ne st id data st' id' :
  write st id data = Ok st' -> id' <> id -> read st' id' = read st id'.
Proof.
  unfold write, read. intros H Hne. step_ok. destruct (shard_path id') as [p'| |] eqn:E; [|done..].
  apply shard_path_ok in Ha as [_ ->], E as [_ ->]. cbn [mbind res_bind]. by rewrite lookup_insert_ne by congruence.
Qed.

Lemma delete_read_ne st id st' id' :
  delete st id = Ok st' -> id' <> id -> read st' id' = read st id'.
Proof.
  unfold delete, read. intros H Hne. step_ok. destruct (shard_path id') as [p'| |] eqn:E; [|done..].
  apply shard_path_ok in Ha as [_ ->], E as [_ ->]. cbn [mbind res_bind]. by rewrite lookup_delete_ne by congruence.
Qed.

(** An id from the wire never leaves the store: a fragment id that is not 32 hex digits
    (an absolute path, a ".." component, ...) makes every operation fail and changes nothing;
    for the others the path is the two leading digits and the id, free of separators and dots,
    and two ids never share a path. *)
Theorem store_confined st id data :
  match shard_path id with
  | Ok (dir, name) =>
      name = id /\ length (chars dir) = 2%nat /\ length (chars name) = 32%nat /\
      (forall c, c ∈ chars dir ++ chars name -> c <> "/"%char /\ c <> "."%char /\ c <> "\"%char) /\
      (forall id', shard_path id' = Ok (dir, name) -> id' = id)
  | _ => write st id data = Err InvalidFragmentId /\ read st id = Err InvalidFragmentId /\
         delete st id = Err InvalidFragmentId /\ exists_ st id = false
  end.
Proof.
  unfold write, read, delete, exists_. destruct (shard_path id) as [[dir name]|e|] eqn:E.
  - apply shard_path_ok in E as [Hv [= -> ->]]. apply valid_fragment_id in Hv as [Hl Hh].
    rewrite chars_unchars. split; [done|split; [rewrite length_take; lia|split; [done|split]]].
    + intros c Hc. apply hexdigit_plain. rewrite Forall_forall in Hh. apply Hh.
      apply elem_of_app in Hc as [Hc|Hc]; [by eapply elem_of_take in Hc as (? & ? & _); eapply list_elem_of_lookup_2|done].
    + intros id' Hid. by apply shard_path_ok in Hid as [_ [= _ ->]].
  - unfold shard_path in E. destruct (is_valid_fragment_id id); cbn in E; [discriminate|]. by injection E as <-.
  - unfold shard_path in E. destruct (is_valid_fragment_id id); discriminate.
Qed.

(** What is written is read back, other shards are untouched, and a deleted shard is gone. *)
Theorem store_read_write st id data st' id' :
  write st id data = Ok st' ->
  read st' id' = (if decide (id' = id) then Ok data else read st id') /\
  exists st'', delete st' id = Ok st'' /\ read st'' id = Err NotFound /\ exists_ st'' id = false.
Proof.
  intros Hw. split.
  - destruct (decide (id' = id)) as [->|Hne]; [by eapply write_read|by eapply write_read_ne].
  - unfold write, delete, read, exists_ in *. step_ok. rewrite Ha. cbn [mbind res_bind]. eexists; split; [done|].
    rewrite lookup_delete_eq. split; [done|]. by apply bool_decide_eq_false, eq_None_not_Some.
Qed.

Lemma store_read_write_witness :
  exists st, write ∅ "00112233445566778899aabbccddeeff" (as_bytes "x") = Ok st /\
    read st "00112233445566778899aabbccddeeff" = Ok (as_bytes "x").
Proof.
  eexists; split; [reflexivity|].
  apply (store_read_write ∅ "00112233445566778899aabbccddeeff" (as_bytes "x") _ "00112233445566778899aabbccddeeff").
  reflexivity.
Defined.
