(* ===== verification/ManifestInv.v ===== *)
(** * The manifest invariant

    What every statement of [Manifest.v] preserves: primary keys, [UNIQUE (user_id, path)],
    the two foreign keys, and the retirement discipline of the rows (a live row has no
    parked path, a retired one sits on its tombstone key). *)

From Stdlib Require Import ZArith Lia Strings.Ascii Strings.String Strings.Byte.
From stdpp Require Import base numbers list gmap strings sorting.
From S2P Require Import Prelude External Erasure Crypto Paths Manifest.

Definition folder_key (d : FolderRow) : string * string := (folder_user d, folder_path d).

(** A live row has no parked path; a retired row's path is its tombstone key. *)
Definition row_ok (f : FileRec) : Prop :=
  if LIVE f then retired_path f = None
  else is_Some (retired_path f) /\ path f = retired_key (file_id f).

Record db_inv (db : Db) : Prop := {
  inv_ids : NoDup (file_id <$> files db);
  inv_paths : NoDup (file_key <$> files db);
  inv_chunks : NoDup (chunk_id_of <$> chunk_rows db);
  inv_shards : NoDup (fragment <$> shard_rows db);
  inv_chunk_fk : Forall (fun c => chunk_file c ∈ file_id <$> files db) (chunk_rows db);
  inv_shard_fk : Forall (fun s => shard_chunk s ∈ chunk_id_of <$> chunk_rows db) (shard_rows db);
  inv_folders : NoDup (folder_key <$> folders db);
  inv_rows : Forall row_ok (files db)
}.

Definition empty_db : Db := mkDb [] [] [] [].

Lemma empty_inv : db_inv empty_db.
Proof. split; first [apply NoDup_nil_2 | constructor]. Qed.

Lemma same_true s t : same s t = true <-> s = t.
Proof. apply bool_decide_eq_true. Qed.
Lemma same_false s t : s <> t -> same s t = false.
Proof. apply bool_decide_eq_false_2. Qed.
Lemma is_row_true u i f : is_row u i f = true <-> user_id f = u /\ file_id f = i.
Proof. unfold is_row. by rewrite andb_true_iff, !same_true. Qed.

Lemma NoDup_fmap_filter {A B} (f : A -> B) (P : A -> Prop) `{!forall x, Decision (P x)} l :
  NoDup (f <$> l) -> NoDup (f <$> filter P l).
Proof.
  intros Hn. eapply sublist_NoDup; [exact Hn|]. apply fmap_sublist, sublist_filter.
Qed.

Lemma map_if_ids (p : FileRec -> bool) g (fs : list FileRec) :
  (forall f, file_id (g f) = file_id f) ->
  file_id <$> ((fun f => if p f then g f else f) <$> fs) = file_id <$> fs.
Proof.
  intros Hg. rewrite <- list_fmap_compose. apply list_fmap_ext. intros i f _. cbn. destruct (p f); auto.
Qed.

(** An UPDATE that keeps the ids and, on the rows it touches, the retirement discipline. *)
Lemma update_files_inv db p g db' n :
  db_inv db -> (forall f, file_id (g f) = file_id f) ->
  (forall f, f ∈ files db -> p f = true -> row_ok f -> row_ok (g f)) ->
  update_files db p g = Ok (db', n) -> db_inv db'.
Proof.
  intros [Hi Hp Hc Hs Hcf Hsf Hf Hr] Hid Hok Hu. unfold update_files in Hu.
  destruct (unique_paths _) eqn:E; [|discriminate]. injection Hu as <- <-.
  apply bool_decide_eq_true in E. split; cbn [files chunk_rows shard_rows folders set_files]; try done.
  - by rewrite map_if_ids.
  - by rewrite map_if_ids.
  - apply Forall_fmap, Forall_forall. intros f Hin. cbn. rewrite Forall_forall in Hr.
    destruct (p f) eqn:Ep; auto.
Qed.

Lemma retire_ok c a f : row_ok (retire c a f).
Proof.
  unfold row_ok, LIVE. cbn. destruct c; cbn; [|rewrite andb_comm; cbn]; (split; [by eexists|done]).
Qed.

Lemma retire_row_inv db u i c a db' b :
  db_inv db -> retire_row db u i c a = Ok (db', b) -> db_inv db'.
Proof.
  unfold retire_row. intros H Hr. apply bind_ok in Hr as ([d n] & Hu & [= <- _]).
  eapply update_files_inv; [done| | |exact Hu]; [done|]. intros; apply retire_ok.
Qed.

Lemma restore_file_inv db u i p db' b :
  db_inv db -> restore_file db u i p = Ok (db', b) -> db_inv db'.
Proof.
  unfold restore_file. intros H Hr. apply bind_ok in Hr as ([d n] & Hu & [= <- _]).
  eapply update_files_inv; [done| | |exact Hu]; done.
Qed.

Lemma assign_inv db u i p o l db' b :
  db_inv db -> assign_to_pack db u i p o l = Ok (db', b) -> db_inv db'.
Proof.
  unfold assign_to_pack. intros H Hr. apply bind_ok in Hr as ([d n] & Hu & [= <- _]).
  eapply update_files_inv; [done| | |exact Hu]; done.
Qed.

(** [update_file_path] is only meant for a row the user sees. *)
Lemma update_file_path_inv db u i p db' :
  db_inv db -> (forall f, f ∈ files db -> is_row u i f = true -> LIVE f = true) ->
  update_file_path db u i p = Ok db' -> db_inv db'.
Proof.
  unfold update_file_path. intros H Hlive Hr.
  destruct (update_files _ _ _) as [[d n]| |] eqn:Hu; try discriminate. injection Hr as <-.
  eapply update_files_inv; [done| | |exact Hu]; [done|]. intros f Hin Hp Hok.
  specialize (Hlive f Hin Hp). unfold row_ok in *. change (LIVE (with_path p f)) with (LIVE f).
  by rewrite Hlive in *.
Qed.

Lemma insert_file_inv db f db' : db_inv db -> insert_file db f = Ok db' -> db_inv db'.
Proof.
  intros [Hi Hp Hc Hs Hcf Hsf Hf Hr] Hu. unfold insert_file in Hu. set (r := mkFile _ _ _ _ _ _ _ _ _ _ _ _ _ _ _ _) in Hu.
  destruct (_ || _) eqn:E; [discriminate|]. injection Hu as <-.
  apply orb_false_iff in E as [E1%bool_decide_eq_false E2%bool_decide_eq_false].
  split; cbn [files chunk_rows shard_rows folders set_files]; rewrite ?fmap_app; try done.
  - apply NoDup_app. split; [done|split]; [|apply NoDup_singleton].
    intros x Hx Hx'. apply list_elem_of_singleton in Hx'. by subst.
  - apply NoDup_app. split; [done|split]; [|apply NoDup_singleton].
    intros x Hx Hx'. apply list_elem_of_singleton in Hx'. by subst.
  - eapply Forall_impl; [exact Hcf|]. intros c Hin. apply elem_of_app. by left.
  - apply Forall_app; split; [done|]. by repeat constructor.
Qed.

Lemma insert_chunk_inv db c db' : db_inv db -> insert_chunk db c = Ok db' -> db_inv db'.
Proof.
  intros [Hi Hp Hc Hs Hcf Hsf Hf Hr] Hu. unfold insert_chunk in Hu.
  case_bool_decide as E1; [discriminate|]. case_bool_decide as E2; [|discriminate]. injection Hu as <-.
  split; cbn [files chunk_rows shard_rows folders]; rewrite ?fmap_app; try done.
  - apply NoDup_app. split; [done|split]; [|apply NoDup_singleton].
    intros x Hx Hx'. apply list_elem_of_singleton in Hx'. by subst.
  - apply Forall_app; split; [done|]. by repeat constructor.
  - eapply Forall_impl; [exact Hsf|]. intros s Hin. apply elem_of_app. by left.
Qed.

Lemma insert_shard_inv db s db' : db_inv db -> insert_shard db s = Ok db' -> db_inv db'.
Proof.
  intros [Hi Hp Hc Hs Hcf Hsf Hf Hr] Hu. unfold insert_shard in Hu.
  case_bool_decide as E1; [discriminate|]. case_bool_decide as E2; [|discriminate]. injection Hu as <-.
  split; cbn [files chunk_rows shard_rows folders]; rewrite ?fmap_app; try done.
  - apply NoDup_app. split; [done|split]; [|apply NoDup_singleton].
    intros x Hx Hx'. apply list_elem_of_singleton in Hx'. by subst.
  - apply Forall_app; split; [done|]. by repeat constructor.
Qed.

Lemma delete_chunks_inv db p : db_inv db -> db_inv (delete_chunks db p).
Proof.
  intros [Hi Hp Hc Hs Hcf Hsf Hf Hr]. unfold delete_chunks.
  split; cbn [files chunk_rows shard_rows folders]; try done; try by apply NoDup_fmap_filter.
  - by apply Forall_filter.
  - apply Forall_forall. intros s [Hng Hin]%list_elem_of_filter.
    rewrite Forall_forall in Hsf. specialize (Hsf s Hin).
    apply list_elem_of_fmap in Hsf as (c & Hcs & Hcin). apply list_elem_of_fmap. exists c.
    split; [done|]. apply list_elem_of_filter. split; [|done].
    destruct (p c) eqn:E; [|done]. exfalso. apply Hng. rewrite Hcs.
    apply list_elem_of_fmap. exists c. split; [done|]. by apply list_elem_of_filter.
Qed.

Lemma delete_files_inv db p : db_inv db -> db_inv (delete_files db p).
Proof.
  intros [Hi Hp Hc Hs Hcf Hsf Hf Hr]. unfold delete_files, delete_chunks, set_files.
  set (gone := file_id <$> filter (fun f => p f = true) (files db)).
  split; cbn [files chunk_rows shard_rows folders]; try done; try by apply NoDup_fmap_filter.
  - apply Forall_forall. intros c [Hng Hin]%list_elem_of_filter. apply bool_decide_eq_false in Hng.
    rewrite Forall_forall in Hcf. specialize (Hcf c Hin).
    apply list_elem_of_fmap in Hcf as (f & Hcs & Hcin). apply list_elem_of_fmap. exists f.
    split; [done|]. apply list_elem_of_filter. split; [|done].
    destruct (p f) eqn:E; [|done]. exfalso. apply Hng. rewrite Hcs.
    apply list_elem_of_fmap. exists f. split; [done|]. by apply list_elem_of_filter.
  - apply Forall_forall. intros s [Hng Hin]%list_elem_of_filter.
    rewrite Forall_forall in Hsf. specialize (Hsf s Hin).
    apply list_elem_of_fmap in Hsf as (c & Hcs & Hcin). apply list_elem_of_fmap. exists c.
    split; [done|]. apply list_elem_of_filter. split; [|done].
    destruct (bool_decide _) eqn:E; [|done]. exfalso. apply Hng. rewrite Hcs.
    apply list_elem_of_fmap. exists c. split; [done|]. by apply list_elem_of_filter.
  - by apply Forall_filter.
Qed.

Lemma set_location_inv db i l : db_inv db -> db_inv (set_shard_location db i l).
Proof.
  intros [Hi Hp Hc Hs Hcf Hsf Hf Hr]. unfold set_shard_location.
  split; cbn [files chunk_rows shard_rows folders]; try done.
  - rewrite <- list_fmap_compose. erewrite list_fmap_ext; [exact Hs|]. intros k s _. cbn. by destruct (same _ _).
  - apply Forall_fmap, Forall_forall. intros s Hin. rewrite Forall_forall in Hsf. specialize (Hsf s Hin).
    cbn. by destruct (same _ _).
Qed.

Lemma insert_folder_row_inv db u p : db_inv db -> db_inv (insert_folder_row db u p).
Proof.
  intros H. unfold insert_folder_row. case_bool_decide as E; [done|].
  destruct H as [Hi Hp Hc Hs Hcf Hsf Hf Hr]. split; cbn [files chunk_rows shard_rows folders]; try done.
  rewrite fmap_app. apply NoDup_app. split; [done|split]; [|apply NoDup_singleton].
  intros x Hx Hx'. apply list_elem_of_singleton in Hx'. by subst.
Qed.

Lemma insert_folder_inv db u p : db_inv db -> db_inv (insert_folder db u p).
Proof.
  intros H. unfold insert_folder. destruct (same _ _); [done|].
  generalize (ancestors "" (segments (trim_slashes p))) as l. intros l. revert db H.
  induction l as [|a l IH]; intros db H; cbn; [done|]. apply IH. by apply insert_folder_row_inv.
Qed.

Lemma set_folders_inv db fs : db_inv db -> NoDup (folder_key <$> fs) -> db_inv (set_folders db fs).
Proof. intros [Hi Hp Hc Hs Hcf Hsf Hf Hr] Hn. split; done. Qed.

Lemma delete_folder_subtree_inv db u p : db_inv db -> db_inv (delete_folder_subtree db u p).
Proof. intros H. apply set_folders_inv; [done|]. apply NoDup_fmap_filter, H. Qed.

Lemma update_folder_path_inv db u o n db' : db_inv db -> update_folder_path db u o n = Ok db' -> db_inv db'.
Proof.
  intros H. unfold update_folder_path. case_bool_decide as E; [|discriminate]. intros [= <-].
  by apply set_folders_inv.
Qed.

#[export] Hint Resolve empty_inv retire_row_inv restore_file_inv assign_inv insert_file_inv insert_chunk_inv
  insert_shard_inv delete_chunks_inv delete_files_inv set_location_inv insert_folder_inv
  delete_folder_subtree_inv update_folder_path_inv : p2p.

(** ** Reading rows back *)

Lemma elem_of_select db p r :
  r ∈ select db p <-> exists f, f ∈ files db /\ p f = true /\ r = map_file f.
Proof.
  unfold select. rewrite list_elem_of_fmap. split.
  - intros (f & -> & [? ?]%list_elem_of_filter). eauto.
  - intros (f & Hin & Hp & ->). exists f. split; [done|]. by apply list_elem_of_filter.
Qed.

Lemma head_elem {A} (l : list A) x : head l = Some x -> x ∈ l.
Proof. destruct l; cbn; [done|]. intros [= <-]. left. Qed.

Lemma get_file_elem db u i r :
  get_file db u i = Some r -> exists f, f ∈ files db /\ is_row u i f = true /\ r = map_file f.
Proof. unfold get_file. intros H%head_elem. by apply elem_of_select in H. Qed.

Lemma unique_id db f g : db_inv db -> f ∈ files db -> g ∈ files db -> file_id f = file_id g -> f = g.
Proof.
  intros [Hi _ _ _ _ _ _ _] Hf Hg E. apply list_elem_of_lookup in Hf as (a & Ha), Hg as (b & Hb).
  assert (a = b) as ->.
  { eapply NoDup_lookup; [exact Hi| |]; rewrite list_lookup_fmap; [by rewrite Ha|by rewrite Hb; cbn; rewrite E]. }
  congruence.
Qed.

(** The file ids being unique, a lookup finds exactly the row. *)
Lemma get_file_found db u i f :
  db_inv db -> f ∈ files db -> is_row u i f = true -> get_file db u i = Some (map_file f).
Proof.
  intros Hinv Hf Hr. unfold get_file.
  destruct (head _) as [r|] eqn:E.
  - apply head_elem, elem_of_select in E as (g & Hg & Hp & ->). f_equal. f_equal.
    eapply unique_id; [done|done|done|]. apply is_row_true in Hr as [_ ->].
    by apply is_row_true in Hp as [_ ->].
  - destruct (select db _) eqn:E2; [|done]. exfalso.
    assert (H : map_file f ∈ select db (fun f => same (user_id f) u && same (file_id f) i))
      by (apply elem_of_select; eauto).
    rewrite E2 in H. by apply elem_of_nil in H.
Qed.

Lemma get_file_none db u i :
  get_file db u i = None <-> forall f, f ∈ files db -> is_row u i f = false.
Proof.
  unfold get_file. split.
  - intros H f Hf. destruct (is_row u i f) eqn:E; [|done]. exfalso.
    assert (Hin : map_file f ∈ select db (fun f => same (user_id f) u && same (file_id f) i))
      by (apply elem_of_select; eauto).
    destruct (select db _); [by apply elem_of_nil in Hin|done].
  - intros H. destruct (head _) as [r|] eqn:E; [|done].
    apply head_elem, elem_of_select in E as (g & Hg & Hp & ->). specialize (H g Hg). unfold is_row in H. congruence.
Qed.

Lemma get_file_by_path_elem db u p r :
  get_file_by_path db u p = Some r ->
  exists f, f ∈ files db /\ user_id f = u /\ path f = p /\ LIVE f = true /\ not_pack f = true /\ r = map_file f.
Proof.
  unfold get_file_by_path. intros H%head_elem. apply elem_of_select in H as (f & Hf & Hp & ->).
  exists f. rewrite !andb_true_iff, !same_true in Hp. destruct Hp as (((Hu & Hq) & Hl) & Hn). done.
Qed.
