(* ===== verification/Service.v ===== *)
(** * The store service ([crates/store/src/service.rs])

    Push, pull, trash, versions, retention, folders and rename over the manifest and the
    local shard store. A call that opens a transaction answers the new database only on
    success; the shard store is not part of the transaction, so the calls that write shards
    thread it through the monad [io], which keeps it on errors too. The clock ([now],
    [ago]) and the random file id are arguments. Small-file packs are in [Packs.v]. *)

From Stdlib Require Import ZArith Lia Strings.Ascii Strings.String Strings.Byte.
From stdpp Require Import base numbers list gmap strings sorting.
From S2P Require Import Prelude External Erasure Crypto Pipeline Paths Manifest ChunkStore.

(** ** Calls that write shards *)
Definition io (A : Type) : Type := ChunkStore -> ChunkStore * res StoreError A.
#[export] Instance io_ret : MRet io := fun A a st => (st, Ok a).
#[export] Instance io_bind : MBind io := fun A B f m st =>
  match m st with
  | (st, Ok a) => f a st
  | (st, Err e) => (st, Err e)
  | (st, Panic) => (st, Panic)
  end.
Definition lift {A} (m : res StoreError A) : io A := fun st => (st, m).
Definition io_write (id : string) (data : bytes) : io unit := fun st =>
  match write st id data with
  | Ok st => (st, Ok ())
  | Err e => (st, Err e)
  | Panic => (st, Panic)
  end.
Fixpoint io_fold {S X} (f : S -> X -> io S) (s : S) (xs : list X) : io S :=
  match xs with [] => mret s | x :: xs => s ← f s x; io_fold f s xs end.

(** [as u64] / [as usize] of an [i64]. *)
Definition as_u64 (v : Z) : Z := v mod 2 ^ 64.

Abbreviation RemoteShard := (string * string)%type.

Record PushResult := {
  pr_file_id : string;
  pr_size : Z;
  pr_stored_bytes : Z;
  pr_superseded_file_id : option string;
  pr_superseded_size : Z;
  pr_superseded_stored : Z;
  pr_unchanged : bool
}.

(** 128 random bits in hex. *)
Definition mint_file_id (rnd : bytes) : string := of_bytes (hex_encode rnd).

Section Service.
Context `{CryptoPrims} `{Zstd} `{Log2} `{ReedSolomon}.
(** [NodeIdentity]: the node's data key. *)
Variable data_key : bytes.

(** One shard of a chunk: the bytes, the store write, the row. *)
Definition write_shard (cid : string) (c : ProcessedChunk) (db : Db) (i : nat) : io Db :=
  let frag := fragment_id cid i in
  data ← lift (if decide (i < DATA_SHARDS)%nat
               then s ← data_shard (pc_cipher c) (pc_shard_len c) i; pad_shard (default [] s) (pc_shard_len c)
               else index (pc_recovery c) (i - DATA_SHARDS));
  io_write frag data;;
  lift (insert_shard db (mkShard frag cid (Z.of_nat i) "local" (shard_hash data))).

Definition write_chunk (file : string) (db : Db) (c : ProcessedChunk) : io Db :=
  let cid := chunk_id file (Z.to_nat (pc_index c)) in
  db ← lift (insert_chunk db (mkChunk cid file (pc_index c) (pc_nonce c) (pc_is_compressed c)
                                (pc_plaintext_len c) (len (pc_cipher c)) (pc_shard_len c)));
  io_fold (write_shard cid c) db (seq 0 TOTAL_SHARDS).

Definition write_chunk_rows (file : string) (db : Db) (chunks : list ProcessedChunk) : io Db :=
  io_fold (write_chunk file) db chunks.

(** Disk cost of the chunks: fourteen block-rounded shards each. *)
Definition stored_cost (chunks : list ProcessedChunk) : Z :=
  zsum ((fun c => Z.of_nat TOTAL_SHARDS * shard_disk_cost (pc_shard_len c)) <$> chunks).

(** The result of re-uploading what is already there. *)
Definition unchanged_upload (db : Db) (user p : string) (data : bytes) (content_hash : string)
    : option PushResult :=
  match get_file_by_path db user p with
  | Some prev =>
      if (r_size prev =? len data) && bool_decide (r_content_hash prev = Some content_hash)
      then Some {| pr_file_id := r_file_id prev; pr_size := r_size prev; pr_stored_bytes := 0;
                   pr_superseded_file_id := None; pr_superseded_size := 0;
                   pr_superseded_stored := 0; pr_unchanged := true |}
      else None
  | None => None
  end.

(** Step the current version at the path aside: what it was, and the lineage to join. *)
Definition supersede_current (db : Db) (user p file now : string)
    : res StoreError (Db * (option string * Z * Z * string)) :=
  match get_file_by_path db user p with
  | Some prev =>
      r ← supersede_file db user (r_file_id prev) now;
      Ok (r.1, (Some (r_file_id prev), r_size prev, r_stored_bytes prev, r_lineage prev))
  | None => Ok (db, (None, 0, 0, file))
  end.

Definition push (db : Db) (user p : string) (data : bytes) (rnd : bytes) (now : string)
    : io (Db * PushResult) :=
  let content_hash := blake3_hex data in
  match unchanged_upload db user p data content_hash with
  | Some r => mret (db, r)
  | None =>
      let file := mint_file_id rnd in
      chunks ← lift (map_err Core (process_v2 data data_key (as_bytes user) (as_bytes file) PipelineConfig_default));
      let stored := stored_cost chunks in
      s ← lift (supersede_current db user p file now);
      let '(db, (sup_id, sup_size, sup_stored, lin)) := s : Db * (option string * Z * Z * string) in
      db ← lift (insert_file db
             {| r_file_id := file; r_user_id := user; r_path := p; r_size := len data;
                r_stored_bytes := stored; r_chunk_count := len chunks; r_created_at := now;
                r_deleted_at := None; r_superseded_at := None; r_lineage := lin;
                r_key_scheme := as_i64 V2; r_content_hash := Some content_hash;
                r_pack_id := None; r_pack_offset := None; r_pack_len := None |});
      db ← write_chunk_rows file db chunks;
      mret (db, {| pr_file_id := file; pr_size := len data; pr_stored_bytes := stored;
                   pr_superseded_file_id := sup_id; pr_superseded_size := sup_size;
                   pr_superseded_stored := sup_stored; pr_unchanged := false |})
  end.

(** ** Reading *)

(** Slot [shard_index] of the fourteen takes the shard's bytes; an index outside is skipped. *)
Definition place_local (st : ChunkStore) (present : list (option bytes)) (s : ShardRow)
    : res StoreError (list (option bytes)) :=
  let i := as_u64 (shard_index s) in
  if i <? Z.of_nat TOTAL_SHARDS then
    b ← read st (fragment s);
    Ok (<[Z.to_nat i := Some b]> present)
  else Ok present.

(** Decode, open and decompress one chunk. *)
Definition decode_chunk (cipher_ctx : FileCipher) (c : ChunkRow) (present : list (option bytes))
    : res StoreError bytes :=
  cipher ← map_err Core (reconstruct present (as_u64 (cipher_len c)));
  plain ← map_err Core (open_chunk cipher_ctx (as_u64 (idx c)) cipher);
  map_err StoreIo (restore plain (is_compressed c)).

Definition pull_chunk (db : Db) (st : ChunkStore) (cipher_ctx : FileCipher) (out : bytes) (c : ChunkRow)
    : res StoreError bytes :=
  present ← foldM (place_local st) (replicate TOTAL_SHARDS None) (get_shards db (chunk_id_of c));
  data ← decode_chunk cipher_ctx c present;
  Ok (out ++ data).

(** The cipher of a stored row: its own scheme, owner, id and chunk count. *)
Definition row_cipher (f : FileRow) (id : string) : res StoreError FileCipher :=
  scheme ← map_err Core (from_i64 (r_key_scheme f));
  map_err Core (FileCipher_new data_key scheme (as_bytes (r_user_id f)) (as_bytes id)
                  (as_u64 (r_chunk_count f))).

Definition pull_own (db : Db) (st : ChunkStore) (f : FileRow) (id : string) : res StoreError bytes :=
  let chunks := get_chunks db id in
  cipher_ctx ← row_cipher f id;
  if r_size f <? 0 then Panic
  else foldM (pull_chunk db st cipher_ctx) [] chunks.

(** The plaintext range of a pack member, bounds-checked. *)
Definition member_slice (pack_plain : bytes) (member : FileRow) : res StoreError bytes :=
  let range_err := Integrity ("member " ++ r_file_id member ++ " has an invalid pack range") in
  match r_pack_offset member, r_pack_len member with
  | Some off, Some l =>
      if (off <? 0) || (l <? 0) then Err range_err
      else if u64_max <? off + l then Err range_err
      else if off + l <=? len pack_plain
      then Ok (take (Z.to_nat l) (drop (Z.to_nat off) pack_plain)) else Err range_err
  | _, _ => Err range_err
  end.

(** [pull] calls itself on the container of a pack member; the fuel bounds that nesting. *)
Fixpoint pull_fuel (fuel : nat) (db : Db) (st : ChunkStore) (user id : string) : res StoreError bytes :=
  match fuel with
  | O => Panic
  | S fuel =>
      f ← ok_or (get_file db user id) NotFound;
      match r_pack_id f with
      | Some pack =>
          pack_row ← ok_or (get_file db user pack)
                       (Integrity ("pack " ++ pack ++ " of member " ++ id ++ " is missing"));
          match r_pack_id pack_row with
          | Some _ => Err (Integrity ("pack " ++ pack ++ " is itself a pack member"))
          | None =>
              pack_plain ← pull_fuel fuel db st user pack;
              member_slice pack_plain f
          end
      | None => pull_own db st f id
      end
  end.
Definition pull := pull_fuel 2.

(** [pull_plan]: the rows the network path needs. *)
Definition pull_plan (db : Db) (user id : string) : res StoreError (FileRow * list (ChunkRow * list ShardRow)) :=
  f ← ok_or (get_file db user id) NotFound;
  Ok (f, (fun c => (c, get_shards db (chunk_id_of c))) <$> get_chunks db id).

(** [reassemble]: the same decoding over shards that were already fetched. *)
Definition reassemble (f : FileRow) (chunks : list (ChunkRow * list (option bytes))) : res StoreError bytes :=
  cipher_ctx ← row_cipher f (r_file_id f);
  foldM (fun out p => data ← decode_chunk cipher_ctx p.1 p.2; Ok (out ++ data)) [] chunks.

(** Every shard of a chunk rebuilt from the surviving ones. *)
Definition regen_chunk_shards (present : list (option bytes)) (cipher_len : Z) : res StoreError (list bytes) :=
  cipher ← map_err Core (reconstruct present cipher_len);
  map_err Core (encode cipher).

Definition read_local (st : ChunkStore) (id : string) : option bytes := res_ok (read st id).
Definition read_local_verified (st : ChunkStore) (id expected : string) : option bytes :=
  match read st id with
  | Ok b => if verify_hash b expected then Some b else None
  | _ => None
  end.
End Service.

(** ** Listings *)

Definition list_versions (db : Db) (user id : string) : res StoreError (list FileRow) :=
  f ← ok_or (get_file db user id) NotFound;
  Ok (list_lineage db user (r_lineage f)).

(** (file count, chunk count, stored bytes) over every row. *)
Definition node_stats (db : Db) : Z * Z * Z :=
  let fs := list_all_files db in
  (len fs, zsum (r_chunk_count <$> fs), zsum (r_stored_bytes <$> fs)).

(** ** Trash and restore *)

Definition trash (db : Db) (user id now : string) : res StoreError (Db * FileRow) :=
  f ← ok_or (get_file db user id) NotFound;
  if negb (is_none (r_deleted_at f)) then Ok (db, f)
  else if negb (is_none (r_superseded_at f)) then Err NotFound
  else
    r ← trash_file db user id now;
    f ← ok_or (get_file r.1 user id) NotFound;
    Ok (r.1, f).

Record TrashSummary := mkSummary { ts_files : Z; ts_size : Z; ts_stored_bytes : Z }.
Definition summary0 : TrashSummary := mkSummary 0 0 0.
Definition summary_add (s : TrashSummary) (f : FileRow) : TrashSummary :=
  mkSummary (ts_files s + 1) (ts_size s + r_size f) (ts_stored_bytes s + r_stored_bytes f).

Definition trash_one (user now : string) (acc : Db * TrashSummary) (e : string * string)
    : res StoreError (Db * TrashSummary) :=
  let '(db, s) := acc in
  let s := match get_file db user e.1 with Some f => summary_add s f | None => s end in
  r ← trash_file db user e.1 now;
  Ok (r.1, s).

Definition trash_path (db : Db) (user p now : string) : res StoreError (Db * TrashSummary) :=
  let p := trim_slashes p in
  match get_file_by_path db user p with
  | Some f =>
      r ← trash_file db user (r_file_id f) now;
      Ok (r.1, summary_add summary0 f)
  | None =>
      let fs := files_under db user p in
      if bool_decide (fs = []) && negb (folder_exists db user p) then Err NotFound
      else
        r ← foldM (trash_one user now) (db, summary0) fs;
        Ok (delete_folder_subtree r.1 user p, r.2)
  end.

Definition restore_row (db : Db) (user id : string) (new_path : option string) (now : string)
    : res StoreError (Db * FileRow) :=
  f ← ok_or (get_file db user id) NotFound;
  if is_live f then Err NotFound
  else
    let target := trim_slashes (default (r_path f) new_path) in
    if same target "" then Err NotFound
    else
      db ← match get_file_by_path db user target with
           | Some current =>
               if negb (same (r_file_id current) (r_file_id f))
               then r ← supersede_file db user (r_file_id current) now; Ok r.1
               else Ok db
           | None => Ok db
           end;
      let db := insert_folder db user (dirname target) in
      r ← restore_file db user id target;
      f ← ok_or (get_file r.1 user id) NotFound;
      Ok (r.1, f).

(** ** Permanent deletion *)

(** Local shards are deleted (a failure is skipped), the remote ones are handed back. *)
Definition purge_local_collect_remote (st : ChunkStore) (frags : list RemoteShard)
    : ChunkStore * list RemoteShard :=
  (foldl (fun st p => if same p.2 "local" then match delete st p.1 with Ok st => st | _ => st end else st) st frags,
   filter (fun p => p.2 <> "local") frags).

(** The same over the threaded store, and a read of it. *)
Definition io_purge (frags : list RemoteShard) : io (list RemoteShard) := fun st =>
  let r := purge_local_collect_remote st frags in (r.1, Ok r.2).
Definition io_read {A} (m : ChunkStore -> res StoreError A) : io A := fun st => (st, m st).

Definition purge_file (db : Db) (st : ChunkStore) (user id : string)
    : res StoreError (Db * ChunkStore * (FileRow * list RemoteShard)) :=
  f ← ok_or (get_file db user id) NotFound;
  let '(db, frags) := purge_file_row db user id in
  let '(st, remote) := purge_local_collect_remote st frags in
  Ok (db, st, (f, remote)).

Definition empty_trash (db : Db) (st : ChunkStore) (user : string)
    : Db * ChunkStore * (TrashSummary * list RemoteShard) :=
  let '(db, frags, s) :=
    foldl (fun '(db, frags, s) f =>
             let '(db, fr) := purge_file_row db user (r_file_id f) in
             (db, frags ++ fr, summary_add s f)) (db, [], summary0) (list_trashed db user) in
  let '(st, remote) := purge_local_collect_remote st frags in
  (db, st, (s, remote)).

Record RetentionPolicy := mkPolicy { trash_days : Z; version_days : Z; keep_versions : Z }.
Definition RetentionPolicy_default : RetentionPolicy := mkPolicy 30 90 3.

Record PurgeReport := mkReport {
  pg_files : Z;
  pg_freed : list (string * Z * Z);
  pg_remote : list RemoteShard
}.

(** [ago d]: the RFC3339 stamp of [d] days before now. *)
Definition cutoff (ago : Z -> string) (days : Z) : string := ago (Z.max 0 (Z.min days 36500)).

(** The sweep's accumulator: database, ids seen, freed per user, shards, count. *)
Definition Sweep : Type := Db * gset string * gmap string (Z * Z) * list RemoteShard * Z.
Definition sweep_one (acc : Sweep) (c : PurgeCandidate) : Sweep :=
  let '(db, seen, freed, frags, n) := acc in
  let '(user, id, sz, stored) := c in
  if bool_decide (id ∈ seen) then acc
  else
    let '(db, fr) := purge_file_row db user id in
    let old := default (0, 0) (freed !! user) in
    (db, {[id]} ∪ seen, <[user := (old.1 + sz, old.2 + stored)]> freed, frags ++ fr, n + 1).

Definition purge_rules (db : Db) (ago : Z -> string) (policy : RetentionPolicy) : list PurgeCandidate :=
  trashed_before db (cutoff ago (trash_days policy)) ++
  superseded_before db (cutoff ago (version_days policy)) ++
  superseded_beyond db (Z.max (keep_versions policy) 0) ++
  superseded_orphans db.

Definition by_user (a b : string * (Z * Z)) : Prop := str_le a.1 b.1.
#[export] Instance by_user_dec a b : Decision (by_user a b).
Proof. unfold by_user. apply _. Defined.

Definition purge_retired (db : Db) (st : ChunkStore) (ago : Z -> string) (policy : RetentionPolicy)
    : Db * ChunkStore * PurgeReport :=
  let '(db, _, freed, frags, n) :=
    foldl sweep_one (db, ∅, ∅, [], 0) (purge_rules db ago policy) in
  let '(st, remote) := purge_local_collect_remote st frags in
  (db, st, mkReport n ((fun p => (p.1, p.2.1, p.2.2)) <$> merge_sort by_user (map_to_list freed)) remote).

(** ** Folders *)

(** What [browse] does with one live file: a sub-folder it implies, or a file of [dir]. *)
Inductive child := ChildFolder (p : string) | ChildFile (f : FileRow) | Elsewhere.
Definition classify (dir : string) (f : FileRow) : child :=
  let rel := if same dir "" then Some (chars (r_path f))
             else match strip_prefix (chars dir) (chars (r_path f)) with
                  | Some r => strip_prefix [slash] r
                  | None => None
                  end in
  match rel with
  | None | Some [] => Elsewhere
  | Some rel =>
      match split_once_slash rel with
      | Some (c, _) => ChildFolder (if same dir "" then unchars c else (dir ++ "/" ++ unchars c)%string)
      | None => ChildFile f
      end
  end.

Definition browse (db : Db) (user dir : string) : list string * list FileRow :=
  let dir := trim_slashes dir in
  let kids := classify dir <$> list_files db user in
  let implied := omap (fun k => match k with ChildFolder p => Some p | _ => None end) kids in
  (merge_sort str_le (remove_dups (folders_in db user dir ++ implied)),
   omap (fun k => match k with ChildFile f => Some f | _ => None end) kids).

Definition mkdir (db : Db) (user p : string) : Db := insert_folder db user (trim_slashes p).

(** [&path[n..]]: panics past the end or inside a character. *)
Definition str_from {E} (p : string) (n : nat) : res E string :=
  let l := chars p in
  match l !! n with
  | Some c => if continuation c then Panic else Ok (unchars (drop n l))
  | None => if (n =? List.length l)%nat then Ok "" else Panic
  end.

Definition move_file (user from to : string) (db : Db) (e : string * string) : res StoreError Db :=
  suffix ← str_from e.2 (String.length from);
  update_file_path db user e.1 (to ++ suffix)%string.
Definition move_folder (user from to : string) (db : Db) (p : string) : res StoreError Db :=
  suffix ← str_from p (String.length from);
  update_folder_path db user p (to ++ suffix)%string.

Definition rename (db : Db) (user from to : string) : res StoreError Db :=
  let from := trim_slashes from in
  let to := trim_slashes to in
  if same from "" || same to "" || same from to then Err NotFound
  else
    let db := insert_folder db user (dirname to) in
    match get_file_by_path db user from with
    | Some f => update_file_path db user (r_file_id f) to
    | None =>
        let fs := files_under db user from in
        let ds := folders_under db user from in
        if bool_decide (fs = []) && bool_decide (ds = []) then Err NotFound
        else
          db ← foldM (move_file user from to) db fs;
          db ← foldM (move_folder user from to) db ds;
          Ok (insert_folder db user to)
    end.
