(* ===== verification/ServiceProofs.v ===== *)
(** * Writing and reading back ([service.rs]: push, pull)

    What [write_chunk_rows] leaves in the database and in the store, and that [pull] reads
    back exactly the bytes that were pushed. *)

From Stdlib Require Import ZArith Lia Strings.Ascii Strings.String Strings.Byte.
From stdpp Require Import base numbers list gmap strings sorting.
From S2P Require Import Prelude External Erasure Crypto Pipeline Paths Manifest ManifestInv ChunkStore Service.

(** ** Sorted rows *)

Section SortBy.
Context {A : Type} (key : A -> Z).
Let R (a b : A) : Prop := key a <= key b.
Context `{!forall a b, Decision (R a b)}.

#[local] Instance R_trans : Transitive R.
Proof. intros a b c. unfold R. lia. Qed.
#[local] Instance R_total : Total R.
Proof. intros a b. unfold R. lia. Qed.

(** Sorting rows whose keys are already strictly increasing changes nothing. *)
Lemma merge_sort_increasing l :
  StronglySorted (fun a b => key a < key b) l -> merge_sort R l = l.
Proof.
  intros Hl. apply (StronglySorted_unique_strong R).
  - intros a b Ha Hb Hab Hba. pose proof (merge_sort_Permutation R l) as Hp. rewrite Hp in Ha. clear Hp.
    assert (E : key a = key b) by (unfold R in *; lia). clear Hab Hba.
    induction Hl as [|x l Hl IH Hx]; [by apply elem_of_nil in Ha|].
    rewrite Forall_forall in Hx.
    apply elem_of_cons in Ha as [Ea|Ha]; apply elem_of_cons in Hb as [Eb|Hb]; [congruence| | |auto].
    + subst. specialize (Hx b Hb). lia.
    + subst. specialize (Hx a Ha). lia.
  - apply StronglySorted_merge_sort; apply _.
  - clear -Hl. induction Hl as [|x l Hl IH Hx]; constructor; [done|].
    eapply Forall_impl; [exact Hx|]. unfold R. cbn. lia.
  - apply merge_sort_Permutation.
Qed.
End SortBy.

Lemma sorted_imap_seq {A} (key : A -> Z) (l : list A) (k : nat) :
  (forall i a, l !! i = Some a -> key a = Z.of_nat (k + i)) ->
  StronglySorted (fun a b => key a < key b) l.
Proof.
  revert k; induction l as [|a l IH]; intros k Hk; constructor.
  - apply (IH (S k)). intros i b Hi. rewrite (Hk (S i) b Hi). lia.
  - apply Forall_forall. intros b Hb. apply list_elem_of_lookup in Hb as (i & Hi).
    rewrite (Hk O a eq_refl), (Hk (S i) b Hi). lia.
Qed.

(** ** Appending rows and shards *)

(** From [(st, db)] to [(st', db')], exactly the chunk rows [cs] and the shards [ss] were
    added. *)
Record wrote (st : ChunkStore) (db : Db) (st' : ChunkStore) (db' : Db)
    (cs : list ChunkRow) (ss : list (ShardRow * bytes)) : Prop := {
  w_db : db' = mkDb (files db) (chunk_rows db ++ cs) (shard_rows db ++ ss.*1) (folders db);
  w_read : forall s b, (s, b) ∈ ss -> read st' (fragment s) = Ok b;
  w_other : forall id, id ∉ fragment <$> ss.*1 -> read st' id = read st id;
  w_fresh : forall s, s ∈ ss.*1 -> fragment s ∉ fragment <$> shard_rows db;
  w_fresh_chunk : forall c, c ∈ cs -> chunk_id_of c ∉ chunk_id_of <$> chunk_rows db
}.

Lemma wrote_refl st db : wrote st db st db [] [].
Proof.
  split; try done.
  - destruct db; cbn. by rewrite !app_nil_r.
  - by intros s b ?%elem_of_nil.
  - by intros s ?%elem_of_nil.
  - by intros s ?%elem_of_nil.
Qed.

Lemma wrote_trans st db st1 db1 st2 db2 cs ss cs' ss' :
  wrote st db st1 db1 cs ss -> wrote st1 db1 st2 db2 cs' ss' ->
  wrote st db st2 db2 (cs ++ cs') (ss ++ ss').
Proof.
  intros [-> Hr Ho Hf Hc] [-> Hr' Ho' Hf' Hc']. cbn in *. split; cbn.
  - by rewrite fmap_app, !app_assoc.
  - intros s b [Hs|Hs]%elem_of_app; [|by apply Hr'].
    rewrite Ho'; [by apply Hr|]. intros (s' & Hs' & Hin)%list_elem_of_fmap.
    apply (Hf' s' Hin). rewrite fmap_app. apply elem_of_app. right. rewrite <- Hs'.
    apply list_elem_of_fmap. exists s. split; [done|]. apply list_elem_of_fmap. by exists (s, b).
  - intros id Hid. rewrite fmap_app, fmap_app, not_elem_of_app in Hid. destruct Hid.
    by rewrite Ho', Ho.
  - intros s. rewrite fmap_app. intros [Hs|Hs]%elem_of_app; [by apply Hf|].
    specialize (Hf' s Hs). rewrite fmap_app, not_elem_of_app in Hf'. by destruct Hf'.
  - intros c [Hcs|Hcs]%elem_of_app; [by apply Hc|].
    specialize (Hc' c Hcs). rewrite fmap_app, not_elem_of_app in Hc'. by destruct Hc'.
Qed.

Lemma io_bind_ok {A B} (f : A -> io B) (m : io A) st st' b :
  (x ← m; f x) st = (st', Ok b) -> exists st1 a, m st = (st1, Ok a) /\ f a st1 = (st', Ok b).
Proof. unfold mbind, io_bind. destruct (m st) as [st1 [a|e|]]; intros H; [eauto|discriminate..]. Qed.

Lemma lift_ok {A} (m : res StoreError A) st st' a : lift m st = (st', Ok a) -> st' = st /\ m = Ok a.
Proof. unfold lift. intros [= -> ->]. done. Qed.

Lemma io_write_ok id data st st' u :
  io_write id data st = (st', Ok u) -> write st id data = Ok st'.
Proof. unfold io_write. destruct (write st id data); intros [=]; by subst. Qed.

Section Write.
Context `{CryptoPrims} `{Zstd} `{Log2} `{ReedSolomon}.

Definition shard_data (c : ProcessedChunk) (i : nat) : res StoreError bytes :=
  if decide (i < DATA_SHARDS)%nat
  then s ← data_shard (pc_cipher c) (pc_shard_len c) i; pad_shard (default [] s) (pc_shard_len c)
  else index (pc_recovery c) (i - DATA_SHARDS).
Definition shard_row (cid : string) (i : nat) (b : bytes) : ShardRow :=
  mkShard (fragment_id cid i) cid (Z.of_nat i) "local" (shard_hash b).
Definition chunk_row (file : string) (c : ProcessedChunk) : ChunkRow :=
  mkChunk (chunk_id file (Z.to_nat (pc_index c))) file (pc_index c) (pc_nonce c) (pc_is_compressed c)
    (pc_plaintext_len c) (len (pc_cipher c)) (pc_shard_len c).

Lemma write_shard_ok cid c db i st st' db' :
  write_shard cid c db i st = (st', Ok db') ->
  exists b, shard_data c i = Ok b /\ wrote st db st' db' [] [(shard_row cid i b, b)].
Proof.
  unfold write_shard. intros Hw.
  apply io_bind_ok in Hw as (st1 & b & [-> Hb]%lift_ok & Hw).
  apply io_bind_ok in Hw as (st1 & u & Hst%io_write_ok & [-> Hi]%lift_ok).
  exists b. split; [exact Hb|]. fold (shard_row cid i b) in Hi.
  unfold insert_shard in Hi. case_bool_decide as E1; [discriminate|].
  case_bool_decide as E2; [|discriminate]. injection Hi as <-. split; cbn.
  - by rewrite app_nil_r.
  - intros s b' [= -> ->]%list_elem_of_singleton. by eapply write_read.
  - intros id Hid. eapply write_read_ne; [exact Hst|]. intros ->. apply Hid. left.
  - intros s ->%list_elem_of_singleton. exact E1.
  - by intros c' ?%elem_of_nil.
Qed.

Lemma write_shards_ok cid c is_ db st st' db' :
  io_fold (write_shard cid c) db is_ st = (st', Ok db') ->
  exists bs, Forall2 (fun i b => shard_data c i = Ok b) is_ bs /\
    wrote st db st' db' [] (zip_with (fun i b => (shard_row cid i b, b)) is_ bs).
Proof.
  revert db st. induction is_ as [|i l IH]; intros db st; cbn [io_fold].
  - intros [= -> ->]. exists []. split; [constructor|apply wrote_refl].
  - intros (st1 & db1 & Hi & Hl)%io_bind_ok.
    apply write_shard_ok in Hi as (b & Hb & Hw). apply IH in Hl as (bs & Hbs & Hws).
    exists (b :: bs). split; [by constructor|]. exact (wrote_trans _ _ _ _ _ _ _ _ _ _ Hw Hws).
Qed.

Lemma write_chunk_ok file db c st st' db' :
  write_chunk file db c st = (st', Ok db') ->
  exists bs, Forall2 (fun i b => shard_data c i = Ok b) (seq 0 TOTAL_SHARDS) bs /\
    wrote st db st' db' [chunk_row file c]
      (zip_with (fun i b => (shard_row (chunk_id_of (chunk_row file c)) i b, b)) (seq 0 TOTAL_SHARDS) bs).
Proof.
  unfold write_chunk. intros (st1 & db1 & [-> Hi]%lift_ok & Hs)%io_bind_ok.
  apply write_shards_ok in Hs as (bs & Hbs & Hw). exists bs. split; [done|].
  assert (Hc : wrote st db st db1 [chunk_row file c] []).
  { fold (chunk_row file c) in Hi. unfold insert_chunk in Hi. case_bool_decide as E1; [discriminate|].
    case_bool_decide as E2; [|discriminate]. injection Hi as <-. split; cbn; try done.
    - by rewrite app_nil_r.
    - by intros s b ?%elem_of_nil.
    - by intros s ?%elem_of_nil.
    - by intros c' ->%list_elem_of_singleton. }
  exact (wrote_trans _ _ _ _ _ _ _ _ _ _ Hc Hw).
Qed.

(** The shards of one chunk, rows and bytes. *)
Definition chunk_shards (file : string) (c : ProcessedChunk) (bs : list bytes) : list (ShardRow * bytes) :=
  zip_with (fun i b => (shard_row (chunk_id_of (chunk_row file c)) i b, b)) (seq 0 TOTAL_SHARDS) bs.

Lemma write_chunk_rows_ok file db cs st st' db' :
  write_chunk_rows file db cs st = (st', Ok db') ->
  exists bss, Forall2 (fun c bs => Forall2 (fun i b => shard_data c i = Ok b) (seq 0 TOTAL_SHARDS) bs) cs bss /\
    wrote st db st' db' (chunk_row file <$> cs) (mjoin (zip_with (chunk_shards file) cs bss)).
Proof.
  unfold write_chunk_rows. revert db st. induction cs as [|c cs IH]; intros db st; cbn [io_fold].
  - intros [= -> ->]. exists []. split; [constructor|apply wrote_refl].
  - intros (st1 & db1 & Hi & Hl)%io_bind_ok.
    apply write_chunk_ok in Hi as (bs & Hb & Hw). apply IH in Hl as (bss & Hbs & Hws).
    exists (bs :: bss). split; [by constructor|]. exact (wrote_trans _ _ _ _ _ _ _ _ _ _ Hw Hws).
Qed.

Lemma wrote_inv st db st' db' cs ss :
  db_inv db -> wrote st db st' db' cs ss ->
  NoDup (chunk_id_of <$> cs) -> NoDup (fragment <$> ss.*1) ->
  Forall (fun c => chunk_file c ∈ file_id <$> files db) cs ->
  Forall (fun s => shard_chunk s ∈ chunk_id_of <$> (chunk_rows db ++ cs)) ss.*1 -> db_inv db'.
Proof.
  intros [Hi Hp Hc Hs Hcf Hsf Hf Hr] [-> _ _ Hfr Hfc] Hn1 Hn2 Hk1 Hk2.
  split; cbn; try done.
  - rewrite fmap_app. apply NoDup_app. split; [done|split; [|done]].
    intros x Hx (c & -> & Hin)%list_elem_of_fmap. by apply (Hfc c Hin).
  - rewrite fmap_app. apply NoDup_app. split; [done|split; [|done]].
    intros x Hx (c & -> & Hin)%list_elem_of_fmap. by apply (Hfr c Hin).
  - by apply Forall_app.
  - apply Forall_app. split; [|done]. eapply Forall_impl; [exact Hsf|]. intros s Hin.
    rewrite fmap_app. apply elem_of_app. by left.
Qed.
End Write.

(** ** Reading a written file *)

Lemma filter_none {A} (P : A -> Prop) `{!forall x, Decision (P x)} (l : list A) :
  Forall (fun x => ~ P x) l -> filter P l = [].
Proof. induction 1 as [|x l Hx Hl IH]; [done|]. by rewrite filter_cons_False. Qed.

Lemma mjoin_cons {A} (l : list A) ls : mjoin (l :: ls) = l ++ mjoin ls.
Proof. done. Qed.

(** Among lists whose elements carry the key of their list, a key selects its list. *)
Lemma filter_join {A K} `{!EqDecision K} (key : A -> K) (ls : list (list A)) (ks : list K) i l k :
  Forall2 (fun l k => Forall (fun a => key a = k) l) ls ks -> NoDup ks ->
  ls !! i = Some l -> ks !! i = Some k ->
  filter (fun a => key a = k) (mjoin ls) = l.
Proof.
  intros H2 Hnd. revert i. induction H2 as [|l' k' ls ks Hl Hls IH]; intros i Hi Hk; [done|].
  apply NoDup_cons in Hnd as [Hk' Hnd]. rewrite mjoin_cons, filter_app.
  destruct i as [|i]; cbn in Hi, Hk.
  - injection Hi as ->. injection Hk as ->. rewrite filter_all by done.
    rewrite filter_none, app_nil_r; [done|]. clear -Hls Hk'.
    induction Hls as [|l2 k2 ls ks Hl2 Hls IH]; [constructor|].
    apply not_elem_of_cons in Hk' as [Hne Hk']. rewrite mjoin_cons. apply Forall_app. split; [|by apply IH].
    eapply Forall_impl; [exact Hl2|]. cbn. congruence.
  - rewrite filter_none; [by eapply IH|]. eapply Forall_impl; [exact Hl|]. cbn. intros a -> ->.
    apply Hk'. by eapply list_elem_of_lookup_2.
Qed.

Lemma foldM_place st (rows : list (ShardRow * bytes)) (k : nat) :
  (k + length rows = TOTAL_SHARDS)%nat ->
  (forall j s b, rows !! j = Some (s, b) -> shard_index s = Z.of_nat (k + j) /\ read st (fragment s) = Ok b) ->
  forall pre, length pre = k ->
  foldM (place_local st) (pre ++ replicate (length rows) None) rows.*1 = Ok (pre ++ (Some <$> rows.*2)).
Proof.
  revert k. induction rows as [|[s b] rows IH]; intros k Hk Hrows pre Hpre; cbn [length replicate foldM fmap list_fmap].
  { by rewrite app_nil_r. }
  destruct (Hrows O s b eq_refl) as [Hix Hrd]. cbn [length] in Hk.
  assert (Hstep : place_local st (pre ++ None :: replicate (length rows) None) s =
                  Ok ((pre ++ [Some b]) ++ replicate (length rows) None)).
  { unfold place_local, as_u64. rewrite Hix, Nat.add_0_r. rewrite Z.mod_small by (unfold TOTAL_SHARDS, DATA_SHARDS, PARITY_SHARDS in Hk; lia).
    destruct (Z.ltb_spec (Z.of_nat k) (Z.of_nat TOTAL_SHARDS)); [|lia].
    rewrite Hrd. cbn [mbind res_bind]. rewrite Nat2Z.id. f_equal.
    rewrite <- Hpre, insert_app_r_alt by lia. rewrite Nat.sub_diag. cbn. by rewrite <- app_assoc. }
  cbn [fst snd]. rewrite Hstep. cbn [mbind res_bind].
  rewrite (IH (S k)); [by rewrite <- app_assoc|lia| |rewrite length_app; cbn; lia].
  intros j s' b' Hj. destruct (Hrows (S j) s' b' Hj) as [-> ?]. split; [f_equal; lia|done].
Qed.

Section ReadBack.
Context `{CryptoPrims} `{Zstd} `{Log2} `{ReedSolomon}.
Variable data_key : bytes.

Lemma shard_data_block c i :
  pc_shard_len c = shard_len (len (pc_cipher c)) -> (i < DATA_SHARDS)%nat ->
  shard_data c i = Ok (block (pc_cipher c) i).
Proof.
  intros Hs Hi. unfold shard_data. rewrite decide_True by done. rewrite Hs. by apply data_shard_block.
Qed.

(** All shards present: the decoder takes the first ten back. *)
Lemma reconstruct_written c bs :
  pc_shard_len c = shard_len (len (pc_cipher c)) ->
  Forall2 (fun i b => shard_data c i = Ok b) (seq 0 TOTAL_SHARDS) bs ->
  reconstruct (Some <$> bs) (len (pc_cipher c)) = Ok (pc_cipher c).
Proof.
  intros Hs Hbs.
  assert (Ht : take DATA_SHARDS bs = block (pc_cipher c) <$> seq 0 DATA_SHARDS).
  { apply (Forall2_take _ _ _ DATA_SHARDS) in Hbs.
    change (take DATA_SHARDS (seq 0 TOTAL_SHARDS)) with (seq 0 DATA_SHARDS) in Hbs.
    assert (Hall : Forall (fun i => i < DATA_SHARDS)%nat (seq 0 DATA_SHARDS))
      by (apply Forall_forall; intros i Hi%elem_of_seq; lia).
    revert Hall Hbs. generalize (take DATA_SHARDS bs) as l. generalize (seq 0 DATA_SHARDS) as is_.
    intros is_ l Hall Hbs. induction Hbs as [|i b is_ l Hb Hl IH]; [done|].
    apply Forall_cons in Hall as [Hi Hall]. rewrite shard_data_block in Hb by done.
    rewrite fmap_cons. f_equal; [congruence|auto]. }
  assert (Hf : take DATA_SHARDS (Some <$> bs) = Some <$> take DATA_SHARDS bs) by (by rewrite fmap_take).
  unfold reconstruct. rewrite Hf, Ht.
  replace (forallb _ _) with true.
  - f_equal. replace (omap id _) with (block (pc_cipher c) <$> seq 0 DATA_SHARDS).
    + rewrite join_blocks. apply truncate_padded.
    + generalize (block (pc_cipher c) <$> seq 0 DATA_SHARDS) as l. induction l as [|b l IH]; cbn; [done|].
      f_equal. exact IH.
  - symmetry. generalize (block (pc_cipher c) <$> seq 0 DATA_SHARDS) as l. by induction l.
Qed.

Lemma len_lt_u64 {A} (b : list A) : len b < 2 ^ 64 -> as_u64 (len b) = len b.
Proof. intros. unfold as_u64. apply Z.mod_small. split; [apply len_nonneg|done]. Qed.

(** One chunk, read back from its rows and shards. *)
Lemma pull_written_chunk `{!CryptoLaws} key s u f n fc db st file c bs i chunk out :
  FileCipher_new key s u f n = Ok fc -> (s = V2 -> Z.of_nat i < n) ->
  chunk_emitted fc i chunk c -> len (pc_cipher c) < 2 ^ 64 ->
  Forall2 (fun i b => shard_data c i = Ok b) (seq 0 TOTAL_SHARDS) bs ->
  get_shards db (chunk_id_of (chunk_row file c)) = (chunk_shards file c bs).*1 ->
  (forall s b, (s, b) ∈ chunk_shards file c bs -> read st (fragment s) = Ok b) ->
  pull_chunk db st fc out (chunk_row file c) = Ok (out ++ chunk).
Proof.
  intros Hfc Hn (Hix & Hpl & Hnon & Hsl & Her & (buf & Hseal & Hres & _)) Hlen Hbs Hget Hread.
  unfold pull_chunk. rewrite Hget.
  pose proof (Forall2_length _ _ _ Hbs) as Hl. rewrite length_seq in Hl.
  assert (Hcl : length (chunk_shards file c bs) = TOTAL_SHARDS).
  { unfold chunk_shards. rewrite length_zip_with, length_seq. lia. }
  assert (Hsnd : (chunk_shards file c bs).*2 = bs).
  { unfold chunk_shards. rewrite fmap_zip_with_r; [done|by intros|rewrite length_seq; lia]. }
  assert (Hrows : forall j sr b, chunk_shards file c bs !! j = Some (sr, b) ->
            shard_index sr = Z.of_nat (0 + j) /\ read st (fragment sr) = Ok b).
  { intros j sr b Hj. split; [|by eapply Hread, list_elem_of_lookup_2].
    unfold chunk_shards in Hj. apply lookup_zip_with_Some in Hj as (i' & b' & [= -> ->] & Hi & _).
    apply lookup_seq in Hi as [-> _]. done. }
  pose proof (foldM_place st (chunk_shards file c bs) 0 Hcl Hrows [] eq_refl) as Hp.
  rewrite Hcl, Hsnd in Hp. cbn [app] in Hp. rewrite Hp. clear Hp.
  cbn [mbind res_bind]. unfold decode_chunk. cbn [cipher_len chunk_row idx is_compressed].
  rewrite len_lt_u64 by done. rewrite (reconstruct_written c bs Hsl Hbs). cbn [map_err mbind res_bind].
  rewrite Hix. destruct (seal_chunk_ok _ _ _ _ _ _ _ _ _ _ Hfc Hseal) as (Hmax & _ & _).
  unfold as_u64. rewrite Z.mod_small by (unfold MAX_CHUNK_INDEX, u32_max in Hmax; lia).
  rewrite (open_sealed _ _ _ _ _ _ _ _ _ _ Hfc Hseal Hn). cbn [map_err mbind res_bind].
  rewrite Hres. done.
Qed.
End ReadBack.

(** ** Framing: what other files read *)

Lemma foldM_ext {E S X} (f g : S -> X -> res E S) s xs :
  (forall s x, x ∈ xs -> f s x = g s x) -> foldM f s xs = foldM g s xs.
Proof.
  revert s; induction xs as [|x xs IH]; intros s Hfg; cbn [foldM]; [done|].
  rewrite (Hfg s x) by left. destruct (g s x); cbn [mbind res_bind]; [|done..].
  apply IH. intros; apply Hfg. by right.
Qed.

(** The fields of a row that [pull] reads. *)
Definition same_content (r r' : FileRow) : Prop :=
  r_file_id r' = r_file_id r /\ r_user_id r' = r_user_id r /\ r_size r' = r_size r /\
  r_chunk_count r' = r_chunk_count r /\ r_key_scheme r' = r_key_scheme r /\
  r_pack_id r' = r_pack_id r /\ r_pack_offset r' = r_pack_offset r /\ r_pack_len r' = r_pack_len r.

(** The rows in [P], their chunks, their shards and the bytes of these are as before. *)
Definition keeps (P : string -> Prop) (db : Db) (st : ChunkStore) (db' : Db) (st' : ChunkStore) : Prop :=
  forall u i r, P i -> get_file db u i = Some r ->
    (exists r', get_file db' u i = Some r' /\ same_content r r') /\
    get_chunks db' i = get_chunks db i /\
    forall c, c ∈ get_chunks db i ->
      get_shards db' (chunk_id_of c) = get_shards db (chunk_id_of c) /\
      forall s, s ∈ get_shards db (chunk_id_of c) -> read st' (fragment s) = read st (fragment s).

Lemma same_content_refl r : same_content r r.
Proof. unfold same_content. tauto. Qed.
Lemma same_content_trans r s t : same_content r s -> same_content s t -> same_content r t.
Proof. unfold same_content. intuition congruence. Qed.

Lemma keeps_refl P db st : keeps P db st db st.
Proof. intros u i r _ Hr. split; [by exists r; split; [|apply same_content_refl]|done]. Qed.

Lemma keeps_trans P db st db1 st1 db2 st2 :
  keeps P db st db1 st1 -> keeps P db1 st1 db2 st2 -> keeps P db st db2 st2.
Proof.
  intros H1 H2 u i r HP Hr. destruct (H1 u i r HP Hr) as ((r1 & Hr1 & Hc1) & Hg1 & Hs1).
  destruct (H2 u i r1 HP Hr1) as ((r2 & Hr2 & Hc2) & Hg2 & Hs2).
  split; [exists r2; split; [done|by eapply same_content_trans]|split; [congruence|]].
  intros c Hc. destruct (Hs1 c Hc) as [He1 Hrd1]. rewrite Hg1 in Hs2. destruct (Hs2 c Hc) as [He2 Hrd2].
  split; [congruence|]. intros s Hs. rewrite Hrd2 by (by rewrite He1). by apply Hrd1.
Qed.

Section Frame.
Context `{CryptoPrims} `{Zstd} `{ReedSolomon}.
Variable data_key : bytes.

Lemma row_cipher_content r r' id : same_content r r' -> row_cipher data_key r' id = row_cipher data_key r id.
Proof. unfold row_cipher. intros (_ & -> & _ & -> & -> & _). done. Qed.

Lemma member_slice_content b r r' : same_content r r' -> member_slice b r' = member_slice b r.
Proof. unfold member_slice. intros (-> & _ & _ & _ & _ & _ & -> & ->). done. Qed.

Lemma pull_own_keeps (P : string -> Prop) db st db' st' u i r r' :
  keeps P db st db' st' -> P i -> get_file db u i = Some r -> same_content r r' ->
  pull_own data_key db' st' r' i = pull_own data_key db st r i.
Proof.
  intros Hk HP Hr Hc. destruct (Hk u i r HP Hr) as (_ & Hg & Hs).
  unfold pull_own. rewrite Hg, (row_cipher_content _ _ _ Hc).
  destruct Hc as (_ & _ & -> & _). destruct (row_cipher data_key r i) as [fc| |]; [|done..].
  cbn [mbind res_bind]. destruct (r_size r <? 0); [done|]. apply foldM_ext. intros out c Hin.
  destruct (Hs c Hin) as [He Hrd]. unfold pull_chunk. rewrite He.
  rewrite (foldM_ext (place_local st') (place_local st)); [done|].
  intros pr s Hsin. unfold place_local. by rewrite Hrd.
Qed.

(** The two shapes of a successful lookup: a self-contained row, a member of a pack. *)
Lemma pull_fuel_own fuel db st u i r :
  get_file db u i = Some r -> r_pack_id r = None ->
  pull_fuel data_key (S fuel) db st u i = pull_own data_key db st r i.
Proof. intros Hr Hp. cbn [pull_fuel]. rewrite Hr. cbn [ok_or mbind res_bind]. by rewrite Hp. Qed.

Lemma pull_fuel_member fuel db st u i r p pr :
  get_file db u i = Some r -> r_pack_id r = Some p ->
  get_file db u p = Some pr -> r_pack_id pr = None ->
  pull_fuel data_key (S (S fuel)) db st u i = (plain ← pull_own data_key db st pr p; member_slice plain r).
Proof.
  intros Hr Hp Hpr Hn. rewrite <- (pull_fuel_own fuel db st u p pr Hpr Hn).
  cbn [pull_fuel]. rewrite Hr. cbn [ok_or mbind res_bind]. rewrite Hp.
  rewrite Hpr. cbn [ok_or mbind res_bind]. by rewrite Hn.
Qed.

(** A successful read is of one of these shapes, with any fuel. *)
Lemma pull_fuel_inv fuel db st u i b :
  pull_fuel data_key (S (S fuel)) db st u i = Ok b ->
  exists r, get_file db u i = Some r /\
    (r_pack_id r = None \/
     exists p pr, r_pack_id r = Some p /\ get_file db u p = Some pr /\ r_pack_id pr = None).
Proof.
  cbn [pull_fuel]. intros (r & Hr%ok_or_ok & Hp)%bind_ok. exists r. split; [done|].
  destruct (r_pack_id r) as [p|]; [right|by left].
  apply bind_ok in Hp as (pr & Hpr%ok_or_ok & Hp). exists p, pr.
  destruct (r_pack_id pr); [discriminate|]. done.
Qed.

Lemma pull_keeps (P : string -> Prop) db st db' st' u i b :
  keeps P db st db' st' -> P i ->
  (forall r p, get_file db u i = Some r -> r_pack_id r = Some p -> P p) ->
  pull data_key db st u i = Ok b -> pull data_key db' st' u i = Ok b.
Proof.
  intros Hk HP Hpack Hp. unfold pull in *.
  destruct (pull_fuel_inv 0 _ _ _ _ _ Hp) as (r & Hr & Hcase).
  destruct (Hk u i r HP Hr) as ((r' & Hr' & Hc) & _). pose proof Hc as (_ & _ & _ & _ & _ & Hpi & _).
  destruct Hcase as [Hn|(pk & pr & Hpk & Hpr & Hn)].
  - rewrite (pull_fuel_own _ _ _ _ _ r) in Hp by done.
    rewrite (pull_fuel_own _ _ _ _ _ r') by (try done; by rewrite Hpi).
    by rewrite (pull_own_keeps P db st db' st' u i r r').
  - destruct (Hk u pk pr (Hpack r pk Hr Hpk) Hpr) as ((pr' & Hpr' & Hpc) & _).
    pose proof Hpc as (_ & _ & _ & _ & _ & Hppi & _).
    rewrite (pull_fuel_member 0 _ _ _ _ r pk pr) in Hp by done.
    rewrite (pull_fuel_member 0 _ _ _ _ r' pk pr') by (try done; congruence).
    rewrite (pull_own_keeps P db st db' st' u pk pr pr') by (try done; by eapply Hpack).
    destruct (pull_own data_key db st pr pk); cbn [mbind res_bind] in *; [|done..].
    by rewrite (member_slice_content _ r r').
Qed.
End Frame.

(** Statements that only touch listing columns keep every file. *)
Lemma update_files_keeps P db st p g db' n :
  (forall f, same_content (map_file f) (map_file (g f))) ->
  update_files db p g = Ok (db', n) -> keeps P db st db' st.
Proof.
  intros Hg Hu. unfold update_files in Hu. destruct (unique_paths _); [|discriminate]. injection Hu as <- <-.
  intros u i r _ Hr. split; [|done]. unfold get_file, select in *. cbn [files set_files].
  clear -Hg Hr. induction (files db) as [|f fs IH]; [done|].
  rewrite fmap_cons. destruct (Hg f) as (E1 & E2 & _). cbn in E1, E2.
  set (f' := if p f then g f else f).
  assert (Hid : file_id f' = file_id f /\ user_id f' = user_id f) by (unfold f'; destruct (p f); done).
  rewrite !filter_cons in *. destruct Hid as [-> ->].
  case_decide; [|by apply IH]. cbn in Hr. injection Hr as <-. exists (map_file f').
  split; [done|]. unfold f'. destruct (p f); [apply Hg|apply same_content_refl].
Qed.

Lemma retire_row_keeps P db st u i c a db' b :
  retire_row db u i c a = Ok (db', b) -> keeps P db st db' st.
Proof.
  unfold retire_row. intros (x & Hu & [= <- _])%bind_ok. destruct x as [d n].
  eapply update_files_keeps; [|exact Hu]. intros f. unfold same_content. tauto.
Qed.

Lemma restore_file_keeps P db st u i p db' b :
  restore_file db u i p = Ok (db', b) -> keeps P db st db' st.
Proof.
  unfold restore_file. intros (x & Hu & [= <- _])%bind_ok. destruct x as [d n].
  eapply update_files_keeps; [|exact Hu]. intros f. unfold same_content. tauto.
Qed.

Lemma update_file_path_keeps P db st u i p db' :
  update_file_path db u i p = Ok db' -> keeps P db st db' st.
Proof.
  unfold update_file_path. intros Hu. destruct (update_files _ _ _) as [[d n]| |] eqn:E; try discriminate.
  injection Hu as <-. eapply update_files_keeps; [|exact E]. intros f. unfold same_content. tauto.
Qed.

Lemma same_files_keeps P db st db' :
  files db' = files db -> chunk_rows db' = chunk_rows db -> shard_rows db' = shard_rows db ->
  keeps P db st db' st.
Proof.
  intros Hf Hc Hs u i r _ Hr. unfold get_file, select, get_chunks, get_shards in *.
  rewrite Hf, Hc, Hs. split; [exists r; split; [done|apply same_content_refl]|done].
Qed.

Lemma insert_file_keeps P db st f db' : insert_file db f = Ok db' -> keeps P db st db' st.
Proof.
  unfold insert_file. set (r0 := mkFile _ _ _ _ _ _ _ _ _ _ _ _ _ _ _ _).
  destruct (_ || _); [discriminate|]. intros [= <-] u i r _ Hr. split; [|done].
  exists r. split; [|apply same_content_refl]. unfold get_file, select in *. cbn [files set_files].
  rewrite filter_app, fmap_app. by destruct (map_file <$> _).
Qed.

Lemma elem_of_get_chunks db i c : c ∈ get_chunks db i <-> c ∈ chunk_rows db /\ chunk_file c = i.
Proof. unfold get_chunks. rewrite merge_sort_Permutation, list_elem_of_filter. tauto. Qed.
Lemma elem_of_get_shards db cid s : s ∈ get_shards db cid <-> s ∈ shard_rows db /\ shard_chunk s = cid.
Proof. unfold get_shards. rewrite merge_sort_Permutation, list_elem_of_filter. tauto. Qed.

(** New chunks and shards leave every file with other chunks as it was. *)
Lemma wrote_keeps P st db st' db' cs ss file :
  db_inv db -> wrote st db st' db' cs ss ->
  (forall i, P i -> i <> file) -> Forall (fun c => chunk_file c = file) cs ->
  Forall (fun s => shard_chunk s ∈ chunk_id_of <$> cs) ss.*1 ->
  keeps P db st db' st'.
Proof.
  intros Hinv [-> Hr Ho Hf Hc] HP Hcs Hss u i r Hi Hr0.
  assert (Hch : get_chunks (mkDb (files db) (chunk_rows db ++ cs) (shard_rows db ++ ss.*1) (folders db)) i
                = get_chunks db i).
  { unfold get_chunks. cbn [chunk_rows]. rewrite filter_app, (filter_none _ cs), app_nil_r; [done|].
    eapply Forall_impl; [exact Hcs|]. cbn. intros c -> E. by apply (HP i Hi). }
  split; [exists r; split; [done|apply same_content_refl]|split; [done|]].
  intros c [Hc1 Hc2]%elem_of_get_chunks. split.
  - unfold get_shards. cbn [shard_rows]. rewrite filter_app, (filter_none _ ss.*1), app_nil_r; [done|].
    apply Forall_forall. intros s Hs E. rewrite Forall_forall in Hss. specialize (Hss s Hs).
    rewrite E in Hss. apply list_elem_of_fmap in Hss as (c' & Ec & Hc'). apply (Hc c' Hc').
    rewrite <- Ec. apply list_elem_of_fmap. by exists c.
  - intros s [Hs1 Hs2]%elem_of_get_shards. apply Ho. intros (s' & Es & Hs')%list_elem_of_fmap.
    apply (Hf s' Hs'). rewrite <- Es. apply list_elem_of_fmap. by exists s.
Qed.

Section Push.
Context `{CryptoPrims} `{Zstd} `{Log2} `{ReedSolomon}.
Variable data_key : bytes.

Lemma chunk_shards_rows file c bs :
  Forall (fun p => shard_chunk p.1 = chunk_id_of (chunk_row file c)) (chunk_shards file c bs).
Proof.
  apply Forall_forall. intros [s b] Hin. apply list_elem_of_lookup in Hin as (j & Hj).
  unfold chunk_shards in Hj. apply lookup_zip_with_Some in Hj as (i & b' & [= -> ->] & _). done.
Qed.

Lemma chunk_shards_all file (cs : list ProcessedChunk) bss :
  Forall (fun s => shard_chunk s ∈ chunk_id_of <$> (chunk_row file <$> cs))
    (mjoin (zip_with (chunk_shards file) cs bss)).*1.
Proof.
  revert bss; induction cs as [|c cs IH]; intros [|bs bss]; cbn [zip_with]; try constructor.
  rewrite mjoin_cons, fmap_app. apply Forall_app. split.
  - apply Forall_fmap. eapply Forall_impl; [apply chunk_shards_rows|].
    intros p Hp. cbv beta in Hp |- *. cbn [compose]. rewrite Hp. left.
  - eapply Forall_impl; [apply IH|]. intros s Hs. by right.
Qed.

(** The rows [write_chunk_rows] appended belong to the file, and their keys are distinct. *)
Lemma write_chunk_rows_wrote file db cs st st' db' :
  db_inv db -> file ∈ file_id <$> files db ->
  write_chunk_rows file db cs st = (st', Ok db') ->
  db_inv db' /\ exists bss,
    Forall2 (fun c bs => Forall2 (fun i b => shard_data c i = Ok b) (seq 0 TOTAL_SHARDS) bs) cs bss /\
    wrote st db st' db' (chunk_row file <$> cs) (mjoin (zip_with (chunk_shards file) cs bss)).
Proof.
  intros Hinv Hfile Hw.
  assert (Hinv' : db_inv db').
  { clear -Hinv Hw. unfold write_chunk_rows in Hw. revert db st Hinv Hw.
    induction cs as [|c cs IH]; intros db st Hinv; cbn [io_fold]; [by intros [= -> ->]|].
    intros (st1 & db1 & Hc & Hl)%io_bind_ok. eapply IH; [|exact Hl]. clear IH Hl.
    unfold write_chunk in Hc. apply io_bind_ok in Hc as (st2 & db2 & [-> Hi]%lift_ok & Hs).
    apply insert_chunk_inv in Hi; [|done]. revert db2 st Hi Hs.
    generalize (seq 0 TOTAL_SHARDS) as l. intros l. induction l as [|i l IH]; intros db2 st Hi; cbn [io_fold].
    - by intros [= -> ->].
    - intros (st3 & db3 & Hws & Hl)%io_bind_ok. eapply IH; [|exact Hl].
      unfold write_shard in Hws. apply io_bind_ok in Hws as (st4 & b & [-> _]%lift_ok & Hws).
      apply io_bind_ok in Hws as (st5 & u & _ & [-> Hin]%lift_ok). by eapply insert_shard_inv. }
  split; [done|]. by apply write_chunk_rows_ok.
Qed.

(** Reading the chunks of a file that was just written, one after the other. *)
Lemma pull_written_chunks `{!CryptoLaws} `{!ZstdLaws} s u f n fc db st file pcs bss k pieces out :
  FileCipher_new data_key s u f n = Ok fc ->
  (s = V2 -> forall i, (i < length pcs)%nat -> Z.of_nat (k + i) < n) ->
  (forall i pc, pcs !! i = Some pc -> exists chunk, pieces !! i = Some chunk /\ chunk_emitted fc (k + i) chunk pc) ->
  length pieces = length pcs -> Forall (fun p => len p <= 2 ^ 62) pieces ->
  Forall2 (fun c bs => Forall2 (fun i b => shard_data c i = Ok b) (seq 0 TOTAL_SHARDS) bs) pcs bss ->
  (forall i pc bs, pcs !! i = Some pc -> bss !! i = Some bs ->
     get_shards db (chunk_id_of (chunk_row file pc)) = (chunk_shards file pc bs).*1) ->
  (forall s b, (s, b) ∈ mjoin (zip_with (chunk_shards file) pcs bss) -> read st (fragment s) = Ok b) ->
  foldM (pull_chunk db st fc) out (chunk_row file <$> pcs) = Ok (out ++ mjoin pieces).
Proof.
  intros Hfc. revert k pieces bss out. induction pcs as [|pc pcs IH]; intros k pieces bss out Hn Hem Hlen Hsz Hb2 Hget Hread.
  { destruct pieces; [|discriminate]. cbn. by rewrite app_nil_r. }
  destruct pieces as [|p pieces]; [discriminate|]. inversion Hb2 as [|? bs ? bss' Hbs Hbss]; subst.
  apply Forall_cons in Hsz as [Hp Hsz]. rewrite fmap_cons. cbn [foldM].
  destruct (Hem O pc eq_refl) as (chunk & [= <-] & Hch). rewrite Nat.add_0_r in Hch.
  rewrite (pull_written_chunk data_key s u f n fc db st file pc bs k p out Hfc); cycle 1.
  - intros Hs. specialize (Hn Hs O ltac:(cbn; lia)). by rewrite Nat.add_0_r in Hn.
  - done.
  - destruct Hch as (_ & _ & _ & _ & _ & buf & Hseal & _ & Hb).
    destruct (seal_chunk_ok _ _ _ _ _ _ _ _ _ _ Hfc Hseal) as (_ & _ & Hae).
    rewrite (aead_seal_len _ _ _ _ _ Hae). unfold TAG_LEN. lia.
  - done.
  - by apply (Hget O).
  - intros s' b' Hin. apply Hread. cbn [zip_with]. rewrite mjoin_cons. apply elem_of_app. by left.
  - cbn [mbind res_bind]. rewrite (IH (S k) pieces bss'); [by rewrite mjoin_cons, app_assoc|..].
    + intros Hs i Hi. specialize (Hn Hs (S i) ltac:(cbn; lia)). by rewrite Nat.add_succ_r in Hn.
    + intros i pc' Hi. destruct (Hem (S i) pc' Hi) as (ch & Hc1 & Hc2). exists ch. split; [done|].
      by rewrite Nat.add_succ_r in Hc2.
    + by injection Hlen.
    + done.
    + done.
    + intros i pc' bs' Hi Hb. by apply (Hget (S i)).
    + intros s' b' Hin. apply Hread. cbn [zip_with]. rewrite mjoin_cons. apply elem_of_app. by right.
Qed.
End Push.

Lemma fmap_mjoin {A B} (f : A -> B) (ls : list (list A)) : f <$> mjoin ls = mjoin ((fmap f) <$> ls).
Proof. induction ls as [|l ls IH]; [done|]. by rewrite mjoin_cons, fmap_app, IH. Qed.

(** The record [insert_file] stores. *)
Definition rec_of (f : FileRow) : FileRec :=
  {| file_id := r_file_id f; user_id := r_user_id f; path := r_path f; size := r_size f;
     stored_bytes := r_stored_bytes f; chunk_count := r_chunk_count f;
     created_at := r_created_at f; retired_path := None; deleted_at := None;
     superseded_at := None; lineage_col := Some (r_lineage f); key_scheme := r_key_scheme f;
     content_hash := r_content_hash f; pack_id := r_pack_id f;
     pack_offset := r_pack_offset f; pack_len := r_pack_len f |}.

Lemma insert_file_ok db f db' :
  insert_file db f = Ok db' ->
  (r_file_id f ∉ file_id <$> files db) /\ db' = set_files db (files db ++ [rec_of f]).
Proof.
  unfold insert_file. fold (rec_of f). destruct (_ || _) eqn:E; [discriminate|]. intros [= <-].
  apply orb_false_iff in E as [E%bool_decide_eq_false _]. done.
Qed.

Section Stored.
Context `{CryptoPrims} `{Zstd} `{Log2} `{ReedSolomon}.
Variable data_key : bytes.

(** The chunk list and the shard lists of a file just written are the rows written. *)
Lemma written_chunks db0 db' cs ss file :
  db_inv db0 -> file ∉ file_id <$> files db0 -> chunk_rows db' = chunk_rows db0 ++ cs ->
  Forall (fun c => chunk_file c = file) cs ->
  (forall i c, cs !! i = Some c -> idx c = Z.of_nat i) -> get_chunks db' file = cs /\
  (forall c l (i : nat) (ls : list (list ShardRow)),
     (forall c, c ∈ cs -> chunk_id_of c ∉ chunk_id_of <$> chunk_rows db0) ->
     shard_rows db' = shard_rows db0 ++ ss -> ss = mjoin ls ->
     Forall2 (fun l k => Forall (fun a => shard_chunk a = k) l) ls (chunk_id_of <$> cs) ->
     NoDup (chunk_id_of <$> cs) -> cs !! i = Some c -> ls !! i = Some l ->
     (forall j s, l !! j = Some s -> shard_index s = Z.of_nat j) ->
     get_shards db' (chunk_id_of c) = l).
Proof.
  intros Hinv Hfile Hcr Hcs Hidx. split.
  - unfold get_chunks. rewrite Hcr, filter_app, filter_none, (filter_all _ cs); [|done|].
    + cbn [app]. apply (merge_sort_increasing idx). by apply (sorted_imap_seq idx cs 0).
    + eapply Forall_impl; [apply (inv_chunk_fk _ Hinv)|]. intros c Hin E. apply Hfile. by rewrite <- E.
  - intros c l i ls Hfresh Hsr -> Hks Hnd Hi Hl Hsi. unfold get_shards. rewrite Hsr, filter_app, filter_none.
    + cbn [app]. rewrite (filter_join shard_chunk ls (chunk_id_of <$> cs) i l); [|done..|by rewrite list_lookup_fmap, Hi].
      apply (merge_sort_increasing shard_index). by apply (sorted_imap_seq shard_index l 0).
    + eapply Forall_impl; [apply (inv_shard_fk _ Hinv)|]. intros s Hin E.
      apply (Hfresh c); [by eapply list_elem_of_lookup_2|]. by rewrite <- E.
Qed.

(** What [insert_file] and [write_chunk_rows] leave behind: the file's chunk rows are the
    chunks of the pipeline, each with its fourteen shard rows, and the shards are on disk. *)
Record written_file (db : Db) (f : FileRow) (st' : ChunkStore) (db' : Db)
    (data : bytes) (pcs : list ProcessedChunk) (fc : FileCipher) (pieces : list bytes) (bss : list (list bytes)) : Prop := {
  wf_inv : db_inv db';
  wf_files : files db' = files db ++ [rec_of f];
  wf_cipher : row_cipher data_key f (r_file_id f) = Ok fc;
  wf_new : FileCipher_new data_key V2 (as_bytes (r_user_id f)) (as_bytes (r_file_id f)) (len pcs) = Ok fc;
  wf_chunks : get_chunks db' (r_file_id f) = chunk_row (r_file_id f) <$> pcs;
  wf_pieces : mjoin pieces = data;
  wf_length : length pieces = length pcs;
  wf_small : Forall (fun p => len p <= 2 ^ 62) pieces;
  wf_emitted : forall i pc, pcs !! i = Some pc -> exists chunk, pieces !! i = Some chunk /\ chunk_emitted fc i chunk pc;
  wf_shards : Forall2 (fun c bs => Forall2 (fun i b => shard_data c i = Ok b) (seq 0 TOTAL_SHARDS) bs) pcs bss;
  wf_rows : forall i pc bs, pcs !! i = Some pc -> bss !! i = Some bs ->
     get_shards db' (chunk_id_of (chunk_row (r_file_id f) pc)) = (chunk_shards (r_file_id f) pc bs).*1;
  wf_read : forall s b, (s, b) ∈ mjoin (zip_with (chunk_shards (r_file_id f)) pcs bss) -> read st' (fragment s) = Ok b
}.

Lemma wrote_shard_rows db db' st st' file pcs bss i pc bs :
  db_inv db -> file ∉ file_id <$> files db -> db_inv db' ->
  (forall i c, (chunk_row file <$> pcs) !! i = Some c -> idx c = Z.of_nat i) ->
  Forall2 (fun c bs => Forall2 (fun i b => shard_data c i = Ok b) (seq 0 TOTAL_SHARDS) bs) pcs bss ->
  wrote st (set_files db (files db')) st' db' (chunk_row file <$> pcs) (mjoin (zip_with (chunk_shards file) pcs bss)) ->
  pcs !! i = Some pc -> bss !! i = Some bs ->
  get_shards db' (chunk_id_of (chunk_row file pc)) = (chunk_shards file pc bs).*1.
Proof.
  intros Hinv Hnew Hinv' Hidx Hbss Hwr Hi Hb.
  destruct (written_chunks db db' (chunk_row file <$> pcs)
              (mjoin (zip_with (chunk_shards file) pcs bss)).*1 file Hinv Hnew) as [_ Hgs].
  { by rewrite (w_db _ _ _ _ _ _ Hwr). }
  { apply Forall_fmap, Forall_forall. done. }
  { done. }
  eapply (Hgs (chunk_row file pc) ((chunk_shards file pc bs).*1) i
           ((fun l : list (ShardRow * bytes) => l.*1) <$> zip_with (chunk_shards file) pcs bss)).
  - intros c Hc. exact (w_fresh_chunk _ _ _ _ _ _ Hwr c Hc).
  - by rewrite (w_db _ _ _ _ _ _ Hwr).
  - apply fmap_mjoin.
  - clear -Hbss. induction Hbss as [|c bs cs bss Hc Hcs IH]; cbn; constructor; [|exact IH].
    apply Forall_fmap. eapply Forall_impl; [apply chunk_shards_rows|]. by intros p Hp.
  - pose proof (inv_chunks _ Hinv') as Hnd. rewrite (w_db _ _ _ _ _ _ Hwr) in Hnd. cbn in Hnd.
    rewrite fmap_app in Hnd. by apply NoDup_app in Hnd as (_ & _ & ?).
  - by rewrite list_lookup_fmap, Hi.
  - rewrite list_lookup_fmap, lookup_zip_with, Hi. cbn. by rewrite Hb.
  - intros j s Hj. rewrite list_lookup_fmap in Hj. apply fmap_Some in Hj as ([s' b'] & Hj & ->).
    unfold chunk_shards in Hj. apply lookup_zip_with_Some in Hj as (x & y & [= -> ->] & Hx & _).
    apply lookup_seq in Hx as [-> _]. done.
Qed.

Lemma store_writes db f db1 data pcs st st' db' :
  ZstdLaws -> db_inv db -> len data <= isize_max ->
  insert_file db f = Ok db1 -> r_key_scheme f = as_i64 V2 -> r_chunk_count f = len pcs ->
  process_v2 data data_key (as_bytes (r_user_id f)) (as_bytes (r_file_id f)) PipelineConfig_default = Ok pcs ->
  write_chunk_rows (r_file_id f) db1 pcs st = (st', Ok db') ->
  (exists fc pieces bss, written_file db f st' db' data pcs fc pieces bss) /\
  keeps (fun i => i <> r_file_id f) db st db' st'.
Proof.
  intros ZLaws Hinv Hlen Hins Hks Hcc Hproc Hw.
  pose proof (insert_file_ok _ _ _ Hins) as [Hnew ->].
  pose proof (insert_file_inv _ _ _ Hinv Hins) as Hinv1. set (db1 := set_files db (files db ++ [rec_of f])) in *.
  destruct (write_chunk_rows_wrote (r_file_id f) db1 pcs st st' db' Hinv1) as (Hinv' & bss & Hbss & Hwr); [|done|].
  { unfold db1. cbn. rewrite fmap_app. apply elem_of_app. right. left. }
  assert (Hfiles : files db' = files db ++ [rec_of f]) by (by rewrite (w_db _ _ _ _ _ _ Hwr)).
  split.
  - apply process_ok in Hproc as (fc & Hfc & _ & Hpl & Hpcs); [|done].
    pose proof (chunks_count (chunk_size PipelineConfig_default) data ltac:(done)) as Hcount.
    change (chunk_size PipelineConfig_default) with 4194304 in *.
    set (pieces := chunks 4194304 data) in *.
    assert (Hn : div_ceil (len data) 4194304 = len pcs) by (unfold len in *; lia).
    pose proof (div_ceil_spec (len data) 4194304 ltac:(done)) as Hd.
    assert (Hidx : forall i c, (chunk_row (r_file_id f) <$> pcs) !! i = Some c -> idx c = Z.of_nat i).
    { intros i c Hi. rewrite list_lookup_fmap in Hi. apply fmap_Some in Hi as (pc & Hi & ->).
      destruct (Hpcs i pc Hi) as (ch & _ & Hix & _). done. }
    rewrite Hn in Hfc. exists fc, pieces, bss. split; try done.
    + unfold row_cipher. rewrite Hks. change (from_i64 (as_i64 V2)) with (Ok (E:=CoreError) V2).
      cbn [map_err mbind res_bind]. rewrite Hcc, len_lt_u64 by (unfold len, isize_max in *; lia). by rewrite Hfc.
    + eapply (written_chunks db db' _ [] (r_file_id f) Hinv Hnew); [|by apply Forall_fmap, Forall_forall|done].
      by rewrite (w_db _ _ _ _ _ _ Hwr).
    + by apply chunks_concat.
    + apply Forall_forall. intros p Hp%chunks_bounds; [lia|done].
    + intros i pc bs Hi Hb. apply (wrote_shard_rows db db' st st' (r_file_id f) pcs bss i); try done.
      by rewrite Hfiles.
    + intros s b Hin. by apply (w_read _ _ _ _ _ _ Hwr).
  - eapply keeps_trans; [by eapply insert_file_keeps|].
    eapply wrote_keeps; [exact Hinv1|exact Hwr|done| |].
    + apply Forall_fmap, Forall_forall. done.
    + apply chunk_shards_all.
Qed.

Lemma stored_file_reads db f db1 data pcs st st' db' :
  CryptoLaws -> ZstdLaws -> db_inv db -> len data <= isize_max ->
  insert_file db f = Ok db1 ->
  r_key_scheme f = as_i64 V2 -> r_chunk_count f = len pcs -> 0 <= r_size f -> r_pack_id f = None ->
  process_v2 data data_key (as_bytes (r_user_id f)) (as_bytes (r_file_id f)) PipelineConfig_default = Ok pcs ->
  write_chunk_rows (r_file_id f) db1 pcs st = (st', Ok db') ->
  db_inv db' /\ pull data_key db' st' (r_user_id f) (r_file_id f) = Ok data /\
  keeps (fun i => i <> r_file_id f) db st db' st' /\ files db' = files db ++ [rec_of f].
Proof.
  intros Laws ZLaws Hinv Hlen Hins Hks Hcc Hsz Hpk Hproc Hw.
  destruct (store_writes _ _ _ _ _ _ _ _ ZLaws Hinv Hlen Hins Hks Hcc Hproc Hw) as [(fc & pieces & bss & W) Hk].
  split; [by eapply wf_inv|split; [|split; [done|by eapply wf_files]]].
  unfold pull. rewrite (pull_fuel_own _ _ _ _ _ _ (map_file (rec_of f))); [|apply get_file_found|done].
  2: { by eapply wf_inv. }
  2: { rewrite (wf_files _ _ _ _ _ _ _ _ _ W). apply elem_of_app. right. left. }
  2: { by apply is_row_true. }
  unfold pull_own. rewrite (wf_chunks _ _ _ _ _ _ _ _ _ W).
  change (row_cipher data_key (map_file (rec_of f)) (r_file_id f)) with (row_cipher data_key f (r_file_id f)).
  change (r_size (map_file (rec_of f))) with (r_size f). rewrite (wf_cipher _ _ _ _ _ _ _ _ _ W).
  cbn [mbind res_bind]. destruct (Z.ltb_spec (r_size f) 0); [lia|].
  rewrite <- (wf_pieces _ _ _ _ _ _ _ _ _ W). change (mjoin pieces) with ([] ++ mjoin pieces).
  eapply (pull_written_chunks data_key V2 _ _ (len pcs) fc db' st' (r_file_id f) pcs bss 0 pieces []).
  - by eapply wf_new.
  - intros _ i Hi. unfold len. lia.
  - by eapply wf_emitted.
  - by eapply wf_length.
  - by eapply wf_small.
  - by eapply wf_shards.
  - by eapply wf_rows.
  - by eapply wf_read.
Qed.
End Stored.
