(* ===== verification/ServiceSpec.v ===== *)
(** * What the service promises ([service.rs])

    Round trip of push and pull, survival of every readable file across the operations that
    only list, move, trash or restore, isolation of the permanent deletions, and the manifest
    invariant over every reachable state. *)

From Stdlib Require Import ZArith Lia Strings.Ascii Strings.String Strings.Byte.
From stdpp Require Import base numbers list gmap strings sorting.
From S2P Require Import Prelude External Erasure Crypto Pipeline Paths Manifest ManifestInv ChunkStore.
From S2P Require Import Service ServiceProofs.

Lemma get_file_id db u i r : get_file db u i = Some r -> i ∈ file_id <$> files db.
Proof.
  intros (f & Hf & Hr & _)%get_file_elem. apply is_row_true in Hr as [_ <-].
  by apply list_elem_of_fmap_2.
Qed.

(** ** Purging *)

Lemma purge_row_files db u i db' fr :
  purge_file_row db u i = (db', fr) -> db' = delete_files db (is_row u i) /\ fr = file_frags db u i.
Proof. unfold purge_file_row. intros [= <- <-]. done. Qed.

Lemma purge_row_shards db u i :
  db_inv db -> forall x, x ∈ (file_frags db u i).*1 -> x ∉ fragment <$> shard_rows (delete_files db (is_row u i)).
Proof.
  intros Hinv x Hx Hx'. unfold file_frags in Hx. rewrite <- list_fmap_compose in Hx.
  apply list_elem_of_fmap in Hx as (s & -> & [Hp Hs]%list_elem_of_filter).
  apply list_elem_of_fmap in Hx' as (s' & Es & Hs'). cbn in Es.
  unfold delete_files, delete_chunks in Hs'. cbn [shard_rows set_files files chunk_rows] in Hs'.
  apply list_elem_of_filter in Hs' as [Hng Hs'].
  assert (s = s') as <-.
  { apply list_elem_of_lookup in Hs as (a & Ha), Hs' as (b & Hb).
    assert (a = b) as ->; [|congruence].
    eapply NoDup_lookup; [apply (inv_shards _ Hinv)| |]; rewrite list_lookup_fmap; [by rewrite Ha|by rewrite Hb; cbn; rewrite Es]. }
  apply existsb_exists in Hp as (c & Hc & Hp). rewrite !andb_true_iff, !same_true in Hp.
  destruct Hp as ((Hcs & Hcf) & Hex). apply existsb_exists in Hex as (f & Hf & Hr).
  apply Hng. rewrite <- Hcs. apply list_elem_of_fmap. exists c. split; [done|].
  apply list_elem_of_filter. split; [|by apply list_elem_of_In].
  apply bool_decide_eq_true, list_elem_of_fmap. exists f. apply is_row_true in Hr as Hr'. destruct Hr' as [_ Hid].
  split; [congruence|]. apply list_elem_of_filter. split; [done|by apply list_elem_of_In].
Qed.

Lemma delete_files_sub db p s : s ∈ shard_rows (delete_files db p) -> s ∈ shard_rows db.
Proof. unfold delete_files, delete_chunks. cbn. by intros [_ ?]%list_elem_of_filter. Qed.

(** Deleting the row [i] keeps the rows, chunks and shards of every other file. *)
Lemma delete_row_keeps db st u i : db_inv db -> keeps (fun j => j <> i) db st (delete_files db (is_row u i)) st.
Proof.
  intros Hinv v j r Hne Hr. split; [|split].
  - exists r. split; [|apply same_content_refl]. unfold get_file, select in *.
    unfold delete_files, delete_chunks. cbn [files set_files]. rewrite list_filter_filter.
    rewrite <- Hr. f_equal. f_equal. apply list_filter_iff. intros f. split; [tauto|]. intros Hf. split; [done|].
    destruct (is_row u i f) eqn:E; [|done]. exfalso. apply Hne.
    apply is_row_true in E as [_ <-]. rewrite andb_true_iff, !same_true in Hf. by destruct Hf.
  - unfold get_chunks. f_equal. unfold delete_files, delete_chunks. cbn [chunk_rows set_files files].
    rewrite list_filter_filter. apply list_filter_iff. intros c. split; [tauto|]. intros Hc. split; [done|].
    apply bool_decide_eq_false. intros (f & Hf & [Hrow _]%list_elem_of_filter)%list_elem_of_fmap.
    apply is_row_true in Hrow as [_ Hid]. congruence.
  - intros c [Hc1 Hc2]%elem_of_get_chunks. split; [|done].
    unfold get_shards. f_equal. unfold delete_files, delete_chunks. cbn [chunk_rows set_files files shard_rows].
    rewrite list_filter_filter. apply list_filter_iff. intros s. split; [tauto|]. intros Hs. split; [done|].
    intros (c' & Ec & [Hg Hc']%list_elem_of_filter)%list_elem_of_fmap.
    assert (c = c') as <-.
    { apply list_elem_of_lookup in Hc1 as (a & Ha), Hc' as (b & Hb).
      assert (a = b) as ->; [|congruence].
      eapply NoDup_lookup; [apply (inv_chunks _ Hinv)| |]; rewrite list_lookup_fmap; [by rewrite Ha|by rewrite Hb; cbn; congruence]. }
    apply bool_decide_eq_true in Hg. apply list_elem_of_fmap in Hg as (f & Hf & [Hrow _]%list_elem_of_filter).
    apply is_row_true in Hrow as [_ Hid]. congruence.
Qed.

Lemma purge_local_read st frags id :
  id ∉ frags.*1 -> read (purge_local_collect_remote st frags).1 id = read st id.
Proof.
  unfold purge_local_collect_remote. cbn [fst]. revert st. induction frags as [|[x loc] frags IH]; intros st Hid; [done|].
  cbn in Hid. apply not_elem_of_cons in Hid as [Hne Hid]. cbn [foldl fst snd].
  destruct (same loc "local"); [|by apply IH].
  destruct (delete st x) as [st1| |] eqn:E; rewrite IH by done; [|done..].
  by eapply delete_read_ne.
Qed.

Lemma purge_local_keeps P db st frags :
  (forall x, x ∈ frags.*1 -> x ∉ fragment <$> shard_rows db) ->
  keeps P db st db (purge_local_collect_remote st frags).1.
Proof.
  intros Hf u i r _ Hr. split; [exists r; split; [done|apply same_content_refl]|split; [done|]].
  intros c _. split; [done|]. intros s [Hs _]%elem_of_get_shards. apply purge_local_read.
  intros Hin. apply (Hf _ Hin). by apply list_elem_of_fmap_2.
Qed.

(** A run of row purges, as [empty_trash] and the sweep make them. *)
Definition purge_rows (db : Db) (keys : list (string * string)) : Db * list RemoteShard :=
  foldl (fun acc k => let '(db, fr) := purge_file_row acc.1 k.1 k.2 in (db, acc.2 ++ fr)) (db, []) keys.

Lemma purge_rows_snoc db keys k :
  purge_rows db (keys ++ [k]) =
    (delete_files (purge_rows db keys).1 (is_row k.1 k.2),
     (purge_rows db keys).2 ++ file_frags (purge_rows db keys).1 k.1 k.2).
Proof. unfold purge_rows. rewrite foldl_app. done. Qed.

Lemma purge_rows_spec db st keys :
  db_inv db ->
  let r := purge_rows db keys in
  db_inv r.1 /\ keeps (fun j => j ∉ keys.*2) db st r.1 (purge_local_collect_remote st r.2).1 /\
  (forall x, x ∈ r.2.*1 -> x ∉ fragment <$> shard_rows r.1) /\
  files r.1 = filter (fun f => (user_id f, file_id f) ∉ keys) (files db).
Proof.
  intros Hinv. cbv zeta.
  enough (HH : db_inv (purge_rows db keys).1 /\ keeps (fun j => j ∉ keys.*2) db st (purge_rows db keys).1 st /\
    (forall x, x ∈ (purge_rows db keys).2.*1 -> x ∉ fragment <$> shard_rows (purge_rows db keys).1) /\
    files (purge_rows db keys).1 = filter (fun f => (user_id f, file_id f) ∉ keys) (files db)).
  { destruct HH as (H1 & H2 & H3 & H4). split; [done|split; [|done]].
    eapply keeps_trans; [exact H2|]. by apply purge_local_keeps. }
  induction keys as [|[u i] keys IH] using rev_ind.
  - split; [done|split; [apply keeps_refl|split]].
    + intros x ?%elem_of_nil. done.
    + symmetry. apply filter_all, Forall_forall. intros f _. apply not_elem_of_nil.
  - destruct IH as (H1 & H2 & H3 & H4). rewrite purge_rows_snoc. cbn [fst snd].
    split; [by apply delete_files_inv|split; [|split]].
    + eapply keeps_trans.
      * intros v j r Hj. apply H2. intros Hin. apply Hj. rewrite fmap_app. apply elem_of_app. by left.
      * intros v j r Hj. apply (delete_row_keeps _ st u i H1 v j r). intros ->. apply Hj.
        rewrite fmap_app. apply elem_of_app. right. left.
    + intros x. rewrite fmap_app. intros [Hx|Hx]%elem_of_app.
      * intros (s & -> & Hs)%list_elem_of_fmap. apply (H3 _ Hx). apply list_elem_of_fmap_2. by eapply delete_files_sub.
      * by apply purge_row_shards.
    + unfold delete_files, delete_chunks. cbn [files set_files]. rewrite H4, list_filter_filter.
      apply list_filter_iff. intros f. rewrite not_elem_of_app.
      assert (is_row u i f = false <-> (user_id f, file_id f) ∉ [(u, i)]).
      { rewrite list_elem_of_singleton. split.
        - intros E [= <- <-]. assert (is_row (user_id f) (file_id f) f = true) by (by apply is_row_true). congruence.
        - intros Hn. destruct (is_row u i f) eqn:E; [|done]. apply is_row_true in E as [<- <-]. done. }
      tauto.
Qed.

(** ** Push *)

Section PushSpec.
Context `{CryptoPrims} `{Zstd} `{Log2} `{ReedSolomon}.
Variable data_key : bytes.

Lemma get_by_path_get db user p r :
  db_inv db -> get_file_by_path db user p = Some r ->
  get_file db user (r_file_id r) = Some r /\ is_live r = true /\ r_path r = p.
Proof.
  intros Hinv (f & Hf & Hu & Hp & Hl & _ & ->)%get_file_by_path_elem.
  split; [|split].
  - apply get_file_found; [done|done|]. by apply is_row_true.
  - exact Hl.
  - pose proof (inv_rows _ Hinv) as Hr. rewrite Forall_forall in Hr. specialize (Hr f Hf).
    unfold row_ok in Hr. rewrite Hl in Hr. cbn. unfold visible_path. by rewrite Hr.
Qed.

Lemma supersede_current_ok db st user p file now db' x :
  db_inv db -> supersede_current db user p file now = Ok (db', x) ->
  db_inv db' /\ keeps (fun _ => True) db st db' st /\ file_id <$> files db' = file_id <$> files db.
Proof.
  intros Hinv. unfold supersede_current. destruct (get_file_by_path db user p) as [prev|].
  - intros ([d b] & Hs & [= <- _])%bind_ok. unfold supersede_file in Hs. cbn [fst].
    split; [by eapply retire_row_inv|split; [by eapply retire_row_keeps|]].
    unfold retire_row in Hs. apply bind_ok in Hs as ([d' n] & Hu & [= <- _]). unfold update_files in Hu.
    destruct (unique_paths _); [|discriminate]. injection Hu as <- _. by apply map_if_ids.
  - intros [= <- _]. split; [done|split; [apply keeps_refl|done]].
Qed.

(** The two outcomes of a successful push. *)
Lemma push_ok db user p data rnd now st st' db' r :
  push data_key db user p data rnd now st = (st', Ok (db', r)) ->
  (unchanged_upload db user p data (blake3_hex data) = Some r /\ db' = db /\ st' = st) \/
  exists pcs db1 x db2,
    pr_unchanged r = false /\ pr_file_id r = mint_file_id rnd /\ pr_size r = len data /\
    pr_stored_bytes r = stored_cost pcs /\ pr_superseded_file_id r = x.1.1.1 /\
    process_v2 data data_key (as_bytes user) (as_bytes (mint_file_id rnd)) PipelineConfig_default = Ok pcs /\
    supersede_current db user p (mint_file_id rnd) now = Ok (db1, x) /\
    insert_file db1
      {| r_file_id := mint_file_id rnd; r_user_id := user; r_path := p; r_size := len data;
         r_stored_bytes := stored_cost pcs; r_chunk_count := len pcs; r_created_at := now;
         r_deleted_at := None; r_superseded_at := None; r_lineage := x.2;
         r_key_scheme := as_i64 V2; r_content_hash := Some (blake3_hex data);
         r_pack_id := None; r_pack_offset := None; r_pack_len := None |} = Ok db2 /\
    write_chunk_rows (mint_file_id rnd) db2 pcs st = (st', Ok db').
Proof.
  unfold push. destruct (unchanged_upload _ _ _ _ _) as [r0|] eqn:Eu.
  - intros [= <- <- <-]. left. done.
  - intros (st1 & pcs & [-> Hp%map_err_ok]%lift_ok & Hl)%io_bind_ok. right.
    apply io_bind_ok in Hl as (st2 & [db1 [[[a b] c] lin]] & [-> Hs]%lift_ok & Hl).
    apply io_bind_ok in Hl as (st3 & db2 & [-> Hi]%lift_ok & Hl).
    apply io_bind_ok in Hl as (st4 & db3 & Hw & [= <- <- <-]).
    exists pcs, db1, (a, b, c, lin), db2. done.
Qed.

(** A push leaves every readable file readable. *)
Lemma push_keeps_reads db user p data rnd now st st' db' r u i b :
  CryptoLaws -> ZstdLaws -> db_inv db -> len data <= isize_max ->
  push data_key db user p data rnd now st = (st', Ok (db', r)) ->
  pull data_key db st u i = Ok b -> pull data_key db' st' u i = Ok b.
Proof.
  intros Laws ZLaws Hinv Hlen Hpush Hp.
  destruct (push_ok _ _ _ _ _ _ _ _ _ _ Hpush) as [(Hu & -> & ->)|
    (pcs & db1 & x & db2 & _ & _ & _ & _ & _ & Hproc & Hsup & Hins & Hw)]; [done|].
  destruct (supersede_current_ok db st _ _ _ _ _ _ Hinv Hsup) as (Hinv1 & Hk1 & Hids).
  destruct (stored_file_reads data_key db1 _ db2 data pcs st st' db' Laws ZLaws Hinv1 Hlen Hins)
    as (_ & _ & Hk2 & _); try done.
  { cbn. apply len_nonneg. }
  cbn [r_user_id r_file_id] in *.
  pose proof (pull_fuel_inv _ 0 _ _ _ _ _ Hp) as (fr & Hfr & Hcase).
  assert (Hne : forall u j s, get_file db u j = Some s -> j <> mint_file_id rnd).
  { intros v j s Hj%get_file_id ->. rewrite <- Hids in Hj. by apply insert_file_ok in Hins as [Hins _]. }
  eapply (pull_keeps data_key (fun j => j <> mint_file_id rnd)); [| | |exact Hp].
  - eapply keeps_trans; [|exact Hk2]. intros v j s _. by apply Hk1.
  - by eapply Hne.
  - intros s q Hs Hq. destruct Hcase as [Hn|(q' & pr & Hq' & Hpr & _)]; [congruence|].
    assert (q = q') as -> by congruence. by eapply Hne.
Qed.

(** C1. Push then pull: a push that stored something leaves a live row at its path that
    [pull] reads back as exactly the pushed bytes; a push reported as unchanged wrote
    nothing, and the live row at the path records the size and content hash of the upload;
    and whatever could be read before, the superseded version included, still reads the
    same. *)
Theorem push_pull db user p data rnd now st st' db' r :
  CryptoLaws -> ZstdLaws -> db_inv db -> len data <= isize_max ->
  push data_key db user p data rnd now st = (st', Ok (db', r)) ->
  (if pr_unchanged r then
     db' = db /\ st' = st /\
     exists prev, get_file_by_path db user p = Some prev /\ pr_file_id r = r_file_id prev /\
       r_size prev = len data /\ r_content_hash prev = Some (blake3_hex data)
   else
     pull data_key db' st' user (pr_file_id r) = Ok data /\
     exists f, get_file db' user (pr_file_id r) = Some f /\ is_live f = true /\ r_path f = p) /\
  (forall u i b, pull data_key db st u i = Ok b -> pull data_key db' st' u i = Ok b).
Proof.
  intros Laws ZLaws Hinv Hlen Hpush. split; [|intros u i b; by apply (push_keeps_reads db user p data rnd now st st' db' r)].
  destruct (push_ok _ _ _ _ _ _ _ _ _ _ Hpush) as [(Hu & -> & ->)|
    (pcs & db1 & x & db2 & Hun & Hid & _ & _ & _ & Hproc & Hsup & Hins & Hw)].
  - unfold unchanged_upload in Hu. destruct (get_file_by_path db user p) as [prev|] eqn:Eg; [|discriminate].
    destruct (_ && _) eqn:E; [|discriminate]. injection Hu as <-. cbn [pr_unchanged pr_file_id].
    apply andb_true_iff in E as [E1%Z.eqb_eq E2%bool_decide_eq_true].
    split; [done|split; [done|]]. exists prev. done.
  - rewrite Hun, Hid.
    destruct (supersede_current_ok db st _ _ _ _ _ _ Hinv Hsup) as (Hinv1 & Hk1 & Hids).
    destruct (stored_file_reads data_key db1 _ db2 data pcs st st' db' Laws ZLaws Hinv1 Hlen Hins)
      as (Hinv' & Hpull & Hk2 & Hfiles); try done.
    { cbn. apply len_nonneg. }
    cbn [r_user_id r_file_id] in *. split; [done|].
    eexists. split; [apply get_file_found; [done| |]|split].
    * rewrite Hfiles. apply elem_of_app. right. left.
    * by apply is_row_true.
    * done.
    * done.
Qed.
End PushSpec.
