(* ===== verification/Packs.v ===== *)
(** * Small-file packs ([service.rs]: packing)

    The pack container format (members, self-describing index, trailer), the planning of
    packs, and the transactions that move files into a pack or rewrite a pack around its
    survivors. *)

From Stdlib Require Import ZArith Lia Strings.Ascii Strings.String Strings.Byte.
From stdpp Require Import base numbers list gmap strings sorting.
From S2P Require Import Prelude External Erasure Crypto Pipeline Paths Manifest ManifestInv ChunkStore.
From S2P Require Import Service ServiceProofs ServiceSpec.

Definition SMALL_MAX : Z := 256 * 1024.
Definition PACK_TARGET : Z := 1024 * 1024.
Definition PACK_MAGIC : bytes := as_bytes "P2PNPAK1".

Record PackEntry := mkEntry { e_file_id : string; e_data : bytes }.
Abbreviation PackRange := (Z * Z)%type.
Abbreviation PackIndexEntry := (string * Z * Z)%type.

(** ** The container format *)

(** A vector past [isize::MAX] bytes is a capacity overflow. *)
Definition vec (v : bytes) : res StoreError bytes := if isize_max <? len v then Panic else Ok v.

(** The members' bytes end to end, with the range of each. *)
Definition lay_out (acc : bytes * list PackRange) (e : PackEntry) : bytes * list PackRange :=
  (acc.1 ++ e_data e, acc.2 ++ [(len acc.1, len (e_data e))]).

Definition index_entry (plain : bytes) (p : PackEntry * PackRange) : res StoreError bytes :=
  let id := as_bytes (e_file_id p.1) in
  if u32_max <? len id
  then Err (Integrity ("file id of " ++ e_file_id p.1 ++ " too long for a pack index"))
  else vec (plain ++ be_bytes 4 (len id) ++ id ++ be_bytes 8 p.2.1 ++ be_bytes 8 p.2.2).

Definition build_pack (entries : list PackEntry) : res StoreError (bytes * list PackRange) :=
  if isize_max <? zsum ((fun e => len (e_data e)) <$> entries) + len entries * 64 + 12 then Panic
  else
    let '(plain, ranges) := foldl lay_out ([], []) entries in
    let index_start := len plain in
    plain ← foldM index_entry plain (zip entries ranges);
    let index_len := len plain - index_start in
    if u32_max <? index_len then Err (Integrity "pack index too large")
    else plain ← vec (plain ++ be_bytes 4 index_len ++ PACK_MAGIC); Ok (plain, ranges).

(** Pop [n] bytes off the front. *)
Definition take_bytes (cur : bytes) (n : Z) : option (bytes * bytes) :=
  if len cur <? n then None else Some (take (Z.to_nat n) cur, drop (Z.to_nat n) cur).

(** [String::from_utf8]: the well-formed UTF-8 byte sequences. *)
Definition in_range (b : u8) (lo hi : Z) : bool := (lo <=? b2z b) && (b2z b <=? hi).
Fixpoint utf8_valid (l : bytes) : bool :=
  match l with
  | [] => true
  | a :: r =>
      if in_range a 0 127 then utf8_valid r
      else match r with
      | [] => false
      | b :: r =>
          if in_range a 194 223 then in_range b 128 191 && utf8_valid r
          else match r with
          | [] => false
          | c :: r =>
              if in_range a 224 239
              then in_range b (if b2z a =? 224 then 160 else 128) (if b2z a =? 237 then 159 else 191)
                   && in_range c 128 191 && utf8_valid r
              else match r with
              | [] => false
              | d :: r =>
                  in_range a 240 244 && in_range b (if b2z a =? 240 then 144 else 128) (if b2z a =? 244 then 143 else 191)
                  && in_range c 128 191 && in_range d 128 191 && utf8_valid r
              end
          end
      end
  end.
Definition from_utf8 (l : bytes) : option string := if utf8_valid l then Some (of_bytes l) else None.

Definition read_index_entry (cur : bytes) : option (PackIndexEntry * bytes) :=
  p ← take_bytes cur 4; let '(id_len, cur) := p : bytes * bytes in
  p ← take_bytes cur (of_be id_len); let '(id, cur) := p : bytes * bytes in
  p ← take_bytes cur 8; let '(off, cur) := p : bytes * bytes in
  p ← take_bytes cur 8; let '(l, cur) := p : bytes * bytes in
  id ← from_utf8 id;
  Some (id, of_be off, of_be l, cur).

(** The [while] loop; an entry takes at least twenty bytes, so the length bounds it. *)
Fixpoint parse_entries (fuel : nat) (cur : bytes) (out : list PackIndexEntry) : option (list PackIndexEntry) :=
  match cur with
  | [] => Some out
  | _ =>
      match fuel with
      | O => None
      | S fuel =>
          p ← read_index_entry cur;
          parse_entries fuel p.2 (out ++ [p.1])
      end
  end.

Definition corrupt (what : string) : StoreError := Integrity ("pack trailer: " ++ what).

Definition parse_pack_index (pack_plain : bytes) : res StoreError (list PackIndexEntry) :=
  let magic_at := len pack_plain - len PACK_MAGIC in
  if (magic_at <? 0) || negb (bool_decide (drop (Z.to_nat magic_at) pack_plain = PACK_MAGIC))
  then Err (corrupt "missing magic")
  else
    let len_at := magic_at - 4 in
    if len_at <? 0 then Err (corrupt "truncated before index length")
    else
      len_bytes ← slice len_at magic_at pack_plain;
      let index_at := len_at - of_be len_bytes in
      if index_at <? 0 then Err (corrupt "index longer than the pack")
      else
        cur ← slice index_at len_at pack_plain;
        ok_or (parse_entries (length cur) cur []) (corrupt "malformed index entry").

(** ** Planning *)

(** The grouping loop: groups closed so far, the open group and its bytes. *)
Definition plan_step (target : Z) (acc : list (list FileRow) * list FileRow * Z) (f : FileRow)
    : list (list FileRow) * list FileRow * Z :=
  let '(groups, group, n) := acc in
  let '(groups, group, n) :=
    if negb (bool_decide (group = [])) && (target <? n + r_size f)
    then (groups ++ [group], [], 0) else (groups, group, n) in
  (groups, group ++ [f], n + r_size f).

#[export] Instance FileRow_eq_dec : EqDecision FileRow.
Proof. solve_decision. Defined.

Definition plan_packs (fs : list FileRow) (target : Z) : list (list FileRow) :=
  let '(groups, group, _) := foldl (plan_step target) ([], [], 0) fs in
  let groups := if bool_decide (group = []) then groups else groups ++ [group] in
  filter (fun g => (2 <= length g)%nat) groups.

(** ** The transactions *)

Record PackResult := mkPackResult {
  pk_pack_id : option string;
  pk_pack_size : Z;
  pk_pack_stored_bytes : Z;
  pk_members : Z;
  pk_freed_stored_bytes : Z;
  pk_remote : list RemoteShard
}.

Section Packing.
Context `{CryptoPrims} `{Zstd} `{Log2} `{ReedSolomon}.
Variable data_key : bytes.

Definition pack_row (user pack : string) (plain : bytes) (chunks : list ProcessedChunk) (now : string) : FileRow :=
  {| r_file_id := pack; r_user_id := user; r_path := pack_key pack; r_size := len plain;
     r_stored_bytes := stored_cost chunks; r_chunk_count := len chunks; r_created_at := now;
     r_deleted_at := None; r_superseded_at := None; r_lineage := pack; r_key_scheme := as_i64 V2;
     r_content_hash := Some (blake3_hex plain); r_pack_id := None; r_pack_offset := None;
     r_pack_len := None |}.

Definition insert_pack_row (db : Db) (user pack : string) (plain : bytes) (now : string) : io (Db * Z) :=
  chunks ← lift (map_err Core (process_v2 plain data_key (as_bytes user) (as_bytes pack) PipelineConfig_default));
  db ← lift (insert_file db (pack_row user pack plain chunks now));
  db ← write_chunk_rows pack db chunks;
  mret (db, stored_cost chunks).

(** One member: re-check the row, drop its chunks, point it at its range. *)
Definition pack_member (user pack : string) (acc : Db * Z * list RemoteShard) (p : PackEntry * PackRange)
    : res StoreError (Db * Z * list RemoteShard) :=
  let '(db, freed, frags) := acc in
  let e := p.1 in
  row ← ok_or (get_file db user (e_file_id e)) (Integrity ("file " ++ e_file_id e ++ " vanished while being packed"));
  if negb (is_none (r_pack_id row)) || negb (r_size row =? len (e_data e))
  then Err (Integrity ("file " ++ e_file_id e ++ " changed while being packed"))
  else
    let '(db, fr) := strip_file_chunks db user (e_file_id e) in
    r ← assign_to_pack db user (e_file_id e) pack p.2.1 p.2.2;
    Ok (r.1, freed + r_stored_bytes row, frags ++ fr).

Definition pack_files (db : Db) (user : string) (entries : list PackEntry) (rnd : bytes) (now : string)
    : io (Db * PackResult) :=
  if bool_decide (length entries = 0%nat) then lift (Err (Integrity "cannot build an empty pack"))
  else
    b ← lift (build_pack entries);
    let '(plain, ranges) := b : bytes * list PackRange in
    let pack := mint_file_id rnd in
    s ← lift (foldM (pack_member user pack) (db, 0, []) (zip entries ranges));
    let '(db, freed, frags) := s : Db * Z * list RemoteShard in
    p ← insert_pack_row db user pack plain now;
    let '(db, stored) := p : Db * Z in
    remote ← io_purge frags;
    mret (db, mkPackResult (Some pack) (len plain) stored (len entries) freed remote).

Definition compact_member (user old new : string) (db : Db) (p : PackEntry * PackRange) : res StoreError Db :=
  let e := p.1 in
  row ← ok_or (get_file db user (e_file_id e)) (Integrity ("file " ++ e_file_id e ++ " vanished while being compacted"));
  if negb (bool_decide (r_pack_id row = Some old)) || negb (r_size row =? len (e_data e))
  then Err (Integrity ("file " ++ e_file_id e ++ " changed while being compacted"))
  else fst <$> assign_to_pack db user (e_file_id e) new p.2.1 p.2.2.

Definition carried_all (members : list FileRow) (survivors : list PackEntry) (old : string) : res StoreError unit :=
  foldM (fun _ m => if bool_decide (r_file_id m ∈ e_file_id <$> survivors) then Ok ()
                    else Err (Integrity ("member " ++ r_file_id m ++ " of pack " ++ old ++
                                         " is not among the compaction survivors"))) () members.

Definition compact_pack (db : Db) (user old : string) (survivors : list PackEntry) (rnd : bytes) (now : string)
    : io (Db * PackResult) :=
  f ← lift (ok_or (get_file db user old) NotFound);
  if negb (is_pack f) then lift (Err (Integrity (old ++ " is not a pack")))
  else
    lift (carried_all (pack_members db user old) survivors old);;
    if bool_decide (length survivors = 0%nat) then
      let '(db, frags) := purge_file_row db user old in
      remote ← io_purge frags;
      mret (db, mkPackResult None 0 0 0 (r_stored_bytes f) remote)
    else
      b ← lift (build_pack survivors);
      let '(plain, ranges) := b : bytes * list PackRange in
      let new := mint_file_id rnd in
      db ← lift (foldM (compact_member user old new) db (zip survivors ranges));
      p ← insert_pack_row db user new plain now;
      let '(db, stored) := p : Db * Z in
      let '(db, frags) := purge_file_row db user old in
      remote ← io_purge frags;
      mret (db, mkPackResult (Some new) (len plain) stored (len survivors) (r_stored_bytes f) remote).

(** What one repack pass over a user's small files achieved. *)
Record RepackReport := mkRepack {
  rp_packs : Z; rp_files_packed : Z; rp_bytes_packed : Z; rp_stored_freed : Z; rp_stored_added : Z;
  rp_remote : list RemoteShard
}.

Definition gather (db : Db) (st : ChunkStore) (user : string) (group : list FileRow) : res StoreError (list PackEntry) :=
  mapR (fun f => data ← pull data_key db st user (r_file_id f); Ok (mkEntry (r_file_id f) data)) group.

(** One group read back, packed and reported; each group is its own transaction. *)
Definition repack_group (user : string) (acc : Db * RepackReport) (g : list FileRow * bytes * string)
    : io (Db * RepackReport) :=
  let '(db, rep) := acc in
  let '(group, rnd, now) := g in
  entries ← io_read (fun st => gather db st user group);
  x ← pack_files db user entries rnd now;
  let '(db, r) := x : Db * PackResult in
  mret (db, mkRepack (rp_packs rep + 1) (rp_files_packed rep + pk_members r)
              (rp_bytes_packed rep + zsum ((fun e => len (e_data e)) <$> entries))
              (rp_stored_freed rep + pk_freed_stored_bytes r)
              (rp_stored_added rep + pk_pack_stored_bytes r) (rp_remote rep ++ pk_remote r)).

(** [fresh]: the random id and the clock of each group. *)
Definition repack_small_files (db : Db) (user : string) (fresh : list (bytes * string)) : io (Db * RepackReport) :=
  let groups := plan_packs (packable_files db user SMALL_MAX) PACK_TARGET in
  io_fold (repack_group user) (db, mkRepack 0 0 0 0 0 [])
    (zip_with (fun g x => (g, x.1, x.2)) groups fresh).
End Packing.
