(* ===== verification/PackProofs.v ===== *)
(** * Packs: format round trip and content preservation *)

From Stdlib Require Import ZArith Lia Strings.Ascii Strings.String Strings.Byte.
From stdpp Require Import base numbers list gmap strings sorting.
From S2P Require Import Prelude External Erasure Crypto Pipeline Paths Manifest ManifestInv ChunkStore.
From S2P Require Import Service ServiceProofs ServiceSpec Packs.

(** ** The format *)

Fixpoint ranges_from (off : Z) (es : list PackEntry) : list PackRange :=
  match es with
  | [] => []
  | e :: es => (off, len (e_data e)) :: ranges_from (off + len (e_data e)) es
  end.

Lemma length_ranges off es : length (ranges_from off es) = length es.
Proof. revert off; induction es as [|e es IH]; intros off; cbn; [done|]. by rewrite IH. Qed.

Lemma lay_out_spec es acc rs :
  foldl lay_out (acc, rs) es = (acc ++ mjoin (e_data <$> es), rs ++ ranges_from (len acc) es).
Proof.
  revert acc rs; induction es as [|e es IH]; intros acc rs; cbn [foldl fmap list_fmap ranges_from].
  - by rewrite !app_nil_r.
  - unfold lay_out at 2. cbn [fst snd]. rewrite IH, len_app, mjoin_cons, <- !app_assoc. done.
Qed.

(** A range selects its member in whatever follows the payload. *)
Lemma range_select es off pre post i e r :
  off = len pre -> es !! i = Some e -> ranges_from off es !! i = Some r ->
  0 <= r.1 /\ r.1 + r.2 <= len (pre ++ mjoin (e_data <$> es) ++ post) /\ r.2 = len (e_data e) /\
  take (Z.to_nat r.2) (drop (Z.to_nat r.1) (pre ++ mjoin (e_data <$> es) ++ post)) = e_data e.
Proof.
  revert off pre i; induction es as [|e0 es IH]; intros off pre i -> Hi Hr; [done|].
  cbn [fmap list_fmap ranges_from] in *. rewrite mjoin_cons. destruct i as [|i]; cbn in Hi, Hr.
  - injection Hi as ->. injection Hr as <-. cbn [fst snd].
    split; [apply len_nonneg|split; [rewrite !len_app; pose proof (len_nonneg (mjoin (e_data <$> es))); pose proof (len_nonneg post); lia|split; [done|]]].
    rewrite drop_app_exact by (unfold len; lia). rewrite <- app_assoc. apply take_app_exact. unfold len; lia.
  - rewrite <- app_assoc, (app_assoc pre). apply (IH (len pre + len (e_data e0)) (pre ++ e_data e0) i);
      [by rewrite len_app|done|done].
Qed.

Definition entry_bytes (p : PackEntry * PackRange) : bytes :=
  be_bytes 4 (len (as_bytes (e_file_id p.1))) ++ as_bytes (e_file_id p.1) ++ be_bytes 8 p.2.1 ++ be_bytes 8 p.2.2.

Lemma vec_ok v v' : vec v = Ok v' -> v = v' /\ len v' <= isize_max.
Proof. unfold vec. destruct (Z.ltb_spec isize_max (len v)); [done|]. by intros [= <-]. Qed.

Lemma index_entries_ok plain ps plain' :
  foldM index_entry plain ps = Ok plain' ->
  plain' = plain ++ mjoin (entry_bytes <$> ps) /\ Forall (fun p => len (as_bytes (e_file_id p.1)) <= u32_max) ps.
Proof.
  revert plain; induction ps as [|p ps IH]; intros plain; cbn [foldM fmap list_fmap].
  - intros [= <-]. split; [by rewrite app_nil_r|constructor].
  - intros (x & Hx & Hf)%bind_ok. unfold index_entry in Hx.
    destruct (Z.ltb_spec u32_max (len (as_bytes (e_file_id p.1)))); [discriminate|].
    apply vec_ok in Hx as [<- _]. apply IH in Hf as [-> Hall]. split; [by rewrite mjoin_cons, <- app_assoc|by constructor].
Qed.

Lemma take_bytes_app a b n : n = len a -> take_bytes (a ++ b) n = Some (a, b).
Proof.
  intros ->. unfold take_bytes. rewrite len_app. pose proof (len_nonneg b).
  destruct (Z.ltb_spec (len a + len b) (len a)); [lia|].
  rewrite take_app_exact, drop_app_exact by (unfold len; lia). done.
Qed.

Lemma read_entry p rest :
  len (as_bytes (e_file_id p.1)) <= u32_max -> utf8_valid (as_bytes (e_file_id p.1)) = true ->
  0 <= p.2.1 < 2 ^ 64 -> 0 <= p.2.2 < 2 ^ 64 ->
  read_index_entry (entry_bytes p ++ rest) = Some ((e_file_id p.1, p.2.1, p.2.2), rest).
Proof.
  intros Hl Hu Ho Hn. unfold read_index_entry, entry_bytes. rewrite <- !app_assoc.
  pose proof (len_nonneg (as_bytes (e_file_id p.1))).
  rewrite take_bytes_app by (by rewrite len_be). cbn [mbind option_bind].
  rewrite of_be_small by (split; [apply len_nonneg|]; eapply Z.le_lt_trans; [exact Hl|done]).
  rewrite take_bytes_app by done. cbn [mbind option_bind].
  rewrite take_bytes_app by (by rewrite len_be). cbn [mbind option_bind].
  rewrite take_bytes_app by (by rewrite len_be). cbn [mbind option_bind].
  unfold from_utf8. rewrite Hu. cbn [mbind option_bind]. rewrite of_as_bytes.
  by rewrite !of_be_small.
Qed.

Lemma entry_bytes_nonempty p : exists b l, entry_bytes p = b :: l.
Proof. unfold entry_bytes. cbn [be_bytes app]. eauto. Qed.

Lemma parse_entries_ok ps fuel out :
  (length (mjoin (entry_bytes <$> ps)) <= fuel)%nat ->
  Forall (fun p => len (as_bytes (e_file_id p.1)) <= u32_max /\ utf8_valid (as_bytes (e_file_id p.1)) = true /\
                   0 <= p.2.1 < 2 ^ 64 /\ 0 <= p.2.2 < 2 ^ 64) ps ->
  parse_entries fuel (mjoin (entry_bytes <$> ps)) out =
    Some (out ++ ((fun p => (e_file_id p.1, p.2.1, p.2.2)) <$> ps)).
Proof.
  intros Hf Hall. revert fuel out Hf. induction Hall as [|p ps (Hl & Hu & Ho & Hn) Hall IH]; intros fuel out Hf.
  - cbn. destruct fuel; by rewrite app_nil_r.
  - rewrite fmap_cons, mjoin_cons in *.
    destruct (entry_bytes_nonempty p) as (b & l & Eb).
    rewrite length_app in Hf. assert (0 < length (entry_bytes p))%nat by (rewrite Eb; cbn; lia).
    destruct fuel as [|fuel]; [lia|]. cbn [parse_entries].
    assert (Hcase : forall (A : Type) (x y : A), match entry_bytes p ++ mjoin (entry_bytes <$> ps) with [] => x | _ :: _ => y end = y)
      by (intros; by rewrite Eb).
    rewrite Hcase. clear Hcase. rewrite read_entry by done. cbn [mbind option_bind snd fst].
    rewrite IH by lia. by rewrite <- app_assoc.
Qed.

Lemma build_pack_ok entries plain ranges :
  build_pack entries = Ok (plain, ranges) ->
  let payload := mjoin (e_data <$> entries) in
  let idx := mjoin (entry_bytes <$> zip entries ranges) in
  ranges = ranges_from 0 entries /\ plain = payload ++ idx ++ be_bytes 4 (len idx) ++ PACK_MAGIC /\
  len idx <= u32_max /\ Forall (fun p => len (as_bytes (e_file_id p.1)) <= u32_max) (zip entries ranges).
Proof.
  unfold build_pack. destruct (_ <? _); [discriminate|]. rewrite lay_out_spec. cbn [app]. change (len (@nil u8)) with 0.
  intros (x & Hx & Hif)%bind_ok. apply index_entries_ok in Hx as [-> Hall].
  replace (len (mjoin (e_data <$> entries) ++ mjoin (entry_bytes <$> zip entries (ranges_from 0 entries))) -
           len (mjoin (e_data <$> entries)))
    with (len (mjoin (entry_bytes <$> zip entries (ranges_from 0 entries)))) in Hif by (rewrite len_app; lia).
  destruct (Z.ltb_spec u32_max (len (mjoin (entry_bytes <$> zip entries (ranges_from 0 entries))))) as [|Hle]; [discriminate|].
  apply bind_ok in Hif as (v & [<- _]%vec_ok & [= <- <-]).
  cbv zeta. split; [done|split; [|split; [exact Hle|exact Hall]]]. by rewrite <- !app_assoc.
Qed.

(** What was built fits a vector. *)
Lemma build_pack_fits entries plain ranges : build_pack entries = Ok (plain, ranges) -> len plain <= isize_max.
Proof.
  unfold build_pack. destruct (_ <? _); [discriminate|]. destruct (foldl _ _ _) as [p rs].
  intros (x & _ & Hif)%bind_ok. destruct (_ <? _); [discriminate|].
  apply bind_ok in Hif as (v & [_ Hv]%vec_ok & [= <- _]). done.
Qed.

Lemma ranges_bounds off es : 0 <= off ->
  Forall (fun r => 0 <= r.1 /\ 0 <= r.2 /\ r.1 + r.2 <= off + len (mjoin (e_data <$> es))) (ranges_from off es).
Proof.
  revert off; induction es as [|e es IH]; intros off Ho; cbn [ranges_from]; constructor.
  - cbn [fst snd fmap list_fmap]. rewrite mjoin_cons, len_app.
    pose proof (len_nonneg (e_data e)). pose proof (len_nonneg (mjoin (e_data <$> es))). lia.
  - eapply Forall_impl; [apply IH; pose proof (len_nonneg (e_data e)); lia|]. intros r. cbn [fmap list_fmap].
    rewrite mjoin_cons, len_app. lia.
Qed.

(** A pack describes itself: the index parsed from the plaintext [build_pack] produced
    lists every member with its range, in order, and each range selects exactly the member's
    bytes. *)
Theorem pack_format_roundtrip entries plain ranges :
  Forall (fun e => utf8_valid (as_bytes (e_file_id e)) = true) entries ->
  build_pack entries = Ok (plain, ranges) ->
  parse_pack_index plain = Ok (zip_with (fun e r => (e_file_id e, r.1, r.2)) entries ranges) /\
  length ranges = length entries /\
  forall i e r, entries !! i = Some e -> ranges !! i = Some r ->
    0 <= r.1 /\ r.1 + r.2 <= len plain /\ r.2 = len (e_data e) /\
    take (Z.to_nat r.2) (drop (Z.to_nat r.1) plain) = e_data e.
Proof.
  intros Hu Hb. pose proof (build_pack_fits _ _ _ Hb) as Hlen. unfold isize_max in Hlen.
  destruct (build_pack_ok _ _ _ Hb) as (-> & Hplain & Hidx & Hids).
  set (ps := zip entries (ranges_from 0 entries)) in *.
  set (payload := mjoin (e_data <$> entries)) in *. set (idx := mjoin (entry_bytes <$> ps)) in *.
  split; [|split; [apply length_ranges|]].
  - pose proof (len_nonneg payload) as Hp0. pose proof (len_nonneg idx) as Hi0.
    assert (Hpl : len plain = len payload + len idx + 4 + 8).
    { rewrite Hplain, !len_app, len_be. change (len PACK_MAGIC) with 8. lia. }
    unfold parse_pack_index. change (len PACK_MAGIC) with 8. rewrite Hpl.
    replace (len payload + len idx + 4 + 8 - 8) with (len payload + len idx + 4) by lia.
    assert (Hm : drop (Z.to_nat (len payload + len idx + 4)) plain = PACK_MAGIC).
    { rewrite Hplain, !app_assoc. apply drop_app_exact.
      rewrite !length_app, length_be_bytes. unfold len. lia. }
    rewrite Hm, bool_decide_true by done. destruct (Z.ltb_spec (len payload + len idx + 4) 0); [lia|].
    cbn [negb orb]. replace (len payload + len idx + 4 - 4) with (len payload + len idx) by lia.
    destruct (Z.ltb_spec (len payload + len idx) 0); [lia|].
    rewrite slice_ok by lia. cbn [mbind res_bind].
    replace (take _ (drop _ plain)) with (be_bytes 4 (len idx)); cycle 1.
    { rewrite Hplain, (app_assoc payload), drop_app_exact by (rewrite length_app; unfold len; lia).
      symmetry. apply take_app_exact. rewrite length_be_bytes. lia. }
    rewrite of_be_small by (split; [apply len_nonneg|]; eapply Z.le_lt_trans; [exact Hidx|done]).
    replace (len payload + len idx - len idx) with (len payload) by lia.
    destruct (Z.ltb_spec (len payload) 0); [lia|]. rewrite slice_ok by lia. cbn [mbind res_bind].
    replace (take _ (drop _ plain)) with idx; cycle 1.
    { rewrite Hplain, drop_app_exact by (unfold len; lia).
      symmetry. apply take_app_exact. unfold len. lia. }
    unfold idx. rewrite parse_entries_ok; [| |].
    + cbn [app ok_or]. f_equal. unfold ps. clear. generalize (ranges_from 0 entries) as rs.
      induction entries as [|e es IH]; intros [|r rs]; cbn; [done..|]. f_equal. apply IH.
    + apply Nat.le_refl.
    + apply Forall_forall. intros [e r] Hin.
      pose proof (ranges_bounds 0 entries ltac:(lia)) as Hrb. rewrite Forall_forall in Hrb. rewrite Forall_forall in Hids. rewrite Forall_forall in Hu.
      pose proof Hin as Hin'. unfold ps in Hin'.
      specialize (Hrb r (elem_of_zip_r _ _ _ _ Hin')). specialize (Hids _ Hin).
      specialize (Hu e (elem_of_zip_l _ _ _ _ Hin')). cbn [fst snd] in *. fold payload in Hrb.
      split; [done|split; [done|lia]].
  - intros i e r Hi Hr. pose proof (range_select entries 0 [] (idx ++ be_bytes 4 (len idx) ++ PACK_MAGIC) i e r eq_refl Hi Hr) as Hsel.
    cbn [app] in Hsel. fold payload in Hsel. by rewrite <- Hplain in Hsel.
Qed.

Lemma pack_format_roundtrip_witness :
  let es := [mkEntry "a1" (as_bytes "hello"); mkEntry "b2" (as_bytes "")] in
  exists plain ranges, build_pack es = Ok (plain, ranges) /\
    parse_pack_index plain = Ok [("a1", 0, 5); ("b2", 5, 0)]%string.
Proof.
  cbv zeta. eexists _, _. split; [reflexivity|].
  refine (proj1 (pack_format_roundtrip [mkEntry "a1" (as_bytes "hello"); mkEntry "b2" (as_bytes "")] _
                   [(0, 5); (5, 0)] _ _)); [by repeat constructor|reflexivity].
Defined.

(** ** Content preservation *)

(** Rows other than the updated one are untouched. *)
Lemma update_row_other db u i g db' n v j :
  (forall f, file_id (g f) = file_id f /\ user_id (g f) = user_id f) ->
  update_files db (is_row u i) g = Ok (db', n) -> j <> i -> get_file db' v j = get_file db v j.
Proof.
  intros Hg Hu Hne. unfold update_files in Hu. destruct (unique_paths _); [|discriminate]. injection Hu as <- _.
  unfold get_file, select. cbn [files set_files]. induction (files db) as [|f fs IH]; [done|].
  rewrite fmap_cons, !filter_cons. destruct (is_row u i f) eqn:E.
  - destruct (Hg f) as [-> ->]. apply is_row_true in E as [_ Hid].
    rewrite !decide_False; [done|..]; rewrite andb_true_iff, !same_true, Hid; intros [_ ->]; done.
  - case_decide; [done|apply IH].
Qed.

Lemma update_row_self db u i g db' n f :
  db_inv db -> db_inv db' -> (forall f, file_id (g f) = file_id f /\ user_id (g f) = user_id f) ->
  f ∈ files db -> is_row u i f = true ->
  update_files db (is_row u i) g = Ok (db', n) -> get_file db' u i = Some (map_file (g f)).
Proof.
  intros Hinv Hinv' Hg Hf Hr Hu. unfold update_files in Hu. destruct (unique_paths _); [|discriminate].
  injection Hu as <- _. apply get_file_found; [done| |].
  - cbn. apply list_elem_of_fmap. exists f. by rewrite Hr.
  - destruct (Hg f) as [E1 E2]. apply is_row_true in Hr as [? ?]. apply is_row_true. by rewrite E1, E2.
Qed.

Lemma update_files_rows db p g db' n :
  (forall f, file_id (g f) = file_id f) -> update_files db p g = Ok (db', n) ->
  file_id <$> files db' = file_id <$> files db /\ chunk_rows db' = chunk_rows db /\ shard_rows db' = shard_rows db.
Proof.
  intros Hg Hu. unfold update_files in Hu. destruct (unique_paths _); [|discriminate]. injection Hu as <- _.
  split; [by apply map_if_ids|done].
Qed.

(** An UPDATE of the row [i] keeps every other file. *)
Lemma update_row_keeps db st u i g db' n :
  (forall f, file_id (g f) = file_id f /\ user_id (g f) = user_id f) ->
  update_files db (is_row u i) g = Ok (db', n) -> keeps (fun j => j <> i) db st db' st.
Proof.
  intros Hg Hu v j r Hj Hr. destruct (update_files_rows _ _ _ _ _ (fun f => proj1 (Hg f)) Hu) as (_ & Hc & Hs).
  split; [exists r; split; [by rewrite (update_row_other _ _ _ _ _ _ _ _ Hg Hu Hj)|apply same_content_refl]|].
  unfold get_chunks, get_shards. by rewrite Hc, Hs.
Qed.

(** Dropping the chunks of the file [i] keeps every other file. *)
Lemma strip_keeps db st u i : db_inv db -> keeps (fun j => j <> i) db st (strip_file_chunks db u i).1 st.
Proof.
  intros Hinv v j r Hne Hr. unfold strip_file_chunks. cbn [fst].
  split; [exists r; split; [done|apply same_content_refl]|split].
  - unfold get_chunks, delete_chunks. cbn [chunk_rows]. f_equal. rewrite list_filter_filter. apply list_filter_iff.
    intros c. split; [tauto|]. intros Hc. split; [done|]. apply andb_false_iff. left.
    apply bool_decide_eq_false. congruence.
  - intros c [Hc1 Hc2]%elem_of_get_chunks. split; [|done].
    unfold get_shards, delete_chunks. cbn [shard_rows]. f_equal. rewrite list_filter_filter. apply list_filter_iff.
    intros s. split; [tauto|]. intros Hs. split; [done|].
    intros (c' & Ec & [Hg Hc']%list_elem_of_filter)%list_elem_of_fmap.
    assert (c = c') as <-.
    { apply list_elem_of_lookup in Hc1 as (a & Ha), Hc' as (b & Hb).
      assert (a = b) as ->; [|congruence].
      eapply NoDup_lookup; [apply (inv_chunks _ Hinv)| |]; rewrite list_lookup_fmap; [by rewrite Ha|by rewrite Hb; cbn; congruence]. }
    apply andb_true_iff in Hg as [Hg _]. apply same_true in Hg. congruence.
Qed.

Lemma strip_frags_gone db u i x :
  db_inv db -> x ∈ (strip_file_chunks db u i).2.*1 -> x ∉ fragment <$> shard_rows (strip_file_chunks db u i).1.
Proof.
  intros Hinv Hx Hx'. unfold strip_file_chunks, file_frags in *. cbn [fst snd] in *.
  rewrite <- list_fmap_compose in Hx.
  apply list_elem_of_fmap in Hx as (s & -> & [Hp Hs]%list_elem_of_filter).
  apply list_elem_of_fmap in Hx' as (s' & Es & Hs'). cbn in Es.
  unfold delete_chunks in Hs'. cbn [shard_rows] in Hs'. apply list_elem_of_filter in Hs' as [Hng Hs'].
  assert (s = s') as <-.
  { apply list_elem_of_lookup in Hs as (a & Ha), Hs' as (b & Hb).
    assert (a = b) as ->; [|congruence].
    eapply NoDup_lookup; [apply (inv_shards _ Hinv)| |]; rewrite list_lookup_fmap; [by rewrite Ha|by rewrite Hb; cbn; rewrite Es]. }
  apply existsb_exists in Hp as (c & Hc & Hp). rewrite !andb_true_iff, !same_true in Hp.
  destruct Hp as ((Hcs & Hcf) & Hex). apply Hng. rewrite <- Hcs. apply list_elem_of_fmap. exists c.
  split; [done|]. apply list_elem_of_filter. split; [|by apply list_elem_of_In].
  apply andb_true_iff. split; [by apply same_true|done].
Qed.

Lemma strip_sub db u i s : s ∈ shard_rows (strip_file_chunks db u i).1 -> s ∈ shard_rows db.
Proof. unfold strip_file_chunks, delete_chunks. cbn. by intros [_ ?]%list_elem_of_filter. Qed.

Lemma assign_fields pack o l : forall f, file_id (assign pack o l f) = file_id f /\ user_id (assign pack o l f) = user_id f.
Proof. done. Qed.

(** A file assigned to [pack] at the range [r]. *)
Definition assigned (db : Db) (user pack : string) (p : PackEntry * PackRange) : Prop :=
  exists row, get_file db user (e_file_id p.1) = Some row /\ r_pack_id row = Some pack /\
    r_pack_offset row = Some p.2.1 /\ r_pack_len row = Some p.2.2.

Lemma assign_ok db st user id pack o l db' b row :
  db_inv db -> get_file db user id = Some row ->
  assign_to_pack db user id pack o l = Ok (db', b) ->
  db_inv db' /\ keeps (fun j => j <> id) db st db' st /\
  (forall v j, j <> id -> get_file db' v j = get_file db v j) /\
  (exists row', get_file db' user id = Some row' /\ r_pack_id row' = Some pack /\
     r_pack_offset row' = Some o /\ r_pack_len row' = Some l) /\
  file_id <$> files db' = file_id <$> files db /\ shard_rows db' = shard_rows db.
Proof.
  intros Hinv Hrow Ha. pose proof (assign_inv _ _ _ _ _ _ _ _ Hinv Ha) as Hinv'.
  unfold assign_to_pack in Ha. apply bind_ok in Ha as ([d n] & Hu & [= <- _]). cbn [fst] in Hinv' |- *.
  split; [done|split; [exact (update_row_keeps _ st _ _ _ _ _ (assign_fields pack o l) Hu)|split; [|split]]].
  - intros v j Hj. exact (update_row_other _ _ _ _ _ _ v j (assign_fields pack o l) Hu Hj).
  - apply get_file_elem in Hrow as (f & Hf & Hr & ->). exists (map_file (assign pack o l f)).
    split; [|done]. exact (update_row_self _ _ _ _ _ _ _ Hinv Hinv' (assign_fields pack o l) Hf Hr Hu).
  - by destruct (update_files_rows _ _ _ _ _ (fun f => proj1 (assign_fields pack o l f)) Hu) as (? & _ & ?).
Qed.

(** One member moved. *)
Lemma pack_member_ok db st user pack fr fs p acc' :
  db_inv db -> pack_member user pack (db, fr, fs) p = Ok acc' ->
  db_inv acc'.1.1 /\ keeps (fun j => j <> e_file_id p.1) db st acc'.1.1 st /\
  (forall v j, j <> e_file_id p.1 -> get_file acc'.1.1 v j = get_file db v j) /\
  assigned acc'.1.1 user pack p /\ file_id <$> files acc'.1.1 = file_id <$> files db /\
  (forall s, s ∈ shard_rows acc'.1.1 -> s ∈ shard_rows db) /\
  e_file_id p.1 ∈ file_id <$> files db /\
  (exists row, get_file db user (e_file_id p.1) = Some row /\ r_pack_id row = None) /\
  exists new, acc'.2 = fs ++ new /\ (forall x, x ∈ new.*1 -> x ∈ fragment <$> shard_rows db) /\
    (forall x, x ∈ new.*1 -> x ∉ fragment <$> shard_rows acc'.1.1).
Proof.
  intros Hinv Hp. unfold pack_member in Hp. apply bind_ok in Hp as (row & Hrow%ok_or_ok & Hp).
  destruct (negb _ || negb _) eqn:Eg; [discriminate|]. apply orb_false_iff in Eg as [Eg _].
  set (id := e_file_id p.1) in *. set (s := strip_file_chunks db user id) in *.
  destruct s as [db1 new] eqn:Es. apply bind_ok in Hp as ([db2 b] & Ha & [= <-]). cbn [fst snd].
  assert (Hdb1 : db1 = (strip_file_chunks db user id).1) by (fold s; by rewrite Es).
  assert (Hnew : new = (strip_file_chunks db user id).2) by (fold s; by rewrite Es).
  assert (Hinv1 : db_inv db1) by (rewrite Hdb1; by apply delete_chunks_inv).
  assert (Hrow1 : get_file db1 user id = Some row) by (by rewrite Hdb1).
  destruct (assign_ok db1 st user id pack _ _ db2 b row Hinv1 Hrow1 Ha) as (Hinv2 & Hk & Hoth & Hself & Hids & Hsh).
  split; [done|split; [|split; [|split; [done|split; [|split; [|split; [|split]]]]]]].
  - eapply keeps_trans; [|exact Hk]. rewrite Hdb1. by apply strip_keeps.
  - intros v j Hj. rewrite Hoth by done. by rewrite Hdb1.
  - rewrite Hids. by rewrite Hdb1.
  - intros x Hx. rewrite Hsh, Hdb1 in Hx. by eapply strip_sub.
  - by eapply get_file_id.
  - exists row. split; [done|]. destruct (r_pack_id row); [discriminate|done].
  - exists new. split; [done|split].
    + intros x Hx. rewrite Hnew in Hx. unfold strip_file_chunks, file_frags in Hx. cbn [snd] in Hx.
      rewrite <- list_fmap_compose in Hx. apply list_elem_of_fmap in Hx as (s' & -> & [_ Hs']%list_elem_of_filter).
      by apply list_elem_of_fmap_2.
    + intros x Hx. rewrite Hsh, Hdb1. rewrite Hnew in Hx. by apply strip_frags_gone.
Qed.

(** All the members moved. *)
Lemma pack_members_ok user pack ps : forall db st fr fs acc',
  db_inv db -> foldM (pack_member user pack) (db, fr, fs) ps = Ok acc' ->
  (forall x, x ∈ fs.*1 -> x ∉ fragment <$> shard_rows db) ->
  let ids := (fun p => e_file_id p.1) <$> ps in
  db_inv acc'.1.1 /\ keeps (fun j => j ∉ ids) db st acc'.1.1 st /\
  (forall v j, j ∉ ids -> get_file acc'.1.1 v j = get_file db v j) /\
  Forall (assigned acc'.1.1 user pack) ps /\ file_id <$> files acc'.1.1 = file_id <$> files db /\
  Forall (fun i => i ∈ file_id <$> files db) ids /\
  (forall s, s ∈ shard_rows acc'.1.1 -> s ∈ shard_rows db) /\
  exists new, acc'.2 = fs ++ new /\ (forall x, x ∈ new.*1 -> x ∈ fragment <$> shard_rows db) /\
    (forall x, x ∈ acc'.2.*1 -> x ∉ fragment <$> shard_rows acc'.1.1).
Proof.
  induction ps as [|p ps IH]; intros db st fr fs acc' Hinv Hf Hfs; cbn [foldM] in Hf; cbv zeta.
  { injection Hf as <-. cbn [fst snd fmap list_fmap]. split; [done|split; [apply keeps_refl|]].
    split; [done|split; [constructor|split; [done|split; [constructor|split; [done|]]]]].
    exists []. rewrite app_nil_r. split; [done|split; [by intros x ?%elem_of_nil|done]]. }
  apply bind_ok in Hf as ([[db1 fr1] fs1] & Hp & Hf).
  destruct (pack_member_ok db st user pack fr fs p _ Hinv Hp)
    as (Hinv1 & Hk1 & Hg1 & Has1 & Hid1 & Hsub1 & Hin1 & _ & new1 & Hfs1 & Hold1 & Hgone1). cbn [fst snd] in *.
  assert (Hgone : forall x, x ∈ fs1.*1 -> x ∉ fragment <$> shard_rows db1).
  { rewrite Hfs1. intros x. rewrite fmap_app. intros [Hx|Hx]%elem_of_app; [|by apply Hgone1].
    intros (s & -> & Hs)%list_elem_of_fmap. apply (Hfs _ Hx). apply list_elem_of_fmap_2, Hsub1, Hs. }
  destruct (IH db1 st fr1 fs1 acc' Hinv1 Hf Hgone) as (Hinv2 & Hk2 & Hg2 & Has2 & Hid2 & Hin2 & Hsub2 & new2 & Hfs2 & Hold2 & Hgone2).
  (* a second assignment of the same file is refused, so the first one stands *)
  assert (Hnotin : e_file_id p.1 ∉ (fun p => e_file_id p.1) <$> ps).
  { clear -Has1 Hf Hinv1. destruct Has1 as (row & Hrow & Hpk & _). set (id := e_file_id p.1) in *. clearbody id.
    revert db1 fr1 fs1 row Hrow Hpk Hf Hinv1.
    induction ps as [|q ps IH]; intros db1 fr1 fs1 row Hrow Hpk Hf Hinv1; cbn [fmap list_fmap]; [apply not_elem_of_nil|].
    cbn [foldM] in Hf. apply bind_ok in Hf as ([[db2 fr2] fs2] & Hq & Hf).
    destruct (pack_member_ok db1 ∅ user pack fr1 fs1 q _ Hinv1 Hq)
      as (Hinv2 & _ & Hg & _ & _ & _ & _ & (row' & Hrow' & Hn) & _). cbn [fst snd] in *.
    assert (Hne : id <> e_file_id q.1) by (intros ->; congruence).
    apply not_elem_of_cons. split; [done|]. eapply IH; [|exact Hpk|exact Hf|exact Hinv2]. by rewrite Hg. }
  split; [done|split; [|split; [|split; [|split; [congruence|split; [|split]]]]]].
  - eapply keeps_trans; [intros v j r Hj; apply Hk1|intros v j r Hj; apply Hk2];
      rewrite fmap_cons, not_elem_of_cons in Hj; by destruct Hj.
  - intros v j Hj. rewrite fmap_cons, not_elem_of_cons in Hj. destruct Hj. by rewrite Hg2, Hg1.
  - constructor; [|done]. destruct Has1 as (row & Hrow & Hrest). exists row. split; [by rewrite Hg2|done].
  - rewrite fmap_cons. constructor; [done|]. by rewrite <- Hid1.
  - intros s Hs. by apply Hsub1, Hsub2.
  - exists (new1 ++ new2). rewrite Hfs2, Hfs1, app_assoc. split; [done|split].
    + intros x. rewrite fmap_app. intros [Hx|Hx]%elem_of_app; [by apply Hold1|].
      apply Hold2 in Hx as (s & -> & Hs)%list_elem_of_fmap. apply list_elem_of_fmap_2, Hsub1, Hs.
    + intros x Hx. apply Hgone2. by rewrite Hfs2, Hfs1.
Qed.

Lemma io_purge_ok frags st st' remote :
  io_purge frags st = (st', Ok remote) -> st' = (purge_local_collect_remote st frags).1.
Proof. unfold io_purge. by intros [= <- _]. Qed.

Section PackTheorems.
Context `{CryptoPrims} `{Zstd} `{Log2} `{ReedSolomon}.
Variable data_key : bytes.

(** The slice of a member. *)
Lemma member_slice_range plain row o l data :
  r_pack_offset row = Some o -> r_pack_len row = Some l ->
  0 <= o -> 0 <= l -> o + l <= len plain -> len plain <= isize_max ->
  take (Z.to_nat l) (drop (Z.to_nat o) plain) = data -> member_slice plain row = Ok data.
Proof.
  intros Ho Hl Hb1 Hb2 Hb3 Hlen Hsel. unfold member_slice. rewrite Ho, Hl.
  destruct (Z.ltb_spec o 0); [lia|]. destruct (Z.ltb_spec l 0); [lia|]. cbn [orb].
  unfold isize_max in Hlen. destruct (Z.ltb_spec u64_max (o + l)) as [Hbig|_]; [unfold u64_max in Hbig; lia|].
  destruct (Z.leb_spec (o + l) (len plain)); [|lia]. by rewrite Hsel.
Qed.

(** The row of an entry slices its bytes out of the pack that was built with it. *)
Lemma packed_slice db user pack entries plain ranges e :
  build_pack entries = Ok (plain, ranges) ->
  Forall (assigned db user pack) (zip entries ranges) -> e ∈ entries ->
  exists row, get_file db user (e_file_id e) = Some row /\ r_pack_id row = Some pack /\ member_slice plain row = Ok (e_data e).
Proof.
  intros Hb Has He. pose proof (build_pack_fits _ _ _ Hb) as Hsz. destruct (build_pack_ok _ _ _ Hb) as (Hrg & Hplain & _ & _).
  assert (Hlenr : length ranges = length entries) by (rewrite Hrg; apply length_ranges).
  apply list_elem_of_lookup in He as (i & Hi).
  destruct (ranges !! i) as [rg|] eqn:Er; [|apply lookup_ge_None in Er; apply lookup_lt_Some in Hi; lia].
  assert (Hz : zip entries ranges !! i = Some (e, rg)) by (by rewrite lookup_zip_with, Hi; cbn; rewrite Er).
  rewrite Forall_forall in Has. destruct (Has (e, rg)) as (row & Hrow & Hpid & Ho & Hl); [by eapply list_elem_of_lookup_2|].
  cbn [fst snd] in *.
  destruct (range_select entries 0 [] (mjoin (entry_bytes <$> zip entries ranges) ++
              be_bytes 4 (len (mjoin (entry_bytes <$> zip entries ranges))) ++ PACK_MAGIC) i e rg eq_refl Hi)
    as (R1 & R2 & R3 & R4); [by rewrite <- Hrg|].
  cbn [app] in R2, R4. rewrite <- Hplain in R2, R4. exists row. split; [done|split; [done|]].
  apply (member_slice_range plain row rg.1 rg.2); try done. rewrite R3. apply len_nonneg.
Qed.

Lemma insert_pack_row_ok db user pack plain now st st' db' stored :
  CryptoLaws -> ZstdLaws -> db_inv db -> len plain <= isize_max ->
  insert_pack_row data_key db user pack plain now st = (st', Ok (db', stored)) ->
  (pack ∉ file_id <$> files db) /\ db_inv db' /\ pull data_key db' st' user pack = Ok plain /\
  keeps (fun i => i <> pack) db st db' st' /\
  (exists pr, get_file db' user pack = Some pr /\ r_pack_id pr = None) /\
  exists pcs bss, shard_rows db' = shard_rows db ++ (mjoin (zip_with (chunk_shards pack) pcs bss)).*1 /\
    (file_id <$> files db') = (file_id <$> files db) ++ [pack].
Proof.
  intros Laws ZLaws Hinv Hlen Hi. unfold insert_pack_row in Hi.
  apply io_bind_ok in Hi as (st1 & pcs & [-> Hp%map_err_ok]%lift_ok & Hi).
  apply io_bind_ok in Hi as (st2 & db1 & [-> Hins]%lift_ok & Hi).
  apply io_bind_ok in Hi as (st3 & db2 & Hw & [= <- <- _]).
  destruct (stored_file_reads data_key db _ db1 plain pcs st st3 db2 Laws ZLaws Hinv Hlen Hins)
    as (Hinv' & Hpull & Hk & Hfiles); try done.
  { apply len_nonneg. }
  cbn [r_user_id r_file_id pack_row] in *.
  pose proof (insert_file_ok _ _ _ Hins) as [Hnew Hdb1].
  split; [exact Hnew|split; [done|split; [done|split; [done|split]]]].
  - eexists. split; [apply get_file_found; [done| |]|].
    + rewrite Hfiles. apply elem_of_app. right. left.
    + by apply is_row_true.
    + done.
  - destruct (write_chunk_rows_wrote pack db1 pcs st st3 db2) as (_ & bss & _ & Hwr).
    + exact (insert_file_inv _ _ _ Hinv Hins).
    + rewrite Hdb1. cbn. rewrite fmap_app. apply elem_of_app. right. left.
    + done.
    + exists pcs, bss. rewrite (w_db _ _ _ _ _ _ Hwr), Hdb1. cbn. split; [done|]. by rewrite fmap_app.
Qed.

(** No shard id of [db] is one of the ids the chunks of [pack] would get (BLAKE3 is truncated
    to 128 bits: a clash needs a collision). *)
Definition no_clash (db : Db) (pack : string) : Prop :=
  forall s k i, s ∈ shard_rows db -> fragment s <> fragment_id (chunk_id pack k) i.

Lemma chunk_shards_fragment pack pcs bss x :
  x ∈ fragment <$> (mjoin (zip_with (chunk_shards pack) pcs bss)).*1 ->
  exists k i, x = fragment_id (chunk_id pack k) i.
Proof.
  revert bss; induction pcs as [|pc pcs IH]; intros [|bs bss]; cbn [zip_with];
    try (cbn; by intros ?%elem_of_nil).
  rewrite mjoin_cons, !fmap_app. intros [Hx|Hx]%elem_of_app; [|by eapply IH].
  rewrite <- list_fmap_compose in Hx. apply list_elem_of_fmap in Hx as ([s b] & -> & Hin).
  apply list_elem_of_lookup in Hin as (j & Hj). unfold chunk_shards in Hj.
  apply lookup_zip_with_Some in Hj as (i & b' & [= -> ->] & _). cbn. eauto.
Qed.

Lemma keeps_pull_other (P : string -> Prop) db st db' st' u i b :
  keeps P db st db' st' -> P i -> (forall r p, get_file db u i = Some r -> r_pack_id r = Some p -> P p) ->
  pull data_key db st u i = Ok b -> pull data_key db' st' u i = Ok b.
Proof. apply pull_keeps. Qed.

(** The members read back through the container. *)
Lemma packed_reads db1 st db2 st3 user pack entries plain ranges e :
  build_pack entries = Ok (plain, ranges) ->
  Forall (assigned db1 user pack) (zip entries ranges) -> keeps (fun i => i <> pack) db1 st db2 st3 ->
  pull data_key db2 st3 user pack = Ok plain ->
  (exists pr, get_file db2 user pack = Some pr /\ r_pack_id pr = None) ->
  pack ∉ e_file_id <$> entries -> e ∈ entries -> pull data_key db2 st3 user (e_file_id e) = Ok (e_data e).
Proof.
  intros Hb Has Hk2 Hpull (pr & Hpr & Hn) Hpackids He.
  assert (Hne : e_file_id e <> pack) by (intros E; apply Hpackids; rewrite <- E; by apply list_elem_of_fmap_2).
  destruct (packed_slice db1 user pack entries plain ranges e Hb Has He) as (row & Hrow & Hpid & Hsl).
  destruct (Hk2 user (e_file_id e) row Hne Hrow) as ((row' & Hrow' & Hc) & _).
  rewrite <- (member_slice_content plain row row' Hc) in Hsl. destruct Hc as (_ & _ & _ & _ & _ & Hc1 & _).
  unfold pull in *. rewrite (pull_fuel_own _ _ _ _ _ _ pr) in Hpull by done.
  rewrite (pull_fuel_member _ 0 _ _ _ _ row' pack pr) by (done || congruence). rewrite Hpull. done.
Qed.

(** The files that are neither members nor packed in one of them read as before. *)
Lemma unpacked_reads db st db1 db2 st3 st4 (ids : list string) pack u i b :
  keeps (fun j => j ∉ ids) db st db1 st -> keeps (fun j => j <> pack) db1 st db2 st3 ->
  keeps (fun _ => True) db2 st3 db2 st4 -> (forall v j s, get_file db v j = Some s -> j <> pack) ->
  i ∉ ids -> (forall f p, get_file db u i = Some f -> r_pack_id f = Some p -> p ∉ ids) ->
  pull data_key db st u i = Ok b -> pull data_key db2 st4 u i = Ok b.
Proof.
  intros Hk1 Hk2 Hkp Hne Hi Hp Hpl. pose proof (pull_fuel_inv _ 0 _ _ _ _ _ Hpl) as (f & Hgf & Hcase).
  eapply (pull_keeps data_key (fun j => (j ∉ ids) /\ j <> pack)); [| | |exact Hpl].
  - eapply keeps_trans; [eapply keeps_trans|].
    + intros v j s [Hj _]. by apply Hk1.
    + intros v j s [_ Hj]. by apply Hk2.
    + intros v j s _. by apply Hkp.
  - split; [done|]. by eapply Hne.
  - intros s q Hs Hq. split; [by eapply Hp|].
    destruct Hcase as [Hn|(q' & pr & Hq' & Hpr' & _)]; [congruence|].
    assert (q = q') as -> by congruence. by eapply Hne.
Qed.

(** C19. Packing is invisible to readers: after a successful [pack_files], every packed file
    reads back as exactly the bytes handed in, through the container, and every file outside
    the pack still reads as before. *)
Theorem pack_files_preserve db user entries rnd now st st' db' r :
  CryptoLaws -> ZstdLaws -> db_inv db -> no_clash db (mint_file_id rnd) ->
  pack_files data_key db user entries rnd now st = (st', Ok (db', r)) ->
  db_inv db' /\
  (forall e, e ∈ entries -> pull data_key db' st' user (e_file_id e) = Ok (e_data e)) /\
  (forall u i b, i ∉ e_file_id <$> entries ->
     (forall f p, get_file db u i = Some f -> r_pack_id f = Some p -> p ∉ e_file_id <$> entries) ->
     pull data_key db st u i = Ok b -> pull data_key db' st' u i = Ok b).
Proof.
  intros Laws ZLaws Hinv Hclash Hpk. unfold pack_files in Hpk.
  destruct (bool_decide _); [discriminate|].
  apply io_bind_ok in Hpk as (st1 & [plain ranges] & [-> Hb]%lift_ok & Hpk).
  apply io_bind_ok in Hpk as (st2 & [[db1 freed] frags] & [-> Hf]%lift_ok & Hpk).
  apply io_bind_ok in Hpk as (st3 & [db2 stored] & Hins & Hpk).
  apply io_bind_ok in Hpk as (st4 & remote & Hpu%io_purge_ok & [= <- <- _]).
  pose proof (build_pack_fits _ _ _ Hb) as Hsz.
  set (pack := mint_file_id rnd) in *.
  destruct (pack_members_ok user pack (zip entries ranges) db st 0 [] _ Hinv Hf)
    as (Hinv1 & Hk1 & Hg1 & Has & Hid1 & Hinids & Hsub & new & Hfr & Hold & Hgone).
  { by intros x ?%elem_of_nil. }
  cbn [fst snd app] in *. subst new.
  destruct (build_pack_ok _ _ _ Hb) as (Hrg & Hplain & _ & _).
  assert (Hlenr : length ranges = length entries) by (rewrite Hrg; apply length_ranges).
  assert (Hzip : (fun p => e_file_id p.1) <$> zip entries ranges = e_file_id <$> entries).
  { rewrite <- (fst_zip entries ranges) at 2 by lia. by rewrite <- list_fmap_compose. }
  rewrite Hzip in *.
  destruct (insert_pack_row_ok db1 user pack plain now st st3 db2 stored Laws ZLaws Hinv1 Hsz Hins)
    as (Hnew & Hinv2 & Hpull & Hk2 & Hpr & pcs & bss & Hsr & _).
  assert (Hpackids : pack ∉ e_file_id <$> entries).
  { intros Hin. apply Hnew. rewrite Hid1. rewrite Forall_forall in Hinids. by apply Hinids. }
  assert (Hkp : keeps (fun _ => True) db2 st3 db2 st4).
  { rewrite Hpu. apply purge_local_keeps. intros x Hx. rewrite Hsr, fmap_app. intros [Hx'|Hx']%elem_of_app.
    - by apply (Hgone x).
    - apply chunk_shards_fragment in Hx' as (k & i & ->).
      apply Hold in Hx as (s & E & Hs)%list_elem_of_fmap. by apply (Hclash s k i Hs). }
  split; [done|split].
  - intros e He. apply (pull_keeps data_key (fun _ => True) db2 st3); [exact Hkp|done|done|].
    by apply (packed_reads db1 st db2 st3 user pack entries plain ranges).
  - intros u i b Hi Hp Hpl. apply (unpacked_reads db st db1 db2 st3 st4 (e_file_id <$> entries) pack u i b); try done.
    intros v j s Hj%get_file_id ->. apply Hnew. by rewrite Hid1.
Qed.
End PackTheorems.
