(* ===== verification/ServiceInv.v ===== *)
(** * Reachable states of the service, permanent deletion, retention

    The manifest invariant over every sequence of service calls, the survival of every
    readable file across the calls that destroy nothing, the isolation of a permanent
    deletion, and the accounting of the retention sweep. *)

From Stdlib Require Import ZArith Lia Strings.Ascii Strings.String Strings.Byte.
From stdpp Require Import base numbers list gmap strings sorting relations.
From S2P Require Import Prelude External Erasure Crypto Pipeline Paths Manifest ManifestInv ChunkStore.
From S2P Require Import Service ServiceProofs ServiceSpec Packs PackProofs.

(** ** The calls one by one *)

Lemma list_filter_iff' {A} (P Q : A -> Prop) `{!forall x, Decision (P x)} `{!forall x, Decision (Q x)} (l : list A) :
  (forall x, x ∈ l -> P x <-> Q x) -> filter P l = filter Q l.
Proof.
  induction l as [|x l IH]; intros Hpq; [done|].
  assert (IH' : filter P l = filter Q l) by (apply IH; intros; apply Hpq; by right).
  pose proof (Hpq x ltac:(left)) as Hx. destruct (decide (P x)) as [Hp|Hp].
  - rewrite !filter_cons_True by tauto. by rewrite IH'.
  - rewrite !filter_cons_False by tauto. done.
Qed.

Lemma trash_inv db u i now db' f st :
  db_inv db -> trash db u i now = Ok (db', f) -> db_inv db' /\ keeps (fun _ => True) db st db' st.
Proof.
  intros Hinv. unfold trash. intros (r & Hr & Ht)%bind_ok.
  destruct (negb _); [injection Ht as <- _; split; [done|apply keeps_refl]|].
  destruct (negb _); [discriminate|]. apply bind_ok in Ht as ([d b] & Hd & (r' & _ & [= <- _])%bind_ok).
  unfold trash_file in Hd. split; [by eapply retire_row_inv|by eapply retire_row_keeps].
Qed.

Lemma trash_one_inv u now acc e acc' st :
  db_inv acc.1 -> trash_one u now acc e = Ok acc' -> db_inv acc'.1 /\ keeps (fun _ => True) acc.1 st acc'.1 st.
Proof.
  destruct acc as [db s]. cbn [fst]. unfold trash_one. intros Hinv ([d b] & Hd & [= <-])%bind_ok. cbn [fst].
  unfold trash_file in Hd. split; [by eapply retire_row_inv|by eapply retire_row_keeps].
Qed.

(** An invariant and a frame carried along a fold. *)
Lemma foldM_keeps {X S} (f : S -> X -> res StoreError S) (proj : S -> Db) st (P : Db -> Prop) xs : forall s s',
  (forall s x s', P (proj s) -> x ∈ xs -> f s x = Ok s' -> P (proj s') /\ keeps (fun _ => True) (proj s) st (proj s') st) ->
  P (proj s) -> foldM f s xs = Ok s' -> P (proj s') /\ keeps (fun _ => True) (proj s) st (proj s') st.
Proof.
  induction xs as [|x xs IH]; intros s s' Hstep Hs Hf; cbn [foldM] in Hf.
  - injection Hf as <-. split; [done|apply keeps_refl].
  - apply bind_ok in Hf as (s1 & H1 & Hf). destruct (Hstep s x s1 Hs ltac:(left) H1) as [Hs1 Hk1].
    destruct (IH s1 s') as [Hs' Hk]; [|done|done|].
    + intros s2 y s3 Hp Hy. apply Hstep; [done|by right].
    + split; [done|]. by eapply keeps_trans.
Qed.

Lemma trash_path_inv db u p now db' s st :
  db_inv db -> trash_path db u p now = Ok (db', s) -> db_inv db' /\ keeps (fun _ => True) db st db' st.
Proof.
  intros Hinv. unfold trash_path. destruct (get_file_by_path _ _ _) as [f|].
  - intros ([d b] & Hd & [= <- _])%bind_ok. unfold trash_file in Hd. cbn [fst].
    split; [by eapply retire_row_inv|by eapply retire_row_keeps].
  - destruct (_ && _); [discriminate|]. intros ([d b] & Hd & [= <- _])%bind_ok. cbn [fst].
    apply (foldM_keeps _ fst st db_inv) in Hd as [Hd Hk]; [|intros; by eapply trash_one_inv|done].
    cbn [fst] in *. split; [by apply delete_folder_subtree_inv|].
    eapply keeps_trans; [exact Hk|]. by apply same_files_keeps.
Qed.

Lemma insert_folder_rows db u p :
  files (insert_folder db u p) = files db /\ chunk_rows (insert_folder db u p) = chunk_rows db /\
  shard_rows (insert_folder db u p) = shard_rows db.
Proof.
  unfold insert_folder. destruct (same _ _); [done|].
  generalize (ancestors "" (segments (trim_slashes p))) as l. intros l. revert db.
  induction l as [|a l IH]; intros db; [done|]. cbn [foldl]. destruct (IH (insert_folder_row db u a)) as (-> & -> & ->).
  unfold insert_folder_row. by case_bool_decide.
Qed.

Lemma insert_folder_keeps P db st u p : keeps P db st (insert_folder db u p) st.
Proof. destruct (insert_folder_rows db u p) as (? & ? & ?). by apply same_files_keeps. Qed.

Lemma restore_row_inv db u i np now db' f st :
  db_inv db -> restore_row db u i np now = Ok (db', f) -> db_inv db' /\ keeps (fun _ => True) db st db' st.
Proof.
  intros Hinv. unfold restore_row. intros (r & Hr & Ht)%bind_ok. destruct (is_live r); [discriminate|].
  destruct (same _ _); [discriminate|]. apply bind_ok in Ht as (d1 & Hd1 & Ht).
  assert (Hs : db_inv d1 /\ keeps (fun _ => True) db st d1 st).
  { destruct (get_file_by_path _ _ _) as [cur|]; [|injection Hd1 as <-; split; [done|apply keeps_refl]].
    destruct (negb _); [|injection Hd1 as <-; split; [done|apply keeps_refl]].
    apply bind_ok in Hd1 as ([d b] & Hd & [= <-]). unfold supersede_file in Hd.
    split; [by eapply retire_row_inv|by eapply retire_row_keeps]. }
  destruct Hs as [Hs Hk]. apply bind_ok in Ht as ([d2 b] & Hd2 & (f' & _ & [= <- _])%bind_ok). cbn [fst].
  split; [eapply restore_file_inv; [|exact Hd2]; by apply insert_folder_inv|].
  eapply keeps_trans; [exact Hk|]. eapply keeps_trans; [apply insert_folder_keeps|]. by eapply restore_file_keeps.
Qed.

(** Every row with this id is live: what a move needs to keep the retirement discipline. *)
Definition live_row (u i : string) (db : Db) : Prop := forall f, f ∈ files db -> is_row u i f = true -> LIVE f = true.

Lemma update_file_path_live u i p v j db db' :
  live_row v j db -> update_file_path db u i p = Ok db' -> live_row v j db'.
Proof.
  intros Hl Hu. unfold update_file_path, update_files in Hu. destruct (unique_paths _); [|discriminate].
  injection Hu as <-. intros f Hf Hr. cbn in Hf. apply list_elem_of_fmap in Hf as (g & -> & Hg).
  destruct (is_row u i g); [exact (Hl g Hg Hr)|by apply Hl].
Qed.

Lemma files_under_live db u p i q :
  db_inv db -> (i, q) ∈ files_under db u p -> live_row u i db.
Proof.
  intros Hinv. unfold files_under. rewrite merge_sort_Permutation.
  intros (g & [= -> ->] & [Hg Hin]%list_elem_of_filter)%list_elem_of_fmap f Hf Hr.
  rewrite !andb_true_iff in Hg. destruct Hg as [_ Hl].
  apply is_row_true in Hr as [_ Hid]. by rewrite (unique_id _ _ _ Hinv Hf Hin Hid).
Qed.

Lemma update_folder_path_keeps P db st u o n db' : update_folder_path db u o n = Ok db' -> keeps P db st db' st.
Proof. unfold update_folder_path. case_bool_decide; [|discriminate]. intros [= <-]. by apply same_files_keeps. Qed.

Lemma rename_inv db u from to db' st :
  db_inv db -> rename db u from to = Ok db' -> db_inv db' /\ keeps (fun _ => True) db st db' st.
Proof.
  intros Hinv. unfold rename. destruct (_ || _ || _); [discriminate|].
  set (from' := trim_slashes from). set (to' := trim_slashes to).
  set (db1 := insert_folder db u (dirname to')).
  assert (Hinv1 : db_inv db1) by (by apply insert_folder_inv).
  assert (Hk1 : keeps (fun _ => True) db st db1 st) by apply insert_folder_keeps.
  destruct (get_file_by_path db1 u from') as [f|] eqn:Eg.
  - intros Hu. split; [|eapply keeps_trans; [exact Hk1|by eapply update_file_path_keeps]].
    eapply update_file_path_inv; [exact Hinv1| |exact Hu].
    apply get_file_by_path_elem in Eg as (g & Hg & Hu' & _ & Hl & _ & ->).
    intros f Hf Hr. apply is_row_true in Hr as [_ Hid]. cbn in Hid. by rewrite (unique_id _ _ _ Hinv1 Hf Hg Hid).
  - destruct (_ && _); [discriminate|]. intros (db2 & Hf & (db3 & Hd & [= <-])%bind_ok)%bind_ok.
    set (P := fun d => db_inv d /\ forall i q, (i, q) ∈ files_under db1 u from' -> live_row u i d).
    apply (foldM_keeps _ id st P) in Hf as [[Hinv2 _] Hk2].
    + apply (foldM_keeps _ id st db_inv) in Hd as [Hinv3 Hk3]; [| |exact Hinv2].
      * split; [by apply insert_folder_inv|]. eapply keeps_trans; [exact Hk1|].
        eapply keeps_trans; [exact Hk2|]. eapply keeps_trans; [exact Hk3|]. apply insert_folder_keeps.
      * intros d q d' Hd' _. unfold move_folder. intros (sf & _ & Hu)%bind_ok. split; [by eapply update_folder_path_inv|by eapply update_folder_path_keeps].
    + intros d [i q] d' [Hd' Hlive] Hin. unfold move_file. intros (sf & _ & Hu)%bind_ok. cbn [fst] in Hu. split; [split|].
      * eapply update_file_path_inv; [exact Hd'| |exact Hu]. by eapply Hlive.
      * intros j q' Hj. eapply update_file_path_live; [by eapply Hlive|exact Hu].
      * by eapply update_file_path_keeps.
    + split; [exact Hinv1|]. intros i q. by apply files_under_live.
Qed.

(** ** Purges *)

Lemma empty_trash_rows db st u :
  let keys := (fun f => (u, r_file_id f)) <$> list_trashed db u in
  let r := purge_rows db keys in
  (empty_trash db st u).1.1 = r.1 /\ (empty_trash db st u).1.2 = (purge_local_collect_remote st r.2).1 /\
  (empty_trash db st u).2.2 = (purge_local_collect_remote st r.2).2.
Proof.
  cbv zeta. unfold empty_trash, purge_rows.
  assert (H : forall l d fr s, let x := foldl (fun '(db, frags, s) f => let '(db, fr) := purge_file_row db u (r_file_id f) in
             (db, frags ++ fr, summary_add s f)) (d, fr, s) l in
     (x.1.1, x.1.2) = foldl (fun acc k => let '(db, fr) := purge_file_row acc.1 k.1 k.2 in (db, acc.2 ++ fr)) (d, fr)
        ((fun f => (u, r_file_id f)) <$> l)).
  { induction l as [|f l IH]; intros d fr s; [done|]. cbn [foldl fmap list_fmap]. exact (IH _ _ _). }
  specialize (H (list_trashed db u) db [] summary0). cbv zeta in H.
  destruct (foldl _ (db, [], summary0) _) as [[d fr] s]. cbn [fst snd] in H. rewrite <- H. done.
Qed.

(** The rows the sweep considers, in the order of its rules. *)
Definition purge_rule_rows (db : Db) (ago : Z -> string) (policy : RetentionPolicy) : list FileRec :=
  filter (fun f => before (deleted_at f) (cutoff ago (trash_days policy)) = true) (files db) ++
  filter (fun f => before (superseded_at f) (cutoff ago (version_days policy)) = true) (files db) ++
  filter (fun f => (negb (is_none (superseded_at f)) && (Z.max (keep_versions policy) 0 <? row_number db f)) = true) (files db) ++
  filter (fun f => (negb (is_none (superseded_at f)) &&
            negb (existsb (fun l => same_lineage l f && is_none (superseded_at l)) (files db))) = true) (files db).

Lemma purge_rules_rows db ago policy : purge_rules db ago policy = candidate <$> purge_rule_rows db ago policy.
Proof. unfold purge_rules, purge_rule_rows. by rewrite !fmap_app. Qed.

Lemma purge_rule_rows_spec db ago policy f :
  f ∈ purge_rule_rows db ago policy -> f ∈ files db /\ LIVE f = false.
Proof.
  unfold purge_rule_rows, LIVE, before. rewrite !elem_of_app, !list_elem_of_filter.
  intros [[Hp Hf]|[[Hp Hf]|[[Hp Hf]|[Hp Hf]]]]; (split; [done|]).
  - by destruct (deleted_at f).
  - destruct (superseded_at f); [|done]. by destruct (deleted_at f).
  - apply andb_true_iff in Hp as [Hp _]. destruct (superseded_at f); [|done]. by destruct (deleted_at f).
  - apply andb_true_iff in Hp as [Hp _]. destruct (superseded_at f); [|done]. by destruct (deleted_at f).
Qed.

Definition row_key (f : FileRec) : string * string := (user_id f, file_id f).
Definition of_user (u : string) (rs : list FileRec) : list FileRec := filter (fun f => user_id f = u) rs.
Definition total (g : FileRec -> Z) (rs : list FileRec) : Z := zsum (g <$> rs).

(** What the sweep has done after the rows [rs] were purged. *)
Record swept (db0 : Db) (rs : list FileRec) (acc : Sweep) : Prop := {
  sw_db : acc.1.1.1.1 = (purge_rows db0 (row_key <$> rs)).1;
  sw_frags : acc.1.2 = (purge_rows db0 (row_key <$> rs)).2;
  sw_seen : forall i, i ∈ acc.1.1.1.2 <-> i ∈ file_id <$> rs;
  sw_count : acc.2 = len rs;
  sw_nodup : NoDup (file_id <$> rs);
  sw_freed : forall u, acc.1.1.2 !! u =
    match of_user u rs with [] => None | _ => Some (total size (of_user u rs), total stored_bytes (of_user u rs)) end
}.

Lemma zsum_snoc l x : zsum (l ++ [x]) = zsum l + x.
Proof. rewrite zsum_app. cbn. lia. Qed.

Lemma sweep_one_step db0 rs acc f :
  swept db0 rs acc ->
  swept db0 (if decide (file_id f ∈ file_id <$> rs) then rs else rs ++ [f]) (sweep_one acc (candidate f)).
Proof.
  intros [Hdb Hfr Hseen Hn Hnd Hfreed]. destruct acc as [[[[db seen] freed] frags] n]. cbn [fst snd] in *.
  unfold sweep_one, candidate. destruct (decide (file_id f ∈ file_id <$> rs)) as [Hin|Hnin].
  - rewrite bool_decide_true by (by apply Hseen). by split.
  - rewrite bool_decide_false by (by rewrite Hseen). unfold purge_file_row.
    split; cbn [fst snd].
    + rewrite fmap_app. cbn [fmap list_fmap]. rewrite purge_rows_snoc. cbn [fst]. by rewrite Hdb.
    + rewrite fmap_app. cbn [fmap list_fmap]. rewrite purge_rows_snoc. cbn [snd]. by rewrite Hdb, Hfr.
    + intros i. rewrite elem_of_union, elem_of_singleton, Hseen, fmap_app, elem_of_app.
      cbn [fmap list_fmap]. rewrite list_elem_of_singleton. tauto.
    + rewrite Hn, len_app. done.
    + rewrite fmap_app. apply NoDup_app. split; [done|split; [|apply NoDup_singleton]].
      intros x Hx ->%list_elem_of_singleton. done.
    + intros u. unfold of_user, total. rewrite filter_app. cbn [filter list_filter]. 
      destruct (decide (user_id f = u)) as [<-|Hne].
      * rewrite lookup_insert_eq. rewrite Hfreed. unfold of_user, total.
        rewrite !fmap_app. cbn [fmap list_fmap]. rewrite !zsum_snoc.
        destruct (filter _ rs) eqn:E; cbn [app]; [done|]. rewrite <- E. done.
      * rewrite lookup_insert_ne by done. rewrite app_nil_r. apply Hfreed.
Qed.

Lemma sweep_rows db0 fs : forall rs acc,
  swept db0 rs acc ->
  exists rs', swept db0 (rs ++ rs') (foldl sweep_one acc (candidate <$> fs)) /\
    (forall f, f ∈ rs' -> f ∈ fs) /\ (forall f, f ∈ fs -> file_id f ∈ file_id <$> (rs ++ rs')).
Proof.
  induction fs as [|f fs IH]; intros rs acc Hs; cbn [fmap list_fmap foldl].
  - exists []. rewrite app_nil_r. split; [done|split; intros ? ?%elem_of_nil; done].
  - pose proof (sweep_one_step db0 rs acc f Hs) as Hs1.
    destruct (decide (file_id f ∈ file_id <$> rs)) as [Hin|Hnin].
    + destruct (IH _ _ Hs1) as (rs' & H1 & H2 & H3). exists rs'. split; [done|split].
      * intros g Hg. right. by apply H2.
      * intros g [->|Hg]%elem_of_cons; [|by apply H3]. rewrite fmap_app, elem_of_app. by left.
    + destruct (IH _ _ Hs1) as (rs' & H1 & H2 & H3). exists (f :: rs'). rewrite <- app_assoc in *. cbn [app] in *.
      split; [done|split].
      * intros g [->|Hg]%elem_of_cons; [left|right; by apply H2].
      * intros g [->|Hg]%elem_of_cons; [|by apply H3]. rewrite fmap_app, elem_of_app. right. left.
Qed.

Lemma swept_init db : swept db [] (db, ∅, ∅, [], 0).
Proof.
  split; try done.
  - intros i. cbn [fst snd]. rewrite elem_of_empty. split; [done|]. by intros ?%elem_of_nil.
  - constructor.
Qed.

(** The run of the sweep, as a list of purged rows. *)
Lemma purge_retired_rows db ago policy :
  db_inv db ->
  exists rs acc, swept db rs acc /\ foldl sweep_one (db, ∅, ∅, [], 0) (purge_rules db ago policy) = acc /\
    (forall f, f ∈ rs <-> f ∈ purge_rule_rows db ago policy).
Proof.
  intros Hinv. rewrite purge_rules_rows.
  destruct (sweep_rows db (purge_rule_rows db ago policy) [] _ (swept_init db)) as (rs & H1 & H2 & H3).
  cbn [app] in *. eexists rs, _. split; [exact H1|split; [done|]]. intros f. split; [apply H2|].
  intros Hf. specialize (H3 f Hf). apply list_elem_of_fmap in H3 as (g & Hg & Hin).
  assert (f = g) as ->; [|done]. apply (unique_id db); [done| | |done].
  - by apply purge_rule_rows_spec in Hf as [? _].
  - apply H2, purge_rule_rows_spec in Hin as [? _]. done.
Qed.

Lemma purge_retired_inv db st ago policy : db_inv db -> db_inv (purge_retired db st ago policy).1.1.
Proof.
  intros Hinv. unfold purge_retired.
  destruct (purge_retired_rows db ago policy Hinv) as (rs & acc & Hsw & -> & _).
  destruct acc as [[[[d seen] freed] frags] n]. destruct Hsw as [Hdb _ _ _ _ _]. cbn [fst snd] in *.
  destruct (purge_local_collect_remote st frags) as [st' remote]. cbn [fst]. rewrite Hdb.
  by apply (purge_rows_spec db st (row_key <$> rs) Hinv).
Qed.

Lemma total_perm g rs rs' : rs ≡ₚ rs' -> total g rs = total g rs'.
Proof. unfold total. induction 1; cbn; unfold zsum in *; cbn in *; lia. Qed.

(** ** Retention *)

Lemma purge_retired_spec db st ago policy :
  db_inv db ->
  let '(db', st', rep) := purge_retired db st ago policy in
  let gone := filter (fun f => f ∈ purge_rule_rows db ago policy) (files db) in
  db_inv db' /\ files db' = filter (fun f => f ∉ purge_rule_rows db ago policy) (files db) /\
  (forall f, f ∈ files db -> LIVE f = true -> f ∈ files db') /\
  pg_files rep = len gone /\
  forall u s t, (u, s, t) ∈ pg_freed rep <->
    of_user u gone <> [] /\ s = total size (of_user u gone) /\ t = total stored_bytes (of_user u gone).
Proof.
  intros Hinv. unfold purge_retired.
  destruct (purge_retired_rows db ago policy Hinv) as (rs & acc & Hsw & Heq & Hrs).
  rewrite Heq. clear Heq. destruct acc as [[[[d seen] freed] frags] n].
  destruct Hsw as [Hdb Hfr _ Hn Hnd Hfreed]. cbn [fst snd] in *.
  destruct (purge_local_collect_remote st frags) as [st' remote].
  destruct (purge_rows_spec db st (row_key <$> rs) Hinv) as (Hinv' & _ & _ & Hfiles). rewrite <- Hdb in *.
  assert (Hkey : forall f, f ∈ files db -> row_key f ∈ row_key <$> rs <-> f ∈ purge_rule_rows db ago policy).
  { intros f Hf. rewrite <- Hrs. split; [|by apply list_elem_of_fmap_2].
    intros (g & Hg & Hin)%list_elem_of_fmap. assert (f = g) as ->; [|done].
    apply (unique_id db); [done|done| |by injection Hg].
    apply Hrs, purge_rule_rows_spec in Hin as [? _]. done. }
  assert (Hf' : files d = filter (fun f => f ∉ purge_rule_rows db ago policy) (files db)).
  { rewrite Hfiles. apply list_filter_iff'. intros f Hf. fold (row_key f). by rewrite (Hkey f Hf). }
  assert (Hperm : rs ≡ₚ filter (fun f => f ∈ purge_rule_rows db ago policy) (files db)).
  { apply NoDup_Permutation.
    - by eapply NoDup_fmap_1.
    - apply NoDup_filter. eapply NoDup_fmap_1, (inv_ids _ Hinv).
    - intros f. rewrite Hrs, list_elem_of_filter. split; [|tauto]. intros Hf. split; [done|].
      by apply purge_rule_rows_spec in Hf as [? _]. }
  cbv zeta. split; [done|split; [done|split; [|split]]].
  - intros f Hf Hl. rewrite Hf'. apply list_elem_of_filter. split; [|done].
    intros Hin. apply purge_rule_rows_spec in Hin as [_ Hx]. congruence.
  - cbn [pg_files]. rewrite Hn. unfold len. by rewrite Hperm.
  - intros u s t. cbn [pg_freed]. rewrite list_elem_of_fmap.
    assert (Hu : of_user u rs ≡ₚ of_user u (filter (fun f => f ∈ purge_rule_rows db ago policy) (files db)))
      by (unfold of_user; by rewrite <- Hperm).
    assert (Hsum : forall g, total g (of_user u rs) = total g (of_user u (filter (fun f => f ∈ purge_rule_rows db ago policy) (files db))))
      by (intros g; by apply total_perm).
    assert (Hnil : of_user u rs = [] <-> of_user u (filter (fun f => f ∈ purge_rule_rows db ago policy) (files db)) = []).
    { split; intros E; rewrite E in Hu; [by apply Permutation_nil in Hu|by apply Permutation_nil_r in Hu]. }
    rewrite <- !Hsum, <- Hnil. split.
    + intros ([u' [s' t']] & [= -> -> ->] & Hin). rewrite merge_sort_Permutation in Hin.
      apply elem_of_map_to_list in Hin. rewrite Hfreed in Hin. destruct (of_user u' rs) eqn:E; [discriminate|].
      injection Hin as <- <-. done.
    + intros (Hne & -> & ->). exists (u, (total size (of_user u rs), total stored_bytes (of_user u rs))).
      split; [done|]. rewrite merge_sort_Permutation. apply elem_of_map_to_list. rewrite Hfreed.
      by destruct (of_user u rs).
Qed.

(** C17. The retention sweep is exact: it removes precisely the rows one of its rules selects
    (all of them trashed or superseded; a live row always stays), counts each once however
    many rules select it, and reports for each account the sizes of the rows removed from it. *)
Theorem purge_retired_exact db st ago policy :
  db_inv db ->
  let '(db', st', rep) := purge_retired db st ago policy in
  let gone := filter (fun f => f ∈ purge_rule_rows db ago policy) (files db) in
  db_inv db' /\ files db' = filter (fun f => f ∉ purge_rule_rows db ago policy) (files db) /\
  (forall f, f ∈ files db -> LIVE f = true -> f ∈ files db') /\
  pg_files rep = len gone /\
  forall u s t, (u, s, t) ∈ pg_freed rep <->
    of_user u gone <> [] /\ s = total size (of_user u gone) /\ t = total stored_bytes (of_user u gone).
Proof. apply purge_retired_spec. Qed.

(** ** Every call *)

Section Steps.
Context `{CryptoPrims} `{Zstd} `{Log2} `{ReedSolomon}.
Variable data_key : bytes.

(** The calls that create, move, trash or restore. *)
Inductive gentle_step : Db * ChunkStore -> Db * ChunkStore -> Prop :=
| g_push db st u p data rnd now st' db' r :
    len data <= isize_max ->
    push data_key db u p data rnd now st = (st', Ok (db', r)) -> gentle_step (db, st) (db', st')
| g_trash db st u i now db' f : trash db u i now = Ok (db', f) -> gentle_step (db, st) (db', st)
| g_trash_path db st u p now db' s : trash_path db u p now = Ok (db', s) -> gentle_step (db, st) (db', st)
| g_restore db st u i np now db' f : restore_row db u i np now = Ok (db', f) -> gentle_step (db, st) (db', st)
| g_mkdir db st u p : gentle_step (db, st) (mkdir db u p, st)
| g_rename db st u from to db' : rename db u from to = Ok db' -> gentle_step (db, st) (db', st).

(** Every call that changes the manifest. *)
Inductive service_step : Db * ChunkStore -> Db * ChunkStore -> Prop :=
| s_gentle x y : gentle_step x y -> service_step x y
| s_purge db st u i db' st' o : purge_file db st u i = Ok (db', st', o) -> service_step (db, st) (db', st')
| s_empty db st u : service_step (db, st) (empty_trash db st u).1
| s_retire db st ago policy : service_step (db, st) (purge_retired db st ago policy).1
| s_place db st i l : service_step (db, st) (set_shard_location db i l, st)
| s_pack db st u es rnd now st' db' r :
    pack_files data_key db u es rnd now st = (st', Ok (db', r)) -> service_step (db, st) (db', st')
| s_compact db st u old es rnd now st' db' r :
    compact_pack data_key db u old es rnd now st = (st', Ok (db', r)) -> service_step (db, st) (db', st').

Lemma write_rows_inv file db cs st st' db' :
  db_inv db -> file ∈ file_id <$> files db ->
  write_chunk_rows file db cs st = (st', Ok db') -> db_inv db'.
Proof. intros Hinv Hf Hw. by destruct (write_chunk_rows_wrote file db cs st st' db' Hinv Hf Hw). Qed.

Lemma insert_file_has db f db' : insert_file db f = Ok db' -> r_file_id f ∈ file_id <$> files db'.
Proof. intros [_ ->]%insert_file_ok. cbn. rewrite fmap_app. apply elem_of_app. right. left. Qed.

Lemma push_inv db u p data rnd now st st' db' r :
  db_inv db -> push data_key db u p data rnd now st = (st', Ok (db', r)) -> db_inv db'.
Proof.
  intros Hinv Hp. destruct (push_ok _ _ _ _ _ _ _ _ _ _ _ Hp) as [(_ & -> & _)|
    (pcs & db1 & x & db2 & _ & _ & _ & _ & _ & _ & Hsup & Hins & Hw)]; [done|].
  destruct (supersede_current_ok db st _ _ _ _ _ _ Hinv Hsup) as (Hinv1 & _ & _).
  eapply write_rows_inv; [by eapply insert_file_inv|exact (insert_file_has _ _ _ Hins)|exact Hw].
Qed.

Lemma insert_pack_row_inv db u pack plain now st st' db' s :
  db_inv db -> insert_pack_row data_key db u pack plain now st = (st', Ok (db', s)) -> db_inv db'.
Proof.
  intros Hinv Hi. unfold insert_pack_row in Hi.
  apply io_bind_ok in Hi as (st1 & pcs & _ & Hi).
  apply io_bind_ok in Hi as (st2 & db1 & [-> Hins]%lift_ok & Hi).
  apply io_bind_ok in Hi as (st3 & db2 & Hw & [= <- <- _]).
  eapply write_rows_inv; [by eapply insert_file_inv|exact (insert_file_has _ _ _ Hins)|exact Hw].
Qed.

Lemma pack_files_inv db u es rnd now st st' db' r :
  db_inv db -> pack_files data_key db u es rnd now st = (st', Ok (db', r)) -> db_inv db'.
Proof.
  intros Hinv Hpk. unfold pack_files in Hpk. destruct (bool_decide _); [discriminate|].
  apply io_bind_ok in Hpk as (st1 & [plain ranges] & _ & Hpk).
  apply io_bind_ok in Hpk as (st2 & [[db1 freed] frags] & [-> Hf]%lift_ok & Hpk).
  apply io_bind_ok in Hpk as (st3 & [db2 stored] & Hins & Hpk).
  apply io_bind_ok in Hpk as (st4 & remote & _ & [= <- <- _]).
  eapply insert_pack_row_inv; [|exact Hins].
  destruct (pack_members_ok u (mint_file_id rnd) (zip es ranges) db ∅ 0 [] _ Hinv Hf) as (? & _); [|done].
  by intros x ?%elem_of_nil.
Qed.

Lemma compact_members_inv u old new ps : forall db db',
  db_inv db -> foldM (compact_member u old new) db ps = Ok db' -> db_inv db'.
Proof.
  induction ps as [|p ps IH]; intros db db' Hinv Hf; cbn [foldM] in Hf; [by injection Hf as <-|].
  apply bind_ok in Hf as (d & Hd & Hf). eapply IH; [|exact Hf]. unfold compact_member in Hd.
  apply bind_ok in Hd as (row & _ & Hd). destruct (_ || _); [discriminate|].
  destruct (assign_to_pack _ _ _ _ _ _) as [[d' b]| |] eqn:E; try discriminate. injection Hd as <-.
  by eapply assign_inv.
Qed.

Lemma compact_pack_inv db u old es rnd now st st' db' r :
  db_inv db -> compact_pack data_key db u old es rnd now st = (st', Ok (db', r)) -> db_inv db'.
Proof.
  intros Hinv Hc. unfold compact_pack in Hc. apply io_bind_ok in Hc as (st1 & f & [-> _]%lift_ok & Hc).
  destruct (negb _); [discriminate|]. apply io_bind_ok in Hc as (st2 & t & _ & Hc).
  destruct (bool_decide _).
  - unfold purge_file_row in Hc. apply io_bind_ok in Hc as (st3 & remote & _ & [= _ <- _]).
    by apply delete_files_inv.
  - apply io_bind_ok in Hc as (st3 & [plain ranges] & _ & Hc).
    apply io_bind_ok in Hc as (st4 & db1 & [-> Hf]%lift_ok & Hc).
    apply io_bind_ok in Hc as (st5 & [db2 stored] & Hins & Hc). unfold purge_file_row in Hc.
    apply io_bind_ok in Hc as (st6 & remote & _ & [= _ <- _]). apply delete_files_inv.
    eapply insert_pack_row_inv; [|exact Hins]. by eapply compact_members_inv.
Qed.

Lemma purge_file_ok db st u i db' st' f remote :
  purge_file db st u i = Ok (db', st', (f, remote)) ->
  get_file db u i = Some f /\ db' = (purge_rows db [(u, i)]).1 /\
  st' = (purge_local_collect_remote st (purge_rows db [(u, i)]).2).1 /\
  remote = (purge_local_collect_remote st (purge_rows db [(u, i)]).2).2.
Proof.
  unfold purge_file. intros (r & Hr%ok_or_ok & [= <- <- <- <-])%bind_ok. done.
Qed.

(** C7. Every state the service reaches from an empty manifest, by any sequence of calls of
    any users, satisfies the manifest invariant: unique ids, one live file per path of a
    user, no orphan chunk or shard row, retired rows parked on their tombstone. *)
Theorem reachable_inv db st : rtc service_step (empty_db, ∅) (db, st) -> db_inv db.
Proof.
  intros Hr. enough (HH : forall x y, rtc service_step x y -> db_inv x.1 -> db_inv y.1)
    by exact (HH _ _ Hr empty_inv).
  clear. intros x y. induction 1 as [x|x y z Hxy _ IH]; [done|]. intros Hinv. apply IH. clear IH.
  destruct Hxy as [x y Hg|db st u i db' st' [f remote] Hp|db st u|db st ago policy|db st i l|
    db st u es rnd now st' db' r Hp|db st u old es rnd now st' db' r Hp]; cbn [fst] in *.
  - destruct Hg; cbn [fst] in *; [by eapply push_inv|by eapply trash_inv|by eapply trash_path_inv|
      by eapply restore_row_inv|by apply insert_folder_inv|by eapply rename_inv].
  - apply purge_file_ok in Hp as (_ & -> & _). by apply (purge_rows_spec db st).
  - destruct (empty_trash_rows db st u) as (-> & _). by apply (purge_rows_spec db st).
  - by apply purge_retired_inv.
  - by apply set_location_inv.
  - by eapply pack_files_inv.
  - by eapply compact_pack_inv.
Qed.

(** C6. Nothing but a permanent deletion loses data: across any sequence of pushes, trashings
    (by id or by path), restores, folder creations and renames, a file that can be read, in
    whatever state its row is, still reads back the same bytes. *)
Theorem gentle_steps_preserve x y u i b :
  CryptoLaws -> ZstdLaws -> db_inv x.1 -> rtc gentle_step x y ->
  pull data_key x.1 x.2 u i = Ok b -> pull data_key y.1 y.2 u i = Ok b.
Proof.
  intros Laws ZLaws Hinv Hr. revert Hinv.
  induction Hr as [x|x y z Hxy Hyz IH]; [done|]. intros Hinv Hp.
  enough (HH : db_inv y.1 /\ pull data_key y.1 y.2 u i = Ok b) by (destruct HH; by apply IH).
  clear IH Hyz. destruct Hxy as [db st u' p data rnd now st' db' r Hlen Hpush| | | | |]; cbn [fst snd] in *.
  - split; [by eapply push_inv|]. by apply (push_keeps_reads data_key _ _ _ _ _ _ _ _ _ _ _ _ _ Laws ZLaws Hinv Hlen Hpush).
  - destruct (trash_inv _ _ _ _ _ _ st Hinv H3) as [? Hk]. split; [done|]. by eapply (pull_keeps data_key (fun _ => True)).
  - destruct (trash_path_inv _ _ _ _ _ _ st Hinv H3) as [? Hk]. split; [done|]. by eapply (pull_keeps data_key (fun _ => True)).
  - destruct (restore_row_inv _ _ _ _ _ _ _ st Hinv H3) as [? Hk]. split; [done|]. by eapply (pull_keeps data_key (fun _ => True)).
  - split; [by apply insert_folder_inv|]. eapply (pull_keeps data_key (fun _ => True)); [apply insert_folder_keeps|done..].
  - destruct (rename_inv _ _ _ _ _ st Hinv H3) as [? Hk]. split; [done|]. by eapply (pull_keeps data_key (fun _ => True)).
Qed.

End Steps.
