(* ===== verification/ServiceWitness.v ===== *)
(** * Concrete runs of the store service

    The theorems about the service applied on concrete states: a small codec over GF(16),
    the toy primitives of [External.v], and a store reached from the empty one by real
    pushes. *)

From Stdlib Require Import ZArith Lia Strings.Ascii Strings.String Strings.Byte.
From Stdlib Require Import Floats.
From stdpp Require Import base numbers list gmap strings sorting.
From S2P Require Import Prelude External Erasure RSCode Crypto Pipeline Paths Manifest ManifestInv ChunkStore.
From S2P Require Import Service ServiceProofs ServiceSpec Packs PackProofs ServiceInv.
Import Toy.

Module StoreRun.
#[local] Instance flat_log2 : Log2 := fun _ => 0%float.
Definition key : bytes := zeros 32.

(** A push from a state, when it succeeds. *)
Definition pushed (w : Db * ChunkStore) (p : string) (data rnd : bytes) (now : string)
    : option (Db * ChunkStore * PushResult) :=
  match push key w.1 "u" p data rnd now w.2 with
  | (st, Ok (db, r)) => Some (db, st, r)
  | _ => None
  end.
Definition next (w : Db * ChunkStore) (p : string) (data rnd : bytes) (now : string) : Db * ChunkStore :=
  match pushed w p data rnd now with Some x => x.1 | None => w end.

Definition result (w : Db * ChunkStore) (p : string) (data rnd : bytes) (now : string) : PushResult :=
  match pushed w p data rnd now with Some x => x.2 | None => Build_PushResult "" 0 0 None 0 0 true end.

Lemma pushed_ok w p data rnd now :
  is_none (pushed w p data rnd now) = false ->
  push key w.1 "u" p data rnd now w.2 =
    ((next w p data rnd now).2, Ok ((next w p data rnd now).1, result w p data rnd now)).
Proof.
  unfold next, result, pushed. destruct (push _ _ _ _ _ _ _ _) as [st [[db r]| |]]; done.
Defined.

Definition rnd1 : bytes := zeros 16.
Definition rnd2 : bytes := x01 :: zeros 15.
Definition rndp : bytes := xff :: zeros 15.
Definition id1 : string := mint_file_id rnd1.
Definition id2 : string := mint_file_id rnd2.
Definition w0 : Db * ChunkStore := (empty_db, ∅).
Definition w1 := next w0 "notes/a" (as_bytes "hello") rnd1 "t1".
Definition r1 := result w0 "notes/a" (as_bytes "hello") rnd1 "t1".
Definition w2 := next w1 "notes/b" (as_bytes "bye") rnd2 "t2".
Definition r2 := result w1 "notes/b" (as_bytes "bye") rnd2 "t2".

Lemma push1 : push key w0.1 "u" "notes/a" (as_bytes "hello") rnd1 "t1" w0.2 = (w1.2, Ok (w1.1, r1)).
Proof. apply pushed_ok. vm_compute. reflexivity. Defined.
Lemma push2 : push key w1.1 "u" "notes/b" (as_bytes "bye") rnd2 "t2" w1.2 = (w2.2, Ok (w2.1, r2)).
Proof. apply pushed_ok. vm_compute. reflexivity. Defined.

Lemma short_ok (b : bytes) : (length b <=? 1000)%nat = true -> len b <= isize_max.
Proof. intros Hb%Nat.leb_le. unfold len, isize_max. lia. Defined.

Lemma push_pull_witness :
  push key empty_db "u" "notes/a" (as_bytes "hello") rnd1 "t1" ∅ = (w1.2, Ok (w1.1, r1)) /\
  pull key w1.1 w1.2 "u" (pr_file_id r1) = Ok (as_bytes "hello").
Proof.
  split; [exact push1|].
  pose proof (push_pull key w0.1 "u" "notes/a" (as_bytes "hello") rnd1 "t1" w0.2 _ _ _
    crypto_laws zstd_laws empty_inv ltac:(apply short_ok; reflexivity) push1) as Hpp.
  assert (Eu : pr_unchanged r1 = false) by (vm_compute; reflexivity). rewrite Eu in Hpp.
  exact (proj1 (proj1 Hpp)).
Defined.

Lemma step_push w w' p data rnd now r :
  len data <= isize_max -> push key w.1 "u" p data rnd now w.2 = (w'.2, Ok (w'.1, r)) -> gentle_step key w w'.
Proof. destruct w, w'. intros Hl Hp. exact (g_push key _ _ "u" p data rnd now _ _ r Hl Hp). Defined.

Lemma steps2 : rtc (gentle_step key) w0 w2.
Proof.
  apply (rtc_l _ _ w1); [|apply (rtc_l _ _ w2); [|apply rtc_refl]].
  - refine (step_push _ _ _ _ _ _ _ _ push1); apply short_ok; reflexivity.
  - refine (step_push _ _ _ _ _ _ _ _ push2); apply short_ok; reflexivity.
Defined.

Lemma reachable_inv_witness : rtc (service_step key) w0 w2 /\ db_inv w2.1.
Proof.
  assert (Hr : rtc (service_step key) w0 w2).
  { apply (rtc_l _ _ w1); [|apply (rtc_l _ _ w2); [|apply rtc_refl]]; apply s_gentle.
    - refine (step_push _ _ _ _ _ _ _ _ push1); apply short_ok; reflexivity.
    - refine (step_push _ _ _ _ _ _ _ _ push2); apply short_ok; reflexivity. }
  split; [exact Hr|]. revert Hr. generalize w2. intros [db st] Hr. exact (reachable_inv key db st Hr).
Defined.

(** The invariant by running the pushes, for the witnesses below. *)
Lemma w1_inv : db_inv w1.1.
Proof. exact (push_inv key _ _ _ _ _ _ _ _ _ _ empty_inv push1). Defined.
Lemma w2_inv : db_inv w2.1.
Proof. exact (push_inv key _ _ _ _ _ _ _ _ _ _ w1_inv push2). Defined.

Lemma gentle_steps_preserve_witness :
  rtc (gentle_step key) w1 w2 /\ pull key w1.1 w1.2 "u" id1 = Ok (as_bytes "hello") /\
  pull key w2.1 w2.2 "u" id1 = Ok (as_bytes "hello").
Proof.
  assert (Hr : rtc (gentle_step key) w1 w2).
  { apply (rtc_l _ _ w2); [|apply rtc_refl].
    refine (step_push _ _ _ _ _ _ _ _ push2); apply short_ok; reflexivity. }
  assert (Hp : pull key w1.1 w1.2 "u" id1 = Ok (as_bytes "hello")) by (vm_compute; reflexivity).
  split; [exact Hr|split; [exact Hp|]].
  exact (gentle_steps_preserve key w1 w2 "u" id1 _ crypto_laws zstd_laws w1_inv Hr Hp).
Defined.

(** Deleting one of two files: the other one still reads. *)
Definition purged : Db * ChunkStore :=
  default w2 (fst <$> res_ok (purge_file w2.1 w2.2 "u" id1)).

(** A sweep over a trashed row: it goes, the live one stays. *)
Definition trashed : Db := match trash w2.1 "u" id1 "t3" with Ok x => x.1 | _ => w2.1 end.
Lemma trashed_inv : db_inv trashed.
Proof.
  unfold trashed. destruct (trash w2.1 "u" id1 "t3") as [[db f]| |] eqn:E; [|exact w2_inv..].
  exact (proj1 (trash_inv w2.1 "u" id1 "t3" db f w2.2 w2_inv E)).
Defined.
Lemma purge_retired_exact_witness :
  let '(db', _, rep) := purge_retired trashed w2.2 (fun _ => "t9") (mkPolicy 30 90 3) in
  pg_files rep = 1 /\ file_id <$> files db' = [id2].
Proof.
  pose proof (purge_retired_exact trashed w2.2 (fun _ => "t9") (mkPolicy 30 90 3) trashed_inv) as Hx.
  destruct (purge_retired trashed w2.2 (fun _ => "t9") (mkPolicy 30 90 3)) as [[db' st'] rep].
  destruct Hx as (_ & -> & _ & -> & _). split; vm_compute; reflexivity.
Defined.

(** Both files into one pack. *)
Definition entries : list PackEntry := [mkEntry id1 (as_bytes "hello"); mkEntry id2 (as_bytes "bye")].
Definition packed : Db * ChunkStore :=
  let r := pack_files key w2.1 "u" entries rndp "t4" w2.2 in (default w2.1 (fst <$> res_ok r.2), r.1).

Lemma no_clash_w2 : no_clash w2.1 (mint_file_id rndp).
Proof.
  intros s k i Hs Heq.
  assert (Hall : forallb (fun s => bool_decide (String.get 0 (fragment s) = Some "3"%char)) (shard_rows w2.1) = true)
    by (vm_compute; reflexivity).
  rewrite forallb_forall in Hall. apply list_elem_of_In, Hall, bool_decide_eq_true in Hs.
  rewrite Heq in Hs. cbn in Hs. discriminate Hs.
Defined.

Lemma pack_files_preserve_witness :
  exists r, pack_files key w2.1 "u" entries rndp "t4" w2.2 = (packed.2, Ok (packed.1, r)) /\
  pull key packed.1 packed.2 "u" id1 = Ok (as_bytes "hello").
Proof.
  assert (Hr : is_none (res_ok (pack_files key w2.1 "u" entries rndp "t4" w2.2).2) = false) by (vm_compute; reflexivity).
  unfold packed. destruct (pack_files key w2.1 "u" entries rndp "t4" w2.2) as [st [[db r]| |]] eqn:E; [|discriminate Hr..].
  exists r. split; [done|]. cbn [fst snd].
  destruct (pack_files_preserve key w2.1 "u" entries rndp "t4" w2.2 st db r crypto_laws zstd_laws
              w2_inv no_clash_w2 E) as (_ & Hp & _).
  exact (Hp (mkEntry id1 (as_bytes "hello")) ltac:(by left)).
Defined.
End StoreRun.
