(* ===== verification/Protocol.v ===== *)
(** * The wire protocol ([crates/p2p/src/protocol.rs])

    Messages, length-prefixed frames, the signed transcripts of the authenticated handshake
    and the challenge/response state a listener keeps per connection. bincode and Ed25519
    are class parameters with their documented laws; a byte stream is the list of the bytes
    that arrive before the connection ends. *)

From Stdlib Require Import ZArith Lia Strings.String Strings.Byte.
From stdpp Require Import base numbers list gmap strings.
From S2P Require Import Prelude External Crypto.

Definition MAX_MESSAGE_BYTES : Z := 16 * 1024 * 1024.
(** Length of a handshake challenge ([NONCE_LEN] of the source; the name is taken by the AEAD). *)
Definition CHALLENGE_LEN : Z := 32.
Definition ED25519_SEED_LEN : Z := 32.
Definition ED25519_PUBLIC_KEY_LEN : Z := 32.
Definition ED25519_SIGNATURE_LEN : Z := 64.
Definition HANDSHAKE_CONTEXT : bytes := as_bytes "p2pnas/handshake/v1".
Definition PROOF_CONTEXT : bytes := as_bytes "p2pnas/peer-proof/v1".

Inductive P2pMessage :=
| Ping (peer_id : string) (api_port : Z)
| Pong (peer_id : string) (api_port : Z) (observed_addr : option string)
| StoreShard (fragment_id owner_peer_id : string) (shard_index : Z) (data : bytes)
| Ack (fragment_id : string)
| GetShard (fragment_id : string)
| ShardData (fragment_id : string) (data : bytes)
| ShardNotFound (fragment_id : string)
| HasShard (fragment_id : string)
| HasShardResult (fragment_id : string) (present : bool)
| AuditShard (fragment_id : string)
| AuditResult (fragment_id hash : string)
| DeleteShard (fragment_id owner_peer_id : string)
| ErrorMsg (message : string)
| AuthPing (peer_id : string) (api_port : Z) (nonce : bytes)
| AuthPong (peer_id : string) (api_port : Z) (observed_addr : option string)
           (public_key signature : string) (challenge : bytes)
| AuthProof (peer_id public_key signature : string)
| AuthOk (peer_id : string).

#[export] Instance P2pMessage_eq_dec : EqDecision P2pMessage.
Proof. solve_decision. Defined.

Inductive AuthError := Key | Sign | Rng.

Inductive IoError :=
| UnexpectedEof
| InvalidData (msg : string)
| PermissionDenied (msg : string)
| TimedOut (msg : string)
| OtherIo (msg : string).

(** [impl From<AuthError> for io::Error]. *)
Definition io_of_auth (e : AuthError) : IoError :=
  OtherIo match e with
          | Key => "invalid peer signing key"
          | Sign => "peer signature failed"
          | Rng => "system rng failed"
          end.

Record AuthenticatedPeer := mkPeer { ap_peer_id : string; ap_public_key : string }.

(** bincode's encoder and decoder for a message. *)
Class Bincode := {
  bincode_serialize : P2pMessage -> option bytes;
  bincode_deserialize : bytes -> option P2pMessage
}.
Class BincodeLaws `{Bincode} : Prop := {
  bincode_roundtrip m b : bincode_serialize m = Some b -> bincode_deserialize b = Some m
}.

(** Ed25519 over a 32-byte seed. *)
Class Ed25519 := {
  ed_public : bytes -> option bytes;
  ed_sign : bytes -> bytes -> option bytes;
  ed_verify : bytes -> bytes -> bytes -> bool
}.
Class Ed25519Laws `{Ed25519} : Prop := {
  ed_public_len seed pk : ed_public seed = Some pk -> len pk = 32;
  ed_sign_len seed m s : ed_sign seed m = Some s -> len s = 64;
  ed_verify_sign seed pk m s : ed_public seed = Some pk -> ed_sign seed m = Some s -> ed_verify pk m s = true
}.

(** ** Frames *)
Section Frames.
Context `{Bincode}.

Definition read_message (stream : bytes) : res IoError (P2pMessage * bytes) :=
  if len stream <? 4 then Err UnexpectedEof
  else
    let n := of_le (take 4 stream) in
    let rest := drop 4 stream in
    if MAX_MESSAGE_BYTES <? n then Err (InvalidData "p2p frame too large")
    else if len rest <? n then Err UnexpectedEof
    else
      m ← ok_or (bincode_deserialize (take (Z.to_nat n) rest)) (InvalidData "bincode");
      Ok (m, drop (Z.to_nat n) rest).

(** The bytes put on the wire; [data.len() as u32] wraps. *)
Definition write_message (msg : P2pMessage) : res IoError bytes :=
  data ← ok_or (bincode_serialize msg) (InvalidData "bincode");
  Ok (le_bytes 4 (len data mod 2 ^ 32) ++ data).
End Frames.

(** ** Hex *)
Definition to_hex (b : bytes) : string := of_bytes (hex_encode b).

Definition unhex_digit (c : u8) : option Z :=
  let v := b2z c in
  if (48 <=? v) && (v <=? 57) then Some (v - 48)
  else if (97 <=? v) && (v <=? 102) then Some (v - 87)
  else if (65 <=? v) && (v <=? 70) then Some (v - 55)
  else None.
Fixpoint unhex (l : bytes) : option bytes :=
  match l with
  | [] => Some []
  | a :: b :: l =>
      h ← unhex_digit a; d ← unhex_digit b; rest ← unhex l;
      Some (z2b (h * 16 + d) :: rest)
  | [_] => None
  end.
(** [hex::decode]: pairs of digits of either case, nothing else. *)
Definition from_hex (s : string) : option bytes := unhex (as_bytes s).

(** ** Transcripts *)

(** [part.len() as u32] wraps. *)
Definition transcript_part (out part : bytes) : bytes := out ++ le_bytes 4 (len part mod 2 ^ 32) ++ part.
Definition transcript (context : bytes) (parts : list bytes) : bytes :=
  foldl transcript_part (le_bytes 4 (len context mod 2 ^ 32) ++ context) parts.

Definition pong_transcript (peer_id : string) (api_port : Z) (nonce : bytes) (observed_addr : option string) : bytes :=
  transcript HANDSHAKE_CONTEXT
    [as_bytes peer_id; be_bytes 2 api_port; nonce; as_bytes (default "" observed_addr)].

Definition proof_transcript (verifier_peer_id claimed_peer_id : string) (challenge : bytes) : bytes :=
  transcript PROOF_CONTEXT [as_bytes verifier_peer_id; as_bytes claimed_peer_id; challenge].

(** ** Signatures *)
Section Signatures.
Context `{Ed25519}.

Record PeerSigner := { key_seed : bytes; public_key_hex : string }.

Definition from_seed (seed : bytes) : res AuthError PeerSigner :=
  if negb (len seed =? ED25519_SEED_LEN) then Err Key
  else
    pk ← ok_or (ed_public seed) Key;
    Ok {| key_seed := seed; public_key_hex := to_hex pk |}.

Definition sign_hex (s : PeerSigner) (message : bytes) : res AuthError string :=
  sig ← ok_or (ed_sign (key_seed s) message) Sign;
  Ok (to_hex sig).

Definition verify_signature (public_key_hex : string) (message : bytes) (signature_hex : string) : bool :=
  match from_hex public_key_hex, from_hex signature_hex with
  | Some key, Some sig =>
      if negb (len key =? ED25519_PUBLIC_KEY_LEN) || negb (len sig =? ED25519_SIGNATURE_LEN) then false
      else ed_verify key message sig
  | _, _ => false
  end.

(** ** The per-connection challenge *)
Record PeerAuthSession := mkSession { challenge_of : option bytes; peer_of : option AuthenticatedPeer }.
Definition new_session : PeerAuthSession := mkSession None None.

(** [n]: the random challenge, when the generator gave one. *)
Definition issue_challenge (s : PeerAuthSession) (n : option bytes) : res AuthError (PeerAuthSession * bytes) :=
  n ← ok_or n Rng;
  Ok (mkSession (Some n) (peer_of s), n).

Definition accept_proof (s : PeerAuthSession) (local_peer_id peer_id public_key_hex signature_hex : string)
    : PeerAuthSession * bool :=
  match challenge_of s with
  | None => (s, false)
  | Some challenge =>
      let s := mkSession None (peer_of s) in
      let message := proof_transcript local_peer_id peer_id challenge in
      if negb (verify_signature public_key_hex message signature_hex) then (s, false)
      else (mkSession None (Some (mkPeer peer_id public_key_hex)), true)
  end.
Definition authenticated_peer (s : PeerAuthSession) : option AuthenticatedPeer := peer_of s.
End Signatures.

(** Content hash a host answers an audit with: sixteen bytes of BLAKE3, two digits each. *)
Definition content_hash `{CryptoPrims} (b : bytes) : string := to_hex (take 16 (blake3 b)).

(** ** Frames round trip *)

Lemma le32_of v : 0 <= v < 2 ^ 32 -> of_le (le_bytes 4 v) = v.
Proof. intros Hv. by apply of_le_bytes. Qed.

(** Framing: a message whose encoding fits the cap is read back as itself and leaves the
    bytes of the following frames; a longer announced length is refused before its payload
    is looked at; and whatever is accepted is exactly one announced, bounded payload. *)
Theorem frame_roundtrip `{Bincode} m f rest :
  BincodeLaws -> write_message m = Ok f -> len f <= MAX_MESSAGE_BYTES + 4 ->
  read_message (f ++ rest) = Ok (m, rest) /\
  (forall n tail, MAX_MESSAGE_BYTES < n < 2 ^ 32 ->
     read_message (le_bytes 4 n ++ tail) = Err (InvalidData "p2p frame too large")) /\
  (forall s m' rest', read_message s = Ok (m', rest') ->
     exists head body, s = head ++ body ++ rest' /\ length head = 4%nat /\ of_le head = len body /\
       len body <= MAX_MESSAGE_BYTES /\ bincode_deserialize body = Some m').
Proof.
  intros Laws Hw Hl. assert (Hmax : MAX_MESSAGE_BYTES = 16777216) by reflexivity. split; [|split].
  - unfold write_message in Hw. apply bind_ok in Hw as (a & Ha%ok_or_ok & Hw).
    assert (f = le_bytes 4 (len a mod 2 ^ 32) ++ a) as -> by congruence.
    unfold len in Hl. rewrite length_app, length_le_bytes in Hl.
    assert (Hn : len a mod 2 ^ 32 = len a) by (apply Z.mod_small; unfold len; lia).
    unfold read_message. rewrite Hn, <- app_assoc.
    rewrite (proj2 (Z.ltb_ge _ _)) by (unfold len; rewrite !length_app, length_le_bytes; lia).
    rewrite take_app_exact, drop_app_exact by (by rewrite length_le_bytes).
    rewrite le32_of by (unfold len; lia).
    rewrite (proj2 (Z.ltb_ge _ _)) by (unfold len; lia).
    rewrite (proj2 (Z.ltb_ge _ _)) by (unfold len; rewrite length_app; lia).
    unfold len. rewrite Nat2Z.id, take_app_exact, drop_app_exact by done.
    by rewrite (bincode_roundtrip _ _ Ha).
  - intros n tail Hn. unfold read_message.
    rewrite (proj2 (Z.ltb_ge _ _)) by (unfold len; rewrite length_app, length_le_bytes; lia).
    rewrite take_app_exact by (by rewrite length_le_bytes). rewrite le32_of by lia.
    by rewrite (proj2 (Z.ltb_lt _ _)) by lia.
  - intros s m' rest' Hr. unfold read_message in Hr.
    destruct (Z.ltb_spec (len s) 4); [discriminate|].
    destruct (Z.ltb_spec MAX_MESSAGE_BYTES (of_le (take 4 s))) as [|Hn]; [discriminate|].
    destruct (Z.ltb_spec (len (drop 4 s)) (of_le (take 4 s))) as [|Hn']; [discriminate|].
    step_ok.
    exists (take 4 s), (take (Z.to_nat (of_le (take 4 s))) (drop 4 s)).
    assert (0 <= of_le (take 4 s)).
    { clear. induction (take 4 s) as [|b l IH]; cbn [of_le]; [done|]. pose proof (b2z_range b). lia. }
    rewrite !take_drop. split; [done|]. rewrite length_take. unfold len in *. rewrite length_take.
    split; [lia|split; [lia|split; [lia|done]]].
Qed.

(** ** Transcripts are unambiguous *)

Definition short (p : bytes) : Prop := len p < 2 ^ 32.
Abbreviation lps32 := (lps (le_bytes 4)).

Lemma transcript_lps context parts :
  short context -> Forall short parts -> transcript context parts = lps32 (context :: parts).
Proof.
  intros Hc Hp. unfold transcript. rewrite Z.mod_small by (split; [apply len_nonneg|done]).
  change (lps32 (context :: parts)) with ((le_bytes 4 (len context) ++ context) ++ lps32 parts).
  generalize (le_bytes 4 (len context) ++ context). induction Hp as [|p ps Hs _ IH]; intros acc.
  - by rewrite app_nil_r.
  - cbn [foldl]. rewrite IH. unfold transcript_part. rewrite Z.mod_small by (split; [apply len_nonneg|done]).
    rewrite <- app_assoc. done.
Qed.

Lemma lps32_inj ps qs : Forall short ps -> Forall short qs -> lps32 ps = lps32 qs -> ps = qs.
Proof. apply (lps_inj (le_bytes 4) 3 (2 ^ 32)); [apply (length_le_bytes 4)|apply le32_inj]. Qed.

Lemma transcript_inj c ps d qs :
  short c -> short d -> Forall short ps -> Forall short qs ->
  transcript c ps = transcript d qs -> c = d /\ ps = qs.
Proof.
  intros Hc Hd Hp Hq. rewrite !transcript_lps by done. intros E%lps32_inj; [|by constructor..].
  by apply (inj2 cons) in E.
Qed.

Definition short_str (s : string) : Prop := short (as_bytes s).

Lemma short_small (p : bytes) : len p <= 1000 -> short p.
Proof. unfold short. lia. Qed.

Lemma proof_transcript_inj v i c v' i' c' :
  Forall short [as_bytes v; as_bytes i; c] -> Forall short [as_bytes v'; as_bytes i'; c'] ->
  proof_transcript v i c = proof_transcript v' i' c' -> v = v' /\ i = i' /\ c = c'.
Proof.
  intros H1 H2 E. apply transcript_inj in E as [_ E]; [|by apply short_small|by apply short_small|done..].
  apply (inj2 cons) in E as [Ev E]. apply (inj2 cons) in E as [Ei E]. apply (inj2 cons) in E as [Ec _].
  apply as_bytes_inj in Ev, Ei. done.
Qed.

Lemma contexts_differ parts parts' : transcript HANDSHAKE_CONTEXT parts <> transcript PROOF_CONTEXT parts'.
Proof.
  assert (Hpre : forall parts acc, exists r, foldl transcript_part acc parts = acc ++ r).
  { clear. induction parts as [|p ps IH]; intros acc; cbn [foldl]; [exists []; by rewrite app_nil_r|].
    destruct (IH (transcript_part acc p)) as (r & ->). unfold transcript_part. rewrite <- app_assoc. by eexists. }
  unfold transcript. destruct (Hpre parts (le_bytes 4 (len HANDSHAKE_CONTEXT mod 2 ^ 32) ++ HANDSHAKE_CONTEXT)) as (r & ->).
  destruct (Hpre parts' (le_bytes 4 (len PROOF_CONTEXT mod 2 ^ 32) ++ PROOF_CONTEXT)) as (r' & ->).
  intros E. apply (f_equal head) in E. vm_compute in E. discriminate E.
Qed.

(** The signed transcripts of the handshake are unambiguous: equal pong transcripts are
    about the same peer, port, nonce and observed address, equal proof transcripts about the
    same verifier, claimed peer and challenge, and no pong is ever a proof, whatever the
    fields. *)
Theorem transcripts_unambiguous p port n addr p' port' n' addr' :
  0 <= port < 2 ^ 16 -> 0 <= port' < 2 ^ 16 ->
  Forall short [as_bytes p; n; as_bytes (default "" addr); as_bytes p'; n'; as_bytes (default "" addr')] ->
  (pong_transcript p port n addr = pong_transcript p' port' n' addr' ->
     p = p' /\ port = port' /\ n = n' /\ default "" addr = default "" addr') /\
  (proof_transcript p p' n = proof_transcript p' p n' -> p = p' /\ n = n') /\
  (forall v i c, pong_transcript p port n addr <> proof_transcript v i c).
Proof.
  intros Hp Hp' Hs. rewrite !Forall_cons in Hs. destruct Hs as (H1 & H2 & H3 & H4 & H5 & H6 & _).
  assert (Hport : forall v, short (be_bytes 2 v)).
  { intros v. unfold short, len. rewrite length_be_bytes. done. }
  split; [|split].
  - intros E. apply transcript_inj in E as [_ E];
      [|by apply short_small|by apply short_small|by repeat constructor|by repeat constructor].
    apply (inj2 cons) in E as [Ev E]. apply (inj2 cons) in E as [Ei E].
    apply (inj2 cons) in E as [Ec E]. apply (inj2 cons) in E as [Ed _].
    apply as_bytes_inj in Ev, Ed. apply (be_bytes_inj 2) in Ei; [|done..]. done.
  - intros E. apply proof_transcript_inj in E as (-> & _ & ->); [done|by repeat constructor..].
  - intros v i c. apply contexts_differ.
Qed.

(** ** Hex *)

Lemma unhex_hex_digit v : 0 <= v < 16 -> unhex_digit (hex_digit v) = Some v.
Proof.
  intros Hv. assert (v = 0 \/ v = 1 \/ v = 2 \/ v = 3 \/ v = 4 \/ v = 5 \/ v = 6 \/ v = 7 \/ v = 8 \/ v = 9 \/
    v = 10 \/ v = 11 \/ v = 12 \/ v = 13 \/ v = 14 \/ v = 15) as Hc by lia.
  repeat (destruct Hc as [->|Hc]; [reflexivity|]). by subst.
Qed.

Lemma from_to_hex b : from_hex (to_hex b) = Some b.
Proof.
  unfold from_hex, to_hex. rewrite as_of_bytes. induction b as [|c b IH]; [done|].
  change (hex_encode (c :: b)) with (hex_digit (b2z c / 16) :: hex_digit (b2z c mod 16) :: hex_encode b).
  cbn [unhex]. pose proof (b2z_range c) as Hc.
  rewrite !unhex_hex_digit by (first [apply Z.mod_pos_bound; lia|split; [apply Z.div_pos; lia|apply Z.div_lt_upper_bound; lia]]).
  cbn [mbind option_bind]. rewrite IH. cbn. f_equal. f_equal.
  rewrite Z.mul_comm, <- Z.div_mod by lia. apply z2b_b2z.
Qed.

(** ** Proofs of identity *)
Section Proofs.
Context `{Ed25519}.

Lemma verify_signature_ok pk m sig :
  verify_signature pk m sig = true ->
  exists key s, from_hex pk = Some key /\ from_hex sig = Some s /\ len key = 32 /\ len s = 64 /\ ed_verify key m s = true.
Proof.
  unfold verify_signature. destruct (from_hex pk) as [key|]; [|done]. destruct (from_hex sig) as [s|]; [|done].
  destruct (_ || _) eqn:E; [done|]. apply orb_false_iff in E as [E1 E2]. apply negb_false_iff in E1, E2.
  apply Z.eqb_eq in E1, E2. eauto 10.
Qed.

(** What a signer signs verifies under its public key. *)
Lemma verify_signed seed s m sig :
  Ed25519Laws -> from_seed seed = Ok s -> sign_hex s m = Ok sig ->
  verify_signature (public_key_hex s) m sig = true.
Proof.
  intros Laws Hs Hg. unfold from_seed in Hs. destruct (negb _); [discriminate|].
  apply bind_ok in Hs as (pk & Hpk%ok_or_ok & [= <-]). cbn [public_key_hex].
  apply bind_ok in Hg as (g & Hg%ok_or_ok & [= <-]). cbn [key_seed] in Hg.
  unfold verify_signature. rewrite !from_to_hex, (ed_public_len _ _ Hpk), (ed_sign_len _ _ _ Hg).
  by apply (ed_verify_sign seed).
Qed.

Lemma accept_proof_spec s v id pk sig s' ok :
  accept_proof s v id pk sig = (s', ok) ->
  challenge_of s' = None /\
  (ok = true -> exists c, challenge_of s = Some c /\ peer_of s' = Some (mkPeer id pk) /\
     verify_signature pk (proof_transcript v id c) sig = true) /\
  (ok = false -> peer_of s' = peer_of s).
Proof.
  unfold accept_proof. destruct (challenge_of s) as [c|] eqn:E; [|by intros [= <- <-]].
  destruct (verify_signature _ _ _) eqn:V; cbn; intros [= <- <-]; split; [done| |done|].
  - split; [|done]. intros _. by exists c.
  - done.
Qed.

(** C30. A captured proof is worthless elsewhere: when a session accepts a proof whose
    signature was made, by the key it presents, for verifier [v'], identity [id'] and
    challenge [c'], then it is that verifier, checking that identity, and [c'] is the
    challenge this connection minted; otherwise the signature is a forgery (it also verifies
    on a message other than the one it was made for). A pong signature is never a proof. *)
Theorem proof_not_replayable s v id pk sig s' seed sigb m :
  accept_proof s v id pk sig = (s', true) ->
  from_hex sig = Some sigb -> ed_sign seed m = Some sigb ->
  Forall short [as_bytes v; as_bytes id; default [] (challenge_of s)] ->
  exists c key, challenge_of s = Some c /\ from_hex pk = Some key /\ peer_of s' = Some (mkPeer id pk) /\
    ((m = proof_transcript v id c /\
       (forall v' id' c', Forall short [as_bytes v'; as_bytes id'; c'] -> m = proof_transcript v' id' c' ->
          v' = v /\ id' = id /\ c' = c) /\
       (forall p port n addr, m <> pong_transcript p port n addr)) \/
     (exists m', m' <> m /\ ed_verify key m' sigb = true)).
Proof.
  intros Ha Hsig Hsign Hshort. apply accept_proof_spec in Ha as (_ & Ha & _).
  destruct (Ha eq_refl) as (c & Hc & Hp & Hv). rewrite Hc in Hshort. cbn [default] in Hshort.
  apply verify_signature_ok in Hv as (key & sb & Hk & Hs & _ & _ & Hv).
  assert (sb = sigb) as -> by congruence. exists c, key. split; [done|split; [done|split; [done|]]].
  destruct (decide (proof_transcript v id c = m)) as [<-|Hne]; [left|right; by exists (proof_transcript v id c)].
  split; [done|split].
  - intros v' id' c' Hs' E. apply proof_transcript_inj in E as (-> & -> & ->); done.
  - intros p port n addr E. symmetry in E. by apply contexts_differ in E.
Qed.
End Proofs.

(** ** Concrete wire primitives *)
Module ToyWire.
Definition ed_sig (seed m : bytes) : bytes := be_bytes 4 (Toy.mix (2 ^ 32) (seed ++ m)) ++ zeros 60.
#[export] Instance ed25519 : Ed25519 := {|
  ed_public := fun seed => if len seed =? 32 then Some seed else None;
  ed_sign := fun seed m => Some (ed_sig seed m);
  ed_verify := fun pk m s => bool_decide (s = ed_sig pk m)
|}.
#[export] Instance ed25519_laws : Ed25519Laws.
Proof.
  split.
  - intros seed pk. cbn. destruct (Z.eqb_spec (len seed) 32); [|done]. by intros [= <-].
  - intros seed m s E. change (Some (ed_sig seed m) = Some s) in E. assert (s = ed_sig seed m) as -> by congruence.
    unfold ed_sig, len. by rewrite length_app, length_be_bytes.
  - intros seed pk m s Hp E. change (Some (ed_sig seed m) = Some s) in E.
    change (bool_decide (s = ed_sig pk m) = true). change ((if len seed =? 32 then Some seed else None) = Some pk) in Hp.
    destruct (len seed =? 32); [|done]. apply bool_decide_eq_true. congruence.
Qed.

(** An encoding of the messages of a list: the position in unary. *)
Definition code (msgs : list P2pMessage) : Bincode := {|
  bincode_serialize := fun m => (fun p => replicate p.1 x00) <$> list_find (fun m' => m' = m) msgs;
  bincode_deserialize := fun b => msgs !! length b
|}.
Lemma code_laws msgs : @BincodeLaws (code msgs).
Proof.
  split. intros m b. cbn. intros E. apply fmap_Some in E as ([i m'] & Hf & ->).
  apply list_find_Some in Hf as (Hl & -> & _). cbn [fst]. by rewrite length_replicate.
Qed.

Lemma frame_roundtrip_witness :
  exists f, @write_message (code [GetShard "a"; Ping "p" 1]) (Ping "p" 1) = Ok f /\
    @read_message (code [GetShard "a"; Ping "p" 1]) (f ++ [x07]) = Ok (Ping "p" 1, [x07]).
Proof.
  eexists. split; [reflexivity|].
  apply (@frame_roundtrip (code [GetShard "a"; Ping "p" 1]) (Ping "p" 1)); [apply code_laws|reflexivity|by vm_compute].
Defined.

Lemma transcripts_unambiguous_witness :
  bool_decide (pong_transcript "a" 1 [] None = pong_transcript "b" 1 [] None) = false.
Proof.
  apply bool_decide_eq_false. intros E.
  destruct (transcripts_unambiguous "a" 1 [] None "b" 1 [] None) as [H _];
    [done|done|by repeat constructor|]. destruct (H E) as [Hab _]. discriminate Hab.
Defined.

Definition node_seed : bytes := zeros 32.
Definition proof_sig : string := to_hex (ed_sig node_seed (proof_transcript "v" "me" (zeros 32))).
Lemma proof_not_replayable_witness :
  exists s', accept_proof (mkSession (Some (zeros 32)) None) "v" "me" (to_hex node_seed) proof_sig = (s', true) /\
    peer_of s' = Some (mkPeer "me" (to_hex node_seed)).
Proof.
  eexists. split; [vm_compute; reflexivity|].
  destruct (proof_not_replayable (mkSession (Some (zeros 32)) None) "v" "me" (to_hex node_seed) proof_sig
    (mkSession None (Some (mkPeer "me" (to_hex node_seed)))) node_seed
    (ed_sig node_seed (proof_transcript "v" "me" (zeros 32))) (proof_transcript "v" "me" (zeros 32)))
    as (c & key & _ & _ & Hp & _);
    [vm_compute; reflexivity|apply from_to_hex|reflexivity|by repeat constructor|exact Hp].
Defined.
End ToyWire.
