(* ===== verification/Server.v ===== *)
(** * The P2P listener ([crates/p2p/src/server.rs])

    The [ShardHandler] trait as a class over the state of the host, the dispatch of one
    request, and the loop that serves a connection. The bytes a connection delivers before
    it ends (by end of stream or by the read timeout, which close it alike) are an argument,
    as are the random challenges; the accept loop and its limit are in [Listener.v]. *)

From Stdlib Require Import ZArith Lia Strings.String Strings.Byte.
From stdpp Require Import base numbers list gmap strings.
From S2P Require Import Prelude External Crypto Protocol.

(** ** The trait *)
Class ShardHandler `{Ed25519} (S : Type) := {
  h_peer_id : S -> string;
  h_api_port : S -> Z;
  h_signer : S -> option PeerSigner;
  h_store_from : S -> option AuthenticatedPeer -> string -> string -> Z -> bytes -> S * bool;
  h_get : S -> string -> option bytes;
  h_delete_from : S -> option AuthenticatedPeer -> string -> string -> S * bool;
  h_has : S -> string -> bool;
  h_audit : S -> string -> string
}.

(** The default methods, for a handler that only gives [get], [store] and [delete]. *)
Section Defaults.
Context `{CryptoPrims} {S : Type}.
Variable get : S -> string -> option bytes.
Variable store : S -> string -> string -> Z -> bytes -> S * bool.
Variable delete : S -> string -> string -> S * bool.

Definition has_default (s : S) (id : string) : bool := match get s id with Some _ => true | None => false end.
Definition audit_default (s : S) (id : string) : string :=
  match get s id with Some b => content_hash b | None => "" end.
Definition store_from_default (s : S) (authenticated : option AuthenticatedPeer)
    (id owner : string) (shard_index : Z) (data : bytes) : S * bool := store s id owner shard_index data.
Definition delete_from_default (s : S) (authenticated : option AuthenticatedPeer) (id owner : string) : S * bool :=
  delete s id owner.
End Defaults.

Section Listener.
Context `{Ed25519} {S : Type} `{!ShardHandler S}.

(** The signed answer to an [AuthPing]; [rnd] is the challenge the generator gives. *)
Definition auth_pong (h : S) (nonce : bytes) (peer_ip : string) (session : PeerAuthSession) (rnd : option bytes)
    : PeerAuthSession * P2pMessage :=
  if negb (len nonce =? CHALLENGE_LEN) then (session, ErrorMsg "bad challenge length")
  else
    match h_signer h with
    | None => (session, ErrorMsg "peer authentication unavailable")
    | Some signer =>
        match sign_hex signer (pong_transcript (h_peer_id h) (h_api_port h) nonce (Some peer_ip)) with
        | Ok signature =>
            match issue_challenge session rnd with
            | Ok (session, challenge) =>
                (session, AuthPong (h_peer_id h) (h_api_port h) (Some peer_ip)
                                   (public_key_hex signer) signature challenge)
            | _ => (session, ErrorMsg "challenge unavailable")
            end
        | _ => (session, ErrorMsg "signing failed")
        end
    end.

(** One request: the new host and session, and the answer. *)
Definition dispatch (peer_ip : string) (h : S) (session : PeerAuthSession) (rnd : option bytes) (msg : P2pMessage)
    : S * PeerAuthSession * P2pMessage :=
  match msg with
  | Ping _ _ => (h, session, Pong (h_peer_id h) (h_api_port h) (Some peer_ip))
  | AuthPing _ _ nonce =>
      let '(session, resp) := auth_pong h nonce peer_ip session rnd in (h, session, resp)
  | AuthProof peer_id public_key signature =>
      let '(session, ok) := accept_proof session (h_peer_id h) peer_id public_key signature in
      (h, session, if ok then AuthOk peer_id else ErrorMsg "auth proof rejected")
  | StoreShard id owner shard_index data =>
      let '(h, ok) := h_store_from h (authenticated_peer session) id owner shard_index data in
      (h, session, if ok then Ack id else ErrorMsg "store rejected")
  | GetShard id =>
      (h, session, match h_get h id with Some data => ShardData id data | None => ShardNotFound id end)
  | HasShard id => (h, session, HasShardResult id (h_has h id))
  | AuditShard id => (h, session, AuditResult id (h_audit h id))
  | DeleteShard id owner =>
      let '(h, ok) := h_delete_from h (authenticated_peer session) id owner in
      (h, session, if ok then Ack id else ErrorMsg "delete rejected")
  | _ => (h, session, ErrorMsg "unsupported request")
  end.

(** What is left of a connection: the host, the session, how it closed, the bytes answered. *)
Record Conn := mkConn { c_host : S; c_session : PeerAuthSession; c_result : res IoError unit; c_out : bytes }.

Context `{!Bincode}.
Variable peer_ip : string.
(** The challenge drawn while answering the [i]-th request. *)
Variable rnd : nat -> option bytes.

(** The loop of [handle_conn]; each request takes at least the four bytes of its length, so
    the length of the stream is fuel enough ([conn_total]). *)
Fixpoint handle_conn_fuel (fuel : nat) (i : nat) (h : S) (session : PeerAuthSession) (stream out : bytes) : option Conn :=
  match fuel with
  | O => None
  | Datatypes.S fuel =>
      match read_message stream with
      | Ok (msg, stream) =>
          let '(h, session, resp) := dispatch peer_ip h session (rnd i) msg in
          match write_message resp with
          | Ok frame => handle_conn_fuel fuel (Datatypes.S i) h session stream (out ++ frame)
          | Err e => Some (mkConn h session (Err e) out)
          | Panic => Some (mkConn h session Panic out)
          end
      | Err UnexpectedEof => Some (mkConn h session (Ok ()) out)
      | Err e => Some (mkConn h session (Err e) out)
      | Panic => Some (mkConn h session Panic out)
      end
  end.
Definition handle_conn (h : S) (stream : bytes) : option Conn :=
  handle_conn_fuel (Datatypes.S (length stream)) 0 h new_session stream [].

(** The requests of a connection one after the other. *)
Fixpoint serve_msgs (i : nat) (h : S) (session : PeerAuthSession) (msgs : list P2pMessage)
    : S * PeerAuthSession * list P2pMessage :=
  match msgs with
  | [] => (h, session, [])
  | m :: msgs =>
      let '(h, session, resp) := dispatch peer_ip h session (rnd i) m in
      let '(h, session, resps) := serve_msgs (Datatypes.S i) h session msgs in
      (h, session, resp :: resps)
  end.

Lemma read_message_shorter s m rest : read_message s = Ok (m, rest) -> (length rest + 4 <= length s)%nat.
Proof.
  unfold read_message. destruct (Z.ltb_spec (len s) 4); [discriminate|]. cbv zeta.
  destruct (_ <? _); [discriminate|]. destruct (_ <? _); [discriminate|].
  intros (m' & _ & Hr)%bind_ok. injection Hr as _ <-. rewrite !length_drop. unfold len in *. lia.
Qed.

Lemma conn_fuel_enough fuel i h session stream out :
  (length stream < fuel)%nat -> is_Some (handle_conn_fuel fuel i h session stream out).
Proof.
  revert i h session stream out. induction fuel as [|fuel IH]; intros i h session stream out Hf; [lia|].
  cbn [handle_conn_fuel]. destruct (read_message stream) as [[m rest]|e|] eqn:E; [|by destruct e|done].
  destruct (dispatch _ _ _ _ _) as [[h' s'] resp]. destruct (write_message resp); [|done..].
  apply IH. apply read_message_shorter in E. lia.
Qed.

Lemma handle_conn_ind fuel i h session stream out c :
  handle_conn_fuel fuel i h session stream out = Some c ->
  exists msgs resps, serve_msgs i h session msgs = (c_host c, c_session c, resps) /\
    length resps = length msgs /\
    exists frames, c_out c = out ++ mjoin frames /\
      Forall2 (fun r f => write_message r = Ok f) (take (length frames) resps) frames /\
      (c_result c = Ok () -> length frames = length resps).
Proof.
  revert i h session stream out. induction fuel as [|fuel IH]; intros i h session stream out Hc; [done|].
  cbn [handle_conn_fuel] in Hc.
  assert (Hstop : forall r, Some (mkConn h session r out) = Some c ->
    exists msgs resps, serve_msgs i h session msgs = (c_host c, c_session c, resps) /\
    length resps = length msgs /\
    exists frames, c_out c = out ++ mjoin frames /\
      Forall2 (fun r f => write_message r = Ok f) (take (length frames) resps) frames /\
      (c_result c = Ok () -> length frames = length resps)).
  { intros r [= <-]. exists [], []. split; [done|split; [done|]]. exists []. cbn. rewrite app_nil_r. split; [done|split; [constructor|done]]. }
  destruct (read_message stream) as [[m rest]|e|] eqn:E; [|destruct e; by eapply Hstop|by eapply Hstop].
  destruct (dispatch peer_ip h session (rnd i) m) as [[h' s'] resp] eqn:Ed.
  assert (Hone : forall r, (r = Ok () -> False) -> Some (mkConn h' s' r out) = Some c ->
    exists msgs resps, serve_msgs i h session msgs = (c_host c, c_session c, resps) /\
    length resps = length msgs /\
    exists frames, c_out c = out ++ mjoin frames /\
      Forall2 (fun r f => write_message r = Ok f) (take (length frames) resps) frames /\
      (c_result c = Ok () -> length frames = length resps)).
  { intros r Hr [= <-]. exists [m], [resp]. cbn [serve_msgs]. rewrite Ed. split; [done|split; [done|]].
    exists []. cbn. rewrite app_nil_r. split; [done|split; [constructor|]]. by intros ?%Hr. }
  destruct (write_message resp) as [frame|e|] eqn:Ew; [|eapply Hone; [|exact Hc]; discriminate..].
  apply IH in Hc as (msgs & resps & Hs & Hl & frames & Ho & Hf & Hr).
  exists (m :: msgs), (resp :: resps). cbn [serve_msgs]. rewrite Ed, Hs.
  split; [done|split; [cbn; congruence|]]. exists (frame :: frames). rewrite Ho, <- app_assoc.
  split; [done|split; [by constructor|]]. intros Hok. cbn. f_equal. by apply Hr.
Qed.

(** Serving a connection always ends, whatever bytes arrive, and is the dispatch of the
    requests it carried in order: the host and the session it leaves are those after the
    requests, the bytes it answered are the frames of a prefix of the answers in the same
    order, and of all of them when the peer closed the connection. *)
Theorem conn_serves h stream :
  exists c msgs resps frames,
    handle_conn h stream = Some c /\
    serve_msgs 0 h new_session msgs = (c_host c, c_session c, resps) /\ length resps = length msgs /\
    c_out c = mjoin frames /\
    Forall2 (fun r f => write_message r = Ok f) (take (length frames) resps) frames /\
    (c_result c = Ok () -> length frames = length msgs).
Proof.
  destruct (conn_fuel_enough (Datatypes.S (length stream)) 0 h new_session stream []) as (c & Hc); [lia|].
  destruct (handle_conn_ind _ _ _ _ _ _ _ Hc) as (msgs & resps & Hs & Hl & frames & Ho & Hf & Hr).
  exists c, msgs, resps, frames. split; [done|split; [done|split; [done|split; [done|split; [done|]]]]].
  intros Hok. rewrite <- Hl. by apply Hr.
Qed.

(** ** Who a session speaks for *)

Lemma serve_snoc i h session msgs m :
  serve_msgs i h session (msgs ++ [m]) =
    let '(h1, s1, rs) := serve_msgs i h session msgs in
    let '(h2, s2, r) := dispatch peer_ip h1 s1 (rnd (i + length msgs)) m in (h2, s2, rs ++ [r]).
Proof.
  revert i h session. induction msgs as [|x msgs IH]; intros i h session.
  - cbn [app serve_msgs length]. rewrite Nat.add_0_r. by destruct (dispatch _ _ _ _ _) as [[h2 s2] r].
  - cbn [app serve_msgs length]. destruct (dispatch _ _ _ _ _) as [[h1 s1] r1]. rewrite IH.
    destruct (serve_msgs (Datatypes.S i) h1 s1 msgs) as [[h2 s2] rs]. rewrite Nat.add_succ_r.
    cbn [Nat.add]. by destruct (dispatch _ h2 s2 _ _) as [[h3 s3] r].
Qed.

Definition is_proof (m : P2pMessage) : Prop := exists id pk sig, m = AuthProof id pk sig.

(** What one request does to the session. *)
Lemma dispatch_session h session r m h' s' resp :
  dispatch peer_ip h session r m = (h', s', resp) ->
  (s' = session /\ ~ is_proof m) \/
  (exists p port nonce c, m = AuthPing p port nonce /\ r = Some c /\ s' = mkSession (Some c) (peer_of session)) \/
  (exists id pk sig ok, m = AuthProof id pk sig /\ accept_proof session (h_peer_id h) id pk sig = (s', ok)).
Proof.
  assert (Hno : forall m', ~ is_proof m' -> s' = session -> (s' = session /\ ~ is_proof m')) by done.
  destruct m; cbn [dispatch]; intros E;
    try (left; split; [congruence|by intros (? & ? & ? & ?)]).
  - left. destruct (h_store_from _ _ _ _ _ _). split; [congruence|by intros (? & ? & ? & ?)].
  - left. destruct (h_delete_from _ _ _ _). split; [congruence|by intros (? & ? & ? & ?)].
  - destruct (auth_pong h nonce peer_ip session r) as [s2 resp2] eqn:Ea. injection E as _ <- _.
    unfold auth_pong in Ea. assert (Hn : ~ is_proof (AuthPing peer_id api_port nonce)) by (by intros (? & ? & ? & ?)).
    destruct (negb _); [left; split; [congruence|done]|].
    destruct (h_signer h); [|left; split; [congruence|done]].
    destruct (sign_hex _ _); [|left; split; [congruence|done]..].
    destruct r as [c|]; cbn in Ea; [|left; split; [congruence|done]].
    right. left. exists peer_id, api_port, nonce, c. split; [done|split; [done|congruence]].
  - destruct (accept_proof _ _ _ _ _) as [s2 ok] eqn:Ea. injection E as _ <- _. right. right. eauto 10.
Qed.

(** The outstanding challenge was drawn by an [AuthPing] no proof has answered yet. *)
Definition minted (msgs : list P2pMessage) (c : bytes) (j k : nat) : Prop :=
  (exists p port nonce, msgs !! j = Some (AuthPing p port nonce)) /\ rnd j = Some c /\
  forall i m, (j < i < k)%nat -> msgs !! i = Some m -> ~ is_proof m.

Lemma minted_app msgs m c j : minted msgs c j (length msgs) -> ~ is_proof m ->
  minted (msgs ++ [m]) c j (length (msgs ++ [m])).
Proof.
  intros ((p & port & n & Hj) & Hr & Hi) Hm. split; [|split; [done|]].
  - exists p, port, n. by apply lookup_app_l_Some.
  - intros i m' Hlt Hl. rewrite length_app in Hlt. cbn in Hlt.
    destruct (decide (i < length msgs)%nat); [eapply (Hi i); [lia|]; by rewrite lookup_app_l in Hl|].
    assert (i = length msgs) as -> by lia. rewrite lookup_app_r, Nat.sub_diag in Hl by lia. by injection Hl as <-.
Qed.

Lemma minted_prefix msgs m c j k : (k <= length msgs)%nat -> minted msgs c j k -> minted (msgs ++ [m]) c j k.
Proof.
  intros Hk ((p & port & n & Hj) & Hr & Hi). split; [|split; [done|]].
  - exists p, port, n. by apply lookup_app_l_Some.
  - intros i m' Hir Hl. apply (Hi i m' Hir). by rewrite lookup_app_l in Hl by lia.
Qed.

Lemma session_challenge h msgs h' s' rs :
  serve_msgs 0 h new_session msgs = (h', s', rs) ->
  (forall c, challenge_of s' = Some c -> exists j, minted msgs c j (length msgs)) /\
  (forall p, peer_of s' = Some p -> exists j k c sig hk sk rk,
     (j < k)%nat /\ msgs !! k = Some (AuthProof (ap_peer_id p) (ap_public_key p) sig) /\ minted msgs c j k /\
     serve_msgs 0 h new_session (take k msgs) = (hk, sk, rk) /\
     verify_signature (ap_public_key p) (proof_transcript (h_peer_id hk) (ap_peer_id p) c) sig = true).
Proof.
  revert h' s' rs. induction msgs as [|m msgs IH] using rev_ind; intros h' s' rs; [by intros [= <- <- <-]|].
  rewrite serve_snoc. destruct (serve_msgs 0 h new_session msgs) as [[h1 s1] rs1] eqn:E1.
  destruct (IH h1 s1 rs1 eq_refl) as [Hc Hp]. cbn [Nat.add].
  destruct (dispatch peer_ip h1 s1 (rnd (length msgs)) m) as [[h2 s2] r] eqn:Ed. intros [= <- <- <-].
  assert (Hkeep : forall p, peer_of s1 = Some p -> exists j k c sig hk sk rk,
     (j < k)%nat /\ (msgs ++ [m]) !! k = Some (AuthProof (ap_peer_id p) (ap_public_key p) sig) /\ minted (msgs ++ [m]) c j k /\
     serve_msgs 0 h new_session (take k (msgs ++ [m])) = (hk, sk, rk) /\
     verify_signature (ap_public_key p) (proof_transcript (h_peer_id hk) (ap_peer_id p) c) sig = true).
  { intros p (j & k & c & sig & hk & sk & rk & Hlt & Hk & ((a & b & n & Hj) & Hr & Hi) & Hs & Hv)%Hp.
    pose proof (lookup_lt_Some _ _ _ Hk) as Hlk.
    exists j, k, c, sig, hk, sk, rk. split; [done|split; [by apply lookup_app_l_Some|split; [|split; [|done]]]].
    - split; [exists a, b, n; by apply lookup_app_l_Some|split; [done|]].
      intros i m' Hir Hl. apply (Hi i m' Hir). by rewrite lookup_app_l in Hl by lia.
    - rewrite take_app_le by lia. done. }
  apply dispatch_session in Ed as [[-> Hm]|[(p & port & n & c & -> & Hr & ->)|(id & pk & sig & ok & -> & Ha)]].
  - split; [|done]. intros c (j & Hj)%Hc. exists j. by apply minted_app.
  - split; [|done]. cbn [challenge_of]. intros c' [= ->]. exists (length msgs). split; [|split; [done|]].
    + exists p, port, n. by apply lookup_snoc_Some; right.
    + intros i m' Hi. rewrite length_app in Hi. cbn in Hi. lia.
  - pose proof (accept_proof_spec _ _ _ _ _ _ _ Ha) as (Hn & Ht & Hf). split; [by rewrite Hn|].
    destruct ok; [|rewrite (Hf eq_refl); exact Hkeep].
    destruct (Ht eq_refl) as (c & Hch & Hpeer & Hv). intros p. rewrite Hpeer. intros [= <-].
    destruct (Hc c Hch) as (j & (a & b & n & Hj) & Hr & Hi). pose proof (lookup_lt_Some _ _ _ Hj).
    exists j, (length msgs), c, sig, h1, s1, rs1. cbn [ap_peer_id ap_public_key].
    split; [done|split; [by apply lookup_snoc_Some; right|split; [|split]]].
    + split; [exists a, b, n; by apply lookup_app_l_Some|split; [done|]].
      intros i m' Hir Hl. apply (Hi i m' Hir). by rewrite lookup_app_l in Hl by lia.
    + by rewrite take_app_exact.
    + done.
Qed.

(** Authentication of a connection: if the session speaks for a peer after some requests,
    one of them is a proof for that peer and key whose signature verifies, for this host,
    against the challenge this connection minted for an earlier [AuthPing], with no other
    proof in between - so a challenge authenticates at most once, and a connection that
    never proved anything speaks for nobody. *)
Theorem session_authenticated h msgs h' s' rs p :
  serve_msgs 0 h new_session msgs = (h', s', rs) -> authenticated_peer s' = Some p ->
  exists j k c sig hk sk rk,
    (j < k)%nat /\ msgs !! k = Some (AuthProof (ap_peer_id p) (ap_public_key p) sig) /\ minted msgs c j k /\
    serve_msgs 0 h new_session (take k msgs) = (hk, sk, rk) /\
    verify_signature (ap_public_key p) (proof_transcript (h_peer_id hk) (ap_peer_id p) c) sig = true.
Proof. intros Hs Hp. by apply (session_challenge _ _ _ _ _ Hs). Qed.
End Listener.
