(* ===== verification/Client.v ===== *)
(** * The P2P client ([crates/p2p/src/client.rs])

    One request per connection, the verified handshake and the mutually authenticated
    exchange, against any remote: a remote is a state with a [connect] and an [exchange]
    (one frame out, one frame or an error back), so timeouts, closed connections and hostile
    answers are answers like any other. Measured round-trip times are not modelled. *)

From Stdlib Require Import ZArith Lia Strings.String Strings.Byte.
From stdpp Require Import base numbers list gmap strings.
From S2P Require Import Prelude External Crypto Protocol Server.

(** The other end of the wire. *)
Class Remote (R : Type) := {
  connect : string -> R -> res IoError R;
  exchange : R -> P2pMessage -> R * res IoError P2pMessage
}.

Section Client.
Context `{Ed25519} {R : Type} `{!Remote R}.

Definition net (A : Type) : Type := R -> R * res IoError A.
#[export] Instance net_ret : MRet net := fun A a r => (r, Ok a).
#[export] Instance net_bind : MBind net := fun A B f m r =>
  match m r with
  | (r, Ok a) => f a r
  | (r, Err e) => (r, Err e)
  | (r, Panic) => (r, Panic)
  end.
Definition pure {A} (m : res IoError A) : net A := fun r => (r, m).
Definition open_conn (addr : string) : net unit := fun r =>
  match connect addr r with
  | Ok r' => (r', Ok ())
  | Err e => (r, Err e)
  | Panic => (r, Panic)
  end.
Definition roundtrip (msg : P2pMessage) : net P2pMessage := fun r => exchange r msg.
(** [?] on an [AuthError]. *)
Definition auth {A} (m : res AuthError A) : net A := pure (map_err io_of_auth m).

Definition request (addr : string) (msg : P2pMessage) : net P2pMessage :=
  open_conn addr;; roundtrip msg.

Definition has_shard (addr id : string) : net bool :=
  resp ← request addr (HasShard id);
  match resp with
  | HasShardResult _ present => mret present
  | _ => pure (Err (InvalidData "expected HasShardResult"))
  end.

Definition audit_shard (addr id : string) : net string :=
  resp ← request addr (AuditShard id);
  match resp with
  | AuditResult _ hash => mret hash
  | _ => pure (Err (InvalidData "expected AuditResult"))
  end.

Definition handshake (addr my_peer_id : string) (my_api_port : Z) : net (string * Z) :=
  resp ← request addr (Ping my_peer_id my_api_port);
  match resp with
  | Pong peer_id api_port _ => mret (peer_id, api_port)
  | _ => pure (Err (InvalidData "expected Pong"))
  end.
Definition ping (addr my_peer_id : string) (my_api_port : Z) : net unit :=
  handshake addr my_peer_id my_api_port;; mret ().

Definition legacy_handshake (addr my_peer_id : string) (my_api_port : Z) : net (string * Z * option string) :=
  resp ← request addr (Ping my_peer_id my_api_port);
  match resp with
  | Pong peer_id api_port observed => mret (peer_id, api_port, observed)
  | _ => pure (Err (InvalidData "expected Pong"))
  end.
Definition ping_observed (addr my_peer_id : string) (my_api_port : Z) : net (option string) :=
  resp ← request addr (Ping my_peer_id my_api_port);
  match resp with
  | Pong _ _ observed => mret observed
  | _ => pure (Err (InvalidData "expected Pong"))
  end.

Record VerifiedPeer := mkVerified {
  vp_peer_id : string;
  vp_api_port : Z;
  vp_observed_addr : option string;
  vp_public_key : option string
}.
Definition is_authenticated (v : VerifiedPeer) : bool :=
  match vp_public_key v with Some _ => true | None => false end.

(** [rnd]: the nonce the generator gives, if any. *)
Definition random_nonce (rnd : option bytes) : res AuthError bytes := ok_or rnd Rng.

Definition handshake_verified (addr my_peer_id : string) (my_api_port : Z) (rnd : option bytes) : net VerifiedPeer :=
  nonce ← auth (random_nonce rnd);
  (fun r =>
    match request addr (AuthPing my_peer_id my_api_port nonce) r with
    | (r, Ok (AuthPong peer_id api_port observed public_key signature _)) =>
        let message := pong_transcript peer_id api_port nonce observed in
        if negb (verify_signature public_key message signature)
        then (r, Err (PermissionDenied "handshake signature rejected"))
        else (r, Ok (mkVerified peer_id api_port observed (Some public_key)))
    | (r, Panic) => (r, Panic)
    | (r, _) =>
        (p ← legacy_handshake addr my_peer_id my_api_port;
         let '(peer_id, api_port, observed) := p : string * Z * option string in
         mret (mkVerified peer_id api_port observed None)) r
    end) : net VerifiedPeer.

Definition authenticated_session (addr : string) (signer : PeerSigner) (my_peer_id : string) (my_api_port : Z)
    (rnd : option bytes) (msg : P2pMessage) : net P2pMessage :=
  open_conn addr;;
  nonce ← auth (random_nonce rnd);
  resp ← roundtrip (AuthPing my_peer_id my_api_port nonce);
  leg1 ← pure match resp with
         | AuthPong peer_id api_port observed public_key signature challenge =>
             let message := pong_transcript peer_id api_port nonce observed in
             if negb (verify_signature public_key message signature)
             then Err (PermissionDenied "peer handshake signature rejected")
             else Ok (peer_id, challenge)
         | _ => Err (InvalidData "expected AuthPong")
         end;
  let '(remote_peer_id, challenge) := leg1 : string * bytes in
  signature ← auth (sign_hex signer (proof_transcript remote_peer_id my_peer_id challenge));
  resp ← roundtrip (AuthProof my_peer_id (public_key_hex signer) signature);
  match resp with
  | AuthOk _ => roundtrip msg
  | _ => pure (Err (InvalidData "identity proof refused"))
  end.

Definition authenticated_request (addr : string) (signer : PeerSigner) (my_peer_id : string) (my_api_port : Z)
    (rnd : option bytes) (msg : P2pMessage) : net P2pMessage := fun r =>
  match authenticated_session addr signer my_peer_id my_api_port rnd msg r with
  | (r, Ok resp) => (r, Ok resp)
  | (r, Err (PermissionDenied e)) => (r, Err (PermissionDenied e))
  | (r, Err _) => request addr msg r
  | (r, Panic) => (r, Panic)
  end.

(** [signed_request] of [crates/server/src/p2p.rs]. *)
Definition signed_request (signer : option PeerSigner) (addr my_peer_id : string) (my_api_port : Z)
    (rnd : option bytes) (msg : P2pMessage) : net P2pMessage :=
  match signer with
  | Some signer => authenticated_request addr signer my_peer_id my_api_port rnd msg
  | None => request addr msg
  end.

End Client.

(** Unfold a client run down to the remote's answers. *)
Ltac run_net := unfold mret, net_ret, mbind, net_bind, auth, pure, roundtrip, open_conn, random_nonce, ok_or, map_err in *; cbn beta iota in *.

(** ** What an impostor gets *)
Section Impostor.
Context `{Ed25519} {R : Type} `{!Remote R}.

Lemma open_conn_ok addr r r' : connect addr r = Ok r' -> open_conn addr r = (r', Ok ()).
Proof. unfold open_conn. by intros ->. Qed.

(** The identity a verified handshake reports was proven on our nonce. *)
Lemma handshake_verified_ok addr me port n r r' v k :
  handshake_verified addr me port (Some n) r = (r', Ok v) -> vp_public_key v = Some k ->
  exists r1 sig ch, connect addr r = Ok r1 /\
    exchange r1 (AuthPing me port n) = (r', Ok (AuthPong (vp_peer_id v) (vp_api_port v) (vp_observed_addr v) k sig ch)) /\
    verify_signature k (pong_transcript (vp_peer_id v) (vp_api_port v) n (vp_observed_addr v)) sig = true.
Proof.
  unfold handshake_verified, request. run_net. intros Hv Hk.
  assert (Hleg : forall r0, (p ← legacy_handshake addr me port;
         let '(peer_id, api_port, observed) := p : string * Z * option string in
         mret (mkVerified peer_id api_port observed None)) r0 = (r', Ok v) -> False).
  { intros r0. run_net. destruct (legacy_handshake _ _ _ _) as [r2 [[[a b] c]| |]]; intros [= _ E].
    by rewrite <- E in Hk. }
  destruct (connect addr r) as [r1| |] eqn:Ec; [|by apply Hleg in Hv|done].
  destruct (exchange r1 (AuthPing me port n)) as [r2 [m|e|]] eqn:Ex; [|by apply Hleg in Hv|done].
  destruct m; try by apply Hleg in Hv.
  destruct (verify_signature _ _ _) eqn:V; cbn in Hv; [|done].
  injection Hv as <- <-. cbn in Hk |- *. injection Hk as ->. exists r1, signature, challenge. done.
Qed.

(** No data reaches an impostor: against a remote that answers our challenge with a
    signature that does not verify, the authenticated request stops at once with a denial -
    the remote has seen the challenge only, and is not retried in the clear; and the
    verified handshake never reports a key whose holder did not sign our fresh nonce. *)
Theorem never_to_impostor addr signer me port n msg r r1 r2 p q o pk sig ch :
  connect addr r = Ok r1 ->
  exchange r1 (AuthPing me port n) = (r2, Ok (AuthPong p q o pk sig ch)) ->
  verify_signature pk (pong_transcript p q n o) sig = false ->
  authenticated_request addr signer me port (Some n) msg r =
    (r2, Err (PermissionDenied "peer handshake signature rejected")) /\
  handshake_verified addr me port (Some n) r = (r2, Err (PermissionDenied "handshake signature rejected")) /\
  forall r0 r' v k, handshake_verified addr me port (Some n) r0 = (r', Ok v) -> vp_public_key v = Some k ->
    exists r3 sig' ch', exchange r3 (AuthPing me port n) =
        (r', Ok (AuthPong (vp_peer_id v) (vp_api_port v) (vp_observed_addr v) k sig' ch')) /\
      verify_signature k (pong_transcript (vp_peer_id v) (vp_api_port v) n (vp_observed_addr v)) sig' = true.
Proof.
  intros Hc He Hv. split; [|split].
  - unfold authenticated_request, authenticated_session. run_net. rewrite Hc, He, Hv. done.
  - unfold handshake_verified, request. run_net. rewrite Hc, He, Hv. done.
  - intros r0 r' v k Hh Hk. destruct (handshake_verified_ok _ _ _ _ _ _ _ _ Hh Hk) as (r3 & sig' & ch' & _ & ? & ?).
    by exists r3, sig', ch'.
Qed.
End Impostor.

(** ** Against the listener *)
Section EndToEnd.
Context `{Ed25519} {S : Type} `{!ShardHandler S}.
Variable peer_ip : string.
Variable rnd : nat -> option bytes.

(** A connection to the listener: host, session and the number of requests served. *)
#[local] Instance listener : Remote (S * PeerAuthSession * nat) := {|
  connect := fun _ '(h, _, i) => Ok (h, new_session, i);
  exchange := fun '(h, session, i) msg =>
    let '(h, session, resp) := dispatch peer_ip h session (rnd i) msg in
    (h, session, Datatypes.S i, Ok resp)
|}.

(** C12. Client and listener meet: with a signing key on both sides, an authenticated request
    always goes through, and the request the host executes is attributed to the client's
    peer id and public key. *)
Theorem authenticated_end_to_end h s0 i addr seed signer hseed hsigner me port n ch msg :
  Ed25519Laws -> from_seed seed = Ok signer -> from_seed hseed = Ok hsigner ->
  (forall m, is_Some (ed_sign seed m)) -> (forall m, is_Some (ed_sign hseed m)) ->
  h_signer h = Some hsigner -> len n = CHALLENGE_LEN -> rnd i = Some ch ->
  authenticated_request addr signer me port (Some n) msg (h, s0, i) =
    let '(h', s', resp) :=
      dispatch peer_ip h (mkSession None (Some (mkPeer me (public_key_hex signer)))) (rnd (i + 2)) msg in
    (h', s', (i + 3)%nat, Ok resp).
Proof.
  intros Laws Hs Hhs Hsign Hhsign Hsigner Hn Hch.
  assert (Hseed : forall sd sg, from_seed sd = Ok sg -> key_seed sg = sd).
  { intros sd sg. unfold from_seed. destruct (negb _); [done|]. intros (pk & _ & [= <-])%bind_ok. done. }
  assert (Hsig : forall sd sg m, from_seed sd = Ok sg -> is_Some (ed_sign sd m) ->
            exists x, sign_hex sg m = Ok x /\ verify_signature (public_key_hex sg) m x = true).
  { intros sd sg m Hf [x Hx]. exists (to_hex x). assert (sign_hex sg m = Ok (to_hex x)) as E.
    { unfold sign_hex. rewrite (Hseed _ _ Hf), Hx. done. }
    split; [done|]. by eapply verify_signed. }
  destruct (Hsig hseed hsigner (pong_transcript (h_peer_id h) (h_api_port h) n (Some peer_ip)) Hhs (Hhsign _))
    as (x & Hx & Hvx).
  destruct (Hsig seed signer (proof_transcript (h_peer_id h) me ch) Hs (Hsign _)) as (y & Hy & Hvy).
  unfold authenticated_request, authenticated_session. run_net. unfold connect, exchange, listener.
  cbn [dispatch]. unfold auth_pong. rewrite Hn, Hsigner, Hx, Hch. unfold issue_challenge, ok_or.
  cbn [mbind res_bind negb Z.eqb]. change (negb (CHALLENGE_LEN =? CHALLENGE_LEN)) with false. cbn beta iota.
  rewrite Hvx. cbn [negb]. rewrite Hy. cbn beta iota. cbn [dispatch]. unfold accept_proof. cbn [challenge_of peer_of].
  rewrite Hvy. cbn [negb]. cbn beta iota.
  replace (Datatypes.S (Datatypes.S i)) with (i + 2)%nat by lia.
  destruct (dispatch _ _ _ _ _) as [[h' s'] resp]. by replace (i + 3)%nat with (Datatypes.S (i + 2)) by lia.
Qed.
End EndToEnd.
