(* ===== verification/Host.v ===== *)
(** * Hosting shards for peers ([crates/server/src/p2p.rs])

    The handler behind the listener: the shard store, the [hosted_shards] and [peers] tables
    and the counters of [node_local]. Statements on the control-plane database are taken to
    succeed; sums of byte counts are exact integers. *)

From Stdlib Require Import ZArith Lia Strings.String Strings.Byte.
From stdpp Require Import base numbers list gmap strings.
From S2P Require Import Prelude External Erasure Crypto Paths Manifest ChunkStore Protocol Server.

Definition MAX_HOSTED_SHARD : Z := 8 * 1024 * 1024.
Definition P2P_KEY_INFO : bytes := as_bytes "p2pnas/p2p-ed25519/v1".

(** The P2P key: an Ed25519 seed derived from the node's data key. *)
Definition node_signer `{CryptoPrims} `{Ed25519} (data_key : bytes) : option PeerSigner :=
  match derive_raw data_key P2P_KEY_INFO with
  | Ok seed => res_ok (from_seed seed)
  | _ => None
  end.

Record HostedShard := mkHosted { owner_peer_id : string; size_bytes : Z; hosted_index : Z }.

Section Host.
Context `{CryptoPrims} `{Ed25519}.

Record Host := mkHost {
  host_peer_id : string;
  host_api_port : Z;
  host_signer : option PeerSigner;
  strict_peer_auth : bool;
  store : ChunkStore;
  hosted_shards : gmap string HostedShard;
  peers : gmap string (option string);
  node_local : option (Z * Z)
}.

Definition with_store (h : Host) (st : ChunkStore) (hs : gmap string HostedShard) (nl : option (Z * Z)) : Host :=
  mkHost (host_peer_id h) (host_api_port h) (host_signer h) (strict_peer_auth h) st hs (peers h) nl.

Definition hosted_size (h : Host) (id : string) : Z :=
  match hosted_shards h !! id with Some r => size_bytes r | None => 0 end.

Definition authorize_owner (h : Host) (authenticated : option AuthenticatedPeer) (owner : string) : bool :=
  match authenticated with
  | None => negb (strict_peer_auth h)
  | Some caller =>
      if negb (same (ap_peer_id caller) owner) then false
      else
        match peers h !! owner with
        | None => false
        | Some None => negb (strict_peer_auth h)
        | Some (Some known) => same known (ap_public_key caller)
        end
  end.

(** [UPDATE node_local SET hosted_bytes = GREATEST(hosted_bytes + d, 0)]. *)
Definition add_hosted (nl : option (Z * Z)) (d : Z) : option (Z * Z) :=
  (fun p => (p.1, Z.max (p.2 + d) 0)) <$> nl.

Definition host_store (h : Host) (id owner : string) (shard_index : Z) (data : bytes) : Host * bool :=
  let size := len data in
  let disk_cost := shard_disk_cost (len data) in
  if MAX_HOSTED_SHARD <? size then (h, false)
  else
    match peers h !! owner with
    | None => (h, false)
    | Some _ =>
        let '(contributed, hosted) := default (0, 0) (node_local h) in
        let old := hosted_size h id in
        if contributed <? hosted - old + disk_cost then (h, false)
        else
          match write (store h) id data with
          | Ok st =>
              (with_store h st (<[id := mkHosted owner disk_cost shard_index]> (hosted_shards h))
                 (add_hosted (node_local h) (disk_cost - old)), true)
          | _ => (h, false)
          end
    end.

Definition host_store_from (h : Host) (authenticated : option AuthenticatedPeer) (id owner : string)
    (shard_index : Z) (data : bytes) : Host * bool :=
  if negb (authorize_owner h authenticated owner) then (h, false)
  else host_store h id owner shard_index data.

Definition host_get (h : Host) (id : string) : option bytes :=
  match hosted_shards h !! id with
  | None => None
  | Some _ => res_ok (read (store h) id)
  end.

Definition host_has (h : Host) (id : string) : bool := exists_ (store h) id.

Definition host_audit (h : Host) (id : string) : string :=
  match read (store h) id with Ok b => shard_hash b | _ => "" end.

Definition host_delete (h : Host) (id owner : string) : Host * bool :=
  match hosted_shards h !! id with
  | None => (h, true)
  | Some r =>
      if negb (same (owner_peer_id r) owner) then (h, false)
      else
        let old := hosted_size h id in
        let st := match delete (store h) id with Ok st => st | _ => store h end in
        (with_store h st (base.delete id (hosted_shards h)) (add_hosted (node_local h) (- old)), true)
  end.

Definition host_delete_from (h : Host) (authenticated : option AuthenticatedPeer) (id owner : string) : Host * bool :=
  if negb (authorize_owner h authenticated owner) then (h, false)
  else host_delete h id owner.

Definition P2pShardHandler : ShardHandler Host := {|
  h_peer_id := host_peer_id; h_api_port := host_api_port; h_signer := host_signer;
  h_store_from := host_store_from; h_get := host_get; h_delete_from := host_delete_from;
  h_has := host_has; h_audit := host_audit
|}.
#[export] Existing Instance P2pShardHandler.

(** ** What one request may change *)

(** The caller proved it is the owner it names, with the key pinned for it. *)
Definition pinned_owner (h : Host) (authenticated : option AuthenticatedPeer) (owner : string) : Prop :=
  exists p, authenticated = Some p /\ ap_peer_id p = owner /\ peers h !! owner = Some (Some (ap_public_key p)).

Lemma authorize_strict h a owner :
  strict_peer_auth h = true -> authorize_owner h a owner = true -> pinned_owner h a owner.
Proof.
  intros Hs. unfold authorize_owner. rewrite Hs. destruct a as [p|]; [|done].
  destruct (same (ap_peer_id p) owner) eqn:E; cbn; [|done]. apply bool_decide_eq_true in E.
  destruct (peers h !! owner) as [[k|]|] eqn:Ep; [|done..]. intros Hk%bool_decide_eq_true.
  exists p. split; [done|split; [done|congruence]].
Qed.

Lemma host_store_ok h id owner i data h' :
  host_store h id owner i data = (h', true) ->
  exists st, write (store h) id data = Ok st /\ len data <= MAX_HOSTED_SHARD /\ is_Some (peers h !! owner) /\
    (default (0, 0) (node_local h)).2 - hosted_size h id + shard_disk_cost (len data)
       <= (default (0, 0) (node_local h)).1 /\
    h' = with_store h st (<[id := mkHosted owner (shard_disk_cost (len data)) i]> (hosted_shards h))
           (add_hosted (node_local h) (shard_disk_cost (len data) - hosted_size h id)).
Proof.
  unfold host_store. destruct (Z.ltb_spec MAX_HOSTED_SHARD (len data)); [done|].
  destruct (peers h !! owner); [|done]. destruct (default (0, 0) (node_local h)) as [c hosted].
  destruct (Z.ltb_spec c (hosted - hosted_size h id + shard_disk_cost (len data))); [done|].
  destruct (write (store h) id data) as [st| |]; [|done..]. intros [= <-]. exists st. cbn. by eauto 10.
Qed.

Lemma host_store_refused h id owner i data h' : host_store h id owner i data = (h', false) -> h' = h.
Proof.
  unfold host_store. destruct (_ <? _); [by intros [= <-]|]. destruct (peers h !! owner); [|by intros [= <-]].
  destruct (default (0, 0) (node_local h)). destruct (_ <? _); [by intros [= <-]|].
  destruct (write (store h) id data); [done|by intros [= <-]..].
Qed.

Lemma host_delete_cases h id owner h' ok :
  host_delete h id owner = (h', ok) ->
  h' = h \/ exists r, hosted_shards h !! id = Some r /\ owner_peer_id r = owner /\
    h' = with_store h match delete (store h) id with Ok st => st | _ => store h end
           (base.delete id (hosted_shards h)) (add_hosted (node_local h) (- hosted_size h id)).
Proof.
  unfold host_delete. destruct (hosted_shards h !! id) as [r|]; [|intros [= <- _]; by left].
  destruct (same (owner_peer_id r) owner) eqn:E; cbn; intros [= <- _]; [right|by left].
  apply bool_decide_eq_true in E. by exists r.
Qed.

Lemma dispatch_host ip h session rnd m h' s' resp :
  dispatch ip h session rnd m = (h', s', resp) ->
  h' = h \/
  (exists id owner i data, m = StoreShard id owner i data /\ authorize_owner h (authenticated_peer session) owner = true /\
     host_store h id owner i data = (h', true)) \/
  (exists id owner r, m = DeleteShard id owner /\ authorize_owner h (authenticated_peer session) owner = true /\
     hosted_shards h !! id = Some r /\ owner_peer_id r = owner /\
     h' = with_store h match delete (store h) id with Ok st => st | _ => store h end
            (base.delete id (hosted_shards h)) (add_hosted (node_local h) (- hosted_size h id))).
Proof.
  destruct m; cbn [dispatch]; intros E; try (left; congruence).
  - cbn in E. unfold host_store_from in E.
    destruct (authorize_owner h (authenticated_peer session) owner_peer_id0) eqn:Ea; cbn in E; [|left; congruence].
    destruct (host_store h fragment_id owner_peer_id0 shard_index data) as [h2 ok] eqn:Eh.
    assert (h2 = h') as -> by congruence. destruct ok; [right; left; by eauto 10|left; by eapply host_store_refused].
  - cbn in E. unfold host_delete_from in E.
    destruct (authorize_owner h (authenticated_peer session) owner_peer_id0) eqn:Ea; cbn in E; [|left; congruence].
    destruct (host_delete h fragment_id owner_peer_id0) as [h2 ok] eqn:Eh. assert (h2 = h') as -> by congruence.
    apply host_delete_cases in Eh as [->|(r & Hr & Ho & ->)]; [by left|right; right; by eauto 10].
  - left. destruct (auth_pong _ _ _ _ _). congruence.
  - left. destruct (accept_proof _ _ _ _ _). congruence.
Qed.

Lemma dispatch_config ip h session rnd m h' s' resp :
  dispatch ip h session rnd m = (h', s', resp) ->
  host_peer_id h' = host_peer_id h /\ peers h' = peers h /\ strict_peer_auth h' = strict_peer_auth h.
Proof.
  intros [->|[(id & o & i & d & _ & _ & Hs)|(id & o & r & _ & _ & _ & _ & ->)]]%dispatch_host; [done| |done].
  apply host_store_ok in Hs as (st & _ & _ & _ & _ & ->). done.
Qed.

Lemma serve_config ip rnd msgs : forall i h session h' s' rs,
  serve_msgs ip rnd i h session msgs = (h', s', rs) ->
  host_peer_id h' = host_peer_id h /\ peers h' = peers h /\ strict_peer_auth h' = strict_peer_auth h.
Proof.
  induction msgs as [|m msgs IH]; intros i h session h' s' rs Hs; cbn [serve_msgs] in Hs; [by injection Hs as <- _ _|].
  destruct (dispatch ip h session (rnd i) m) as [[h1 s1] r1] eqn:Ed.
  destruct (serve_msgs ip rnd (S i) h1 s1 msgs) as [[h2 s2] rs2] eqn:Es. injection Hs as <- <- <-.
  apply dispatch_config in Ed as (E1 & E2 & E3). apply IH in Es as (F1 & F2 & F3). split; [|split]; congruence.
Qed.

(** C11. Strict authentication holds over a whole connection: whatever the peer sends, either
    the host is unchanged, or the connection carried a proof, for a known peer and under the
    very key pinned for it, whose signature verifies for this host against a challenge minted
    earlier on this connection and not answered before. *)
Theorem strict_connection ip rnd h msgs h' s' rs :
  strict_peer_auth h = true -> serve_msgs ip rnd 0 h new_session msgs = (h', s', rs) ->
  h' = h \/
  exists j k c sig peer key, (j < k)%nat /\ msgs !! k = Some (AuthProof peer key sig) /\
    peers h !! peer = Some (Some key) /\ minted rnd msgs c j k /\
    verify_signature key (proof_transcript (host_peer_id h) peer c) sig = true.
Proof.
  intros Hstrict. revert h' s' rs. induction msgs as [|m msgs IH] using rev_ind; intros h' s' rs Hs.
  { left. cbn in Hs. congruence. }
  rewrite serve_snoc in Hs. destruct (serve_msgs ip rnd 0 h new_session msgs) as [[h1 s1] rs1] eqn:E1.
  destruct (dispatch ip h1 s1 (rnd (0 + length msgs)%nat) m) as [[h2 s2] r] eqn:Ed.
  assert (h2 = h') as -> by congruence. clear Hs.
  pose proof (serve_config _ _ _ _ _ _ _ _ _ E1) as (Hid & Hpeers & Hst).
  assert (Hext : forall P : Prop, (h1 = h -> P) -> (forall j k c sig peer key, (j < k)%nat -> msgs !! k = Some (AuthProof peer key sig) ->
    peers h !! peer = Some (Some key) -> minted rnd msgs c j k ->
    verify_signature key (proof_transcript (host_peer_id h) peer c) sig = true -> P) -> P).
  { intros P Hl Hr. destruct (IH h1 s1 rs1 eq_refl) as [E|(j & k & c & sig & peer & key & ? & ? & ? & ? & ?)]; [by apply Hl|].
    by eapply (Hr j k). }
  assert (Hgrow : forall j k c sig peer key, (j < k)%nat -> msgs !! k = Some (AuthProof peer key sig) ->
    peers h !! peer = Some (Some key) -> minted rnd msgs c j k ->
    verify_signature key (proof_transcript (host_peer_id h) peer c) sig = true ->
    exists j k c sig peer key, (j < k)%nat /\ (msgs ++ [m]) !! k = Some (AuthProof peer key sig) /\
    peers h !! peer = Some (Some key) /\ minted rnd (msgs ++ [m]) c j k /\
    verify_signature key (proof_transcript (host_peer_id h) peer c) sig = true).
  { intros j k c sig peer key Hlt Hk Hp Hm Hv. exists j, k, c, sig, peer, key.
    split; [done|split; [by apply lookup_app_l_Some|split; [done|split; [|done]]]].
    apply minted_prefix; [apply lookup_lt_Some in Hk; lia|done]. }
  assert (Hproved : forall owner, authorize_owner h1 (authenticated_peer s1) owner = true ->
    exists j k c sig peer key, (j < k)%nat /\ (msgs ++ [m]) !! k = Some (AuthProof peer key sig) /\
    peers h !! peer = Some (Some key) /\ minted rnd (msgs ++ [m]) c j k /\
    verify_signature key (proof_transcript (host_peer_id h) peer c) sig = true).
  { intros owner (p & Hp & <- & Hpin)%authorize_strict; [|congruence].
    destruct (session_challenge ip rnd h msgs h1 s1 rs1 E1) as [_ Hauth].
    destruct (Hauth p Hp) as (j & k & c & sig & hk & sk & rk & Hlt & Hk & Hm & Hsk & Hv).
    eapply (Hgrow j k c sig); [done|done|congruence|done|].
    apply serve_config in Hsk as (Hidk & _ & _). cbn in Hv. by rewrite Hidk in Hv. }
  apply dispatch_host in Ed as [->|[(id & o & i & d & _ & Ha & _)|(id & o & r' & _ & Ha & _)]].
  - apply Hext; [by left|]. intros. right. by eapply Hgrow.
  - right. by eapply Hproved.
  - right. by eapply Hproved.
Qed.

(** ** Accounting *)

Definition hosted_total (m : gmap string HostedShard) : Z := zsum ((fun p => size_bytes p.2) <$> map_to_list m).
Definition size_at (m : gmap string HostedShard) (id : string) : Z :=
  match m !! id with Some r => size_bytes r | None => 0 end.

Lemma total_delete m id : hosted_total (base.delete id m) = hosted_total m - size_at m id.
Proof.
  unfold hosted_total, size_at. destruct (m !! id) as [r|] eqn:E.
  - rewrite <- (map_to_list_delete m id r E), fmap_cons, zsum_cons. cbn [snd]. lia.
  - rewrite delete_id by done. lia.
Qed.

Lemma total_insert m id r : hosted_total (<[id := r]> m) = hosted_total m - size_at m id + size_bytes r.
Proof.
  rewrite <- insert_delete_eq. unfold hosted_total.
  rewrite map_to_list_insert by apply lookup_delete_eq.
  rewrite fmap_cons, zsum_cons. cbn [snd]. pose proof (total_delete m id). unfold hosted_total in *. lia.
Qed.

(** Every hosted row has its shard on disk and the size it occupies there; the node's counter
    is the sum of the rows. *)
Definition host_inv (h : Host) : Prop :=
  (forall id r, hosted_shards h !! id = Some r ->
     exists b, read (store h) id = Ok b /\ size_bytes r = shard_disk_cost (len b)) /\
  match node_local h with Some (_, n) => n = hosted_total (hosted_shards h) | None => True end.

Lemma cost_nonneg (b : bytes) : 0 <= shard_disk_cost (len b).
Proof. pose proof (len_nonneg b). pose proof (shard_disk_cost_spec (len b)). lia. Qed.

Lemma total_nonneg (m : gmap string HostedShard) :
  (forall id r, m !! id = Some r -> 0 <= size_bytes r) -> 0 <= hosted_total m.
Proof.
  intros Hm. apply zsum_nonneg, Forall_forall. intros x Hx.
  apply list_elem_of_fmap in Hx as ([id r] & -> & Hin%elem_of_map_to_list). by eapply Hm.
Qed.

Lemma host_sizes h : host_inv h -> forall id r, hosted_shards h !! id = Some r -> 0 <= size_bytes r.
Proof. intros [Hr _] id r (b & _ & ->)%Hr. apply cost_nonneg. Qed.

Lemma hosted_size_bounds h id : host_inv h -> 0 <= hosted_size h id <= hosted_total (hosted_shards h).
Proof.
  intros Hinv. pose proof (host_sizes h Hinv) as Hs. split.
  - unfold hosted_size. destruct (hosted_shards h !! id) eqn:E; [by eapply Hs|lia].
  - pose proof (total_delete (hosted_shards h) id) as Ht. unfold size_at in Ht. fold (hosted_size h id) in Ht.
    enough (0 <= hosted_total (base.delete id (hosted_shards h))) by lia.
    apply total_nonneg. intros j r [_ Hj]%lookup_delete_Some. by eapply Hs.
Qed.

Lemma store_inv h id owner i data h' :
  host_inv h -> host_store h id owner i data = (h', true) ->
  host_inv h' /\ forall c n, node_local h = Some (c, n) -> exists n', node_local h' = Some (c, n') /\ n' <= Z.max c n.
Proof.
  intros Hinv Hs. apply host_store_ok in Hs as (st & Hw & _ & _ & Hcap & ->).
  pose proof (hosted_size_bounds h id Hinv) as Hold. pose proof (cost_nonneg data) as Hc. destruct Hinv as [Hr Hn].
  split; [split|]; cbn [hosted_shards node_local ChunkStore.read Host.store with_store].
  - intros j r Hj. apply lookup_insert_Some in Hj as [[<- <-]|[Hne Hj]].
    + exists data. split; [by eapply write_read|done].
    + destruct (Hr j r Hj) as (b & Hb & Hb'). exists b. split; [|done]. by rewrite (write_read_ne _ _ _ _ j Hw) by done.
  - destruct (node_local h) as [[c n]|]; cbn; [|done]. rewrite total_insert. cbn [size_bytes].
    fold (hosted_size h id). unfold size_at. fold (hosted_size h id). subst n. lia.
  - intros c n Hnl. rewrite Hnl in *. cbn in *. eexists. split; [done|]. lia.
Qed.

Lemma delete_inv h id r :
  host_inv h -> hosted_shards h !! id = Some r ->
  let h' := with_store h match delete (store h) id with Ok st => st | _ => store h end
            (base.delete id (hosted_shards h)) (add_hosted (node_local h) (- hosted_size h id)) in
  host_inv h' /\ forall c n, node_local h = Some (c, n) -> exists n', node_local h' = Some (c, n') /\ n' <= Z.max c n.
Proof.
  intros Hinv Hid. cbv zeta. pose proof (hosted_size_bounds h id Hinv) as Hold. destruct Hinv as [Hr Hn].
  split; [split|]; cbn [hosted_shards node_local Host.store with_store].
  - intros j x [Hne Hj]%lookup_delete_Some. destruct (Hr j x Hj) as (b & Hb & Hb'). exists b. split; [|done].
    destruct (delete (store h) id) as [st| |] eqn:Ed; [|done..]. by rewrite (delete_read_ne _ _ _ j Ed) by done.
  - destruct (node_local h) as [[c n]|]; cbn; [|done]. rewrite total_delete. unfold size_at.
    fold (hosted_size h id). subst n. lia.
  - intros c n Hnl. rewrite Hnl in *. cbn in *. eexists. split; [done|]. lia.
Qed.

(** C24. Hosting stays accounted for and bounded: over any connection served alone, from a consistent host,
    every hosted row keeps its shard on disk with the size counted for it, the node's counter
    stays the exact sum of the rows, and it never grows past what the node contributes. *)
Theorem host_accounting ip rnd i h session msgs h' s' rs :
  host_inv h -> serve_msgs ip rnd i h session msgs = (h', s', rs) ->
  host_inv h' /\ forall c n, node_local h = Some (c, n) -> exists n', node_local h' = Some (c, n') /\ n' <= Z.max c n.
Proof.
  revert i h session h' s' rs. induction msgs as [|m msgs IH]; intros i h session h' s' rs Hinv Hs; cbn [serve_msgs] in Hs.
  { injection Hs as <- _ _. split; [done|]. intros c n ->. exists n. split; [done|lia]. }
  destruct (dispatch ip h session (rnd i) m) as [[h1 s1] r1] eqn:Ed.
  destruct (serve_msgs ip rnd (S i) h1 s1 msgs) as [[h2 s2] rs2] eqn:Es. injection Hs as <- <- <-.
  assert (Hone : host_inv h1 /\ forall c n, node_local h = Some (c, n) -> exists n', node_local h1 = Some (c, n') /\ n' <= Z.max c n).
  { apply dispatch_host in Ed as [->|[(id & o & j & d & _ & _ & Hst)|(id & o & r & _ & _ & Hr & _ & ->)]].
    - split; [done|]. intros c n ->. exists n. split; [done|lia].
    - by eapply store_inv.
    - by eapply delete_inv. }
  destruct Hone as [Hinv1 Hn1]. destruct (IH _ _ _ _ _ _ Hinv1 Es) as [Hinv2 Hn2]. split; [done|].
  intros c n (n1 & Hnl1 & Hle1)%Hn1. destruct (Hn2 _ _ Hnl1) as (n2 & ? & ?). exists n2. split; [done|lia].
Qed.

(** ** What a stored shard gives back *)

(** Round trip of hosting: after an accepted store the shard is served, reported present,
    audited with the hash of its bytes, and owned by the peer named in the request; other
    hosted shards are served as before. The store does not look at who held the id: bytes
    hosted for another owner, and the node's own shard under that id, are replaced, and the
    previous owner's delete is then refused. *)
Theorem hosted_store_spec h authenticated id owner i data h' :
  host_store_from h authenticated id owner i data = (h', true) ->
  host_get h' id = Some data /\ host_has h' id = true /\ host_audit h' id = shard_hash data /\
  hosted_shards h' !! id = Some (mkHosted owner (shard_disk_cost (len data)) i) /\
  (forall id', id' <> id -> host_get h' id' = host_get h id' /\ hosted_shards h' !! id' = hosted_shards h !! id') /\
  (forall previous, previous <> owner -> host_delete h' id previous = (h', false)) /\
  (host_delete h' id owner).2 = true /\ host_get (host_delete h' id owner).1 id = None.
Proof.
  unfold host_store_from. destruct (authorize_owner h authenticated owner); cbn; [|done].
  intros (st & Hw & _ & _ & _ & ->)%host_store_ok. pose proof (write_read _ _ _ _ Hw) as Hread.
  unfold host_get, host_has, host_audit, exists_. cbn [hosted_shards Host.store with_store].
  rewrite lookup_insert_eq, Hread. split; [done|split; [|split; [done|split; [done|split; [|split; [|split]]]]]].
  - unfold read in Hread. apply bind_ok in Hread as (p & -> & Hp%ok_or_ok). by rewrite bool_decide_eq_true.
  - intros id' Hne. rewrite lookup_insert_ne by done. by rewrite (write_read_ne _ _ _ _ id' Hw) by done.
  - intros previous Hne. unfold host_delete. cbn [hosted_shards with_store]. rewrite lookup_insert_eq. cbn.
    unfold same. by rewrite bool_decide_eq_false_2 by done.
  - unfold host_delete. cbn [hosted_shards with_store]. rewrite lookup_insert_eq. cbn.
    unfold same. by rewrite bool_decide_eq_true_2 by done.
  - unfold host_delete. cbn [hosted_shards with_store]. rewrite lookup_insert_eq. cbn.
    unfold same. rewrite bool_decide_eq_true_2 by done. cbn. by rewrite lookup_delete_eq.
Qed.
End Host.
