(* ===== verification/Listener.v ===== *)
(** * Connections served at once ([crates/p2p/src/server.rs]: serve; [crates/server/src/p2p.rs])

    [Host.v] runs a request as one step. The listener runs up to [MAX_CONNECTIONS] connections
    as tasks, and the handler awaits the control-plane database several times per request:
    here a request is one step per await, and a run any interleaving of the connections. A
    connection alone refines [Host.v]; together, the capacity check of one may be out of date
    when it writes, and what the counter can then reach is bounded. *)

From Stdlib Require Import ZArith Lia Strings.String Strings.Byte.
From stdpp Require Import base numbers list gmap strings.
From S2P Require Import Prelude External Erasure Crypto Paths Manifest ChunkStore Protocol Server Host.

Definition MAX_CONNECTIONS : nat := 256.

Record StoreReq := mkStore { rq_id : string; rq_owner : string; rq_index : Z; rq_data : bytes }.

(** Where a connection is: between requests, or at an await of the handler. *)
Inductive Work :=
| Waiting
| StoreAuth (r : StoreReq)
| StoreKnown (r : StoreReq)
| StoreCap (r : StoreReq)
| StoreSize (r : StoreReq) (contributed hosted : Z)
| StoreUpsert (r : StoreReq) (old : Z)
| StoreAdd (r : StoreReq) (old : Z)
| DeleteAuth (id owner : string)
| DeleteOwner (id owner : string)
| DeleteSize (id : string)
| DeleteRow (id : string) (old : Z)
| DeleteAdd (id : string) (old : Z)
| Answering (ok : bool).

Section Listener.
Context `{CryptoPrims} `{Ed25519}.

Definition cost (r : StoreReq) : Z := shard_disk_cost (len (rq_data r)).

(** From one await to the next. *)
Definition work_step (h : Host) (auth : option AuthenticatedPeer) (w : Work) : Host * Work :=
  match w with
  | Waiting | Answering _ => (h, w)
  | StoreAuth r => (h, if authorize_owner h auth (rq_owner r)
                       then if MAX_HOSTED_SHARD <? len (rq_data r) then Answering false else StoreKnown r
                       else Answering false)
  | StoreKnown r => (h, if is_none (peers h !! rq_owner r) then Answering false else StoreCap r)
  | StoreCap r => let '(contributed, hosted) := default (0, 0) (node_local h) in (h, StoreSize r contributed hosted)
  | StoreSize r contributed hosted =>
      let old := hosted_size h (rq_id r) in
      if contributed <? hosted - old + cost r then (h, Answering false)
      else match write (store h) (rq_id r) (rq_data r) with
           | Ok st => (with_store h st (hosted_shards h) (node_local h), StoreUpsert r old)
           | _ => (h, Answering false)
           end
  | StoreUpsert r old =>
      (with_store h (store h) (<[rq_id r := mkHosted (rq_owner r) (cost r) (rq_index r)]> (hosted_shards h)) (node_local h),
       StoreAdd r old)
  | StoreAdd r old =>
      (with_store h (store h) (hosted_shards h) (add_hosted (node_local h) (cost r - old)), Answering true)
  | DeleteAuth id owner => (h, if authorize_owner h auth owner then DeleteOwner id owner else Answering false)
  | DeleteOwner id owner =>
      (h, match hosted_shards h !! id with
          | None => Answering true
          | Some row => if same (owner_peer_id row) owner then DeleteSize id else Answering false
          end)
  | DeleteSize id =>
      (with_store h match delete (store h) id with Ok st => st | _ => store h end (hosted_shards h) (node_local h),
       DeleteRow id (hosted_size h id))
  | DeleteRow id old => (with_store h (store h) (base.delete id (hosted_shards h)) (node_local h), DeleteAdd id old)
  | DeleteAdd id old => (with_store h (store h) (hosted_shards h) (add_hosted (node_local h) (- old)), Answering true)
  end.

Record Connection := mkConnection { cn_ip : string; cn_session : PeerAuthSession; cn_work : Work }.
Record Node := mkListener { host : Host; conns : gmap nat Connection; accepted : nat }.

Inductive Step :=
| Accept (ip : string)
| Request (c : nat) (rnd : option bytes) (msg : P2pMessage)
| Turn (c : nat)
| Close (c : nat).

(** A request that reads only is answered at once. *)
Definition begin_request (h : Host) (cn : Connection) (rnd : option bytes) (msg : P2pMessage) : Connection :=
  match msg with
  | StoreShard id owner i data => mkConnection (cn_ip cn) (cn_session cn) (StoreAuth (mkStore id owner i data))
  | DeleteShard id owner => mkConnection (cn_ip cn) (cn_session cn) (DeleteAuth id owner)
  | _ => mkConnection (cn_ip cn) (dispatch (cn_ip cn) h (cn_session cn) rnd msg).1.2 Waiting
  end.

Definition node_step (s : Node) (l : Step) : Node :=
  match l with
  | Accept ip =>
      if (MAX_CONNECTIONS <=? base.size (conns s))%nat then s
      else mkListener (host s) (<[accepted s := mkConnection ip new_session Waiting]> (conns s)) (S (accepted s))
  | Request c rnd msg =>
      match conns s !! c with
      | Some cn => match cn_work cn with
                   | Waiting => mkListener (host s) (<[c := begin_request (host s) cn rnd msg]> (conns s)) (accepted s)
                   | _ => s
                   end
      | None => s
      end
  | Turn c =>
      match conns s !! c with
      | Some cn =>
          let '(h, w) := work_step (host s) (authenticated_peer (cn_session cn)) (cn_work cn) in
          let w := match cn_work cn with Answering _ => Waiting | _ => w end in
          mkListener h (<[c := mkConnection (cn_ip cn) (cn_session cn) w]> (conns s)) (accepted s)
      | None => s
      end
  | Close c =>
      match conns s !! c with
      | Some cn => match cn_work cn with
                   | Waiting => mkListener (host s) (base.delete c (conns s)) (accepted s)
                   | _ => s
                   end
      | None => s
      end
  end.

Definition listening (h : Host) : Node := mkListener h ∅ 0.

(** ** A connection alone *)

(** The handler run without interruption. *)
Definition run_alone (n : nat) (h : Host) (auth : option AuthenticatedPeer) (w : Work) : Host * Work :=
  Nat.iter n (fun p => work_step p.1 auth p.2) (h, w).

Lemma answered_stays n h auth ok : run_alone n h auth (Answering ok) = (h, Answering ok).
Proof. unfold run_alone. induction n as [|n IH]; [done|]. by rewrite Nat.iter_succ, IH. Qed.
Lemma run_alone_S n h auth w : run_alone (S n) h auth w = let p := work_step h auth w in run_alone n p.1 auth p.2.
Proof. unfold run_alone. rewrite Nat.iter_succ_r. cbv zeta. cbn [fst snd]. by rewrite <- surjective_pairing. Qed.

(** Uninterrupted, the awaits of a store are the atomic store of the model of the handler. *)
Theorem store_refines h auth r :
  let p := host_store_from h auth (rq_id r) (rq_owner r) (rq_index r) (rq_data r) in
  run_alone 6 h auth (StoreAuth r) = (p.1, Answering p.2).
Proof.
  unfold host_store_from, host_store. cbv zeta. rewrite run_alone_S. cbn [work_step].
  destruct (authorize_owner h auth (rq_owner r)); cbn [negb fst snd]; [|apply answered_stays].
  destruct (MAX_HOSTED_SHARD <? len (rq_data r)); [apply answered_stays|]. rewrite run_alone_S. cbn [work_step fst snd].
  destruct (peers h !! rq_owner r) as [k|]; cbn [is_none]; [|apply answered_stays]. rewrite run_alone_S. cbn [work_step].
  destruct (default (0, 0) (node_local h)) as [contributed hosted] eqn:En. cbn [fst snd]. rewrite run_alone_S. cbn [work_step].
  fold (cost r). destruct (contributed <? _); [apply answered_stays|].
  destruct (write (store h) (rq_id r) (rq_data r)) as [st|e|]; cbn [fst snd]; [|apply answered_stays..]. done.
Qed.

Theorem delete_refines h auth id owner :
  let p := host_delete_from h auth id owner in
  run_alone 5 h auth (DeleteAuth id owner) = (p.1, Answering p.2).
Proof.
  unfold host_delete_from, host_delete. cbv zeta. rewrite run_alone_S. cbn [work_step].
  destruct (authorize_owner h auth owner); cbn [negb fst snd]; [|apply answered_stays]. rewrite run_alone_S. cbn [work_step fst snd].
  destruct (hosted_shards h !! id) as [row|] eqn:Er; [|apply answered_stays].
  destruct (same (owner_peer_id row) owner); cbn [negb]; [|apply answered_stays]. done.
Qed.

(** ** Many connections *)

Lemma cost_range (b : bytes) : 0 <= shard_disk_cost (len b) /\ (len b <= MAX_HOSTED_SHARD -> shard_disk_cost (len b) <= MAX_HOSTED_SHARD).
Proof.
  pose proof (len_nonneg b) as Hl. pose proof (shard_disk_cost_spec (len b) Hl) as [Hc Hm]. split; [lia|]. intros Hb.
  unfold MAX_HOSTED_SHARD, STORAGE_BLOCK_SIZE in *.
  pose proof (Z.div_mod (shard_disk_cost (len b)) 4096 ltac:(lia)). lia.
Qed.

(** The check of this work was made, or will be, against a counter within the contribution:
    what it adds is not in the counter yet. *)
Definition at_risk (w : Work) : bool :=
  match w with
  | StoreSize _ contributed hosted => hosted <=? contributed
  | StoreUpsert r old | StoreAdd r old => 0 <? cost r - old
  | _ => false
  end.
Definition risk (w : Work) : Z := if at_risk w then 1 else 0.

(** Whom the host stores for. *)
Definition permitted (h0 : Host) (owner : string) : Prop :=
  (exists auth, authorize_owner h0 auth owner = true) /\ is_Some (peers h0 !! owner).

Definition work_ok (h0 : Host) (contributed : Z) (w : Work) : Prop :=
  match w with
  | StoreKnown r => len (rq_data r) <= MAX_HOSTED_SHARD /\ exists auth, authorize_owner h0 auth (rq_owner r) = true
  | StoreCap r => len (rq_data r) <= MAX_HOSTED_SHARD /\ permitted h0 (rq_owner r)
  | StoreSize r c _ => len (rq_data r) <= MAX_HOSTED_SHARD /\ permitted h0 (rq_owner r) /\ c = contributed
  | StoreUpsert r old | StoreAdd r old => len (rq_data r) <= MAX_HOSTED_SHARD /\ permitted h0 (rq_owner r) /\ 0 <= old
  | DeleteRow _ old | DeleteAdd _ old => 0 <= old
  | _ => True
  end.

(** A row that was there, or whose owner is permitted; its size is not negative. *)
Definition rows_ok (h0 h : Host) : Prop :=
  forall id row, hosted_shards h !! id = Some row ->
    0 <= size_bytes row /\ (hosted_shards h0 !! id = Some row \/ permitted h0 (owner_peer_id row)).
Definition same_config (h0 h : Host) : Prop := peers h = peers h0 /\ strict_peer_auth h = strict_peer_auth h0.

Lemma authorize_config h0 h auth owner : same_config h0 h -> authorize_owner h auth owner = authorize_owner h0 auth owner.
Proof. intros [E1 E2]. unfold authorize_owner. by rewrite E1, E2. Qed.

Lemma size_nonneg h0 h id : rows_ok h0 h -> 0 <= hosted_size h id.
Proof. intros Hr. unfold hosted_size. destruct (hosted_shards h !! id) eqn:E; [by eapply Hr|lia]. Qed.

(** One await: what is added was at risk, and what becomes at risk starts within the bound. *)
Lemma work_step_ok h0 h auth w c n :
  same_config h0 h -> rows_ok h0 h -> node_local h = Some (c, n) -> 0 <= c -> work_ok h0 c w ->
  let '(h', w') := work_step h auth w in
  same_config h0 h' /\ rows_ok h0 h' /\ work_ok h0 c w' /\
  exists n', node_local h' = Some (c, n') /\
    forall room, 1 <= room -> n <= c + (room - risk w) * MAX_HOSTED_SHARD -> n' <= c + (room - risk w') * MAX_HOSTED_SHARD.
Proof.
  intros Hcfg Hrows Hnl Hc Hw. pose proof (authorize_config h0 h auth) as Hauth.
  assert (Hstay : forall w', work_ok h0 c w' -> risk w' <= risk w -> same_config h0 h /\ rows_ok h0 h /\ work_ok h0 c w' /\
    exists n', node_local h = Some (c, n') /\
      forall room, 1 <= room -> n <= c + (room - risk w) * MAX_HOSTED_SHARD -> n' <= c + (room - risk w') * MAX_HOSTED_SHARD).
  { intros w' Hw' Hr. split; [done|split; [done|split; [done|]]]. exists n. split; [done|]. unfold MAX_HOSTED_SHARD. lia. }
  assert (Hrisk : 0 <= risk w) by (unfold risk; destruct (at_risk w); lia).
  destruct w as [|r|r|r|r con hosted|r old|r old|id owner|id owner|id|id old|id old|ok]; cbn [work_step].
  - by apply Hstay.
  - rewrite Hauth by done. destruct (authorize_owner h0 auth (rq_owner r)) eqn:Ea; [|by apply Hstay].
    destruct (Z.ltb_spec MAX_HOSTED_SHARD (len (rq_data r))); apply Hstay; try done. split; [done|by exists auth].
  - destruct Hw as [Hl Ha]. destruct Hcfg as [Hp ?]. rewrite Hp. destruct (peers h0 !! rq_owner r) as [k|] eqn:Ek; cbn [is_none]; apply Hstay; try done.
  - rewrite Hnl. cbn [default from_option]. split; [done|split; [done|split; [by destruct Hw|]]]. exists n. split; [done|]. intros room Hroom Hn.
    unfold risk in *. cbn [at_risk] in *. destruct (Z.leb_spec n c); unfold MAX_HOSTED_SHARD in *; lia.
  - destruct Hw as (Hl & Hper & ->). destruct (Z.ltb_spec c (hosted - hosted_size h (rq_id r) + cost r)) as [|Hfit]; [by apply Hstay|].
    destruct (write (store h) (rq_id r) (rq_data r)) as [st|e|]; [|by apply Hstay..].
    pose proof (size_nonneg h0 h (rq_id r) Hrows) as Hold. split; [done|split; [done|split; [done|]]]. exists n. split; [done|]. intros room Hroom Hn.
    unfold risk in *. cbn [at_risk] in *. destruct (Z.leb_spec hosted c), (Z.ltb_spec 0 (cost r - hosted_size h (rq_id r))); unfold MAX_HOSTED_SHARD in *; lia.
  - destruct Hw as (Hl & Hper & Hold). split; [done|split; [|split; [done|exists n; split; [done|unfold risk; cbn [at_risk]; done]]]].
    intros id row Hid. cbn [hosted_shards with_store] in Hid. apply lookup_insert_Some in Hid as [[_ <-]|[_ Hid]]; [|by apply Hrows].
    cbn. split; [apply cost_range|by right].
  - destruct Hw as (Hl & Hper & Hold). pose proof (cost_range (rq_data r)) as [_ Hcost]. specialize (Hcost Hl). fold (cost r) in Hcost.
    split; [done|split; [done|split; [done|]]]. unfold add_hosted. cbn [node_local with_store]. rewrite Hnl. cbn. eexists. split; [done|].
    intros room Hroom Hn. unfold risk in *. cbn [at_risk] in *. destruct (Z.ltb_spec 0 (cost r - old)); unfold MAX_HOSTED_SHARD in *; lia.
  - destruct (authorize_owner h auth owner); by apply Hstay.
  - destruct (hosted_shards h !! id) as [row|]; [|by apply Hstay]. destruct (same _ _); by apply Hstay.
  - pose proof (size_nonneg h0 h id Hrows). split; [done|split; [done|split; [done|]]]. exists n. split; [done|]. intros room Hroom Hn.
    unfold risk in *. cbn [at_risk] in *. lia.
  - split; [done|split; [|split; [done|exists n; split; [done|done]]]]. intros i row Hi. cbn [hosted_shards with_store] in Hi.
    apply lookup_delete_Some in Hi as [_ Hi]. by apply Hrows.
  - split; [done|split; [done|split; [done|]]]. unfold add_hosted. cbn [node_local with_store]. rewrite Hnl. cbn. eexists. split; [done|].
    intros room Hroom Hn. cbn in Hw. unfold risk in *. cbn [at_risk] in *. unfold MAX_HOSTED_SHARD in *. lia.
  - by apply Hstay.
Qed.

(** How many connections are at risk. *)
Definition risks (m : gmap nat Connection) : Z :=
  Z.of_nat (base.size (filter (fun p : nat * Connection => at_risk (cn_work p.2) = true) m)).

Lemma risks_insert m c cn : m !! c = None -> risks (<[c := cn]> m) = risks m + risk (cn_work cn).
Proof.
  intros Hn. unfold risks, risk. destruct (at_risk (cn_work cn)) eqn:E.
  - rewrite map_filter_insert_True by done. rewrite map_size_insert_None; [lia|]. apply map_lookup_filter_None. by left.
  - rewrite map_filter_insert_not'; [lia|cbn; congruence|]. intros y Hy. congruence.
Qed.
Lemma risks_delete m c cn : m !! c = Some cn -> risks m = risks (base.delete c m) + risk (cn_work cn).
Proof.
  intros Hc. rewrite <- (insert_delete_id m c cn Hc) at 1. apply risks_insert. apply lookup_delete_eq.
Qed.
Lemma risks_update m c cn cn' : m !! c = Some cn -> risks (<[c := cn']> m) = risks m - risk (cn_work cn) + risk (cn_work cn').
Proof.
  intros Hc. rewrite <- insert_delete_eq, risks_insert by apply lookup_delete_eq. rewrite (risks_delete m c cn Hc). lia.
Qed.
Lemma risks_size m : 0 <= risks m <= Z.of_nat (base.size m).
Proof. unfold risks. split; [lia|]. apply inj_le, map_size_filter. Qed.

Record node_inv (h0 : Host) (c : Z) (s : Node) : Prop := {
  ni_config : same_config h0 (host s);
  ni_rows : rows_ok h0 (host s);
  ni_size : (base.size (conns s) <= MAX_CONNECTIONS)%nat;
  ni_fresh i : (accepted s <= i)%nat -> conns s !! i = None;
  ni_work i cn : conns s !! i = Some cn -> work_ok h0 c (cn_work cn);
  ni_counter : exists n, node_local (host s) = Some (c, n) /\
    n <= c + (Z.of_nat MAX_CONNECTIONS - risks (conns s)) * MAX_HOSTED_SHARD
}.

(** A connection takes another state. *)
Lemma conn_update h0 c s i cn cn' h' n' :
  node_inv h0 c s -> conns s !! i = Some cn -> work_ok h0 c (cn_work cn') -> same_config h0 h' -> rows_ok h0 h' ->
  node_local h' = Some (c, n') ->
  n' <= c + (Z.of_nat MAX_CONNECTIONS - risks (<[i := cn']> (conns s))) * MAX_HOSTED_SHARD ->
  node_inv h0 c (mkListener h' (<[i := cn']> (conns s)) (accepted s)).
Proof.
  intros [I1 I2 I3 I4 I5 I6] Hi Hw Hcfg Hrows Hnl Hn. split; cbn [host conns accepted]; try done.
  - rewrite map_size_insert_Some; [done|by exists cn].
  - intros j Hj. rewrite lookup_insert_ne; [by apply I4|]. intros ->. rewrite I4 in Hi; [done|lia].
  - intros j x [[<- <-]|[_ Hx]]%lookup_insert_Some; [done|by eapply I5].
  - by exists n'.
Qed.

Lemma begin_ok h0 c h cn rnd msg :
  work_ok h0 c (cn_work (begin_request h cn rnd msg)) /\ risk (cn_work (begin_request h cn rnd msg)) = 0.
Proof. by destruct msg. Qed.

Lemma node_step_inv h0 c s l : 0 <= c -> node_inv h0 c s -> node_inv h0 c (node_step s l).
Proof.
  intros Hc Hs. pose proof Hs as [I1 I2 I3 I4 I5 (n & Hnl & Hn)]. destruct l as [ip|i rnd msg|i|i]; cbn [node_step].
  - destruct (Nat.leb_spec MAX_CONNECTIONS (base.size (conns s))); [done|]. pose proof (I4 (accepted s) (le_n _)) as Hfree.
    split; cbn [host conns accepted]; try done.
    + rewrite map_size_insert_None by done. lia.
    + intros j Hj. rewrite lookup_insert_ne by lia. apply I4. lia.
    + intros j x [[_ <-]|[_ Hx]]%lookup_insert_Some; [done|by eapply I5].
    + exists n. split; [done|]. rewrite risks_insert by done. cbn. lia.
  - destruct (conns s !! i) as [cn|] eqn:Ei; [|done]. destruct (cn_work cn) eqn:Ew; try done.
    destruct (begin_ok h0 c (host s) cn rnd msg) as [Hw Hr].
    eapply conn_update; [done|done|done|done|done|exact Hnl|]. rewrite (risks_update _ _ _ _ Ei), Hr, Ew. cbn. lia.
  - destruct (conns s !! i) as [cn|] eqn:Ei; [|done].
    pose proof (work_step_ok h0 (host s) (authenticated_peer (cn_session cn)) (cn_work cn) c n I1 I2 Hnl Hc (I5 i cn Ei)) as Hstep.
    destruct (work_step _ _ _) as [h' w'] eqn:Est. destruct Hstep as (H1 & H2 & H3 & n' & H4 & H5).
    set (w := match cn_work cn with Answering _ => Waiting | _ => w' end).
    assert (Hw : work_ok h0 c w /\ risk w = risk w').
    { unfold w. destruct (cn_work cn); try done. cbn in Est. by injection Est as _ <-. }
    destruct Hw as [Hw Hrw].
    eapply conn_update; [done|done|done|done|done|exact H4|]. rewrite (risks_update _ _ _ _ Ei). cbn [cn_work]. rewrite Hrw.
    pose proof (risks_delete _ _ _ Ei) as Hd. pose proof (risks_size (base.delete i (conns s))) as Hsz.
    rewrite (map_size_delete_Some _ _ (ex_intro _ cn Ei)) in Hsz.
    pose proof (H5 (Z.of_nat MAX_CONNECTIONS - risks (base.delete i (conns s)))) as Hroom.
    assert (Hpos : (0 < base.size (conns s))%nat).
    { apply Nat.neq_0_lt_0. intros E%map_size_empty_inv. by rewrite E, lookup_empty in Ei. }
    rewrite Hd in Hn |- *. replace (Z.of_nat MAX_CONNECTIONS - (risks (base.delete i (conns s)) + risk (cn_work cn) - risk (cn_work cn) + risk w'))
      with (Z.of_nat MAX_CONNECTIONS - risks (base.delete i (conns s)) - risk w') by lia.
    apply Hroom; [lia|]. etransitivity; [exact Hn|]. unfold MAX_HOSTED_SHARD. lia.
  - destruct (conns s !! i) as [cn|] eqn:Ei; [|done]. destruct (cn_work cn) eqn:Ew; try done.
    split; cbn [host conns accepted]; try done.
    + rewrite map_size_delete_Some by (by exists cn). lia.
    + intros j Hj. rewrite lookup_delete_ne; [by apply I4|]. intros ->. rewrite I4 in Ei; [done|lia].
    + intros j x [_ Hx]%lookup_delete_Some. by eapply I5.
    + exists n. split; [done|]. pose proof (risks_delete _ _ _ Ei) as Hd. rewrite Ew in Hd. cbn in Hd. rewrite Z.add_0_r in Hd. by rewrite <- Hd.
Qed.

(** C25. Hosting under concurrency. Whatever connections come and go and however the statements of
    their requests interleave: at most [MAX_CONNECTIONS] are open; the counter of hosted bytes
    passes the contribution by at most one shard of the largest size per connection (2 GiB),
    since a check may be out of date when the write happens; and every row of the table was
    there before or belongs to a known peer a caller was authorized to act for - under strict
    authentication, one whose key is pinned. *)
Theorem concurrent_hosting h0 c n0 steps :
  0 <= c -> node_local h0 = Some (c, n0) -> n0 <= c ->
  (forall id row, hosted_shards h0 !! id = Some row -> 0 <= size_bytes row) ->
  let s := foldl node_step (listening h0) steps in
  (base.size (conns s) <= MAX_CONNECTIONS)%nat /\
  (exists n, node_local (host s) = Some (c, n) /\ n <= c + Z.of_nat MAX_CONNECTIONS * MAX_HOSTED_SHARD) /\
  forall id row, hosted_shards (host s) !! id = Some row -> hosted_shards h0 !! id = Some row \/
    (is_Some (peers h0 !! owner_peer_id row) /\ (exists auth, authorize_owner h0 auth (owner_peer_id row) = true) /\
     (strict_peer_auth h0 = true -> exists key, peers h0 !! owner_peer_id row = Some (Some key))).
Proof.
  intros Hc Hnl Hn Hrows. cbv zeta.
  assert (Hinv : node_inv h0 c (foldl node_step (listening h0) steps)).
  { induction steps as [|l steps IH] using rev_ind.
    - cbn [foldl]. split; cbn; try done.
      + intros id row Hid. split; [by eapply Hrows|by left].
      + rewrite map_size_empty. unfold MAX_CONNECTIONS. lia.
      + exists n0. split; [done|]. unfold risks. rewrite map_filter_empty, map_size_empty. unfold MAX_CONNECTIONS, MAX_HOSTED_SHARD. lia.
    - rewrite foldl_app. cbn [foldl]. by apply node_step_inv. }
  destruct Hinv as [_ I2 I3 _ _ (n & Hnl' & Hb)]. split; [done|split].
  - exists n. split; [done|]. pose proof (risks_size (conns (foldl node_step (listening h0) steps))). unfold MAX_HOSTED_SHARD in *. lia.
  - intros id row Hid. destruct (I2 id row Hid) as [_ [?|[(auth & Ha) Hk]]]; [by left|right]. split; [done|split; [by exists auth|]].
    intros Hst. destruct (authorize_strict _ _ _ Hst Ha) as (p & _ & _ & Hp). by eexists.
Qed.
End Listener.

(** ** Runs *)

Module ListenerRun.
Import Toy ToyWire.

Definition x : string := "00112233445566778899aabbccddeeff".
Definition y : string := "ffeeddccbbaa99887766554433221100".
(** A permissive host that knows one peer and contributes one block. *)
Definition host1 : Host := mkHost "host" 3119 None false ∅ ∅ {[ "p"%string := None ]} (Some (4096, 0)).
Definition req (id : string) : P2pMessage := StoreShard id "p" 0 (as_bytes "abc").
Definition connected : list Step := [Accept "1.1.1.1"; Accept "2.2.2.2"].
Definition turns (c : nat) (n : nat) : list Step := replicate n (Turn c).

(** Two stores that check the capacity before either has counted what it writes. *)
Definition race : list Step :=
  connected ++ [Request 0 None (req x); Request 1 None (req y)] ++ turns 0 4 ++ turns 1 4 ++ turns 0 3 ++ turns 1 3.
Definition raced : Node := foldl node_step (listening host1) race.

Lemma race_counter : node_local (host raced) = Some (4096, 8192).
Proof. vm_compute. reflexivity. Qed.

Lemma concurrent_hosting_witness :
  node_local (host raced) = Some (4096, 8192) /\
  (exists n, node_local (host raced) = Some (4096, n) /\ n <= 4096 + 256 * MAX_HOSTED_SHARD).
Proof.
  split; [exact race_counter|].
  assert (Hrows : forall id row, hosted_shards host1 !! id = Some row -> 0 <= size_bytes row).
  { intros id row Hid. change ((∅ : gmap string HostedShard) !! id = Some row) in Hid. rewrite lookup_empty in Hid. discriminate Hid. }
  exact (proj1 (proj2 (concurrent_hosting host1 4096 0 race ltac:(lia) eq_refl ltac:(lia) Hrows))).
Defined.

(** The node then hosts more than it contributes. *)
Theorem race_overshoots :
  exists c n, node_local (host raced) = Some (c, n) /\ c < n /\ hosted_total (hosted_shards (host raced)) = n.
Proof. exists 4096, 8192. split; [exact race_counter|split; [lia|]]. vm_compute. reflexivity. Qed.

(** Two deletions of one shard, each reading its size before the other drops the row, take it
    off the counter twice: a shard is still hosted and the counter says nothing is. *)
Definition host2 : Host :=
  (host_store (host_store (mkHost "host" 3119 None false ∅ ∅ {[ "p"%string := None ]} (Some (8192, 0))) x "p" 0 (as_bytes "abc")).1
     y "p" 0 (as_bytes "abc")).1.
Definition dropped : Node :=
  foldl node_step (listening host2)
    (connected ++ [Request 0 None (DeleteShard x "p"); Request 1 None (DeleteShard x "p")] ++
     turns 0 3 ++ turns 1 3 ++ turns 0 3 ++ turns 1 3).
Theorem double_delete_drifts :
  node_local host2 = Some (8192, 8192) /\ node_local (host dropped) = Some (8192, 0) /\
  hosted_total (hosted_shards (host dropped)) = 4096.
Proof. split; [|split]; vm_compute; reflexivity. Qed.
End ListenerRun.
