(* ===== verification/NetWitness.v ===== *)
(** * Concrete runs of the network layer

    The theorems about the listener, the client and the hosting handler applied to a
    connection between two nodes with the toy signatures of [Protocol.v]. *)

From Stdlib Require Import ZArith Lia Strings.String Strings.Byte.
From stdpp Require Import base numbers list gmap strings.
From S2P Require Import Prelude External Erasure Crypto Manifest ChunkStore Protocol Server Client Host.
Import Toy ToyWire.

Module NetRun.
Definition seed_me : bytes := zeros 32.
Definition seed_host : bytes := x01 :: zeros 31.
Definition signer_of (seed : bytes) : PeerSigner := {| key_seed := seed; public_key_hex := to_hex seed |}.
Definition pk_me : string := to_hex seed_me.
Definition frag : string := "00112233445566778899aabbccddeeff".
Definition nonce0 : bytes := zeros 32.
Definition chal0 : bytes := x02 :: zeros 31.
Definition rnd (i : nat) : option bytes := Some chal0.

(** A strict host that pinned my key and contributes 1 MiB. *)
Definition host0 : Host :=
  mkHost "host" 3119 (Some (signer_of seed_host)) true ∅ ∅ {[ "me" := Some pk_me ]} (Some (1048576, 0)).
Definition proof_sig : string := to_hex (ed_sig seed_me (proof_transcript "host" "me" chal0)).
Definition msgs : list P2pMessage :=
  [AuthPing "me" 1 nonce0; AuthProof "me" pk_me proof_sig; StoreShard frag "me" 0 (as_bytes "abc")].

Definition run := serve_msgs "ip" rnd 0 host0 new_session msgs.

Lemma run_eq : run = (run.1.1, run.1.2, run.2).
Proof. by destruct run as [[? ?] ?]. Defined.

Lemma strict_connection_witness :
  last run.2 = Some (Ack frag) /\
  exists k sig peer key, msgs !! k = Some (AuthProof peer key sig) /\ peers host0 !! peer = Some (Some key).
Proof.
  split; [vm_compute; reflexivity|].
  destruct (strict_connection "ip" rnd host0 msgs _ _ _ eq_refl run_eq) as [E|(j & k & c & sig & peer & key & _ & Hk & Hp & _)].
  - apply (f_equal (fun h => host_has h frag)) in E. vm_compute in E. discriminate E.
  - exists k, sig, peer, key. split; [exact Hk|exact Hp].
Defined.

Lemma session_authenticated_witness :
  authenticated_peer run.1.2 = Some (mkPeer "me" pk_me) /\
  exists k sig, msgs !! k = Some (AuthProof "me" pk_me sig).
Proof.
  assert (Hp : authenticated_peer run.1.2 = Some (mkPeer "me" pk_me)) by (vm_compute; reflexivity).
  split; [exact Hp|].
  destruct (session_authenticated "ip" rnd host0 msgs _ _ _ _ run_eq Hp) as (j & k & c & sig & hk & sk & rk & _ & Hk & _).
  exists k, sig. exact Hk.
Defined.

Lemma host0_inv : host_inv host0.
Proof. split; [intros id r E; change ((∅ : gmap string HostedShard) !! id = Some r) in E; rewrite lookup_empty in E; discriminate E|reflexivity]. Defined.

Lemma host_accounting_witness : host_inv host0 /\ host_inv run.1.1.
Proof.
  split; [exact host0_inv|].
  exact (proj1 (host_accounting "ip" rnd 0 host0 new_session msgs _ _ _ host0_inv run_eq)).
Defined.

Definition me : option AuthenticatedPeer := Some (mkPeer "me" pk_me).
Lemma hosted_store_spec_witness :
  (host_store_from host0 me frag "me" 3 (as_bytes "abc")).2 = true /\
  host_audit (host_store_from host0 me frag "me" 3 (as_bytes "abc")).1 frag = shard_hash (as_bytes "abc").
Proof.
  split; [vm_compute; reflexivity|].
  refine (proj1 (proj2 (proj2 (hosted_store_spec host0 me frag "me" 3 (as_bytes "abc") _ _)))).
  destruct (host_store_from host0 me frag "me" 3 (as_bytes "abc")) as [h ok] eqn:E. f_equal.
  transitivity (host_store_from host0 me frag "me" 3 (as_bytes "abc")).2; [by rewrite E|vm_compute; reflexivity].
Defined.

Lemma sign_total seed m : is_Some (ed_sign seed m).
Proof. by eexists. Defined.

#[local] Instance to_host : Remote (Host * PeerAuthSession * nat) := listener "ip" rnd.

(** A whole authenticated request against the host. *)
Lemma authenticated_end_to_end_witness :
  (authenticated_request "addr" (signer_of seed_me) "me" 1 (Some nonce0) (StoreShard frag "me" 0 (as_bytes "abc"))
     (host0, new_session, 0%nat)).2 = Ok (Ack frag).
Proof.
  assert (Hsig : h_signer host0 = Some (signer_of seed_host)) by reflexivity.
  etransitivity; [apply (f_equal snd (authenticated_end_to_end "ip" rnd host0 new_session 0 "addr" seed_me (signer_of seed_me) seed_host
    (signer_of seed_host) "me" 1 nonce0 chal0 (StoreShard frag "me" 0 (as_bytes "abc")) ed25519_laws eq_refl eq_refl
    (sign_total _) (sign_total _) Hsig eq_refl eq_refl))|].
  vm_compute. reflexivity.
Defined.

(** An impostor: it answers with a signature of another key. *)
#[local] Instance impostor : Remote nat := {|
  connect := fun _ i => Ok i;
  exchange := fun i _ => (S i, Ok (AuthPong "host" 3119 None pk_me (to_hex (zeros 64)) chal0))
|}.
Lemma never_to_impostor_witness :
  authenticated_request "addr" (signer_of seed_me) "me" 1 (Some nonce0) (GetShard frag) 0%nat
    = (1%nat, Err (PermissionDenied "peer handshake signature rejected")).
Proof.
  refine (proj1 (never_to_impostor "addr" (signer_of seed_me) "me" 1 nonce0 (GetShard frag) 0%nat 0%nat 1%nat
    "host" 3119 None pk_me (to_hex (zeros 64)) chal0 eq_refl eq_refl _)).
  vm_compute. reflexivity.
Defined.
End NetRun.
