(* ===== verification/Retention.v ===== *)
(** * Reclaiming from absent owners ([crates/server/src/retention.rs])

    The host side of reciprocity: how long an owner has been away, the thresholds its
    reliability and this host's generosity stretch, and what each stage removes from the
    hosted shards. Times are seconds; the rows of [peers], the last store of an owner and the
    order in which the tables are read are arguments. *)

From Stdlib Require Import Floats.
From Stdlib Require Import ZArith Lia Strings.String Strings.Byte.
From stdpp Require Import base numbers list gmap strings.
From S2P Require Import Prelude External Erasure Crypto Pipeline Paths Instance Manifest ChunkStore Protocol Server Host.

(** [i64 as f64]. *)
Definition i64_as_f64 (n : Z) : float := if n <? 0 then (- f64_of (- n))%float else f64_of n.
(** [f64::clamp]. *)
Definition f64_clamp (x lo hi : float) : float :=
  if (x <? lo)%float then lo else if (hi <? x)%float then hi else x.

(** [peers.(last_seen, reliability_score, threshold_days)]. *)
Record OwnerRow := mkOwner { last_seen : option Z; reliability_score : float; threshold_days : Z }.

Inductive Stage := Present | Reclaim | Evict.

Section Retention.
Context `{CryptoPrims} `{Ed25519}.
Variable inst : InstanceConfig.
Variable now : Z.
Variable owner_row : string -> option OwnerRow.
(** [MAX(stored_at)] over the shards of an owner. *)
Variable latest_store : string -> option Z.
(** The order in which rows, and distinct owners, come back. *)
Variable scan : list (string * HostedShard) -> list (string * HostedShard).
Variable owner_order : list string -> list string.

Definition fallback_reference (owner : string) : Z := default now (latest_store owner).

(** (reference, reliability, generosity). *)
Definition standing (owner : string) : Z * float * Z :=
  match owner_row owner with
  | Some r => (default (fallback_reference owner) (last_seen r), reliability_score r, threshold_days r)
  | None => (fallback_reference owner, 0%float, 0)
  end.

Definition stage_of (owner : string) : Stage :=
  let '(reference, reliability, generosity_days) := standing owner in
  let absent_days := (i64_as_f64 (now - reference) / 86400)%float in
  let factor := f64_clamp (0.5 + reliability / 100)%float 0.5%float 1.5%float in
  let generosity := i64_as_f64 (Z.max generosity_days 0) in
  let reclaim_at := (i64_as_f64 (retention_reclaim_days inst) * factor + generosity)%float in
  let evict_at := (i64_as_f64 (retention_evict_days inst) * factor + generosity)%float in
  if (evict_at <=? absent_days)%float then Evict
  else if (reclaim_at <=? absent_days)%float then Reclaim
  else Present.

(** The rows a reclaim selects: parity only, or everything of the owner. *)
Definition selects (parity_only : bool) (owner : string) (r : HostedShard) : bool :=
  same (owner_peer_id r) owner && (negb parity_only || (Z.of_nat DATA_SHARDS <=? hosted_index r)).

Definition drop_row (acc : Host * Z * Z) (p : string * HostedShard) : Host * Z * Z :=
  let '(h, removed, freed) := acc in
  let st := match delete (store h) p.1 with Ok st => st | _ => store h end in
  match hosted_shards h !! p.1 with
  | Some _ =>
      (with_store h st (base.delete p.1 (hosted_shards h)) (node_local h), removed + 1, freed + size_bytes p.2)
  | None => (with_store h st (hosted_shards h) (node_local h), removed, freed)
  end.

Definition reclaim (h : Host) (owner : string) (parity_only : bool) : Host * Z * Z :=
  let rows := filter (fun p => selects parity_only owner p.2 = true) (scan (map_to_list (hosted_shards h))) in
  let '(h, removed, freed) := foldl drop_row (h, 0, 0) rows in
  ((if 0 <? freed then with_store h (store h) (hosted_shards h) (add_hosted (node_local h) (- freed)) else h),
   removed, freed).

Definition owners (h : Host) : list string :=
  owner_order (remove_dups ((fun p : string * HostedShard => owner_peer_id p.2) <$> map_to_list (hosted_shards h))).

(** One owner, with what its event reports when something was removed. *)
Definition sweep_owner (acc : Host * list (string * Stage * Z * Z)) (owner : string) : Host * list (string * Stage * Z * Z) :=
  let '(h, events) := acc in
  match stage_of owner with
  | Present => (h, events)
  | s =>
      let '(h, n, freed) := reclaim h owner (match s with Reclaim => true | _ => false end) in
      (h, if 0 <? n then events ++ [(owner, s, n, freed)] else events)
  end.
Definition sweep (h : Host) : Host * list (string * Stage * Z * Z) := foldl sweep_owner (h, []) (owners h).

(** ** One owner *)

(** What holds of the host after some selected rows are gone. *)
Record trimmed (gone : string -> HostedShard -> bool) (h h' : Host) : Prop := {
  tr_rows id : hosted_shards h' !! id = match hosted_shards h !! id with Some r => if gone id r then None else Some r | None => None end;
  tr_bytes id r : hosted_shards h' !! id = Some r -> read (store h') id = read (store h) id;
  tr_peers : peers h' = peers h;
  tr_self : host_peer_id h' = host_peer_id h /\ strict_peer_auth h' = strict_peer_auth h
}.

Lemma trimmed_refl h : trimmed (fun _ _ => false) h h.
Proof. split; try done. intros id. by destruct (hosted_shards h !! id). Qed.

Lemma trimmed_trans g1 g2 g h1 h2 h3 :
  trimmed g1 h1 h2 -> trimmed g2 h2 h3 -> (forall id r, g id r = g1 id r || g2 id r) -> trimmed g h1 h3.
Proof.
  intros [A1 A2 A3 [A4 A5]] [B1 B2 B3 [B4 B5]] Hg. split; [| |congruence|split; congruence].
  - intros id. rewrite B1, A1. destruct (hosted_shards h1 !! id) as [r|]; [|done]. rewrite Hg. by destruct (g1 id r), (g2 id r).
  - intros id r Hr. rewrite (B2 id r Hr). rewrite B1 in Hr. destruct (hosted_shards h2 !! id) as [r'|] eqn:E; [|done].
    by apply (A2 id r').
Qed.
Lemma trimmed_ext g g' h h' : trimmed g h h' -> (forall id r, hosted_shards h !! id = Some r -> g' id r = g id r) -> trimmed g' h h'.
Proof.
  intros [A1 A2 A3 A4] Hg. split; [|done..]. intros id. rewrite A1. destruct (hosted_shards h !! id) as [r|] eqn:E; [|done].
  by rewrite (Hg id r).
Qed.

Lemma drop_rows rows : forall h n freed,
  NoDup rows.*1 -> (forall p, p ∈ rows -> hosted_shards h !! p.1 = Some p.2) ->
  let x := foldl drop_row (h, n, freed) rows in
  trimmed (fun id _ => bool_decide (id ∈ rows.*1)) h x.1.1 /\ x.1.2 = n + len rows /\
  x.2 = freed + zsum ((fun p => size_bytes p.2) <$> rows) /\ node_local x.1.1 = node_local h /\
  hosted_total (hosted_shards x.1.1) = hosted_total (hosted_shards h) - zsum ((fun p => size_bytes p.2) <$> rows).
Proof.
  induction rows as [|[id r] rows IH]; intros h n freed Hnd Hin; cbn [foldl].
  - cbn. split; [eapply trimmed_ext; [apply trimmed_refl|done]|]. rewrite len_nil. unfold zsum. cbn. repeat split; lia.
  - apply NoDup_cons in Hnd as [Hni Hnd]. pose proof (Hin (id, r) ltac:(left)) as Hr. cbn [fst snd] in Hr.
    set (h1 := with_store h match delete (store h) id with Ok st => st | _ => store h end (base.delete id (hosted_shards h)) (node_local h)).
    assert (Es : drop_row (h, n, freed) (id, r) = (h1, n + 1, freed + size_bytes r)) by (unfold drop_row; cbn [fst snd]; by rewrite Hr).
    rewrite Es. destruct (IH h1 (n + 1) (freed + size_bytes r) Hnd) as (B1 & B2 & B3 & B4 & B5).
    { intros p Hp. unfold h1. cbn. rewrite lookup_delete_ne; [apply Hin; by right|].
      intros E. apply Hni. rewrite E. exact (list_elem_of_fmap_2 fst _ _ Hp). }
    assert (A : trimmed (fun i _ => bool_decide (i = id)) h h1).
    { split; [| |done|done].
      - intros i. unfold h1. cbn [hosted_shards with_store]. destruct (decide (i = id)) as [->|Hne].
        + rewrite lookup_delete_eq, Hr. by rewrite bool_decide_true.
        + rewrite lookup_delete_ne by done. destruct (_ !! i); [|done]. by rewrite bool_decide_false.
      - intros i r'. unfold h1. cbn [hosted_shards store with_store]. intros [Hne _]%lookup_delete_Some.
        destruct (delete (store h) id) as [st| |] eqn:Ed; [|done..]. by rewrite (delete_read_ne _ _ _ i Ed). }
    split; [|split; [|split; [|split]]].
    + eapply trimmed_trans; [exact A|exact B1|]. intros i r'. cbn [fmap list_fmap fst].
      rewrite <- bool_decide_or. apply bool_decide_ext, elem_of_cons.
    + rewrite B2, len_cons. lia.
    + rewrite B3. cbn [fmap list_fmap]. rewrite zsum_cons. cbn. lia.
    + exact B4.
    + rewrite B5. unfold h1. cbn [hosted_shards with_store]. rewrite total_delete. unfold size_at. rewrite Hr.
      cbn [fmap list_fmap]. rewrite zsum_cons. cbn. lia.
Qed.

Hypothesis scan_all : forall l, scan l ≡ₚ l.
Hypothesis owner_order_all : forall l, owner_order l ≡ₚ l.

Lemma trimmed_sizes gone h h' : host_inv h -> trimmed gone h h' -> 0 <= hosted_total (hosted_shards h').
Proof.
  intros [Hr _] Ht. apply total_nonneg. intros id r Hid. rewrite (tr_rows _ _ _ Ht) in Hid.
  destruct (hosted_shards h !! id) as [r'|] eqn:E; [|done]. destruct (gone id r'); [done|].
  injection Hid as <-. destruct (Hr id r' E) as (b & _ & ->). apply cost_nonneg.
Qed.

Lemma trimmed_inv gone h h' :
  host_inv h -> trimmed gone h h' ->
  node_local h' = add_hosted (node_local h) (hosted_total (hosted_shards h') - hosted_total (hosted_shards h)) -> host_inv h'.
Proof.
  intros Hinv Ht Hn. pose proof (trimmed_sizes _ _ _ Hinv Ht) as Hpos. destruct Hinv as [Hr Hl]. split.
  - intros id r Hid. rewrite (tr_bytes _ _ _ Ht id r Hid). apply Hr. rewrite (tr_rows _ _ _ Ht) in Hid.
    destruct (hosted_shards h !! id) as [r'|]; [|done]. by destruct (gone id r').
  - rewrite Hn. destruct (node_local h) as [[c m]|]; cbn; [lia|done].
Qed.

(** A reclaim removes what it selects, counts it and gives its bytes back. *)
Lemma reclaim_spec h owner parity_only :
  host_inv h ->
  let '(h', n, freed) := reclaim h owner parity_only in
  trimmed (fun _ r => selects parity_only owner r) h h' /\ host_inv h' /\
  n = len (filter (fun p => selects parity_only owner p.2 = true) (map_to_list (hosted_shards h))) /\
  freed = hosted_total (hosted_shards h) - hosted_total (hosted_shards h').
Proof.
  intros Hinv. unfold reclaim. set (rows := filter _ _).
  assert (Hrows : rows ≡ₚ filter (fun p => selects parity_only owner p.2 = true) (map_to_list (hosted_shards h)))
    by (unfold rows; by rewrite (scan_all _)).
  assert (Hnd : NoDup rows.*1).
  { rewrite Hrows. apply (sublist_NoDup _ ((map_to_list (hosted_shards h)).*1)); [apply NoDup_fst_map_to_list|apply fmap_sublist, sublist_filter]. }
  assert (Hin : forall p, p ∈ rows -> hosted_shards h !! p.1 = Some p.2).
  { intros [id r] Hp. rewrite Hrows in Hp. by apply list_elem_of_filter in Hp as [_ Hp%elem_of_map_to_list]. }
  destruct (drop_rows rows h 0 0 Hnd Hin) as (B1 & B2 & B3 & B4 & B5).
  destruct (foldl drop_row (h, 0, 0) rows) as [[h1 n] freed]. cbn [fst snd] in *.
  assert (Htr : trimmed (fun _ r => selects parity_only owner r) h h1).
  { eapply trimmed_ext; [exact B1|]. intros id r Hr. symmetry. destruct (selects parity_only owner r) eqn:Es.
    - apply bool_decide_eq_true. rewrite Hrows. apply (list_elem_of_fmap_2 fst _ (id, r)), list_elem_of_filter.
      split; [done|]. by apply elem_of_map_to_list.
    - apply bool_decide_eq_false. rewrite Hrows. intros ([id' r'] & E & [Hs Hp%elem_of_map_to_list]%list_elem_of_filter)%list_elem_of_fmap.
      cbn in *. congruence. }
  assert (Hfreed : freed = hosted_total (hosted_shards h) - hosted_total (hosted_shards h1)) by lia.
  assert (Hpos : 0 <= freed).
  { rewrite B3, Z.add_0_l. apply zsum_nonneg, Forall_fmap, Forall_forall. intros p Hp. cbn.
    by apply (host_sizes h Hinv p.1 p.2), Hin. }
  assert (Hcount : n = len (filter (fun p => selects parity_only owner p.2 = true) (map_to_list (hosted_shards h))))
    by (rewrite B2; unfold len; by rewrite Hrows).
  destruct (Z.ltb_spec 0 freed) as [Hf|Hf].
  - assert (T : trimmed (fun _ r => selects parity_only owner r) h
        (with_store h1 (store h1) (hosted_shards h1) (add_hosted (node_local h1) (- freed)))) by (destruct Htr; by split).
    split; [done|split; [|split; [done|done]]]. eapply trimmed_inv; [exact Hinv|exact T|]. cbn.
    rewrite B4. f_equal. lia.
  - split; [done|split; [|split; [done|done]]]. eapply trimmed_inv; [exact Hinv|exact Htr|].
    rewrite B4. pose proof (total_nonneg _ (host_sizes h Hinv)). destruct Hinv as [_ Hl].
    destruct (node_local h) as [[c m]|]; [|done]. cbn. do 2 f_equal. lia.
Qed.

(** ** The sweep *)

(** The rows a sweep removes. *)
Definition swept_row (r : HostedShard) : bool :=
  match stage_of (owner_peer_id r) with
  | Present => false
  | Reclaim => Z.of_nat DATA_SHARDS <=? hosted_index r
  | Evict => true
  end.

Lemma sweep_owners os : forall h events,
  host_inv h ->
  let h' := (foldl sweep_owner (h, events) os).1 in
  trimmed (fun _ r => swept_row r && bool_decide (owner_peer_id r ∈ os)) h h' /\ host_inv h'.
Proof.
  induction os as [|o os IH]; intros h events Hinv; cbn [foldl].
  - split; [|done]. eapply trimmed_ext; [apply trimmed_refl|]. intros id r _. rewrite bool_decide_false by apply not_elem_of_nil.
    by rewrite andb_false_r.
  - assert (Hone : exists h1 e1, sweep_owner (h, events) o = (h1, e1) /\ host_inv h1 /\
      trimmed (fun _ r => swept_row r && bool_decide (owner_peer_id r = o)) h h1).
    { unfold sweep_owner. destruct (stage_of o) eqn:Es.
      - exists h, events. split; [done|split; [done|]]. eapply trimmed_ext; [apply trimmed_refl|]. intros id r _.
        unfold swept_row. case_bool_decide as E; [by rewrite E, Es|by rewrite andb_false_r].
      - pose proof (reclaim_spec h o true Hinv) as Hr. destruct (reclaim h o true) as [[h1 n] freed].
        destruct Hr as (T & Hi & _). eexists h1, _. split; [done|split; [done|]]. eapply trimmed_ext; [exact T|]. intros id r _.
        unfold swept_row, selects, same. case_bool_decide as E; [by rewrite E, Es, andb_true_r|by rewrite andb_false_r].
      - pose proof (reclaim_spec h o false Hinv) as Hr. destruct (reclaim h o false) as [[h1 n] freed].
        destruct Hr as (T & Hi & _). eexists h1, _. split; [done|split; [done|]]. eapply trimmed_ext; [exact T|]. intros id r _.
        unfold swept_row, selects, same. case_bool_decide as E; [by rewrite E, Es|by rewrite andb_false_r]. }
    destruct Hone as (h1 & e1 & -> & Hinv1 & T1). destruct (IH h1 e1 Hinv1) as [T2 Hinv2]. split; [|done].
    eapply trimmed_trans; [exact T1|exact T2|]. intros id r. cbn beta.
    destruct (swept_row r); [|done]. cbn. rewrite <- bool_decide_or. apply bool_decide_ext, elem_of_cons.
Qed.

Lemma sweep_spec h :
  host_inv h -> trimmed (fun _ r => swept_row r) h (sweep h).1 /\ host_inv (sweep h).1.
Proof.
  intros Hinv. unfold sweep. destruct (sweep_owners (owners h) h [] Hinv) as [T Hi]. split; [|done].
  eapply trimmed_ext; [exact T|]. intros id r Hr. cbn beta. rewrite bool_decide_true; [by rewrite andb_true_r|].
  unfold owners. rewrite (owner_order_all _). apply elem_of_remove_dups.
  apply (list_elem_of_fmap_2 (fun p : string * HostedShard => owner_peer_id p.2) _ (id, r)). by apply elem_of_map_to_list.
Qed.

(** C21. The retention sweep removes exactly what the stages say and nothing else: a hosted
    shard is gone afterwards when its owner's absence has reached eviction, or has reached
    reclaim and the shard is parity; every other shard - the ten data shards of a reclaimed
    owner, and shards of unknown index, included - is still recorded and still read with the
    same bytes; and the counter of hosted bytes is again the sum of the rows. *)
Theorem retention_exact h :
  host_inv h ->
  let h' := (sweep h).1 in
  (forall id, hosted_shards h' !! id =
     match hosted_shards h !! id with
     | Some r =>
         match stage_of (owner_peer_id r) with
         | Present => Some r
         | Reclaim => if hosted_index r <? Z.of_nat DATA_SHARDS then Some r else None
         | Evict => None
         end
     | None => None
     end) /\
  (forall id r, hosted_shards h' !! id = Some r -> read (store h') id = read (store h) id) /\
  host_inv h' /\ peers h' = peers h.
Proof.
  intros Hinv h'. destruct (sweep_spec h Hinv) as [[T1 T2 T3 _] Hi]. split; [|done]. intros id. unfold h'. rewrite T1.
  destruct (hosted_shards h !! id) as [r|]; [|done]. unfold swept_row. destruct (stage_of (owner_peer_id r)); [done| |done].
  by rewrite Z.ltb_antisym; destruct (Z.of_nat DATA_SHARDS <=? hosted_index r).
Qed.
End Retention.

(** ** No evidence, no reclaim *)

(** A whole number of days, as the settings allow them. *)
Definition sane_days (d : Z) : Prop := 1 <= d <= 3650.

(** Without evidence of absence nothing is removed: for an owner this node knows nothing
    about - no row among its peers, no recorded store - the stage is present, whatever the
    configured thresholds. *)
Theorem no_evidence_keeps inst now owner_row latest_store owner :
  sane_days (retention_reclaim_days inst) -> sane_days (retention_evict_days inst) ->
  owner_row owner = None -> latest_store owner = None ->
  stage_of inst now owner_row latest_store owner = Present.
Proof.
  intros Hr He Hrow Hlast. unfold stage_of, standing, fallback_reference. rewrite Hrow, Hlast. unfold default. rewrite Z.sub_diag.
  assert (Hall : forallb (fun n => negb (i64_as_f64 (Z.of_nat n) * f64_clamp (0.5 + 0 / 100) 0.5 1.5 + i64_as_f64 (Z.max 0 0)
                                          <=? i64_as_f64 0 / 86400)%float) (seq 1 3650) = true) by (vm_compute; reflexivity).
  rewrite forallb_forall in Hall.
  assert (Hd : forall d, sane_days d -> (i64_as_f64 d * f64_clamp (0.5 + 0 / 100) 0.5 1.5 + i64_as_f64 (Z.max 0 0)
                                          <=? i64_as_f64 0 / 86400)%float = false).
  { intros d [H1 H2]. apply negb_true_iff. rewrite <- (Z2Nat.id d) by lia. apply Hall, in_seq. lia. }
  by rewrite (Hd _ Hr), (Hd _ He).
Qed.

(** ** A concrete host *)
Module RetentionRun.
Import Toy ToyWire.
Definition data_frag : string := "00112233445566778899aabbccddee00".
Definition away_data : string := "00112233445566778899aabbccddee01".
Definition away_parity : string := "00112233445566778899aabbccddee02".
Definition lost_data : string := "00112233445566778899aabbccddee03".

Definition empty_host : Host :=
  mkHost "host" 3119 None false ∅ ∅ (list_to_map [("me", None); ("away", None); ("lost", None)]%string) (Some (1048576, 0)).
Definition stores : list (string * string * Z) :=
  [(data_frag, "me", 0); (away_data, "away", 3); (away_parity, "away", 11); (lost_data, "lost", 2)]%string.
Definition store_one (h : Host) (p : string * string * Z) : Host := (host_store h p.1.1 p.1.2 p.2 (as_bytes "abc")).1.
Definition host : Host := foldl store_one empty_host stores.

Lemma store_one_inv h p : host_inv h -> host_inv (store_one h p).
Proof.
  intros Hinv. unfold store_one. destruct (host_store h p.1.1 p.1.2 p.2 (as_bytes "abc")) as [h' []] eqn:E.
  - by apply (store_inv _ _ _ _ _ _ Hinv E).
  - by rewrite (host_store_refused _ _ _ _ _ _ E).
Qed.
Lemma host_consistent : host_inv host.
Proof.
  unfold host. generalize stores. intros l. assert (H0 : host_inv empty_host).
  { split; [|reflexivity]. intros id r E. cbn in E. by rewrite lookup_empty in E. }
  revert H0. generalize empty_host. induction l as [|p l IH]; intros h Hh; [done|]. by apply IH, store_one_inv.
Qed.

(** [away] was last seen 60 days ago, [lost] 400 days ago, both half reliable. *)
Definition day : Z := 86400.
Definition owner_rows (o : string) : option OwnerRow :=
  if same o "me" then Some (mkOwner (Some (500 * day)) 50 0)
  else if same o "away" then Some (mkOwner (Some (440 * day)) 50 7)
  else Some (mkOwner (Some (100 * day)) 50 7).
Definition after := (sweep InstanceConfig_default (500 * day) owner_rows (fun _ => None) (fun l => l) (fun l => l) host).1.

Lemma retention_exact_witness :
  hosted_shards after !! away_parity = None /\ hosted_shards after !! lost_data = None /\
  is_Some (hosted_shards after !! away_data) /\ is_Some (hosted_shards after !! data_frag).
Proof.
  destruct (retention_exact InstanceConfig_default (500 * day) owner_rows (fun _ => None) (fun l => l) (fun l => l)
    (fun l => Permutation_refl l) (fun l => Permutation_refl l) host host_consistent) as [R _].
  unfold after. rewrite !R. vm_compute. split; [reflexivity|split; [reflexivity|split; eexists; reflexivity]].
Defined.

Lemma no_evidence_keeps_witness :
  stage_of InstanceConfig_default (500 * day) (fun _ => None) (fun _ => None) "stranger" = Present.
Proof.
  apply (no_evidence_keeps InstanceConfig_default (500 * day) (fun _ => None) (fun _ => None) "stranger");
    [split; discriminate..|reflexivity|reflexivity].
Defined.
End RetentionRun.
