(* ===== verification/Identity.v ===== *)
(** * Node identity and its files ([crates/store/src/identity.rs])

    The data directory as the sources see it: named files with their contents and modes, and
    the mode of the identity directory. The node key is one file, owner-only; the manifest
    key and the peer id derive from it. Failures of the file system other than a missing or
    an already existing file are not modelled. *)

From Stdlib Require Import ZArith Lia Strings.String.
From stdpp Require Import base numbers list gmap strings.
From S2P Require Import Prelude External Erasure Crypto Manifest Paths ChunkStore Protocol.

Record File := mkDiskFile { content : bytes; mode : Z }.
Record Disk := mkDisk { disk_files : gmap string File; identity_dir : option Z }.

Definition set_disk_files (d : Disk) (fs : gmap string File) : Disk := mkDisk fs (identity_dir d).
Definition file_bytes (d : Disk) (name : string) : option bytes := content <$> disk_files d !! name.

Definition IDENTITY_KEY : string := "identity/identity.key".
Definition MANIFEST_DB : string := "manifest.db".

(** The operations of [std::fs] the sources use. [umask] is the mask of the process. *)
Section Fs.
Context (umask : Z).

(** [fs::write]: an existing file keeps its mode. *)
Definition fs_write (name : string) (b : bytes) (d : Disk) : res StoreError Disk :=
  let m := match disk_files d !! name with Some f => mode f | None => Z.ldiff 438 umask end in
  Ok (set_disk_files d (<[name := mkDiskFile b m]> (disk_files d))).
Definition fs_rename (a b : string) (d : Disk) : res StoreError Disk :=
  f ← ok_or (disk_files d !! a) (StoreIo "not found");
  Ok (set_disk_files d (<[b := f]> (base.delete a (disk_files d)))).
(** [let _ = fs::remove_file(..)]. *)
Definition fs_remove (name : string) (d : Disk) : res StoreError Disk :=
  Ok (set_disk_files d (base.delete name (disk_files d))).
Definition fs_read (d : Disk) (name : string) : res StoreError bytes :=
  ok_or (file_bytes d name) (StoreIo "not found").
(** [OpenOptions::new().create_new(true).mode(m)] and [write_all]. *)
Definition fs_create_new (name : string) (m : Z) (b : bytes) (d : Disk) : res StoreError Disk :=
  match disk_files d !! name with
  | Some _ => Err (StoreIo "file exists")
  | None => Ok (set_disk_files d (<[name := mkDiskFile b (Z.ldiff m umask)]> (disk_files d)))
  end.
(** [create_dir_all] of the identity directory. *)
Definition create_identity_dir (d : Disk) : res StoreError Disk :=
  Ok (mkDisk (disk_files d) (Some (default (Z.ldiff 511 umask) (identity_dir d)))).

(** Octal 0700: the directory is created tight and tightened when it exists. *)
Definition create_dir_protected (d : Disk) : Disk := mkDisk (disk_files d) (Some 448).

(** [mode & 0o7777 & 0o077]. *)
Definition check_key_perms (d : Disk) (name : string) : res StoreError unit :=
  f ← ok_or (disk_files d !! name) (StoreIo "not found");
  let m := Z.land (mode f) 4095 in
  if negb (Z.land m 63 =? 0)
  then Err (Integrity "identity.key is accessible beyond its owner") else Ok ().

Definition write_protected (name : string) (b : bytes) (d : Disk) : res StoreError Disk :=
  fs_create_new name 384 b d.

Record NodeIdentity := mkIdentity {
  data_key : bytes;
  manifest_key_hex : string;
  node_peer_id : string
}.

Context `{CryptoPrims}.

Definition identity_of_key (k : bytes) : res StoreError NodeIdentity :=
  mk ← map_err Core (derive_raw k (as_bytes "p2pnas/manifest/v1"));
  pid ← map_err Core (derive_raw k (as_bytes "p2pnas/peer-id/v1"));
  pid ← slice 0 16 pid;
  Ok (mkIdentity k (to_hex mk) (to_hex pid)).

(** [fresh] is the key [DataKey::random] draws. *)
Definition load_or_create (d : Disk) (fresh : bytes) : res StoreError (Disk * NodeIdentity) :=
  let d := create_dir_protected d in
  p ← match disk_files d !! IDENTITY_KEY with
      | Some _ =>
          _ ← check_key_perms d IDENTITY_KEY;
          bytes ← fs_read d IDENTITY_KEY;
          if negb (len bytes =? KEY_LEN) then Err (Integrity "identity.key has wrong length")
          else Ok (d, bytes)
      | None => d ← write_protected IDENTITY_KEY fresh d; Ok (d, fresh)
      end;
  let '(d, k) := p : Disk * bytes in
  ident ← identity_of_key k;
  Ok (d, ident).
End Fs.

(** ** Lemmas *)

(** What the owner-only mode of a key file comes down to. *)
Definition owner_only (m : Z) : Prop := Z.land (Z.land m 4095) 63 = 0.

Lemma owner_only_created umask : owner_only (Z.ldiff 384 umask).
Proof.
  unfold owner_only. rewrite <- Z.land_assoc. change (Z.land 4095 63) with 63.
  apply Z.bits_inj'. intros n Hn. rewrite !Z.land_spec, Z.ldiff_spec, Z.bits_0.
  destruct (Z.testbit 384 n) eqn:E1, (Z.testbit 63 n) eqn:E2; try by rewrite ?andb_false_r.
  exfalso. assert (E : Z.testbit (Z.land 384 63) n = true) by (rewrite Z.land_spec, E1, E2; done).
  change (Z.land 384 63) with 0 in E. by rewrite Z.bits_0 in E.
Qed.

Lemma is_hexdigit_hex v : 0 <= v < 16 -> is_hexdigit (Ascii.ascii_of_byte (hex_digit v)) = true.
Proof.
  intros Hv.
  assert (Hall : forallb (fun n => is_hexdigit (Ascii.ascii_of_byte (hex_digit (Z.of_nat n)))) (seq 0 16) = true)
    by (vm_compute; reflexivity).
  rewrite forallb_forall in Hall. specialize (Hall (Z.to_nat v)). rewrite Z2Nat.id in Hall by lia.
  apply Hall, list_elem_of_In, elem_of_seq. lia.
Qed.

Lemma chars_of_bytes b : chars (of_bytes b) = Ascii.ascii_of_byte <$> b.
Proof.
  unfold chars, of_bytes. induction b as [|c b IH]; [done|].
  change (Ascii.ascii_of_byte c :: list_ascii_of_string (string_of_list_byte b) = Ascii.ascii_of_byte c :: (Ascii.ascii_of_byte <$> b)).
  by rewrite IH.
Qed.

(** Two hex digits per byte. *)
Lemma hex_chars b :
  length (chars (to_hex b)) = (2 * length b)%nat /\
  Forall (fun c => is_hexdigit c = true) (chars (to_hex b)).
Proof.
  unfold to_hex. rewrite chars_of_bytes. induction b as [|c b [IHl IHf]]; [done|].
  change (hex_encode (c :: b)) with (hex_digit (b2z c / 16) :: hex_digit (b2z c mod 16) :: hex_encode b).
  rewrite !fmap_cons. cbn [length]. split; [rewrite IHl; lia|]. pose proof (b2z_range c).
  assert (0 <= b2z c / 16 < 16) by (split; [apply Z.div_pos|apply Z.div_lt_upper_bound]; lia).
  pose proof (Z.mod_pos_bound (b2z c) 16 ltac:(lia)).
  constructor; [by apply is_hexdigit_hex|]. constructor; [by apply is_hexdigit_hex|done].
Qed.

Lemma hex_fragment_id b : length b = 16%nat -> is_valid_fragment_id (to_hex b) = true.
Proof. intros Hb. apply valid_fragment_id. destruct (hex_chars b) as [-> Hf]. by rewrite Hb. Qed.

Lemma to_hex_inj a b : to_hex a = to_hex b -> a = b.
Proof. intros E. apply (f_equal from_hex) in E. rewrite !from_to_hex in E. congruence. Qed.

Section Laws.
Context `{CryptoPrims} `{!CryptoLaws}.

Lemma identity_total k :
  exists i, identity_of_key k = Ok i /\ data_key i = k /\ length (chars (node_peer_id i)) = 32%nat.
Proof.
  unfold identity_of_key, derive_raw.
  destruct (hkdf_total SUBKEY_INFO k (as_bytes "p2pnas/manifest/v1")) as (mk & -> & _).
  destruct (hkdf_total SUBKEY_INFO k (as_bytes "p2pnas/peer-id/v1")) as (pid & -> & Hl).
  cbn [ok_or map_err mbind res_bind]. rewrite slice_ok by (rewrite ?Hl; done). cbn [mbind res_bind].
  eexists. split; [done|split; [done|]]. cbn [node_peer_id].
  rewrite (proj1 (hex_chars _)), length_take, length_drop. unfold len in Hl. change KEY_LEN with 32 in Hl. lia.
Qed.

(** The identity is read back as it was written. *)
Lemma load_existing umask d fresh f :
  disk_files d !! IDENTITY_KEY = Some f -> owner_only (mode f) -> len (content f) = KEY_LEN ->
  exists i, load_or_create umask d fresh = Ok (create_dir_protected d, i) /\
    identity_of_key (content f) = Ok i.
Proof.
  intros Hf Hm Hl. unfold load_or_create, check_key_perms, fs_read, file_bytes. cbn [disk_files create_dir_protected].
  rewrite Hf. cbn [ok_or mbind res_bind fmap option_fmap option_map]. rewrite Hm. cbn [Z.eqb negb].
  rewrite Hl, Z.eqb_refl. cbn [negb mbind res_bind].
  destruct (identity_total (content f)) as (i & -> & _). by exists i.
Qed.

(** C40. The node's identity is stable and closed: whatever the data directory held, a start
    that succeeds leaves the identity directory at 0700 and an owner-only key file of 32
    bytes, and every later start answers the same identity whatever key the generator would
    draw; a key file open to group or others is always refused. *)
Theorem identity_stable umask d fresh d' i :
  len fresh = KEY_LEN -> load_or_create umask d fresh = Ok (d', i) ->
  identity_dir d' = Some 448 /\ file_bytes d' IDENTITY_KEY = Some (data_key i) /\
  (forall f, disk_files d' !! IDENTITY_KEY = Some f -> owner_only (mode f) /\ len (content f) = KEY_LEN) /\
  (forall fresh', load_or_create umask d' fresh' = Ok (d', i)) /\
  (forall f fresh', ~ owner_only (mode f) ->
     exists e, load_or_create umask (set_disk_files d' (<[IDENTITY_KEY := f]> (disk_files d'))) fresh' = Err e).
Proof.
  intros Hfresh Hload.
  assert (Hd' : identity_dir d' = Some 448 /\ exists f, disk_files d' !! IDENTITY_KEY = Some f /\
    owner_only (mode f) /\ len (content f) = KEY_LEN /\ identity_of_key (content f) = Ok i).
  { unfold load_or_create in Hload. cbn [disk_files create_dir_protected] in Hload.
    destruct (disk_files d !! IDENTITY_KEY) as [f|] eqn:Ef.
    - unfold check_key_perms, fs_read, file_bytes in Hload. cbn [disk_files create_dir_protected] in Hload.
      rewrite Ef in Hload. cbn [ok_or mbind res_bind fmap option_fmap option_map] in Hload.
      destruct (Z.eqb_spec (Z.land (Z.land (mode f) 4095) 63) 0) as [Hm|]; cbn [negb] in Hload; [|discriminate].
      cbn [mbind res_bind] in Hload.
      destruct (Z.eqb_spec (len (content f)) KEY_LEN) as [Hl|]; cbn [negb] in Hload; [|discriminate].
      step_ok. split; [done|]. by exists f.
    - unfold write_protected, fs_create_new in Hload. cbn [disk_files create_dir_protected] in Hload. rewrite Ef in Hload.
      cbn [mbind res_bind] in Hload. step_ok. split; [done|]. eexists. cbn [disk_files set_disk_files].
      rewrite lookup_insert_eq. split; [done|]. split; [apply owner_only_created|done]. }
  clear Hload. destruct Hd' as (Hdir & f & Hf & Hm & Hl & Hi). split; [done|].
  assert (Hk : data_key i = content f).
  { destruct (identity_total (content f)) as (i' & Hi' & <- & _). congruence. }
  split; [unfold file_bytes; rewrite Hf, Hk; done|]. split; [intros ? [= <-]%(eq_trans (eq_sym Hf)); done|]. split.
  - intros fresh'. destruct (load_existing umask d' fresh' f Hf Hm Hl) as (i' & -> & Hi').
    assert (i' = i) as -> by congruence. unfold create_dir_protected. rewrite <- Hdir. by destruct d'.
  - intros f' fresh' Hnot. unfold load_or_create, check_key_perms.
    cbn [disk_files create_dir_protected set_disk_files]. rewrite lookup_insert_eq.
    cbn [ok_or mbind res_bind mode]. unfold owner_only in Hnot.
    destruct (Z.eqb_spec (Z.land (Z.land (mode f') 4095) 63) 0); [done|]. cbn [negb]. by eexists.
Qed.
End Laws.
