(* ===== verification/Backup.v ===== *)
(** * Cold backup of the node ([crates/store/src/backup.rs], first half)

    The bundle an administrator downloads: the identity key and a manifest snapshot, sealed
    under a passphrase, and its import onto a fresh node as the sequence of file operations
    the code performs. The salt the generator draws is an argument. *)

From Stdlib Require Import ZArith Lia Strings.String Strings.Byte.
From stdpp Require Import base numbers list gmap strings.
From S2P Require Import Prelude External Erasure Crypto Manifest Paths Protocol Identity.

Definition MAGIC : bytes := as_bytes "KBP2PBK1".
Definition VERSION : Z := 1.
Definition SALT_LEN : Z := 16.
Definition IDENTITY_LEN : Z := 32.
Definition BUNDLE_INFO : bytes := as_bytes "p2pnas/backup-bundle/v1".
Definition MIN_PASSPHRASE_LEN : Z := 12.

Definition err (msg : string) : StoreError := Integrity msg.

(** [str::chars().count()]: the bytes that start a UTF-8 sequence. *)
Definition chars_count (s : string) : Z :=
  len (filter (fun c => Z.land (b2z c) 192 <> 128) (as_bytes s)).

(** [from_be_bytes] of a slice that must have the width of the integer. *)
Definition be_u64 (b : bytes) : res StoreError Z :=
  if len b =? 8 then Ok (of_be b) else Err (err "malformed length field").
Definition be_u32 (b : bytes) : res StoreError Z :=
  if len b =? 4 then Ok (of_be b) else Err (err "malformed length field").

Definition encode_plaintext (identity manifest_bytes : bytes) : bytes :=
  identity ++ be_bytes 8 (len manifest_bytes) ++ manifest_bytes.

Definition decode_plaintext (plain : bytes) : res StoreError (bytes * bytes) :=
  if len plain <? IDENTITY_LEN + 8 then Err (err "backup contents truncated")
  else
    identity ← slice 0 IDENTITY_LEN plain;
    l ← slice IDENTITY_LEN (IDENTITY_LEN + 8) plain;
    l ← be_u64 l;
    rest ← slice (IDENTITY_LEN + 8) (len plain) plain;
    if negb (len rest =? l) then Err (err "backup manifest length mismatch")
    else Ok (identity, rest).

(** A manifest as the restore guard finds it: [connect] may fail on a brand-new node. *)
Definition ensure_fresh_node (connected : res StoreError Db) : res StoreError unit :=
  let existing :=
    match connected with Ok db => len (list_all_files db) | _ => 0 end in
  if 0 <? existing then Err (err "this node already holds data; restore is only for a fresh node")
  else Ok ().

(** The file operations of an import, in order. *)
Definition write_atomic (umask : Z) (path tmp : string) (b : bytes) : list (Disk -> res StoreError Disk) :=
  [fs_write umask tmp b; fs_rename tmp path].
Definition write_identity (umask : Z) (path : string) (b : bytes) : list (Disk -> res StoreError Disk) :=
  [fs_remove path; fs_create_new umask path 384 b].
Definition RESTORE_TMP : string := "manifest.restore.tmp".
Definition import_steps (umask : Z) (identity manifest_bytes : bytes) : list (Disk -> res StoreError Disk) :=
  write_atomic umask MANIFEST_DB RESTORE_TMP manifest_bytes ++
  [create_identity_dir umask] ++ write_identity umask IDENTITY_KEY identity.
Definition run_steps (d : Disk) (steps : list (Disk -> res StoreError Disk)) : res StoreError Disk :=
  foldM (fun d step => step d) d steps.

Section Bundle.
Context `{CryptoPrims} `{Argon2}.

Definition derive_kek (passphrase salt : bytes) : res StoreError bytes :=
  ok_or (argon2id passphrase salt) (err "key derivation failed").

Definition seal_bundle (salt plaintext passphrase : bytes) : res StoreError bytes :=
  kek ← derive_kek passphrase salt;
  sealer ← map_err Core (file_subkey kek BUNDLE_INFO);
  p ← map_err Core (seal sealer plaintext 0);
  let '(cipher, _) := p : bytes * bytes in
  Ok (MAGIC ++ [z2b VERSION] ++ salt ++ cipher).

Definition open_bundle (blob passphrase : bytes) : res StoreError bytes :=
  let header := len MAGIC + 1 + SALT_LEN in
  if len blob <? header then Err (err "backup file too short or not a p2pnas backup")
  else
    magic ← slice 0 (len MAGIC) blob;
    if negb (bool_decide (magic = MAGIC)) then Err (err "not a p2pnas backup file")
    else
      v ← index blob (length MAGIC);
      if negb (bool_decide (v = z2b VERSION)) then Err (err "unsupported backup version")
      else
        salt ← slice (len MAGIC + 1) header blob;
        kek ← derive_kek passphrase salt;
        sealer ← map_err Core (file_subkey kek BUNDLE_INFO);
        cipher ← slice header (len blob) blob;
        map_err (fun _ => err "wrong passphrase or corrupt backup") (open sealer 0 cipher).

(** [snapshot] is what [VACUUM INTO] writes for the manifest, or its failure. *)
Definition SNAPSHOT : string := "manifest.snapshot.tmp".
Definition export (umask : Z) (d : Disk) (snapshot : res StoreError bytes) (salt : bytes)
    (passphrase : string) : Disk * res StoreError bytes :=
  if chars_count passphrase <? MIN_PASSPHRASE_LEN
  then (d, Err (err "passphrase too short (at least 12 characters)"))
  else
    let d := set_disk_files d (base.delete SNAPSHOT (disk_files d)) in
    match snapshot with
    | Ok b =>
        let d := match fs_write umask SNAPSHOT b d with Ok d => d | _ => d end in
        let manifest_bytes := fs_read d SNAPSHOT in
        let d := set_disk_files d (base.delete SNAPSHOT (disk_files d)) in
        (d, manifest_bytes ← manifest_bytes;
            identity ← fs_read d IDENTITY_KEY;
            if negb (len identity =? IDENTITY_LEN) then Err (err "identity.key has unexpected length")
            else seal_bundle salt (encode_plaintext identity manifest_bytes) (as_bytes passphrase))
    | Err e => (d, Err e)
    | Panic => (d, Panic)
    end.

(** What an import decides before it touches a file: the operations it will run. *)
Definition import_plan (umask : Z) (connected : res StoreError Db) (passphrase : string) (blob : bytes)
    : res StoreError (list (Disk -> res StoreError Disk)) :=
  _ ← ensure_fresh_node connected;
  plain ← open_bundle blob (as_bytes passphrase);
  p ← decode_plaintext plain;
  let '(identity, manifest_bytes) := p : bytes * bytes in
  Ok (import_steps umask identity manifest_bytes).

Definition import (umask : Z) (d : Disk) (connected : res StoreError Db) (passphrase : string) (blob : bytes)
    : res StoreError Disk :=
  steps ← import_plan umask connected passphrase blob;
  run_steps d steps.
End Bundle.

(** ** Lemmas *)

Lemma slice_mid {E A} (a b c : list A) :
  slice (E:=E) (len a) (len a + len b) (a ++ b ++ c) = Ok b.
Proof.
  rewrite slice_ok by (rewrite ?len_app; pose proof (len_nonneg a); pose proof (len_nonneg b); pose proof (len_nonneg c); lia).
  f_equal. replace (Z.to_nat (len a + len b - len a)) with (length b) by (unfold len; lia).
  unfold len. by rewrite Nat2Z.id, drop_app_length, take_app_length.
Qed.

Lemma slice_prefix {E A} (a b : list A) n : n = len a -> slice (E:=E) 0 n (a ++ b) = Ok a.
Proof. intros ->. exact (slice_mid [] a b). Qed.

Lemma slice_suffix {E A} (a b : list A) n m :
  n = len a -> m = len (a ++ b) -> slice (E:=E) n m (a ++ b) = Ok b.
Proof.
  intros -> ->. rewrite len_app. replace (a ++ b) with (a ++ b ++ []) by (by rewrite app_nil_r). apply slice_mid.
Qed.

Lemma slice_at {E A} (a b c : list A) n m :
  n = len a -> m = len a + len b -> slice (E:=E) n m (a ++ b ++ c) = Ok b.
Proof. intros -> ->. apply slice_mid. Qed.

Lemma be_u64_be v : 0 <= v < 2 ^ 64 -> be_u64 (be_bytes 8 v) = Ok v.
Proof. intros Hv. unfold be_u64, len. rewrite length_be_bytes. cbn [Z.eqb Z.of_nat]. rewrite of_be_small by done. done. Qed.
Lemma be_u32_be v : 0 <= v < 2 ^ 32 -> be_u32 (be_bytes 4 v) = Ok v.
Proof. intros Hv. unfold be_u32, len. rewrite length_be_bytes. cbn [Z.eqb Z.of_nat]. rewrite of_be_small by done. done. Qed.

Lemma decode_encode_plaintext i m :
  len i = IDENTITY_LEN -> len m < 2 ^ 64 -> decode_plaintext (encode_plaintext i m) = Ok (i, m).
Proof.
  intros Hi Hm. unfold decode_plaintext, encode_plaintext. pose proof (len_nonneg m).
  rewrite !len_app, len_be, Hi. change IDENTITY_LEN with 32 in *.
  destruct (Z.ltb_spec (32 + (Z.of_nat 8 + len m)) (32 + 8)); [lia|].
  rewrite (slice_prefix i _ 32) by done. cbn [mbind res_bind].
  rewrite (slice_at i (be_bytes 8 (len m)) m 32 (32 + 8)) by (rewrite ?len_be; lia). cbn [mbind res_bind].
  rewrite be_u64_be by done. cbn [mbind res_bind]. rewrite app_assoc.
  rewrite (slice_suffix (i ++ be_bytes 8 (len m)) m) by (rewrite ?len_app, ?len_be; lia). cbn [mbind res_bind].
  by rewrite Z.eqb_refl.
Qed.

Section Laws.
Context `{CryptoPrims} `{!CryptoLaws} `{Argon2} `{!Argon2Laws}.

Lemma seal_open_total k p :
  len k = KEY_LEN -> len p <= GCM_LIMIT ->
  exists c n, seal k p 0 = Ok (c, n) /\ len c = len p + TAG_LEN /\ open k 0 c = Ok p.
Proof.
  intros Hk Hp.
  destruct (aead_seal_total k (nonce_for 0) [] p Hk eq_refl Hp) as (c & Hc).
  exists c, (nonce_for 0). split; [|split].
  - unfold seal, seal_inner. change (MAX_CHUNK_INDEX <? 0) with false. cbn iota. by rewrite Hc.
  - by eapply aead_seal_len.
  - unfold open. by rewrite (aead_open_seal _ _ _ _ _ Hc).
Qed.

Lemma open_seal_bundle salt p pass :
  len salt = SALT_LEN -> len p <= GCM_LIMIT -> len pass < 2 ^ 32 ->
  exists blob, seal_bundle salt p pass = Ok blob /\ open_bundle blob pass = Ok p.
Proof.
  intros Hs Hp Hpass. unfold seal_bundle, open_bundle, derive_kek.
  destruct (argon2_total pass salt) as (kek & Hkek); [rewrite Hs; done|done|]. rewrite Hkek. cbn [ok_or mbind res_bind].
  destruct (subkey_total kek V1 [] BUNDLE_INFO) as (k & Hk & Hkl). cbn [file_subkey_for] in Hk.
  rewrite Hk. cbn [map_err mbind res_bind].
  destruct (seal_open_total k p Hkl Hp) as (c & n & Hc & _ & Ho). rewrite Hc. cbn [map_err mbind res_bind].
  eexists. split; [reflexivity|]. change SALT_LEN with 16 in *.
  assert (Hlen : len (MAGIC ++ [z2b VERSION] ++ salt ++ c) = 25 + len c).
  { rewrite !len_app, Hs. change (len MAGIC) with 8. change (len [z2b VERSION]) with 1. lia. }
  pose proof (len_nonneg c). change (len MAGIC + 1 + 16) with 25. rewrite Hlen.
  destruct (Z.ltb_spec (25 + len c) 25); [lia|].
  rewrite (slice_prefix MAGIC) by done. cbn [mbind res_bind]. rewrite bool_decide_true by done. cbn [negb].
  unfold index. rewrite lookup_app_r, Nat.sub_diag by done. cbn [app lookup list_lookup mbind res_bind].
  rewrite bool_decide_true by done. cbn [negb]. rewrite (cons_middle (z2b VERSION) MAGIC), app_assoc.
  rewrite (slice_at (MAGIC ++ [z2b VERSION]) salt c (len MAGIC + 1) 25) by (rewrite ?len_app, ?Hs; done).
  cbn [mbind res_bind]. rewrite Hkek. cbn [ok_or mbind res_bind]. rewrite Hk. cbn [map_err mbind res_bind].
  rewrite app_assoc.
  rewrite (slice_suffix ((MAGIC ++ [z2b VERSION]) ++ salt) c) by (rewrite ?len_app, ?Hs; done).
  cbn [mbind res_bind]. by rewrite Ho.
Qed.
End Laws.

(** ** The import as a sequence of file operations *)

(** The disk after an import that ran to its end. *)
Definition imported (umask : Z) (d : Disk) (identity manifest_bytes : bytes) : Disk :=
  let m := match disk_files d !! RESTORE_TMP with Some f => mode f | None => Z.ldiff 438 umask end in
  mkDisk
    (<[IDENTITY_KEY := mkDiskFile identity (Z.ldiff 384 umask)]>
       (<[MANIFEST_DB := mkDiskFile manifest_bytes m]> (base.delete RESTORE_TMP (disk_files d))))
    (Some (default (Z.ldiff 511 umask) (identity_dir d))).

Lemma import_steps_run umask d i m : run_steps d (import_steps umask i m) = Ok (imported umask d i m).
Proof.
  unfold run_steps, import_steps, write_atomic, write_identity. cbn [app foldM].
  unfold fs_write at 1. cbn [mbind res_bind]. unfold fs_rename at 1. cbn [disk_files set_disk_files].
  rewrite lookup_insert_eq. cbn [ok_or mbind res_bind]. unfold create_identity_dir at 1. cbn [mbind res_bind].
  unfold fs_remove at 1. cbn [mbind res_bind]. unfold fs_create_new. cbn [disk_files set_disk_files].
  rewrite lookup_delete_eq. cbn [mbind res_bind]. unfold imported, set_disk_files.
  cbn [disk_files identity_dir]. by rewrite delete_insert_eq, insert_delete_eq.
Qed.

Lemma imported_files umask d i m :
  file_bytes (imported umask d i m) MANIFEST_DB = Some m /\
  file_bytes (imported umask d i m) IDENTITY_KEY = Some i /\
  (forall name, name <> MANIFEST_DB -> name <> IDENTITY_KEY -> name <> RESTORE_TMP ->
     disk_files (imported umask d i m) !! name = disk_files d !! name).
Proof.
  unfold file_bytes, imported. cbn [disk_files]. split; [|split].
  - rewrite lookup_insert_ne by done. by rewrite lookup_insert_eq.
  - by rewrite lookup_insert_eq.
  - intros name H1 H2 H3. by rewrite !lookup_insert_ne, lookup_delete_ne by congruence.
Qed.

(** Every prefix of the operations runs, and what a crash leaves after it. *)
Lemma import_prefix umask d i m n :
  exists d', run_steps d (take n (import_steps umask i m)) = Ok d' /\
    file_bytes d' MANIFEST_DB = (if decide (n < 2)%nat then file_bytes d MANIFEST_DB else Some m) /\
    file_bytes d' IDENTITY_KEY = (if decide (n < 4)%nat then file_bytes d IDENTITY_KEY
                                  else if decide (n < 5)%nat then None else Some i).
Proof.
  destruct n as [|[|[|[|[|n]]]]];
    [..|rewrite take_ge by (cbn; lia); exists (imported umask d i m); split; [apply import_steps_run|];
        split; apply imported_files];
    unfold run_steps, import_steps, write_atomic, write_identity; cbn [app take foldM];
    unfold fs_write, fs_rename, create_identity_dir, fs_remove; cbn [mbind res_bind disk_files set_disk_files];
    rewrite ?lookup_insert_eq; cbn [ok_or mbind res_bind];
    eexists; (split; [reflexivity|]); unfold file_bytes; cbn [disk_files set_disk_files];
    rewrite ?delete_insert_eq; cbn;
    rewrite ?lookup_delete_eq, ?lookup_insert_eq, ?lookup_insert_ne, ?lookup_delete_ne by done;
    rewrite ?lookup_insert_eq, ?lookup_insert_ne, ?lookup_delete_ne by done; done.
Qed.

Section Theorems.
Context `{CryptoPrims} `{!CryptoLaws} `{Argon2} `{!Argon2Laws}.

Lemma export_ok umask d b salt pass f :
  MIN_PASSPHRASE_LEN <= chars_count pass -> disk_files d !! IDENTITY_KEY = Some f ->
  len (content f) = IDENTITY_LEN ->
  (export umask d (Ok b) salt pass).2 =
    seal_bundle salt (encode_plaintext (content f) b) (as_bytes pass).
Proof.
  intros Hp Hf Hl. unfold export. destruct (Z.ltb_spec (chars_count pass) MIN_PASSPHRASE_LEN); [lia|].
  unfold fs_write, fs_read, file_bytes. cbn [disk_files set_disk_files snd].
  rewrite lookup_delete_eq, lookup_insert_eq. cbn [fmap option_fmap option_map ok_or mbind res_bind].
  rewrite lookup_delete_ne, lookup_insert_ne, lookup_delete_ne by done.
  rewrite Hf. cbn [fmap option_fmap option_map ok_or mbind res_bind content].
  by rewrite Hl.
Qed.

(** C13. Disaster recovery by cold backup: a bundle exported from a node (a passphrase of at
    least twelve characters) imports, under the same passphrase, onto any fresh node; it leaves
    the exported manifest and the exported key there and no other file changed but the
    temporary one, and the next start of that node answers the identity of the dead one. *)
Theorem backup_disaster_recovery umask d d' f b salt pass blob fresh_node dn :
  disk_files d !! IDENTITY_KEY = Some f -> len (content f) = IDENTITY_LEN ->
  len b <= 2 ^ 35 -> len salt = SALT_LEN -> len (as_bytes pass) < 2 ^ 32 ->
  MIN_PASSPHRASE_LEN <= chars_count pass ->
  export umask d (Ok b) salt pass = (d', Ok blob) ->
  ensure_fresh_node fresh_node = Ok () ->
  exists dn', import umask dn fresh_node pass blob = Ok dn' /\
    file_bytes dn' MANIFEST_DB = Some b /\
    (forall name, name <> MANIFEST_DB -> name <> IDENTITY_KEY -> name <> RESTORE_TMP ->
       disk_files dn' !! name = disk_files dn !! name) /\
    forall drawn, exists i, load_or_create umask dn' drawn = Ok (create_dir_protected dn', i) /\
      identity_of_key (content f) = Ok i.
Proof.
  intros Hf Hl Hb Hs Hpw Hp He Hfresh.
  pose proof (export_ok umask d b salt pass f Hp Hf Hl) as Hseal. rewrite He in Hseal. cbn [snd] in Hseal.
  destruct (open_seal_bundle salt (encode_plaintext (content f) b) (as_bytes pass)) as (blob' & Hb' & Ho); [done| |done|].
  { unfold encode_plaintext. rewrite !len_app, len_be, Hl. unfold GCM_LIMIT, IDENTITY_LEN. lia. }
  assert (blob' = blob) as -> by congruence.
  exists (imported umask dn (content f) b). destruct (imported_files umask dn (content f) b) as (Hm & Hi & Hrest).
  split; [|split; [done|split; [done|]]].
  - unfold import, import_plan. rewrite Hfresh. cbn [mbind res_bind]. rewrite Ho. cbn [mbind res_bind].
    rewrite decode_encode_plaintext by (try done; lia). cbn [mbind res_bind]. apply import_steps_run.
  - intros drawn. apply (load_existing umask (imported umask dn (content f) b) drawn
      (mkDiskFile (content f) (Z.ldiff 384 umask))).
    + unfold imported. cbn [disk_files]. by rewrite lookup_insert_eq.
    + apply owner_only_created.
    + exact Hl.
Qed.
End Theorems.

Section Safety.
Context `{CryptoPrims} `{Argon2}.

End Safety.

(** ** The theorems at a concrete node *)
Module BackupRun.
Import Toy.
Definition umask : Z := 18.
Definition old_key : bytes := replicate 32 x41.
Definition node : Disk :=
  mkDisk {[IDENTITY_KEY := mkDiskFile old_key 384; MANIFEST_DB := mkDiskFile (as_bytes "live") 384]} (Some 448).
Definition bare : Disk := mkDisk ∅ None.
Definition snapshot : bytes := as_bytes "vacuumed manifest".
Definition salt : bytes := zeros 16.
Definition pass : string := "correct horse battery".
Definition blob : bytes :=
  default [] (res_ok (export umask node (Ok snapshot) salt pass).2).
Definition live : Db := mkDb [] [] [] [].

Lemma exported : exists d', export umask node (Ok snapshot) salt pass = (d', Ok blob).
Proof.
  exists (export umask node (Ok snapshot) salt pass).1. apply injective_projections; [done|].
  unfold blob. cbn [snd].
  rewrite (export_ok umask node snapshot salt pass (mkDiskFile old_key 384)) by (by vm_compute).
  destruct (open_seal_bundle salt (encode_plaintext old_key snapshot) (as_bytes pass)) as (b & Hb & _);
    [by vm_compute..|]. cbn [content]. by rewrite Hb.
Qed.

Lemma backup_disaster_recovery_witness :
  exists dn', import umask bare (Ok live) pass blob = Ok dn' /\
    file_bytes dn' MANIFEST_DB = Some snapshot /\ is_ok (load_or_create umask dn' (zeros 32)) = true.
Proof.
  destruct exported as [d' He].
  destruct (backup_disaster_recovery umask node d' (mkDiskFile old_key 384) snapshot salt pass blob (Ok live) bare)
    as (dn' & Hi & Hm & _ & Hl); [by vm_compute..|exact He|by vm_compute|].
  exists dn'. split; [exact Hi|split; [exact Hm|]]. destruct (Hl (zeros 32)) as (i & -> & _). reflexivity.
Defined.

Lemma identity_stable_witness :
  exists d' i, load_or_create umask bare (zeros 32) = Ok (d', i) /\
    load_or_create umask d' old_key = Ok (d', i).
Proof.
  assert (Hload : exists d' i, load_or_create umask bare (zeros 32) = Ok (d', i)).
  { unfold load_or_create, write_protected, fs_create_new. cbn [disk_files create_dir_protected bare].
    rewrite lookup_empty. cbn [mbind res_bind]. destruct (identity_total (zeros 32)) as (i & -> & _). eauto. }
  destruct Hload as (d' & i & Hload). exists d', i. split; [exact Hload|].
  exact (proj1 (proj2 (proj2 (proj2 (identity_stable umask bare (zeros 32) d' i eq_refl Hload)))) old_key).
Defined.
End BackupRun.
