(* ===== verification/ManifestBackup.v ===== *)
(** * The distributed manifest backup ([crates/store/src/backup.rs], second half)

    The manifest snapshot sealed under a key of the node, erasure-coded into self-describing
    envelopes at addresses any holder of the node key can recompute, and its reconstruction
    from whatever the peers answer. *)

From Stdlib Require Import ZArith Lia Strings.String.
From stdpp Require Import base numbers list gmap strings.
From S2P Require Import Prelude External Erasure RSCode Crypto Manifest Paths ChunkStore Protocol Identity Backup.

Definition MANIFEST_BACKUP_DOMAIN : bytes := as_bytes "p2pnas/manifest-backup/v1".
Definition MB_MAGIC : bytes := as_bytes "KBP2PMB1".
Definition MB_FORMAT : Z := 1.
Definition PEER_ID_LEN : Z := 32.
Definition MB_HEADER : Z := 8 + 1 + 8 + PEER_ID_LEN + 8.
Definition MS_MAGIC : bytes := as_bytes "KBP2PMS1".
Definition MS_FORMAT : Z := 1.
Definition BLOB_HASH_LEN : Z := 16.
Definition MS_HEADER : Z := 8 + 1 + 8 + 1 + 4 + 8 + BLOB_HASH_LEN.
Definition DAY_SECS : Z := 24 * 60 * 60.

(** The clock as seconds since the epoch; a clock before it fails and counts as day zero. *)
Definition manifest_backup_version_now (now_secs : Z) : Z :=
  if now_secs <? 0 then 0 else now_secs / DAY_SECS.

Record ManifestBackupShard := mkShard {
  sh_version : Z;
  sh_index : nat;
  sh_blob_len : Z;
  sh_blob_hash : bytes;
  sh_data : bytes
}.

(** Geometry of a shard: what the majority is taken over. *)
Definition geometry (s : ManifestBackupShard) : Z * bytes := (sh_blob_len s, sh_blob_hash s).

(** The linear tally and [max_by_key], which answers the last of the maxima. *)
Fixpoint tally_add (k : Z * bytes) (t : list ((Z * bytes) * Z)) : list ((Z * bytes) * Z) :=
  match t with
  | [] => [(k, 1)]
  | (k', n) :: t => if decide (k' = k) then (k', n + 1) :: t else (k', n) :: tally_add k t
  end.
Definition tally (l : list ManifestBackupShard) : list ((Z * bytes) * Z) :=
  foldl (fun t s => tally_add (geometry s) t) [] l.
Definition max_by_count (t : list ((Z * bytes) * Z)) : option ((Z * bytes) * Z) :=
  foldl (fun best e => match best with
                       | None => Some e
                       | Some b => if snd e <? snd b then Some b else Some e
                       end) None t.

(** One turn of the loop that fills the slots. *)
Definition fill_slot (g : Z * bytes) (st : list (option bytes) * Z * Z) (s : ManifestBackupShard)
    : res StoreError (list (option bytes) * Z * Z) :=
  let '(present, sl, kept) := st in
  if (TOTAL_SHARDS <=? sh_index s)%nat || negb (bool_decide (geometry s = g)) then Ok st
  else
    let sl := if sl =? 0 then len (sh_data s) else sl in
    if negb (len (sh_data s) =? sl) then Ok (present, sl, kept)
    else
      slot ← index present (sh_index s);
      match slot with
      | Some _ => Ok (present, sl, kept)
      | None => Ok (<[sh_index s := Some (sh_data s)]> present, sl, kept + 1)
      end.

Section Prims.
Context `{CryptoPrims}.

(** [hex(blake3(DOMAIN ‖ peer_id ‖ version ‖ shard_index)[..16])]. *)
Definition fragment_preimage (peer_id : string) (version : Z) (shard_index : nat) : bytes :=
  MANIFEST_BACKUP_DOMAIN ++ as_bytes peer_id ++ be_bytes 8 version ++ be_bytes 4 (Z.of_nat shard_index).
Definition manifest_backup_fragment_id (peer_id : string) (version : Z) (shard_index : nat) : string :=
  to_hex (take 16 (blake3 (fragment_preimage peer_id version shard_index))).

Definition manifest_backup_sealer (key : bytes) (peer_id : string) (version : Z) : res StoreError bytes :=
  raw ← map_err Core (derive_v2 key MANIFEST_BACKUP_DOMAIN [as_bytes peer_id; be_bytes 8 version]);
  map_err Core (file_subkey raw MANIFEST_BACKUP_DOMAIN).

Definition blob_hash (blob : bytes) : bytes := take 16 (blake3 blob).

Definition snapshot_plain (peer_id : string) (version : Z) (snapshot : bytes) : bytes :=
  MB_MAGIC ++ [z2b MB_FORMAT] ++ be_bytes 8 version ++ as_bytes peer_id ++
  be_bytes 8 (len snapshot) ++ snapshot.
Definition seal_manifest_snapshot (key : bytes) (peer_id : string) (version : Z) (snapshot : bytes)
    : res StoreError bytes :=
  if negb (len (as_bytes peer_id) =? PEER_ID_LEN) then Err (err "peer id has unexpected length")
  else
    sealer ← manifest_backup_sealer key peer_id version;
    p ← map_err Core (seal sealer (snapshot_plain peer_id version snapshot) 0);
    let '(blob, _) := p : bytes * bytes in Ok blob.

Definition open_manifest_snapshot (key : bytes) (peer_id : string) (version : Z) (blob : bytes)
    : res StoreError bytes :=
  sealer ← manifest_backup_sealer key peer_id version;
  plain ← map_err (fun _ => err "manifest backup failed authentication") (open sealer 0 blob);
  if len plain <? MB_HEADER then Err (err "manifest backup truncated")
  else
    magic ← slice 0 8 plain;
    format ← index plain 8;
    if negb (bool_decide (magic = MB_MAGIC)) || negb (bool_decide (format = z2b MB_FORMAT))
    then Err (err "not a p2pnas manifest backup")
    else
      v ← slice 9 17 plain;
      stored_version ← be_u64 v;
      if negb (stored_version =? version) then Err (err "manifest backup belongs to another version")
      else
        stored_peer ← slice 17 (17 + PEER_ID_LEN) plain;
        if negb (bool_decide (stored_peer = as_bytes peer_id))
        then Err (err "manifest backup belongs to another node")
        else
          l ← slice (17 + PEER_ID_LEN) MB_HEADER plain;
          l ← be_u64 l;
          body ← slice MB_HEADER (len plain) plain;
          if negb (len body =? l) then Err (err "manifest backup length mismatch") else Ok body.

(** One envelope; the shard length is cut to 32 bits and the index to 8. *)
Definition envelope (version : Z) (blob : bytes) (i : nat) (s : bytes) : bytes :=
  MS_MAGIC ++ [z2b MS_FORMAT] ++ be_bytes 8 version ++ [z2b (Z.of_nat i)] ++
  be_bytes 4 (len s) ++ be_bytes 8 (len blob) ++ blob_hash blob ++ s.

Definition decode_manifest_backup_shard (b : bytes) : res StoreError ManifestBackupShard :=
  if len b <? MS_HEADER then Err (err "backup shard too short")
  else
    magic ← slice 0 8 b;
    format ← index b 8;
    if negb (bool_decide (magic = MS_MAGIC)) || negb (bool_decide (format = z2b MS_FORMAT))
    then Err (err "not a p2pnas manifest backup shard")
    else
      v ← slice 9 17 b;
      version ← be_u64 v;
      i ← index b 17;
      let shard_index := Z.to_nat (b2z i) in
      if (TOTAL_SHARDS <=? shard_index)%nat then Err (err "backup shard index out of range")
      else
        sl ← slice 18 22 b;
        shard_len ← be_u32 sl;
        bl ← slice 22 30 b;
        blob_len ← be_u64 bl;
        if blob_len =? 0 then Err (err "backup shard declares an empty blob")
        else
          hash ← slice 30 MS_HEADER b;
          data ← slice MS_HEADER (len b) b;
          if negb (len data =? shard_len) then Err (err "backup shard length mismatch")
          else Ok (mkShard version shard_index blob_len hash data).

Context `{ReedSolomon}.

Definition encode_manifest_backup_shards (version : Z) (blob : bytes) : res StoreError (list bytes) :=
  shards ← map_err Core (encode blob);
  Ok (imap (envelope version blob) shards).

(** [reconstruct(..).ok()?] turns an error into [None]; a panic stays one. *)
Definition try_rebuild (present : list (option bytes)) (blob_len : Z) (hash : bytes)
    : res StoreError (option bytes) :=
  match reconstruct present blob_len with
  | Ok blob => Ok (if bool_decide (blob_hash blob = hash) then Some blob else None)
  | Err _ => Ok None
  | Panic => Panic
  end.

(** The retries: each filled slot is left out in turn. *)
Fixpoint retry_without (present : list (option bytes)) (blob_len : Z) (hash : bytes) (slots : list nat)
    : res StoreError (option bytes) :=
  match slots with
  | [] => Ok None
  | i :: slots =>
      slot ← index present i;
      match slot with
      | None => retry_without present blob_len hash slots
      | Some _ =>
          r ← try_rebuild (<[i := None]> present) blob_len hash;
          match r with
          | Some blob => Ok (Some blob)
          | None => retry_without present blob_len hash slots
          end
      end
  end.

Definition reassemble_manifest_backup (shards : list ManifestBackupShard) : res StoreError bytes :=
  if (length shards <? DATA_SHARDS)%nat then Err (err "not enough backup shards to reconstruct")
  else
    best ← ok_or (max_by_count (tally shards)) (err "no backup shards");
    let '((blob_len, hash), _) := best : (Z * bytes) * Z in
    st ← foldM (fill_slot (blob_len, hash)) (replicate TOTAL_SHARDS None, 0, 0) shards;
    let '(present, _, kept) := st : list (option bytes) * Z * Z in
    if kept <? Z.of_nat DATA_SHARDS
    then Err (err "not enough consistent backup shards to reconstruct")
    else
      r ← try_rebuild present blob_len hash;
      match r with
      | Some blob => Ok blob
      | None =>
          r ← (if Z.of_nat DATA_SHARDS <? kept
               then retry_without present blob_len hash (seq 0 (length present)) else Ok None);
          ok_or r (err "manifest backup shards do not reconstruct a valid blob")
      end.

Record ManifestBackupBlob := mkBackupBlob {
  bb_version : Z;
  bb_snapshot_len : Z;
  bb_blob_len : Z;
  bb_shards : list bytes
}.

(** [snapshot] is what [VACUUM INTO] wrote and the code read back. *)
Definition build_manifest_backup (snapshot : res StoreError bytes) (key : bytes) (peer_id : string) (version : Z)
    : res StoreError ManifestBackupBlob :=
  snapshot ← snapshot;
  blob ← seal_manifest_snapshot key peer_id version snapshot;
  shards ← encode_manifest_backup_shards version blob;
  Ok (mkBackupBlob version (len snapshot) (len blob) shards).
End Prims.

Definition restore_manifest_db (umask : Z) (d : Disk) (connected : res StoreError Db) (snapshot : bytes)
    : res StoreError Disk :=
  _ ← ensure_fresh_node connected;
  run_steps d (write_atomic umask MANIFEST_DB RESTORE_TMP snapshot).

(** ** Envelopes *)

Lemma slice_field {E A} (pre x post whole : list A) n m :
  whole = pre ++ x ++ post -> n = len pre -> m = len pre + len x -> slice (E:=E) n m whole = Ok x.
Proof. intros -> -> ->. apply slice_mid. Qed.

Lemma index_field {E A} (pre post whole : list A) (x : A) n :
  whole = pre ++ x :: post -> n = length pre -> index (E:=E) whole n = Ok x.
Proof. intros -> ->. unfold index. by rewrite lookup_app_r, Nat.sub_diag by lia. Qed.

(** The shard an honest envelope describes. *)
Definition shard_of `{CryptoPrims} (version : Z) (blob : bytes) (i : nat) (s : bytes) : ManifestBackupShard :=
  mkShard version i (len blob) (blob_hash blob) s.

Lemma decode_envelope `{CryptoPrims} `{!CryptoLaws} version blob i s :
  0 <= version < 2 ^ 64 -> 0 < len blob < 2 ^ 64 -> (i < TOTAL_SHARDS)%nat -> len s < 2 ^ 32 ->
  decode_manifest_backup_shard (envelope version blob i s) = Ok (shard_of version blob i s).
Proof.
  intros Hv Hb Hi Hs. pose proof (len_nonneg s) as Hs0. assert (Hh : len (blob_hash blob) = 16).
  { unfold blob_hash. pose proof (blake3_len blob). unfold len in *. rewrite length_take. lia. }
  unfold decode_manifest_backup_shard. set (e := envelope version blob i s).
  assert (He : len e = 46 + len s).
  { unfold e, envelope. rewrite !len_app, !len_be, Hh. change (len MS_MAGIC) with 8.
    change (len [z2b MS_FORMAT]) with 1. change (len [z2b (Z.of_nat i)]) with 1. lia. }
  change MS_HEADER with 46. destruct (Z.ltb_spec (len e) 46); [lia|].
  rewrite (slice_field [] MS_MAGIC (drop 8 e) e 0 8) by done. cbn [mbind res_bind].
  rewrite (index_field MS_MAGIC (drop 9 e) e (z2b MS_FORMAT) 8) by done. cbn [mbind res_bind].
  rewrite !bool_decide_true by done. cbn [negb orb].
  set (h := MS_MAGIC ++ [z2b MS_FORMAT]).
  rewrite (slice_field h (be_bytes 8 version) ([z2b (Z.of_nat i)] ++ be_bytes 4 (len s) ++ be_bytes 8 (len blob) ++ blob_hash blob ++ s) e 9 17)
    by (rewrite ?len_be; done). cbn [mbind res_bind].
  rewrite be_u64_be by done. cbn [mbind res_bind].
  rewrite (index_field (h ++ be_bytes 8 version) (be_bytes 4 (len s) ++ be_bytes 8 (len blob) ++ blob_hash blob ++ s) e (z2b (Z.of_nat i)) 17)
    by first [done|by rewrite <- app_assoc].
  cbn [mbind res_bind]. rewrite b2z_z2b, Z.mod_small, Nat2Z.id by (unfold TOTAL_SHARDS, DATA_SHARDS, PARITY_SHARDS in *; lia).
  destruct (Nat.leb_spec TOTAL_SHARDS i); [lia|].
  set (h1 := h ++ be_bytes 8 version ++ [z2b (Z.of_nat i)]).
  rewrite (slice_field h1 (be_bytes 4 (len s)) (be_bytes 8 (len blob) ++ blob_hash blob ++ s) e 18 22)
    by (unfold h1; rewrite ?len_be, <- ?app_assoc; done). cbn [mbind res_bind].
  rewrite be_u32_be by lia. cbn [mbind res_bind].
  rewrite (slice_field (h1 ++ be_bytes 4 (len s)) (be_bytes 8 (len blob)) (blob_hash blob ++ s) e 22 30)
    by (unfold h1; rewrite ?len_be, <- ?app_assoc; done). cbn [mbind res_bind].
  rewrite be_u64_be by lia. cbn [mbind res_bind]. destruct (Z.eqb_spec (len blob) 0); [lia|].
  set (h2 := h1 ++ be_bytes 4 (len s) ++ be_bytes 8 (len blob)).
  assert (Hh2 : len h2 = 30) by done.
  assert (Ee : e = h2 ++ blob_hash blob ++ s) by (unfold h2, h1; rewrite <- ?app_assoc; done).
  rewrite (slice_field h2 (blob_hash blob) s e 30 46) by (rewrite ?Hh2, ?Hh; done). cbn [mbind res_bind].
  rewrite (slice_field (h2 ++ blob_hash blob) s [] e 46 (len e))
    by (rewrite ?app_nil_r, <- ?app_assoc, ?len_app, ?Hh2, ?Hh, ?He; done).
  cbn [mbind res_bind]. by rewrite Z.eqb_refl.
Qed.

(** ** The majority *)

Definition votes (k : Z * bytes) (l : list ManifestBackupShard) : Z :=
  len (filter (fun s => geometry s = k) l).

Lemma tally_add_in k t k' n :
  NoDup t.*1 ->
  (k', n) ∈ tally_add k t <->
  (k' <> k /\ (k', n) ∈ t) \/ (k' = k /\ ((k, n - 1) ∈ t \/ (n = 1 /\ k ∉ t.*1))).
Proof.
  induction t as [|[k0 n0] t IH]; intros Hnd; cbn [tally_add].
  - rewrite list_elem_of_singleton. split.
    + intros [= -> ->]. right. split; [done|]. right. split; [done|apply not_elem_of_nil].
    + intros [[_ []%elem_of_nil]|[-> [[]%elem_of_nil|[-> _]]]]. done.
  - rewrite fmap_cons, NoDup_cons in Hnd. cbn in Hnd. destruct Hnd as [Hk0 Hnd]. specialize (IH Hnd).
    assert (Hfst : forall k n, (k, n) ∈ t -> k ∈ t.*1) by (intros; apply list_elem_of_fmap; by eexists (_, _)).
    case_decide as E; rewrite !elem_of_cons, fmap_cons, ?elem_of_cons; cbn [fst].
    + subst k0. split.
      * intros [[= -> ->]|Hin]; [right|left].
        -- split; [done|]. left. left. f_equal. lia.
        -- split; [|by right]. intros ->. by apply Hk0, Hfst with n.
      * intros [[Hne [[= -> ->]|Hin]]|[-> [[[= <-]|Hin]|[-> Hno]]]]; [done|by right| | |].
        -- left. f_equal. lia.
        -- exfalso. by apply Hk0, Hfst with (n - 1).
        -- exfalso. apply Hno. by left.
    + rewrite IH. split.
      * intros [[= -> ->]|[[Hne Hin]|[-> [Hin|[-> Hno]]]]]; [left; split; [done|by left]|left; split; [done|by right]|right..].
        -- split; [done|]. left. by right.
        -- split; [done|]. right. split; [done|]. intros [->|?]; done.
      * intros [[Hne [[= -> ->]|Hin]]|[-> [[[= ? ?]|Hin]|[-> Hno]]]]; [by left|right; by left| | |]; subst; try done.
        -- right. right. split; [done|by left].
        -- right. right. split; [done|]. right. split; [done|]. intros ?. apply Hno. by right.
Qed.

Lemma tally_add_keys k t :
  NoDup t.*1 -> NoDup (tally_add k t).*1 /\ forall k', k' ∈ (tally_add k t).*1 -> k' = k \/ k' ∈ t.*1.
Proof.
  induction t as [|[k0 n0] t IH]; intros Hnd; cbn [tally_add].
  - split; [constructor; [apply not_elem_of_nil|constructor]|]. intros k' Hk'. left. by apply list_elem_of_singleton in Hk'.
  - rewrite fmap_cons, NoDup_cons in Hnd. cbn in Hnd. destruct Hnd as [Hk0 Hnd]. destruct (IH Hnd) as [IH1 IH2].
    case_decide; rewrite !fmap_cons, NoDup_cons; cbn [fst].
    + split; [done|]. intros k' Hk'. right. done.
    + split; [split; [|done]|].
      * intros [?|?]%IH2; done.
      * intros k' [->|[?|?]%IH2]%elem_of_cons; [right; left|by left|right; by right].
Qed.

Lemma votes_snoc k l s : votes k (l ++ [s]) = votes k l + (if decide (geometry s = k) then 1 else 0).
Proof. unfold votes. rewrite filter_app, len_app, filter_cons. case_decide; done. Qed.

Lemma tally_spec l :
  NoDup (tally l).*1 /\ forall k n, (k, n) ∈ tally l <-> n = votes k l /\ 0 < n.
Proof.
  induction l as [|s l [IHd IH]] using rev_ind.
  { split; [constructor|]. intros k n. split; [intros []%elem_of_nil|].
    change (votes k []) with 0. lia. }
  unfold tally. rewrite foldl_app. cbn [foldl]. fold (tally l). split; [by apply tally_add_keys|].
  intros k n. rewrite tally_add_in, votes_snoc by done. rewrite !IH.
  assert (Hno : geometry s ∉ (tally l).*1 <-> votes (geometry s) l <= 0).
  { split.
    - intros Hno. destruct (decide (votes (geometry s) l <= 0)); [done|]. exfalso. apply Hno.
      apply list_elem_of_fmap. exists (geometry s, votes (geometry s) l). split; [done|]. apply IH. lia.
    - intros Hle ([k' n'] & Hk' & Hin)%list_elem_of_fmap. cbn in Hk'. subst k'. apply IH in Hin. lia. }
  rewrite Hno. pose proof (len_nonneg (filter (fun x => geometry x = k) l)) as Hpos. fold (votes k l) in Hpos.
  case_decide as E.
  - subst k. split; [intros [[? _]|[_ Hc]]; [done|lia]|intros [-> ?]; right; split; [done|]; lia].
  - split; [intros [[_ ?]|[-> _]]; [lia|done]|intros [-> ?]; left; split; [congruence|lia]].
Qed.

Lemma max_by_count_spec t b :
  max_by_count t = Some b -> b ∈ t /\ forall e, e ∈ t -> snd e <= snd b.
Proof.
  unfold max_by_count. revert b. induction t as [|e t IH] using rev_ind; intros b; [done|].
  rewrite foldl_app. cbn [foldl]. destruct (foldl _ None t) as [b0|] eqn:E.
  - destruct (IH b0 eq_refl) as [Hin Hmax]. destruct (Z.ltb_spec (snd e) (snd b0)); intros [= <-];
      (split; [apply elem_of_app; first [by left|right; left]|]);
      intros x [Hx| ->%list_elem_of_singleton]%elem_of_app; try lia; specialize (Hmax x Hx); lia.
  - intros [= <-]. split; [apply elem_of_app; right; left|].
    destruct t as [|y t _] using rev_ind; [by intros x ->%list_elem_of_singleton|].
    rewrite foldl_app in E. cbn [foldl] in E. by repeat case_match.
Qed.

(** The geometry most envelopes declare wins the vote. *)
Lemma majority_wins g l :
  0 < votes g l -> (forall k, k <> g -> votes k l < votes g l) ->
  exists n, max_by_count (tally l) = Some (g, n).
Proof.
  intros Hpos Hmaj. destruct (tally_spec l) as [_ Hin].
  assert (Hg : (g, votes g l) ∈ tally l) by (apply Hin; done).
  destruct (max_by_count (tally l)) as [[k n]|] eqn:E.
  - apply max_by_count_spec in E as [Hk Hmax]. specialize (Hmax _ Hg). cbn in Hmax. apply Hin in Hk as [-> _].
    destruct (decide (k = g)) as [->|Hne]; [by eexists|]. specialize (Hmaj k Hne). lia.
  - exfalso. unfold max_by_count in E. destruct (tally l) as [|y t _] using rev_ind; [by apply elem_of_nil in Hg|].
    rewrite foldl_app in E. cbn [foldl] in E. by repeat case_match.
Qed.

(** ** The slots *)

(** What the loop keeps once the shard length is known. *)
Definition matching (g : Z * bytes) (s : ManifestBackupShard) : bool :=
  (sh_index s <? TOTAL_SHARDS)%nat && bool_decide (geometry s = g).
Definition usable (g : Z * bytes) (sl : Z) (s : ManifestBackupShard) : bool :=
  matching g s && (len (sh_data s) =? sl).
(** The first usable shard of a slot. *)
Definition first_usable (g : Z * bytes) (sl : Z) (i : nat) (l : list ManifestBackupShard) : option bytes :=
  sh_data <$> head (filter (fun s => usable g sl s = true /\ sh_index s = i) l).
Definition opt_or {A} (a b : option A) : option A := match a with Some x => Some x | None => b end.

Lemma fill_slot_matching g st s :
  fill_slot g st s =
    if matching g s then
      let '(present, sl, kept) := st in
      let sl := if sl =? 0 then len (sh_data s) else sl in
      if negb (len (sh_data s) =? sl) then Ok (present, sl, kept)
      else
        slot ← index present (sh_index s);
        match slot with
        | Some _ => Ok (present, sl, kept)
        | None => Ok (<[sh_index s := Some (sh_data s)]> present, sl, kept + 1)
        end
    else Ok st.
Proof.
  unfold fill_slot, matching. destruct st as [[present sl] kept].
  destruct (Nat.leb_spec TOTAL_SHARDS (sh_index s)), (Nat.ltb_spec (sh_index s) TOTAL_SHARDS); try lia; [done|].
  by destruct (bool_decide _).
Qed.

Lemma fill_slots g sl l present kept :
  0 < sl -> length present = TOTAL_SHARDS -> kept = len (omap id present) ->
  exists present' kept', foldM (fill_slot g) (present, sl, kept) l = Ok (present', sl, kept') /\
    length present' = TOTAL_SHARDS /\ kept' = len (omap id present') /\
    forall i o, present !! i = Some o -> present' !! i = Some (opt_or o (first_usable g sl i l)).
Proof.
  intros Hsl. revert present kept. induction l as [|s l IH]; intros present kept Hlen Hkept.
  { exists present, kept. split; [done|split; [done|split; [done|]]]. intros i o Ho. cbn. by destruct o. }
  cbn [foldM]. rewrite fill_slot_matching.
  assert (Hskip : usable g sl s = false -> forall i, first_usable g sl i (s :: l) = first_usable g sl i l).
  { intros Hu i. unfold first_usable. rewrite filter_cons_False; [done|]. rewrite Hu. by intros []. }
  assert (Hhit : forall i, usable g sl s = true -> first_usable g sl i (s :: l) =
            if decide (sh_index s = i) then Some (sh_data s) else first_usable g sl i l).
  { intros i Hu. unfold first_usable. rewrite filter_cons. destruct (decide (sh_index s = i)) as [E|E].
    - by rewrite decide_True.
    - rewrite decide_False; [done|]. by intros [_ ?]. }
  unfold usable in Hskip, Hhit. destruct (matching g s) eqn:Em; cbn [andb] in *.
  2:{ cbn [mbind res_bind]. destruct (IH present kept Hlen Hkept) as (p' & k' & Hf & Hl & Hk & Hp).
      exists p', k'. split; [done|split; [done|split; [done|]]]. intros i o Ho. rewrite Hskip by done. by apply Hp. }
  destruct (Z.eqb_spec sl 0) as [|_]; [lia|].
  destruct (Z.eqb_spec (len (sh_data s)) sl) as [El|El]; cbn [negb].
  2:{ cbn [mbind res_bind]. destruct (IH present kept Hlen Hkept) as (p' & k' & Hf & Hl & Hk & Hp).
      exists p', k'. split; [done|split; [done|split; [done|]]]. intros i o Ho. rewrite Hskip by done. by apply Hp. }
  assert (Hi : (sh_index s < length present)%nat)
    by (unfold matching in Em; apply andb_true_iff in Em as [Em _]; apply Nat.ltb_lt in Em; lia).
  destruct (lookup_lt_is_Some_2 present _ Hi) as [slot Hslot]. unfold index. rewrite Hslot. cbn [mbind res_bind].
  destruct slot as [w|]; cbn [mbind res_bind].
  - destruct (IH present kept Hlen Hkept) as (p' & k' & Hf & Hl & Hk & Hp).
    exists p', k'. split; [done|split; [done|split; [done|]]]. intros i o Ho. rewrite (Hp i o Ho), Hhit by done.
    case_decide as E; [|done]. subst i. by assert (o = Some w) as -> by congruence.
  - destruct (IH (<[sh_index s := Some (sh_data s)]> present) (kept + 1)) as (p' & k' & Hf & Hl & Hk & Hp).
    { by rewrite length_insert. }
    { rewrite Hkept. unfold len. rewrite omap_insert_none by done. lia. }
    exists p', k'. split; [done|split; [done|split; [done|]]]. intros i o Ho. rewrite Hhit by done.
    destruct (decide (sh_index s = i)) as [<-|Hne].
    + assert (o = None) as -> by congruence. rewrite (Hp _ (Some (sh_data s))); [done|]. by rewrite list_lookup_insert_eq.
    + apply Hp. by rewrite list_lookup_insert_ne.
Qed.

(** The first shard of the elected geometry sets the length. *)
Lemma fill_slots_length g sl l present kept :
  0 < sl -> (forall s, head (filter (fun s => matching g s = true) l) = Some s -> len (sh_data s) = sl) ->
  filter (fun s => matching g s = true) l <> [] ->
  foldM (fill_slot g) (present, 0, kept) l = foldM (fill_slot g) (present, sl, kept) l.
Proof.
  intros Hsl. revert present kept. induction l as [|s l IH]; intros present kept Hhead Hne; [done|].
  cbn [foldM]. rewrite !fill_slot_matching. destruct (matching g s) eqn:Em.
  - rewrite filter_cons_True in Hhead by done. rewrite (Hhead s eq_refl). change (0 =? 0) with true. cbv iota zeta.
    rewrite (proj2 (Z.eqb_neq sl 0)) by lia. done.
  - rewrite filter_cons_False in Hhead, Hne by congruence. cbn [mbind res_bind]. by apply IH.
Qed.

(** The whole loop, from fourteen empty slots. *)
Lemma filled g sl l :
  0 < sl -> (forall s, head (filter (fun s => matching g s = true) l) = Some s -> len (sh_data s) = sl) ->
  filter (fun s => matching g s = true) l <> [] ->
  exists present kept, foldM (fill_slot g) (replicate TOTAL_SHARDS None, 0, 0) l = Ok (present, sl, kept) /\
    length present = TOTAL_SHARDS /\ kept = len (omap id present) /\
    forall i, (i < TOTAL_SHARDS)%nat -> present !! i = Some (first_usable g sl i l).
Proof.
  intros Hsl Hhead Hne. rewrite (fill_slots_length g sl) by done.
  destruct (fill_slots g sl l (replicate TOTAL_SHARDS None) 0) as (p & k & Hf & Hl & Hk & Hp); [done..|].
  exists p, k. split; [done|split; [done|split; [done|]]]. intros i Hi. rewrite (Hp i None); [done|].
  by apply lookup_replicate_2.
Qed.

Lemma first_usable_some g sl i l v :
  first_usable g sl i l = Some v -> exists s, s ∈ l /\ usable g sl s = true /\ sh_index s = i /\ sh_data s = v.
Proof.
  unfold first_usable. intros (s & Hs & ->)%fmap_Some.
  assert (Hin : s ∈ filter (fun s => usable g sl s = true /\ sh_index s = i) l)
    by (destruct (filter _ l); [done|injection Hs as ->; left]).
  apply list_elem_of_filter in Hin as [[Hu Hi] Hin]. by exists s.
Qed.

Lemma first_usable_is_some g sl l s :
  s ∈ l -> usable g sl s = true -> exists v, first_usable g sl (sh_index s) l = Some v.
Proof.
  intros Hs Hu. unfold first_usable.
  assert (Hin : s ∈ filter (fun x => usable g sl x = true /\ sh_index x = sh_index s) l)
    by (apply list_elem_of_filter; done).
  destruct (filter _ l) as [|x ?]; [by apply elem_of_nil in Hin|]. by exists (sh_data x).
Qed.

(** Distinct filled slots are counted. *)
Lemma filled_count (present : list (option bytes)) (js : list nat) :
  NoDup js -> (forall j, j ∈ js -> exists v, present !! j = Some (Some v)) -> (length js <= length (omap id present))%nat.
Proof.
  intros Hnd Hjs. destruct (present_shards_spec present) as (_ & Hl & Hin).
  rewrite <- Hl, <- (length_fmap fst). apply submseteq_length, NoDup_submseteq; [done|].
  intros j Hj. destruct (Hjs j Hj) as [v Hv]. apply list_elem_of_fmap. exists (j, v). split; [done|]. by apply Hin.
Qed.

Lemma filled_few (present : list (option bytes)) j :
  (forall i v, present !! i = Some (Some v) -> i = j) -> (length (omap id present) <= 1)%nat.
Proof.
  intros Hj. destruct (present_shards_spec present) as (Hnd & Hl & Hin). rewrite <- Hl, <- (length_fmap fst).
  change 1%nat with (length [j]). apply submseteq_length, NoDup_submseteq; [done|].
  intros i ([i' v] & -> & Hi)%list_elem_of_fmap. apply list_elem_of_singleton. apply Hin in Hi. by eapply Hj.
Qed.

(** ** Reconstruction from what the peers answered *)

Definition index_set (l : list ManifestBackupShard) : gset nat := list_to_set (sh_index <$> l).

Section Reassembly.
Context `{CryptoPrims} `{RS : ReedSolomon} {RSL : ReedSolomonLaws}.
Context (version : Z) (blob : bytes) (shards : list bytes).
Hypothesis encoded : encode blob = Ok shards.

(** A shard as its envelope, unaltered, decodes. *)
Definition honest (s : ManifestBackupShard) : Prop :=
  exists i d, shards !! i = Some d /\ s = shard_of version blob i d.

Let g : Z * bytes := (len blob, blob_hash blob).
Let sl : Z := shard_len (len blob).

Lemma sl_pos : 0 < sl.
Proof using. apply shard_len_spec, len_nonneg. Qed.

Lemma shards_geometry : length shards = TOTAL_SHARDS /\ Forall (fun d => len d = sl) shards.
Proof using encoded RSL.
  destruct (encode_ok blob) as (shards' & He & Hl & Hf). assert (shards' = shards) as -> by congruence. done.
Qed.

Lemma honest_usable s : honest s -> usable g sl s = true.
Proof using encoded RSL.
  intros (i & d & Hd & ->). destruct shards_geometry as [Hl Hf]. unfold usable, matching, shard_of, geometry.
  cbn [sh_index sh_blob_len sh_blob_hash sh_data].
  rewrite bool_decide_true by done. rewrite (Forall_lookup_1 _ _ _ _ Hf Hd), Z.eqb_refl.
  apply lookup_lt_Some in Hd. rewrite Hl in Hd. rewrite !andb_true_r. by apply Nat.ltb_lt.
Qed.

Lemma honest_matching s : honest s -> matching g s = true.
Proof using encoded RSL. intros Hs%honest_usable. by apply andb_true_iff in Hs as [? _]. Qed.

Lemma honest_votes l k : Forall honest l -> votes k l = if decide (k = g) then len l else 0.
Proof using encoded RSL.
  induction 1 as [|s l Hs Hl IH]; [by case_decide|].
  unfold votes in *. rewrite filter_cons.
  assert (Hg : geometry s = g) by (destruct Hs as (i & d & _ & ->); done).
  rewrite Hg. destruct (decide (k = g)) as [->|Hne].
  - rewrite decide_True by done. rewrite !len_cons. lia.
  - rewrite decide_False by congruence. done.
Qed.

Lemma index_set_length l : (base.size (index_set l) <= length l)%nat.
Proof using.
  unfold index_set, base.size, set_size. cbn. rewrite <- (length_fmap sh_index).
  apply submseteq_length, NoDup_submseteq; [apply NoDup_elements|]. intros i. by rewrite elem_of_elements, elem_of_list_to_set.
Qed.

(** Every reconstruction the routine tries ends. *)
Lemma try_rebuild_total present :
  length present = TOTAL_SHARDS -> Forall (fun p => forall v, p = Some v -> len v = sl) present ->
  exists r, try_rebuild present g.1 g.2 = Ok r /\ forall b, r = Some b -> blob_hash b = blob_hash blob.
Proof using encoded RSL.
  intros Hl Hp. pose proof (reconstruct_no_panic present sl g.1 Hl ltac:(pose proof sl_pos; lia) Hp) as Hnp.
  unfold try_rebuild. destruct (reconstruct present g.1) as [b|e|]; [|by exists None|done].
  eexists. split; [reflexivity|]. intros b'. case_bool_decide; [|done]. by intros [= <-].
Qed.

Lemma retry_total present slots :
  length present = TOTAL_SHARDS -> Forall (fun p => forall v, p = Some v -> len v = sl) present ->
  Forall (fun i => i < TOTAL_SHARDS)%nat slots ->
  exists r, retry_without present g.1 g.2 slots = Ok r /\ (forall b, r = Some b -> blob_hash b = blob_hash blob) /\
    forall i v b, i ∈ slots -> present !! i = Some (Some v) ->
      try_rebuild (<[i := None]> present) g.1 g.2 = Ok (Some b) -> r <> None.
Proof using encoded RSL.
  intros Hl Hp. induction slots as [|i slots IH]; intros Hs; cbn [retry_without].
  { exists None. split; [done|split; [done|]]. by intros ? ? ? []%elem_of_nil. }
  apply Forall_cons in Hs as [Hi Hs]. destruct (IH Hs) as (r & Hr & Hh & Hfind).
  destruct (lookup_lt_is_Some_2 present i) as [slot Hslot]; [lia|]. unfold index. rewrite Hslot. cbn [mbind res_bind].
  destruct slot as [w|].
  2:{ exists r. split; [done|split; [done|]]. intros j v b [->|Hj]%elem_of_cons Hv; [congruence|]. by eapply Hfind. }
  destruct (try_rebuild_total (<[i := None]> present)) as (t & Ht & Hth).
  { by rewrite length_insert. }
  { by apply Forall_insert. }
  rewrite Ht. cbn [mbind res_bind]. destruct t as [b|].
  - exists (Some b). split; [done|split; [|done]]. intros b' [= <-]. by apply Hth.
  - exists r. split; [done|split; [done|]]. intros j v b [->|Hj]%elem_of_cons Hv Hb; [congruence|]. by eapply Hfind.
Qed.

(** Ten honest slots rebuild the blob. *)
Lemma honest_rebuild present :
  survives present shards -> (DATA_SHARDS <= length (omap id present))%nat ->
  try_rebuild present g.1 g.2 = Ok (Some blob).
Proof using encoded RSL.
  intros Hs Hten. unfold try_rebuild. cbn [fst snd g].
  rewrite (reconstruct_survivors blob shards present encoded Hs Hten). by rewrite bool_decide_true.
Qed.

Lemma survives_slots present :
  length present = TOTAL_SHARDS ->
  (forall i v, present !! i = Some (Some v) -> shards !! i = Some v) -> survives present shards.
Proof using encoded RSL.
  intros Hl Hs. destruct shards_geometry as [Hsl _]. apply Forall2_same_length_lookup_2; [by rewrite Hl, Hsl|].
  intros i o s Ho Hsi. destruct o as [v|]; [right|by left]. apply Hs in Ho. congruence.
Qed.

(** What follows the loop. *)
Definition rebuild_slots (present : list (option bytes)) : res StoreError bytes :=
  if len (omap id present) <? Z.of_nat DATA_SHARDS
  then Err (err "not enough consistent backup shards to reconstruct")
  else
    r ← try_rebuild present g.1 g.2;
    match r with
    | Some b => Ok b
    | None =>
        r ← (if Z.of_nat DATA_SHARDS <? len (omap id present)
             then retry_without present g.1 g.2 (seq 0 (length present)) else Ok None);
        ok_or r (err "manifest backup shards do not reconstruct a valid blob")
    end.

(** The slots after the loop, when the elected geometry is the blob's. *)
Lemma reassemble_unfold got n :
  (DATA_SHARDS <= length got)%nat -> max_by_count (tally got) = Some (g, n) ->
  (forall s, head (filter (fun s => matching g s = true) got) = Some s -> len (sh_data s) = sl) ->
  filter (fun s => matching g s = true) got <> [] ->
  exists present, length present = TOTAL_SHARDS /\
    (forall i, (i < TOTAL_SHARDS)%nat -> present !! i = Some (first_usable g sl i got)) /\
    Forall (fun p => forall v, p = Some v -> len v = sl) present /\
    reassemble_manifest_backup got = rebuild_slots present.
Proof using.
  intros Hlen Hbest Hhead Hne. destruct (filled g sl got sl_pos Hhead Hne) as (present & kept & Hf & Hl & Hk & Hp).
  exists present. split; [done|split; [done|split]].
  - apply Forall_lookup. intros i o Ho v ->.
    assert (Hi : (i < TOTAL_SHARDS)%nat) by (rewrite <- Hl; by eapply lookup_lt_Some).
    rewrite Hp in Ho by done. injection Ho as Ho. apply first_usable_some in Ho as (s & _ & Hu & _ & <-).
    unfold usable in Hu. apply andb_true_iff in Hu as [_ Hu]. by apply Z.eqb_eq.
  - unfold reassemble_manifest_backup. destruct (Nat.ltb_spec (length got) DATA_SHARDS); [lia|].
    rewrite Hbest. unfold g in *. cbn [ok_or mbind res_bind]. rewrite Hf. cbn [mbind res_bind]. by rewrite Hk.
Qed.

(** Slot [j] aside, the slots hold the blob's shards and ten of them are filled: the blob
    comes out, or another of the same hash. When the first attempt fails slot [j] holds a
    wrong copy, so a spare exists and leaving [j] out succeeds. *)
Lemma rebuild_tainted present j js :
  length present = TOTAL_SHARDS -> Forall (fun p => forall v, p = Some v -> len v = sl) present ->
  NoDup js -> (DATA_SHARDS <= length js)%nat -> j ∉ js ->
  (forall i, i ∈ js -> exists v, present !! i = Some (Some v)) ->
  (forall i v, i <> j -> present !! i = Some (Some v) -> shards !! i = Some v) ->
  exists b, rebuild_slots present = Ok b /\ blob_hash b = blob_hash blob.
Proof using encoded RSL.
  intros Hl Hps Hnd Hten Hj Hfill Hother. unfold rebuild_slots.
  pose proof (filled_count present js Hnd Hfill) as Hcount.
  destruct (Z.ltb_spec (len (omap id present)) (Z.of_nat DATA_SHARDS)) as [|_]; [unfold len in *; lia|].
  destruct (try_rebuild_total present Hl Hps) as (r & Hr & Hrh). rewrite Hr. cbn [mbind res_bind].
  destruct r as [b|]; [exists b; split; [done|by apply Hrh]|].
  assert (Hw : exists w, present !! j = Some (Some w)).
  { destruct (present !! j) as [[w|]|] eqn:Ej; [by exists w|exfalso..];
      assert (Hsv : survives present shards)
        by (apply survives_slots; [done|]; intros i v Hv; apply Hother; [congruence|done]);
      rewrite (honest_rebuild present Hsv) in Hr by lia; discriminate. }
  destruct Hw as [w Hw].
  assert (Hspare : (S (length js) <= length (omap id present))%nat).
  { apply (filled_count present (j :: js)); [by constructor|].
    intros i [->|Hi]%elem_of_cons; [by exists w|by apply Hfill]. }
  destruct (Z.ltb_spec (Z.of_nat DATA_SHARDS) (len (omap id present))) as [_|]; [|unfold len in *; lia].
  destruct (retry_total present (seq 0 (length present)) Hl Hps) as (r & Hretry & Hrh' & Hfind).
  { apply Forall_forall. intros i Hi%elem_of_seq. lia. }
  rewrite Hretry. cbn [mbind res_bind].
  destruct r as [b|]; [exists b; split; [done|by apply Hrh']|]. exfalso.
  apply (Hfind j w blob); [apply elem_of_seq; apply lookup_lt_Some in Hw; lia|done| |done].
  apply honest_rebuild.
  - apply survives_slots; [by rewrite length_insert|]. intros i v Hv. apply list_lookup_insert_Some in Hv as [(_ & ? & _)|[Hij Hv]]; [done|].
    by apply Hother.
  - etransitivity; [exact Hten|]. apply filled_count; [done|]. intros i Hi.
    rewrite list_lookup_insert_ne by (intros ->; done). by apply Hfill.
Qed.

(** Every usable shard outside slot [j] is honest and ten honest slots other than [j] are
    answered: the blob, or another of the same hash. *)
Lemma reassemble_tainted got n j js :
  (DATA_SHARDS <= length got)%nat -> max_by_count (tally got) = Some (g, n) ->
  (forall s, head (filter (fun s => matching g s = true) got) = Some s -> len (sh_data s) = sl) ->
  (forall s, s ∈ got -> usable g sl s = true -> sh_index s <> j -> honest s) ->
  NoDup js -> (DATA_SHARDS <= length js)%nat -> j ∉ js ->
  (forall i, i ∈ js -> exists s, s ∈ got /\ honest s /\ sh_index s = i) ->
  exists b, reassemble_manifest_backup got = Ok b /\ blob_hash b = blob_hash blob.
Proof using encoded RSL.
  intros Hlen Hbest Hhead Hclean Hnd Hten Hj Hjs.
  assert (Hjs' : forall i, i ∈ js -> (i < TOTAL_SHARDS)%nat /\ exists s, s ∈ got /\ honest s /\ sh_index s = i).
  { intros i Hi. destruct (Hjs i Hi) as (s & Hs & Hh & <-). split; [|by exists s].
    apply honest_matching in Hh. apply andb_true_iff in Hh as [Hh _]. by apply Nat.ltb_lt. }
  assert (Hne : filter (fun s => matching g s = true) got <> []).
  { destruct js as [|i js']; [cbn in Hten; unfold DATA_SHARDS in *; lia|].
    destruct (Hjs' i) as (_ & s & Hs & Hh & _); [left|]. intros Hnil.
    apply (not_elem_of_nil s). rewrite <- Hnil. apply list_elem_of_filter. split; [by apply honest_matching|done]. }
  destruct (reassemble_unfold got n Hlen Hbest Hhead Hne) as (present & Hl & Hp & Hps & ->).
  assert (Hfill : forall i, i ∈ js -> exists v, present !! i = Some (Some v)).
  { intros i Hi. destruct (Hjs' i Hi) as (Hlt & s & Hs & Hh & <-). rewrite Hp by done.
    destruct (first_usable_is_some g sl got s Hs (honest_usable s Hh)) as [v ->]. by exists v. }
  assert (Hother : forall i v, i <> j -> present !! i = Some (Some v) -> shards !! i = Some v).
  { intros i v Hij Hv. assert (Hi : (i < TOTAL_SHARDS)%nat) by (rewrite <- Hl; by eapply lookup_lt_Some).
    rewrite Hp in Hv by done. injection Hv as Hv. apply first_usable_some in Hv as (s & Hs & Hu & <- & <-).
    destruct (Hclean s Hs Hu Hij) as (i' & d & Hd & ->). done. }
  by apply (rebuild_tainted present j js).
Qed.

Lemma index_set_list l (X : gset nat) :
  X ⊆ index_set l -> exists js, NoDup js /\ length js = base.size X /\
    (forall i, i ∈ js <-> i ∈ X) /\ forall i, i ∈ js -> exists s, s ∈ l /\ sh_index s = i.
Proof using.
  intros HX. exists (elements X). split; [apply NoDup_elements|split; [done|split; [intros; apply elem_of_elements|]]].
  intros i Hi%elem_of_elements. apply HX in Hi. unfold index_set in Hi.
  apply elem_of_list_to_set, list_elem_of_fmap in Hi as (s & -> & Hs). by exists s.
Qed.

Lemma geometry_wins got :
  (3 <= length got)%nat -> len got - 1 <= votes g got -> exists n, max_by_count (tally got) = Some (g, n).
Proof using.
  intros Hlen Hg. apply majority_wins; [unfold len in *; lia|]. intros k Hk.
  assert (Hsum : votes k got + votes g got <= len got).
  { clear Hg Hlen. induction got as [|s l IH]; [done|]. unfold votes in *. rewrite !filter_cons, len_cons.
    destruct (decide (geometry s = k)), (decide (geometry s = g)); rewrite ?len_cons; try lia. congruence. }
  unfold len in *. lia.
Qed.

Lemma head_honest got s :
  Forall honest got -> head (filter (fun s => matching g s = true) got) = Some s -> len (sh_data s) = sl.
Proof using encoded RSL.
  intros Hall Hs. assert (Hin : s ∈ filter (fun s => matching g s = true) got)
    by (destruct (filter _ got); [done|injection Hs as ->; left]).
  apply list_elem_of_filter in Hin as [_ Hin]. rewrite Forall_forall in Hall.
  specialize (Hall s Hin). apply honest_usable in Hall. unfold usable in Hall. apply andb_true_iff in Hall as [_ Hall].
  by apply Z.eqb_eq.
Qed.

(** Honest answers for ten slots or more give the blob itself. *)
Lemma reassemble_honest got :
  Forall honest got -> (DATA_SHARDS <= base.size (index_set got))%nat ->
  reassemble_manifest_backup got = Ok blob.
Proof using encoded RSL.
  intros Hall Hten. pose proof (index_set_length got) as Hlen.
  destruct (geometry_wins got) as (n & Hbest); [unfold DATA_SHARDS in *; lia| |].
  { rewrite honest_votes, decide_True by done. lia. }
  destruct (index_set_list got (index_set got)) as (js & Hnd & Hjl & _ & Hjs); [done|].
  assert (Hlt : forall i, i ∈ js -> (i < TOTAL_SHARDS)%nat /\ exists s, s ∈ got /\ honest s /\ sh_index s = i).
  { intros i Hi. destruct (Hjs i Hi) as (s & Hs & <-). rewrite Forall_forall in Hall. specialize (Hall s Hs).
    split; [|by exists s]. apply honest_matching, andb_true_iff in Hall as [Hh _]. by apply Nat.ltb_lt. }
  destruct (reassemble_unfold got n) as (present & Hl & Hp & Hps & ->); [lia|done|intros s Hs; by apply (head_honest got s)| |].
  { assert (Hpos : (0 < length got)%nat) by (unfold DATA_SHARDS in *; lia).
    destruct got as [|s l]; [cbn in Hpos; lia|]. apply Forall_cons in Hall as [Hs _].
    by rewrite filter_cons_True by (by apply honest_matching). }
  assert (Hcount : (DATA_SHARDS <= length (omap id present))%nat).
  { rewrite <- Hjl in Hten. etransitivity; [exact Hten|]. apply filled_count; [done|]. intros i Hi.
    destruct (Hlt i Hi) as (Hi' & s & Hs & Hh & <-). rewrite Hp by done.
    destruct (first_usable_is_some g sl got s Hs (honest_usable s Hh)) as [v ->]. by exists v. }
  unfold rebuild_slots. destruct (Z.ltb_spec (len (omap id present)) (Z.of_nat DATA_SHARDS)) as [|_]; [unfold len in *; lia|].
  rewrite honest_rebuild; [done| |done]. apply survives_slots; [done|]. intros i v Hv.
  assert (Hi : (i < TOTAL_SHARDS)%nat) by (rewrite <- Hl; by eapply lookup_lt_Some).
  rewrite Hp in Hv by done. injection Hv as Hv. apply first_usable_some in Hv as (s & Hs & Hu & <- & <-).
  rewrite Forall_forall in Hall. destruct (Hall s Hs) as (i' & d & Hd & ->). done.
Qed.

(** One dishonest answer among honest ones for ten other slots. *)
Lemma reassemble_one_bad pre bad post :
  Forall honest pre -> Forall honest post ->
  (pre = [] -> matching g bad = true -> len (sh_data bad) = sl) ->
  (DATA_SHARDS <= base.size (index_set (pre ++ post) ∖ {[sh_index bad]}))%nat ->
  exists b, reassemble_manifest_backup (pre ++ bad :: post) = Ok b /\ blob_hash b = blob_hash blob.
Proof using encoded RSL.
  intros Hpre Hpost Hbad Hten.
  destruct (index_set_list (pre ++ post) (index_set (pre ++ post) ∖ {[sh_index bad]})) as (js & Hnd & Hjl & Hjx & Hjs); [set_solver|].
  assert (Hhon : Forall honest (pre ++ post)) by (by apply Forall_app).
  assert (Hlen : (base.size (index_set (pre ++ post) ∖ {[sh_index bad]}) <= length pre + length post)%nat).
  { rewrite <- length_app. etransitivity; [|apply index_set_length]. apply subseteq_size. set_solver. }
  destruct (geometry_wins (pre ++ bad :: post)) as (n & Hbest).
  { rewrite length_app. cbn [length]. unfold DATA_SHARDS in *. lia. }
  { pose proof (honest_votes (pre ++ post) g Hhon) as Hv. rewrite decide_True in Hv by done.
    unfold votes in *. rewrite filter_app, !len_app in Hv. rewrite filter_app, filter_cons, !len_app, len_cons.
    case_decide; rewrite ?len_cons; lia. }
  apply (reassemble_tainted _ n (sh_index bad) js); try done.
  - rewrite length_app. cbn [length]. lia.
  - intros s Hs. destruct pre as [|p pre].
    + cbn [app] in Hs. destruct (matching g bad) eqn:Em.
      * rewrite filter_cons_True in Hs by done. injection Hs as <-. by apply Hbad.
      * rewrite filter_cons_False in Hs by congruence. by apply (head_honest post s).
    + apply Forall_cons in Hpre as [Hp Hpre]. cbn [app] in Hs. rewrite filter_cons_True in Hs by (by apply honest_matching).
      injection Hs as <-. apply (head_honest [p] p); [by repeat constructor|]. by rewrite filter_cons_True by (by apply honest_matching).
  - intros s Hs _ Hne. rewrite Forall_forall in Hhon. apply Hhon.
    rewrite elem_of_app, elem_of_cons in Hs. destruct Hs as [?|[->|?]]; [set_solver|done|set_solver].
  - lia.
  - intros Hin%Hjx. set_solver.
  - intros i Hi. destruct (Hjs i Hi) as (s & Hs & Hidx). exists s. split; [set_solver|split; [|done]].
    rewrite Forall_forall in Hhon. by apply Hhon.
Qed.

(** A first answer of another length blocks every honest one. *)
Lemma reassemble_stray bad got :
  Forall honest got -> (9 <= length got)%nat -> matching g bad = true ->
  0 < len (sh_data bad) -> len (sh_data bad) <> sl ->
  reassemble_manifest_backup (bad :: got) =
    Err (err "not enough consistent backup shards to reconstruct").
Proof using encoded RSL.
  intros Hall Hlen Hbad Hpos Hne.
  destruct (geometry_wins (bad :: got)) as (n & Hbest).
  { cbn [length]. lia. }
  { pose proof (honest_votes got g Hall) as Hv. rewrite decide_True in Hv by done.
    unfold votes in *. rewrite filter_cons, len_cons. case_decide; rewrite ?len_cons; lia. }
  destruct (filled g (len (sh_data bad)) (bad :: got) Hpos) as (present & kept & Hf & Hl & Hk & Hp).
  { intros s Hs. rewrite filter_cons_True in Hs by done. by injection Hs as <-. }
  { by rewrite filter_cons_True. }
  unfold reassemble_manifest_backup. destruct (Nat.ltb_spec (length (bad :: got)) DATA_SHARDS) as [Hlt|_];
    [cbn [length] in Hlt; unfold DATA_SHARDS in *; lia|].
  rewrite Hbest. unfold g in *. cbn [ok_or mbind res_bind]. rewrite Hf. cbn [mbind res_bind]. rewrite Hk.
  destruct (Z.ltb_spec (len (omap id present)) (Z.of_nat DATA_SHARDS)) as [_|Hge]; [done|].
  pose proof (filled_few present (sh_index bad)) as Hfew. unfold len in Hge.
  assert (length (omap id present) <= 1)%nat; [|unfold DATA_SHARDS in *; lia].
  apply Hfew. intros i v Hv. assert (Hi : (i < TOTAL_SHARDS)%nat) by (rewrite <- Hl; by eapply lookup_lt_Some).
  rewrite Hp in Hv by done. injection Hv as Hv. apply first_usable_some in Hv as (s & Hs & Hu & <- & _).
  apply elem_of_cons in Hs as [->|Hs]; [done|]. rewrite Forall_forall in Hall. specialize (Hall s Hs).
  apply honest_usable, andb_true_iff in Hall as [_ Hall%Z.eqb_eq].
  apply andb_true_iff in Hu as [_ Hu%Z.eqb_eq]. unfold sl in *. congruence.
Qed.
End Reassembly.

(** ** Sealing *)

Section Sealing.
Context `{CryptoPrims}.

(** The preimages of two addresses of well-formed peer ids never coincide. *)
Lemma fragment_preimage_inj p v i p' v' i' :
  length (as_bytes p) = length (as_bytes p') -> 0 <= v < 2 ^ 64 -> 0 <= v' < 2 ^ 64 ->
  (i < TOTAL_SHARDS)%nat -> (i' < TOTAL_SHARDS)%nat ->
  fragment_preimage p v i = fragment_preimage p' v' i' -> (p, v, i) = (p', v', i').
Proof.
  intros Hp Hv Hv' Hi Hi' E. unfold fragment_preimage in E. apply app_inv_head in E.
  apply app_inj_1 in E as [Ep E]; [|done]. apply app_inj_1 in E as [Ev Ei]; [|by rewrite !length_be_bytes].
  apply as_bytes_inj in Ep as ->. apply be64_inj in Ev as ->; [|done..].
  unfold TOTAL_SHARDS, DATA_SHARDS, PARITY_SHARDS in *.
  apply be32_inj in Ei; [|lia..]. f_equal. lia.
Qed.

(** Two inputs of BLAKE3 with the same leading sixteen bytes. *)
Definition hash16_collision : Prop := exists a b, a <> b /\ take 16 (blake3 a) = take 16 (blake3 b).

(** The call [seal_manifest_snapshot] comes down to. *)
Lemma seal_snapshot_call key p v s blob :
  seal_manifest_snapshot key p v s = Ok blob ->
  exists k, manifest_backup_sealer key p v = Ok k /\
    aead_seal k (nonce_for 0) [] (snapshot_plain p v s) = Some blob.
Proof.
  unfold seal_manifest_snapshot. intros Hs. destruct (negb _); [discriminate|]. step_ok.
  destruct a0 as [b n]. exists a. split; [done|]. unfold seal, seal_inner in Ha0.
  change (MAX_CHUNK_INDEX <? 0) with false in Ha0. cbn iota in Ha0. step_ok. congruence.
Qed.

Context `{!CryptoLaws}.

Lemma sealer_total key p v : exists k, manifest_backup_sealer key p v = Ok k /\ len k = KEY_LEN.
Proof.
  unfold manifest_backup_sealer. rewrite derive_v2_info.
  match goal with |- context [hkdf ?a ?b ?c] => destruct (hkdf_total a b c) as (raw & -> & _) end.
  cbn [ok_or map_err mbind res_bind].
  destruct (subkey_total raw V1 [] MANIFEST_BACKUP_DOMAIN) as (k & Hk & Hl). cbn [file_subkey_for] in Hk.
  exists k. by rewrite Hk.
Qed.

Lemma seal_open_snapshot key p v s :
  len (as_bytes p) = PEER_ID_LEN -> 0 <= v < 2 ^ 64 -> len s <= 2 ^ 35 ->
  exists blob, seal_manifest_snapshot key p v s = Ok blob /\ len blob = len s + 73 /\
    open_manifest_snapshot key p v blob = Ok s.
Proof.
  intros Hp Hv Hs. pose proof (len_nonneg s) as Hs0. destruct (sealer_total key p v) as (k & Hk & Hkl).
  change PEER_ID_LEN with 32 in *. set (e := snapshot_plain p v s).
  assert (He : len e = 57 + len s).
  { unfold e, snapshot_plain. rewrite !len_app, !len_be, Hp. change (len MB_MAGIC) with 8.
    change (len [z2b MB_FORMAT]) with 1. lia. }
  destruct (seal_open_total k e Hkl) as (blob & n & Hseal & Hbl & Hopen); [unfold GCM_LIMIT; lia|].
  exists blob. unfold seal_manifest_snapshot, open_manifest_snapshot. change PEER_ID_LEN with 32.
  rewrite Hp, Hk. cbn [Z.eqb negb mbind res_bind]. fold e. rewrite Hseal, Hopen. cbn [map_err mbind res_bind].
  split; [done|split; [unfold TAG_LEN in *; lia|]]. change MB_HEADER with 57.
  destruct (Z.ltb_spec (len e) 57); [lia|].
  rewrite (slice_field [] MB_MAGIC (drop 8 e) e 0 8) by done. cbn [mbind res_bind].
  rewrite (index_field MB_MAGIC (drop 9 e) e (z2b MB_FORMAT) 8) by done. cbn [mbind res_bind].
  rewrite !bool_decide_true by done. cbn [negb orb].
  set (h := MB_MAGIC ++ [z2b MB_FORMAT]).
  rewrite (slice_field h (be_bytes 8 v) (as_bytes p ++ be_bytes 8 (len s) ++ s) e 9 17)
    by (rewrite ?len_be; done). cbn [mbind res_bind]. rewrite be_u64_be by done. cbn [mbind res_bind].
  rewrite Z.eqb_refl. cbn [negb].
  rewrite (slice_field (h ++ be_bytes 8 v) (as_bytes p) (be_bytes 8 (len s) ++ s) e 17 (17 + 32))
    by (rewrite ?Hp, <- ?app_assoc; done). cbn [mbind res_bind]. rewrite bool_decide_true by done. cbn [negb].
  set (h1 := h ++ be_bytes 8 v ++ as_bytes p).
  assert (Hh1 : len h1 = 49) by (unfold h1; rewrite !len_app, len_be, Hp; done).
  rewrite (slice_field h1 (be_bytes 8 (len s)) s e (17 + 32) 57)
    by (rewrite ?Hh1, ?len_be; unfold h1; rewrite <- ?app_assoc; done). cbn [mbind res_bind].
  rewrite be_u64_be by lia. cbn [mbind res_bind].
  rewrite (slice_field (h1 ++ be_bytes 8 (len s)) s [] e 57 (len e))
    by (rewrite ?app_nil_r, ?len_app, ?Hh1, ?len_be, ?He; unfold h1; rewrite <- ?app_assoc; done).
  cbn [mbind res_bind]. by rewrite Z.eqb_refl.
Qed.
End Sealing.

Section Theorems.
Context `{CryptoPrims} `{ReedSolomon}.

(** The backup of a snapshot, its envelopes and what each decodes to. *)
Lemma build_recovers key p v s :
  CryptoLaws -> ReedSolomonLaws ->
  len (as_bytes p) = PEER_ID_LEN -> 0 <= v < 2 ^ 64 -> len s <= 2 ^ 35 ->
  exists bb blob dec, build_manifest_backup (Ok s) key p v = Ok bb /\ length (bb_shards bb) = TOTAL_SHARDS /\
    (forall i d, bb_shards bb !! i = Some d -> decode_manifest_backup_shard d = Ok (dec i) /\ sh_version (dec i) = v) /\
    (forall found, Forall (fun i => i < TOTAL_SHARDS)%nat found ->
       (DATA_SHARDS <= base.size (list_to_set found : gset nat))%nat ->
       reassemble_manifest_backup (dec <$> found) = Ok blob) /\
    open_manifest_snapshot key p v blob = Ok s.
Proof.
  intros Laws RSL Hp Hv Hs. destruct (seal_open_snapshot key p v s Hp Hv Hs) as (blob & Hseal & Hbl & Hopen).
  destruct (encode_ok blob) as (shards & Henc & Hshl & Hshf).
  exists (mkBackupBlob v (len s) (len blob) (imap (envelope v blob) shards)), blob, (fun i => shard_of v blob i (default [] (shards !! i))).
  unfold build_manifest_backup, encode_manifest_backup_shards. cbn [mbind res_bind].
  rewrite Hseal. cbn [mbind res_bind]. rewrite Henc. cbn [map_err mbind res_bind bb_shards].
  split; [done|split; [by rewrite length_imap|split; [|split; [|done]]]].
  - intros i d. rewrite list_lookup_imap. destruct (shards !! i) as [x|] eqn:Hd; [|done]. intros [= <-]. split; [|done].
    pose proof (len_nonneg s). destruct (shard_len_spec (len blob) (len_nonneg blob)) as (_ & _ & _ & Hmax).
    assert (Hslb : shard_len (len blob) < 2 ^ 32).
    { assert (len blob / 10 <= (2 ^ 35 + 73) / 10) by (apply Z.div_le_mono; lia).
      change ((2 ^ 35 + 73) / 10) with 3435973844 in *. lia. }
    rewrite decode_envelope; [done|done|lia| |].
    + rewrite <- Hshl. by eapply lookup_lt_Some.
    + by rewrite (Forall_lookup_1 _ _ _ _ Hshf Hd).
  - intros found Hfound Hten. apply (reassemble_honest v blob shards Henc).
    + apply Forall_fmap. eapply Forall_impl; [exact Hfound|]. intros i Hi. rewrite <- Hshl in Hi.
      destruct (lookup_lt_is_Some_2 shards i Hi) as [d Hd]. exists i, d. split; [done|]. by rewrite Hd.
    + unfold index_set. rewrite <- list_fmap_compose. unfold compose. cbn [sh_index shard_of]. by rewrite list_fmap_id.
Qed.

(** The automatic backup survives: the fourteen envelopes built from a manifest snapshot
    (of at most 32 GiB), any of them fetched back in any order and with repeats, decode, and
    as soon as ten distinct ones are among them they reassemble to a blob that opens, under
    the same node key, peer id and version, to exactly the snapshot. *)
Theorem manifest_backup_roundtrip key p v s :
  CryptoLaws -> ReedSolomonLaws ->
  len (as_bytes p) = PEER_ID_LEN -> 0 <= v < 2 ^ 64 -> len s <= 2 ^ 35 ->
  exists bb, build_manifest_backup (Ok s) key p v = Ok bb /\ length (bb_shards bb) = TOTAL_SHARDS /\
    forall found, Forall (fun i => i < TOTAL_SHARDS)%nat found ->
      exists got, mapR decode_manifest_backup_shard (omap (fun i => bb_shards bb !! i) found) = Ok got /\
        ((DATA_SHARDS <= base.size (list_to_set found : gset nat))%nat ->
         exists blob, reassemble_manifest_backup got = Ok blob /\ open_manifest_snapshot key p v blob = Ok s).
Proof.
  intros Laws RSL Hp Hv Hs. destruct (build_recovers key p v s Laws RSL Hp Hv Hs) as (bb & blob & dec & Hb & Hl & Hd & Hr & Ho).
  exists bb. split; [done|split; [done|]]. intros found Hfound. exists (dec <$> found). split.
  - induction Hfound as [|i found Hi _ IH]; [done|]. rewrite <- Hl in Hi. destruct (lookup_lt_is_Some_2 _ i Hi) as [d Hdi].
    cbn [omap list_omap]. rewrite Hdi. cbn [mapR fmap list_fmap]. destruct (Hd i d Hdi) as [-> _]. cbn [mbind res_bind].
    cbn [omap] in IH. by rewrite IH.
  - intros Hten. exists blob. split; [by apply Hr|done].
Qed.

(** One peer cannot spoil a restore: with honest shards for ten other slots, whatever one
    further answer claims (its index, its geometry, its bytes) the reassembly answers the
    blob or exhibits two blobs with one hash, provided the answer does not come first with
    the elected geometry and another length. *)
Theorem one_bad_copy_tolerated v blob shards pre bad post :
  ReedSolomonLaws -> encode blob = Ok shards ->
  Forall (honest v blob shards) pre -> Forall (honest v blob shards) post ->
  (DATA_SHARDS <= base.size (index_set (pre ++ post) ∖ {[sh_index bad]}))%nat ->
  (pre = [] -> geometry bad = (len blob, blob_hash blob) -> len (sh_data bad) = shard_len (len blob)) ->
  exists b, reassemble_manifest_backup (pre ++ bad :: post) = Ok b /\ (b = blob \/ hash16_collision).
Proof.
  intros RSL He Hpre Hpost Hten Hbad.
  destruct (reassemble_one_bad v blob shards He pre bad post Hpre Hpost) as (b & Hb & Hh); [|done|].
  { intros Hnil Hm. apply Hbad; [done|]. apply andb_true_iff in Hm as [_ Hm]. by apply bool_decide_eq_true in Hm. }
  exists b. split; [done|]. destruct (decide (b = blob)) as [|Hne]; [by left|right]. by exists b, blob.
Qed.

(** A single peer can block a restore: an answer that declares the blob's own length and
    hash, lies about the length of its bytes and comes first makes the reassembly fail,
    however many honest shards (all fourteen included) follow. *)
Theorem stray_first_blocks v blob shards bad got :
  ReedSolomonLaws -> encode blob = Ok shards -> Forall (honest v blob shards) got -> (9 <= length got)%nat ->
  (sh_index bad < TOTAL_SHARDS)%nat -> geometry bad = (len blob, blob_hash blob) ->
  0 < len (sh_data bad) -> len (sh_data bad) <> shard_len (len blob) ->
  exists e, reassemble_manifest_backup (bad :: got) = Err (err e).
Proof.
  intros RSL He Hall Hlen Hi Hg Hpos Hne. eexists. apply (reassemble_stray v blob shards He); try done.
  unfold matching. rewrite Hg, bool_decide_true by done. by rewrite (proj2 (Nat.ltb_lt _ _) Hi).
Qed.

Lemma fragment_collides p v i p' v' i' :
  CryptoLaws -> len (as_bytes p) = len (as_bytes p') -> 0 <= v < 2 ^ 64 -> 0 <= v' < 2 ^ 64 ->
  (i < TOTAL_SHARDS)%nat -> (i' < TOTAL_SHARDS)%nat ->
  manifest_backup_fragment_id p v i = manifest_backup_fragment_id p' v' i' -> (p, v, i) = (p', v', i') \/ hash16_collision.
Proof.
  intros Laws Hp Hv Hv' Hi Hi' E%to_hex_inj.
  destruct (decide (fragment_preimage p v i = fragment_preimage p' v' i')) as [E'|Hne]; [left|right; by eexists _, _].
  apply fragment_preimage_inj in E'; try done. unfold len in *. lia.
Qed.

(** The addresses of a backup can be recomputed and never clash: each is an id the chunk
    store accepts, and two of them (peer ids of one length, 64-bit versions, slots below
    fourteen) differ unless BLAKE3 collides on sixteen bytes. *)
Theorem backup_addresses p v i p' v' i' :
  CryptoLaws -> len (as_bytes p) = PEER_ID_LEN -> len (as_bytes p') = PEER_ID_LEN ->
  0 <= v < 2 ^ 64 -> 0 <= v' < 2 ^ 64 -> (i < TOTAL_SHARDS)%nat -> (i' < TOTAL_SHARDS)%nat ->
  is_valid_fragment_id (manifest_backup_fragment_id p v i) = true /\
  (manifest_backup_fragment_id p v i = manifest_backup_fragment_id p' v' i' ->
   (p, v, i) = (p', v', i') \/ hash16_collision).
Proof.
  intros Laws Hp Hp' Hv Hv' Hi Hi'. split.
  - apply hex_fragment_id. pose proof (blake3_len (fragment_preimage p v i)). unfold len in *. rewrite length_take. lia.
  - apply fragment_collides; try done. congruence.
Qed.

(** A version sealed twice reuses its key and its nonce: two snapshots sealed for one peer
    and one version, the same day, are the images of their plaintexts under one (key, nonce). *)
Theorem revisited_version_reuses_nonce key p v s1 s2 b1 b2 :
  seal_manifest_snapshot key p v s1 = Ok b1 -> seal_manifest_snapshot key p v s2 = Ok b2 ->
  exists k n, aead_seal k n [] (snapshot_plain p v s1) = Some b1 /\
    aead_seal k n [] (snapshot_plain p v s2) = Some b2.
Proof.
  intros (k & Hk & H1)%seal_snapshot_call (k' & Hk' & H2)%seal_snapshot_call.
  assert (k' = k) as -> by congruence. by exists k, (nonce_for 0).
Qed.
End Theorems.

(** ** The theorems at a concrete node *)
Module BackupNet.
Import Toy.
#[local] Opaque sample_shards.
Definition node_key : bytes := zeros 32.
Definition peer : string := "0123456789abcdef0123456789abcdef".
Definition day : Z := 20000.
Definition snap : bytes := sample_cipher.

Definition honest_shard (i : nat) : ManifestBackupShard :=
  shard_of day sample_cipher i (default [] (sample_shards !! i)).
Definition bad : ManifestBackupShard := mkShard day 3 7 [] (as_bytes "junk").
Definition stray : ManifestBackupShard :=
  mkShard day 3 (len sample_cipher) (blob_hash sample_cipher) (as_bytes "junk").

Lemma honest_shards (l : list nat) :
  Forall (fun i => i < TOTAL_SHARDS)%nat l -> Forall (honest day sample_cipher sample_shards) (honest_shard <$> l).
Proof.
  intros Hl. apply Forall_fmap. eapply Forall_impl; [exact Hl|]. intros i Hi.
  change (honest day sample_cipher sample_shards (honest_shard i)).
  destruct (lookup_lt_is_Some_2 sample_shards i) as [d Hd]; [rewrite (proj2 sample_encodes); exact Hi|].
  exists i, d. split; [exact Hd|]. unfold honest_shard. rewrite Hd. reflexivity.
Qed.

Definition found : list nat := rev (seq 3 11).
Lemma snap_small : len snap <= 2 ^ 35.
Proof. vm_compute. discriminate. Qed.
Lemma peer_len : len (as_bytes peer) = PEER_ID_LEN.
Proof. reflexivity. Qed.
Lemma day_u64 : 0 <= day < 2 ^ 64.
Proof. unfold day. lia. Qed.
Lemma found_slots : Forall (fun i => i < TOTAL_SHARDS)%nat found.
Proof. unfold found. cbn. repeat constructor; by vm_compute. Qed.
Lemma found_ten : (DATA_SHARDS <= base.size (list_to_set found : gset nat))%nat.
Proof. apply Nat.leb_le. vm_compute. reflexivity. Qed.

Lemma manifest_backup_roundtrip_witness :
  exists bb, build_manifest_backup (Ok snap) node_key peer day = Ok bb /\
  exists got blob,
    mapR decode_manifest_backup_shard (omap (fun i => bb_shards bb !! i) found) = Ok got /\
    reassemble_manifest_backup got = Ok blob /\ open_manifest_snapshot node_key peer day blob = Ok snap.
Proof.
  destruct (manifest_backup_roundtrip node_key peer day snap crypto_laws gf_rs_laws peer_len day_u64 snap_small)
    as (bb & Hb & _ & Hall).
  exists bb. split; [exact Hb|]. destruct (Hall found found_slots) as (got & Hg & Hr).
  destruct (Hr found_ten) as (blob & Hre & Ho).
  exact (ex_intro _ got (ex_intro _ blob (conj Hg (conj Hre Ho)))).
Defined.

Lemma bad_geometry : geometry bad <> (len sample_cipher, blob_hash sample_cipher).
Proof.
  intros E%(f_equal fst). change (7 = len sample_cipher) in E.
  assert (Hl : len sample_cipher = 300) by (vm_compute; reflexivity). congruence.
Qed.
Lemma bad_spare : (DATA_SHARDS <= base.size (index_set ([] ++ (honest_shard <$> seq 4 10)) ∖ {[sh_index bad]}))%nat.
Proof.
  change (index_set ([] ++ (honest_shard <$> seq 4 10))) with (list_to_set (seq 4 10) : gset nat).
  apply Nat.leb_le. vm_compute. reflexivity.
Qed.

Lemma one_bad_copy_tolerated_witness :
  exists b, reassemble_manifest_backup (bad :: (honest_shard <$> seq 4 10)) = Ok b /\
    (b = sample_cipher \/ hash16_collision).
Proof.
  apply (one_bad_copy_tolerated day sample_cipher sample_shards [] bad (honest_shard <$> seq 4 10));
    [exact gf_rs_laws | exact (proj1 sample_encodes) | exact (Forall_nil_2 _) | ..].
  - apply honest_shards. apply Forall_forall. intros i Hi%elem_of_seq. unfold TOTAL_SHARDS, DATA_SHARDS, PARITY_SHARDS. lia.
  - exact bad_spare.
  - intros _ E. exact (False_ind _ (bad_geometry E)).
Defined.

Lemma stray_first_blocks_witness :
  exists e, reassemble_manifest_backup (stray :: (honest_shard <$> seq 0 14)) = Err (err e).
Proof.
  apply (stray_first_blocks day sample_cipher sample_shards stray (honest_shard <$> seq 0 14)).
  - exact gf_rs_laws.
  - exact (proj1 sample_encodes).
  - apply honest_shards. apply Forall_forall. intros i Hi%elem_of_seq. unfold TOTAL_SHARDS, DATA_SHARDS, PARITY_SHARDS. lia.
  - by apply Nat.leb_le; vm_compute.
  - by vm_compute; lia.
  - reflexivity.
  - by vm_compute.
  - by vm_compute.
Defined.

Lemma backup_addresses_witness :
  is_valid_fragment_id (manifest_backup_fragment_id peer day 0) = true /\
  bool_decide (manifest_backup_fragment_id peer day 0 = manifest_backup_fragment_id peer day 1) = false.
Proof.
  split; [|by vm_compute].
  exact (proj1 (backup_addresses peer day 0 peer day 1 crypto_laws eq_refl eq_refl
    ltac:(by vm_compute) ltac:(by vm_compute) ltac:(by vm_compute; lia) ltac:(by vm_compute; lia))).
Defined.

Definition sealed (s : bytes) : bytes := default [] (res_ok (seal_manifest_snapshot node_key peer day s)).
Lemma revisited_version_reuses_nonce_witness :
  exists k n, aead_seal k n [] (snapshot_plain peer day (as_bytes "a")) = Some (sealed (as_bytes "a")) /\
    aead_seal k n [] (snapshot_plain peer day (as_bytes "b")) = Some (sealed (as_bytes "b")).
Proof.
  apply (revisited_version_reuses_nonce node_key peer day (as_bytes "a") (as_bytes "b"));
    vm_compute; reflexivity.
Defined.
End BackupNet.
