(* ===== verification/Dht.v ===== *)
(** * The DHT node ([crates/p2p/src/dht.rs])

    Address policy, node ids and XOR distance, the routing table of k-buckets, the
    per-source bookkeeping and the handling of one datagram. Instants are seconds; the clock
    is read once per datagram or round. A call answers the datagrams it sends; the textual
    form of IP addresses is a parameter ([IpText]), JSON and the socket are outside. *)

From Stdlib Require Import ZArith Lia Strings.Ascii Strings.String Strings.Byte.
From stdpp Require Import base numbers list gmap strings sorting.
From S2P Require Import Prelude External Crypto.

Definition ID_LEN : nat := 20.
Definition K : nat := 8.
Definition K_UNVERIFIED : nat := 2.
Definition MAX_NODES_PER_MSG : nat := K.
Definition STALE_AFTER : Z := 15 * 60.
Definition LEARN_PER_WINDOW : Z := 16.
Definition LEARN_WINDOW : Z := 60.
Definition PENDING_TTL : Z := 120.
Definition PING_MIN_INTERVAL : Z := 30.
Definition VERIFY_BATCH : nat := 8.
Definition MAX_TRACKED_SOURCES : nat := 4096.
Definition MAX_PERSIST_NODES : nat := 512.

(** ** Addresses *)

(** The four octets, or the eight 16-bit segments. *)
Inductive IpAddr := V4 (a b c d : Z) | V6 (segments : list Z).
#[export] Instance IpAddr_eq_dec : EqDecision IpAddr.
Proof. solve_decision. Defined.
#[export] Instance IpAddr_countable : Countable IpAddr.
Proof.
  refine (inj_countable' (fun ip => match ip with V4 a b c d => inl (a, b, c, d) | V6 s => inr s end)
    (fun x => match x with inl (a, b, c, d) => V4 a b c d | inr s => V6 s end) _). by intros [].
Defined.

Abbreviation SocketAddr := (IpAddr * Z)%type.

(** [to_string] and [parse] of an address. *)
Class IpText := {
  ip_to_string : IpAddr -> string;
  ip_parse : string -> option IpAddr;
  ip_parse_to_string ip : ip_parse (ip_to_string ip) = Some ip
}.

Inductive AddrPolicy := PublicOnly | AllowPrivate.

Definition is_contactable_port (port : Z) : bool := 1024 <=? port.

(** The predicates of [std::net::Ipv4Addr]. *)
Definition v4_unspecified (a b c d : Z) : bool := (a =? 0) && (b =? 0) && (c =? 0) && (d =? 0).
Definition v4_loopback (a : Z) : bool := a =? 127.
Definition v4_private (a b : Z) : bool :=
  (a =? 10) || ((a =? 172) && (16 <=? b) && (b <=? 31)) || ((a =? 192) && (b =? 168)).
Definition v4_link_local (a b : Z) : bool := (a =? 169) && (b =? 254).
Definition v4_broadcast (a b c d : Z) : bool := (a =? 255) && (b =? 255) && (c =? 255) && (d =? 255).
Definition v4_multicast (a : Z) : bool := (224 <=? a) && (a <=? 239).
Definition v4_documentation (a b c : Z) : bool :=
  ((a =? 192) && (b =? 0) && (c =? 2)) || ((a =? 198) && (b =? 51) && (c =? 100)) ||
  ((a =? 203) && (b =? 0) && (c =? 113)).

Definition is_routable_v4 (a b c d : Z) : bool :=
  let this_network := a =? 0 in
  let cgnat := (a =? 100) && (64 <=? b) && (b <? 128) in
  let benchmarking := (a =? 198) && ((b =? 18) || (b =? 19)) in
  let reserved := 240 <=? a in
  negb (v4_unspecified a b c d || v4_loopback a || v4_private a b || v4_link_local a b ||
        v4_broadcast a b c d || v4_multicast a || v4_documentation a b c ||
        this_network || cgnat || benchmarking || reserved).

(** The segment [i] of an IPv6 address, and the std predicates on them. *)
Definition seg (s : list Z) (i : nat) : Z := default 0 (s !! i).
Definition v6_unspecified (s : list Z) : bool := forallb (fun x => x =? 0) (take 8 s).
Definition v6_loopback (s : list Z) : bool := forallb (fun x => x =? 0) (take 7 s) && (seg s 7 =? 1).
Definition v6_multicast (s : list Z) : bool := Z.land (seg s 0) 65280 =? 65280.
(** [::ffff:a.b.c.d]. *)
Definition to_ipv4_mapped (s : list Z) : option (Z * Z * Z * Z) :=
  if forallb (fun x => x =? 0) (take 5 s) && (seg s 5 =? 65535)
  then Some (seg s 6 / 256, seg s 6 mod 256, seg s 7 / 256, seg s 7 mod 256) else None.

Definition is_routable_v6 (s : list Z) : bool :=
  match to_ipv4_mapped s with
  | Some (a, b, c, d) => is_routable_v4 a b c d
  | None =>
      let unique_local := Z.land (seg s 0) 65024 =? 64512 in
      let link_local := Z.land (seg s 0) 65472 =? 65152 in
      let documentation := (seg s 0 =? 8193) && (seg s 1 =? 3512) in
      let discard := (seg s 0 =? 256) && (seg s 1 =? 0) && (seg s 2 =? 0) && (seg s 3 =? 0) in
      let embedded_v4_or_special := forallb (fun x => x =? 0) (take 6 s) in
      negb (v6_unspecified s || v6_loopback s || v6_multicast s || unique_local || link_local ||
            documentation || discard || embedded_v4_or_special)
  end.

Definition is_routable_ip (ip : IpAddr) : bool :=
  match ip with V4 a b c d => is_routable_v4 a b c d | V6 s => is_routable_v6 s end.
Definition is_broadcast (ip : IpAddr) : bool :=
  match ip with V4 a b c d => v4_broadcast a b c d | V6 _ => false end.
Definition is_unspecified (ip : IpAddr) : bool :=
  match ip with V4 a b c d => v4_unspecified a b c d | V6 s => v6_unspecified s end.
Definition is_multicast (ip : IpAddr) : bool :=
  match ip with V4 a _ _ _ => v4_multicast a | V6 s => v6_multicast s end.

Definition accepts_ip (p : AddrPolicy) (ip : IpAddr) : bool :=
  match p with
  | PublicOnly => is_routable_ip ip
  | AllowPrivate => negb (is_unspecified ip || is_multicast ip || is_broadcast ip)
  end.
Definition accepts (p : AddrPolicy) (ip : IpAddr) (port : Z) : bool :=
  is_contactable_port port && accepts_ip p ip.

(** ** Ids *)
Abbreviation NodeId := bytes.

Definition id_from_peer `{CryptoPrims} (peer_id : string) : NodeId := take ID_LEN (blake3 (as_bytes peer_id)).
Definition xor (a b : NodeId) : NodeId := zip_with (fun x y => z2b (Z.lxor (b2z x) (b2z y))) a b.

(** [u8::leading_zeros] of a non-zero byte. *)
Definition leading_zeros (b : u8) : nat := Z.to_nat (7 - Z.log2 (b2z b)).
Fixpoint bucket_index_from (i : nat) (distance : NodeId) : option nat :=
  match distance with
  | [] => None
  | b :: distance =>
      if negb (b2z b =? 0) then Some (i * 8 + leading_zeros b)%nat else bucket_index_from (S i) distance
  end.
Definition bucket_index (distance : NodeId) : option nat := bucket_index_from 0 distance.

Definition hex (id : NodeId) : string := of_bytes (hex_encode id).
(** [u8::from_str_radix(s, 16)] on two characters; a leading [+] is accepted. *)
Definition digit16 (c : ascii) : option Z :=
  let n := Z.of_nat (nat_of_ascii c) in
  if (48 <=? n) && (n <=? 57) then Some (n - 48)
  else if (97 <=? n) && (n <=? 102) then Some (n - 87)
  else if (65 <=? n) && (n <=? 70) then Some (n - 55)
  else None.
Definition radix16 (a b : ascii) : option u8 :=
  if bool_decide (a = "+"%char) then z2b <$> digit16 b
  else h ← digit16 a; d ← digit16 b; Some (z2b (h * 16 + d)).
Fixpoint unhex_pairs (l : list ascii) : option NodeId :=
  match l with
  | a :: b :: l => x ← radix16 a b; rest ← unhex_pairs l; Some (x :: rest)
  | _ => Some []
  end.
Definition unhex (s : string) : option NodeId :=
  if negb (String.length s =? ID_LEN * 2)%nat then None else unhex_pairs (list_ascii_of_string s).

(** ** The routing table *)
Record Node := mkNode { n_id : NodeId; udp : SocketAddr; p2p_port : Z; verified : bool; last_seen : Z }.

Record RoutingTable := mkTable { self_id : NodeId; buckets : list (list Node) }.
Definition RoutingTable_new (self : NodeId) : RoutingTable := mkTable self (replicate (ID_LEN * 8) []).

Definition bucket (t : RoutingTable) (i : nat) : list Node := default [] (buckets t !! i).
Definition set_bucket (t : RoutingTable) (i : nat) (b : list Node) : RoutingTable :=
  mkTable (self_id t) (<[i := b]> (buckets t)).
Definition bucket_of (t : RoutingTable) (id : NodeId) : option nat := bucket_index (xor (self_id t) id).
Definition has_id (id : NodeId) (n : Node) : bool := bool_decide (n_id n = id).

Definition contains (t : RoutingTable) (id : NodeId) : bool :=
  match bucket_of t id with
  | Some i => existsb (has_id id) (bucket t i)
  | None => false
  end.

(** Seconds since [t], not negative. *)
Definition since (now t : Z) : Z := Z.max 0 (now - t).

(** The key [(verified, last_seen)] of the eviction, in order. *)
Definition older (n m : Node) : bool :=
  match verified n, verified m with
  | false, true => true
  | true, false => false
  | _, _ => last_seen n <? last_seen m
  end.
(** [min_by_key] keeps the first of the least elements. *)
Fixpoint victim_from (now : Z) (i : nat) (b : list Node) (best : option (nat * Node)) : option (nat * Node) :=
  match b with
  | [] => best
  | n :: b =>
      let best := if STALE_AFTER <? since now (last_seen n)
                  then match best with
                       | Some (_, m) => if older n m then Some (i, n) else best
                       | None => Some (i, n)
                       end
                  else best in
      victim_from now (S i) b best
  end.

(** The refreshed entry: an unverified sighting never moves a known address. *)
Definition refresh_node (existing node : Node) : Node :=
  if verified node
  then mkNode (n_id existing) (udp node) (p2p_port node) true (last_seen node)
  else mkNode (n_id existing) (udp existing) (p2p_port existing) (verified existing) (last_seen node).

Definition add (t : RoutingTable) (node : Node) : RoutingTable * bool :=
  match bucket_of t (n_id node) with
  | None => (t, false)
  | Some i =>
      let b := bucket t i in
      match list_find (fun n => n_id n = n_id node) b with
      | Some (pos, existing) =>
          (set_bucket t i (base.delete pos b ++ [refresh_node existing node]), false)
      | None =>
          if (List.length b <? K)%nat then (set_bucket t i (b ++ [node]), true)
          else
            match victim_from (last_seen node) 0 b None with
            | Some (pos, _) => (set_bucket t i (<[pos := node]> b), true)
            | None => (t, false)
            end
      end
  end.

Definition verify_at (addr : SocketAddr) (now : Z) (n : Node) : Node :=
  if bool_decide (udp n = addr) then mkNode (n_id n) (udp n) (p2p_port n) true now else n.
Definition mark_verified (t : RoutingTable) (addr : SocketAddr) (now : Z) : RoutingTable :=
  mkTable (self_id t) (map (map (verify_at addr now)) (buckets t)).

Definition all (t : RoutingTable) : list Node := mjoin (buckets t).
Definition is_verified_source (t : RoutingTable) (addr : SocketAddr) : bool :=
  existsb (fun n => bool_decide (udp n = addr) && verified n) (all t).

(** Byte-wise order of distances. *)
Fixpoint bytes_leb (a b : bytes) : bool :=
  match a, b with
  | [], _ => true
  | _ :: _, [] => false
  | x :: a, y :: b => (b2z x <? b2z y) || ((b2z x =? b2z y) && bytes_leb a b)
  end.
Definition closer (target : NodeId) (n m : Node) : Prop :=
  Is_true (bytes_leb (xor (n_id n) target) (xor (n_id m) target)).
#[export] Instance closer_dec target n m : Decision (closer target n m).
Proof. unfold closer. apply _. Defined.
Definition closest (t : RoutingTable) (target : NodeId) (count : nat) : list Node :=
  take count (merge_sort (closer target) (all t)).

(** ** Per-source bookkeeping *)
Record SourceState := mkSources {
  learn_slots : gmap IpAddr (Z * Z);
  pending : gmap SocketAddr Z;
  pinged : gmap SocketAddr Z
}.
Definition no_sources : SourceState := mkSources ∅ ∅ ∅.

(** Expired entries go first; a map still at the cap is cleared. *)
Definition prune_map `{Countable Key} {A} (m : gmap Key A) (fresh : A -> bool) : gmap Key A :=
  if (MAX_TRACKED_SOURCES <=? size m)%nat then
    let m := filter (fun p => fresh p.2 = true) m in
    if (MAX_TRACKED_SOURCES <=? size m)%nat then ∅ else m
  else m.
Definition prune (s : SourceState) (now : Z) : SourceState :=
  mkSources (prune_map (learn_slots s) (fun p => since now p.1 <=? LEARN_WINDOW))
            (prune_map (pending s) (fun t => since now t <=? PENDING_TTL))
            (prune_map (pinged s) (fun t => since now t <=? PING_MIN_INTERVAL)).

Definition allow_learn (s : SourceState) (ip : IpAddr) (now : Z) : SourceState * bool :=
  let s := prune s now in
  let slot := default (now, 0) (learn_slots s !! ip) in
  let slot := if LEARN_WINDOW <? since now slot.1 then (now, 0) else slot in
  if LEARN_PER_WINDOW <=? slot.2
  then (mkSources (<[ip := slot]> (learn_slots s)) (pending s) (pinged s), false)
  else (mkSources (<[ip := (slot.1, slot.2 + 1)]> (learn_slots s)) (pending s) (pinged s), true).

Definition note_query (s : SourceState) (addr : SocketAddr) (now : Z) : SourceState :=
  let s := prune s now in mkSources (learn_slots s) (<[addr := now]> (pending s)) (pinged s).

Definition take_pending (s : SourceState) (addr : SocketAddr) (now : Z) : SourceState * bool :=
  (mkSources (learn_slots s) (base.delete addr (pending s)) (pinged s),
   match pending s !! addr with Some t => since now t <=? PENDING_TTL | None => false end).

Definition allow_ping (s : SourceState) (addr : SocketAddr) (now : Z) : SourceState * bool :=
  let s := prune s now in
  let recent := match pinged s !! addr with Some t => since now t <? PING_MIN_INTERVAL | None => false end in
  if recent then (s, false)
  else (mkSources (learn_slots s) (pending s) (<[addr := now]> (pinged s)), true).

(** ** The node *)
Record NodeRec := mkRec { rec_id : string; rec_ip : string; rec_udp_port : Z; rec_p2p_port : Z }.

Inductive DhtMsg :=
| DhtPing (from : string) (p2p : Z)
| DhtPong (from : string) (p2p : Z)
| FindNode (from : string) (p2p : Z) (target : string)
| Nodes (from : string) (p2p : Z) (nodes : list NodeRec).

#[export] Instance NodeRec_eq_dec : EqDecision NodeRec.
Proof. solve_decision. Defined.
#[export] Instance DhtMsg_eq_dec : EqDecision DhtMsg.
Proof. solve_decision. Defined.

Definition sender (m : DhtMsg) : string * Z :=
  match m with
  | DhtPing from p2p | DhtPong from p2p | FindNode from p2p _ | Nodes from p2p _ => (from, p2p)
  end.
Definition is_answer (m : DhtMsg) : bool :=
  match m with DhtPong _ _ | Nodes _ _ _ => true | _ => false end.

Record DhtNode := mkDht { my_id : NodeId; my_p2p_port : Z; policy : AddrPolicy; table : RoutingTable; sources : SourceState }.
Definition with_table (d : DhtNode) (t : RoutingTable) : DhtNode :=
  mkDht (my_id d) (my_p2p_port d) (policy d) t (sources d).
Definition with_sources (d : DhtNode) (s : SourceState) : DhtNode :=
  mkDht (my_id d) (my_p2p_port d) (policy d) (table d) s.
Definition bind_with_policy `{CryptoPrims} (peer_id : string) (port : Z) (p : AddrPolicy) : DhtNode :=
  mkDht (id_from_peer peer_id) port p (RoutingTable_new (id_from_peer peer_id)) no_sources.

(** A datagram on its way out. *)
Abbreviation Datagram := (DhtMsg * SocketAddr)%type.

(** [send]: the datagram leaves unless the policy refuses the address; the boolean is the
    result when the socket accepts it. *)
Definition send (d : DhtNode) (msg : DhtMsg) (dst : SocketAddr) (now : Z) : DhtNode * list Datagram * bool :=
  if negb (accepts_ip (policy d) dst.1) then (d, [], false)
  else
    (if is_answer msg then d else with_sources d (note_query (sources d) dst now), [(msg, dst)], true).

Definition my_find (d : DhtNode) (target : NodeId) : DhtMsg := FindNode (hex (my_id d)) (my_p2p_port d) (hex target).
Definition my_ping (d : DhtNode) : DhtMsg := DhtPing (hex (my_id d)) (my_p2p_port d).

Definition learn (d : DhtNode) (node : Node) : DhtNode * bool :=
  if bool_decide (n_id node = my_id d) || negb (accepts (policy d) (udp node).1 (p2p_port node)) then (d, false)
  else
    let known := contains (table d) (n_id node) in
    let '(s, ok) := if known then (sources d, true) else allow_learn (sources d) (udp node).1 (last_seen node) in
    let d := with_sources d s in
    if ok then let '(t, new) := add (table d) node in (with_table d t, new) else (d, false).

Section Handle.
Context `{IpText}.

Definition to_rec (n : Node) : NodeRec := mkRec (hex (n_id n)) (ip_to_string (udp n).1) (udp n).2 (p2p_port n).

(** A record of a [Nodes] message, as hearsay. *)
Definition absorb (now : Z) (d : DhtNode) (r : NodeRec) : DhtNode :=
  match unhex (rec_id r), ip_parse (rec_ip r) with
  | Some id, Some ip => (learn d (mkNode id (ip, rec_udp_port r) (rec_p2p_port r) false now)).1
  | _, _ => d
  end.

(** Step 3 of [handle]. *)
Definition answer (d : DhtNode) (msg : DhtMsg) (src : SocketAddr) (now : Z) : DhtNode * list Datagram :=
  match msg with
  | DhtPing _ _ => (send d (DhtPong (hex (my_id d)) (my_p2p_port d)) src now).1
  | FindNode _ _ target =>
      let verified_src := is_verified_source (table d) src in
      let want := if verified_src then K else K_UNVERIFIED in
      let target := default (my_id d) (unhex target) in
      let nodes := closest (table d) target want in
      let '(d, out, _) := send d (Nodes (hex (my_id d)) (my_p2p_port d) (to_rec <$> nodes)) src now in
      if verified_src then (d, out)
      else
        let '(s, allowed) := allow_ping (sources d) src now in
        let d := with_sources d s in
        if allowed then let '(d, ping, _) := send d (my_ping d) src now in (d, out ++ ping) else (d, out)
  | Nodes _ _ nodes => (foldl (absorb now) d (take MAX_NODES_PER_MSG nodes), [])
  | DhtPong _ _ => (d, [])
  end.

Definition handle (d : DhtNode) (msg : DhtMsg) (src : SocketAddr) (now : Z) : DhtNode * list Datagram :=
  if negb (accepts_ip (policy d) src.1) then (d, [])
  else
    let '(s, solicited) := if is_answer msg then take_pending (sources d) src now else (sources d, false) in
    let d := with_sources d s in
    let d := if solicited then with_table d (mark_verified (table d) src now) else d in
    let '(from, p2p) := sender msg in
    let d := match unhex from with
             | Some id => (learn d (mkNode id src p2p solicited now)).1
             | None => d
             end in
    answer d msg src now.

(** ** Snapshots and refresh *)

Definition export_nodes (d : DhtNode) : list NodeRec :=
  to_rec <$> take MAX_PERSIST_NODES
    (filter (fun n => verified n && accepts (policy d) (udp n).1 (p2p_port n) = true) (all (table d))).

Definition import_one (now : Z) (d : DhtNode) (r : NodeRec) : DhtNode :=
  match unhex (rec_id r), ip_parse (rec_ip r) with
  | Some id, Some ip =>
      if bool_decide (id = my_id d) || negb (accepts (policy d) ip (rec_udp_port r)) ||
         negb (is_contactable_port (rec_p2p_port r)) then d
      else with_table d (add (table d) (mkNode id (ip, rec_udp_port r) (rec_p2p_port r) false now)).1
  | _, _ => d
  end.
Definition import_nodes (d : DhtNode) (nodes : list NodeRec) (now : Z) : DhtNode :=
  foldl (import_one now) d (take MAX_PERSIST_NODES nodes).

(** [format!("{}:{}", ip, port)] is kept as the pair. *)
Definition collect_addrs (d : DhtNode) (verified_only : bool) : list (string * Z) :=
  (fun n => (ip_to_string (udp n).1, p2p_port n)) <$>
    filter (fun n => (negb verified_only || verified n) && accepts (policy d) (udp n).1 (p2p_port n) = true)
           (all (table d)).
Definition peer_addrs (d : DhtNode) := collect_addrs d false.
Definition peer_addrs_verified (d : DhtNode) := collect_addrs d true.
End Handle.

(** Sends collected over a list. *)
Definition send_all {A} (f : DhtNode -> A -> DhtNode * list Datagram) (acc : DhtNode * list Datagram) (xs : list A)
    : DhtNode * list Datagram :=
  foldl (fun acc x => let '(d, out) := f acc.1 x in (d, acc.2 ++ out)) acc xs.

(** [addrs]: what each bootstrap name resolves to. *)
Definition bootstrap (d : DhtNode) (addrs : list (option SocketAddr)) (now : Z) : DhtNode * list Datagram :=
  send_all (fun d a => match a with Some sa => (send d (my_find d (my_id d)) sa now).1 | None => (d, []) end) (d, []) addrs.

Definition flip_bit (id : NodeId) (bit : nat) : NodeId :=
  match id !! (bit / 8)%nat with
  | Some b => <[(bit / 8)%nat := z2b (Z.lxor (b2z b) (Z.shiftr 128 (Z.of_nat (bit mod 8))))]> id
  | None => id
  end.
Definition refresh_targets (d : DhtNode) : list NodeId :=
  my_id d :: (flip_bit (my_id d) <$> [0; 1; 2; 4]%nat).

Definition challenge (now : Z) (d : DhtNode) (addr : SocketAddr) : DhtNode * list Datagram :=
  let '(s, allowed) := allow_ping (sources d) addr now in
  let d := with_sources d s in
  if allowed then (send d (my_ping d) addr now).1 else (d, []).

Definition refresh (d : DhtNode) (now : Z) : DhtNode * list Datagram :=
  let unverified := take VERIFY_BATCH (udp <$> filter (fun n => verified n = false) (all (table d))) in
  let near := closest (table d) (my_id d) K in
  let acc := send_all (fun d t => send_all (fun d n => (send d (my_find d t) (udp n) now).1) (d, []) near)
               (d, []) (refresh_targets d) in
  send_all (challenge now) acc unverified.
