(* ===== verification/DhtProofs.v ===== *)
(** * What the DHT node guarantees ([dht.rs])

    The routing table stays well formed and bounded and holds only addresses the policy
    accepts, an entry is verified only when its address answered a query of this node, and
    what a datagram can make the node send. *)

From Stdlib Require Import ZArith Lia Strings.Ascii Strings.String Strings.Byte.
From stdpp Require Import base numbers list gmap strings sorting.
From S2P Require Import Prelude External Crypto Dht.

(** ** Ids *)

Lemma length_xor a b : length a = ID_LEN -> length b = ID_LEN -> length (xor a b) = ID_LEN.
Proof. intros Ha Hb. unfold xor. rewrite length_zip_with. lia. Qed.

Lemma leading_zeros_lt b : b2z b <> 0 -> (leading_zeros b < 8)%nat.
Proof.
  intros Hb. unfold leading_zeros. pose proof (b2z_range b). pose proof (Z.log2_nonneg (b2z b)). lia.
Qed.

Lemma bucket_index_from_lt l : forall i k, bucket_index_from i l = Some k -> (k < (i + length l) * 8)%nat.
Proof.
  induction l as [|b l IH]; intros i k; cbn [bucket_index_from length]; [done|].
  destruct (Z.eqb_spec (b2z b) 0) as [|Hb]; cbn.
  - intros Hk%IH. lia.
  - intros [= <-]. apply leading_zeros_lt in Hb. lia.
Qed.

Lemma bucket_of_lt t id k :
  length (self_id t) = ID_LEN -> length id = ID_LEN -> bucket_of t id = Some k -> (k < ID_LEN * 8)%nat.
Proof.
  intros Hs Hi Hk%bucket_index_from_lt. rewrite length_xor in Hk by done. lia.
Qed.

Lemma unhex_pairs_len l : forall id, unhex_pairs l = Some id -> (2 * length id <= length l <= 2 * length id + 1)%nat.
Proof.
  enough (forall n l, (length l <= n)%nat -> forall id, unhex_pairs l = Some id ->
            (2 * length id <= length l <= 2 * length id + 1)%nat) by eauto.
  clear l. induction n as [|n IH]; intros l Hl id.
  - destruct l; [|cbn in Hl; lia]. intros [= <-]. cbn. lia.
  - destruct l as [|a [|b l]]; [intros [= <-]; cbn; lia..|]. cbn [unhex_pairs].
    destruct (radix16 a b); [|done]. cbn [mbind option_bind].
    destruct (unhex_pairs l) as [r|] eqn:E; [|done]. intros [= <-]. apply IH in E; cbn in *; lia.
Qed.

Lemma length_list_ascii s : length (list_ascii_of_string s) = String.length s.
Proof. induction s; cbn; congruence. Qed.

Lemma unhex_len s id : unhex s = Some id -> length id = ID_LEN.
Proof.
  unfold unhex. destruct (Nat.eqb_spec (String.length s) (ID_LEN * 2)) as [E|]; cbn; [|done].
  intros Hi%unhex_pairs_len. rewrite length_list_ascii in Hi. unfold ID_LEN in *. lia.
Qed.

(** ** The table *)

Record table_ok (p : AddrPolicy) (t : RoutingTable) : Prop := {
  ok_self : length (self_id t) = ID_LEN;
  ok_count : length (buckets t) = (ID_LEN * 8)%nat;
  ok_bucket i b : buckets t !! i = Some b -> (length b <= K)%nat /\ NoDup (n_id <$> b);
  ok_node i b n : buckets t !! i = Some b -> n ∈ b ->
    bucket_of t (n_id n) = Some i /\ length (n_id n) = ID_LEN /\ accepts p (udp n).1 (p2p_port n) = true
}.

Lemma elem_of_all t n : n ∈ all t <-> exists i b, buckets t !! i = Some b /\ n ∈ b.
Proof.
  unfold all. rewrite list_elem_of_join. split.
  - intros (b & Hn & (i & Hb)%list_elem_of_lookup). by exists i, b.
  - intros (i & b & Hb & Hn). exists b. split; [done|]. by eapply list_elem_of_lookup_2.
Qed.

Lemma table_new_ok p self : length self = ID_LEN -> table_ok p (RoutingTable_new self).
Proof.
  intros Hs. split; cbn [self_id buckets RoutingTable_new]; [done|by rewrite length_replicate| |].
  - intros i b [-> _]%lookup_replicate. split; [cbn; lia|constructor].
  - intros i b n [-> _]%lookup_replicate ?%elem_of_nil. done.
Qed.

(** Replacing one bucket by a well-formed one. *)
Lemma set_bucket_ok p t i b :
  table_ok p t -> (length b <= K)%nat -> NoDup (n_id <$> b) ->
  (forall n, n ∈ b -> bucket_of t (n_id n) = Some i /\ length (n_id n) = ID_LEN /\ accepts p (udp n).1 (p2p_port n) = true) ->
  table_ok p (set_bucket t i b).
Proof.
  intros [H1 H2 H3 H4] Hl Hnd Hn. split; cbn [self_id buckets set_bucket]; [done|by rewrite length_insert| |].
  - intros j c Hj. destruct (decide (j = i)) as [->|Hne]; [|rewrite list_lookup_insert_ne in Hj by done; by eapply H3].
    apply list_lookup_insert_Some in Hj as [(_ & <- & _)|[? _]]; done.
  - intros j c n Hj Hin. destruct (decide (j = i)) as [->|Hne]; [|rewrite list_lookup_insert_ne in Hj by done; by eapply H4].
    apply list_lookup_insert_Some in Hj as [(_ & <- & _)|[? _]]; [|done]. by apply Hn.
Qed.

Lemma victim_from_lookup now b : forall i best pos v,
  victim_from now i b best = Some (pos, v) ->
  best = Some (pos, v) \/ (i <= pos < i + length b)%nat.
Proof.
  induction b as [|n b IH]; intros i best pos v; cbn [victim_from length]; [by left|].
  intros Hv%IH. destruct Hv as [Hv|]; [|right; lia].
  destruct (STALE_AFTER <? _); [|by left]. destruct best as [[q m]|]; [destruct (older n m); [|by left]|];
    injection Hv as <- _; right; lia.
Qed.

Lemma refresh_node_id e n : n_id (refresh_node e n) = n_id e.
Proof. unfold refresh_node. by destruct (verified n). Qed.

(** What [add] puts in the table. *)
Lemma add_cases p t node :
  table_ok p t -> length (n_id node) = ID_LEN ->
  (add t node).1 = t \/
  exists i b, bucket_of t (n_id node) = Some i /\ buckets t !! i = Some b /\ (add t node).1 = set_bucket t i
    match list_find (fun n => n_id n = n_id node) b with
    | Some (pos, e) => base.delete pos b ++ [refresh_node e node]
    | None => if (length b <? K)%nat then b ++ [node]
              else match victim_from (last_seen node) 0 b None with Some (pos, _) => <[pos := node]> b | None => b end
    end.
Proof.
  intros Hok Hlen. unfold add. destruct (bucket_of t (n_id node)) as [i|] eqn:Ei; [|by left].
  pose proof (bucket_of_lt _ _ _ (ok_self _ _ Hok) Hlen Ei) as Hlt. rewrite <- (ok_count _ _ Hok) in Hlt.
  destruct (lookup_lt_is_Some_2 (buckets t) i Hlt) as (b & Hb).
  unfold bucket. rewrite Hb. cbn [default from_option id].
  destruct (list_find (fun n => n_id n = n_id node) b) as [[pos e]|] eqn:Ef.
  { right. exists i, b. rewrite Ef. done. }
  destruct (length b <? K)%nat eqn:El.
  { right. exists i, b. rewrite Ef, El. done. }
  destruct (victim_from (last_seen node) 0 b None) as [[pos v]|] eqn:Ev; [|by left].
  right. exists i, b. rewrite Ef, El, Ev. done.
Qed.

Lemma delete_elem {A} (l : list A) pos x : x ∈ base.delete pos l -> x ∈ l.
Proof.
  rewrite delete_take_drop. intros Hx. cut (x ∈ take pos l ++ drop pos l); [by rewrite take_drop|].
  rewrite !elem_of_app in *. destruct Hx as [Hx|Hx]; [by left|right].
  cut (x ∈ take 1 (drop pos l) ++ drop 1 (drop pos l)); [by rewrite take_drop|].
  rewrite drop_drop, Nat.add_1_r, elem_of_app. by right.
Qed.

Lemma NoDup_replace {A} (l : list A) i x : NoDup l -> x ∉ l -> NoDup (<[i := x]> l).
Proof.
  rewrite !NoDup_alt. intros Hnd Hx j k y Hj Hk.
  apply list_lookup_insert_Some in Hj as [(-> & -> & _)|[Hne Hj]], Hk as [(-> & E & _)|[Hne' Hk]]; try done.
  - by apply list_elem_of_lookup_2 in Hk.
  - subst. by apply list_elem_of_lookup_2 in Hj.
  - by eapply Hnd.
Qed.

Lemma add_ok p t node :
  table_ok p t -> length (n_id node) = ID_LEN -> accepts p (udp node).1 (p2p_port node) = true ->
  table_ok p (add t node).1.
Proof.
  intros Hok Hlen Hacc. destruct (add_cases p t node Hok Hlen) as [->|(i & b & Hi & Hb & ->)]; [done|].
  destruct (ok_bucket _ _ Hok _ _ Hb) as [Hl Hnd]. pose proof (ok_node _ _ Hok i b) as Hn.
  destruct (list_find (fun n => n_id n = n_id node) b) as [[pos e]|] eqn:Ef.
  - apply list_find_Some in Ef as (Hpos & Hid & _). pose proof (list_elem_of_lookup_2 _ _ _ Hpos) as He.
    assert (Hperm : e :: base.delete pos b ≡ₚ b) by (symmetry; by apply delete_Permutation).
    assert (Hnd' : NoDup (n_id <$> e :: base.delete pos b)) by (by rewrite Hperm).
    apply set_bucket_ok; [done| | |].
    + rewrite length_app, length_delete by done. cbn. pose proof (lookup_lt_Some _ _ _ Hpos). lia.
    + rewrite fmap_app. cbn. rewrite refresh_node_id. cbn in Hnd'. rewrite NoDup_cons in Hnd'.
      apply NoDup_app. split; [by destruct Hnd'|split; [|apply NoDup_singleton]].
      intros x Hx Hx1%list_elem_of_singleton; subst x. by destruct Hnd'.
    + intros n [Hin|Hin%list_elem_of_singleton]%elem_of_app; [|subst n]; [apply Hn; [done|by eapply delete_elem]|].
      rewrite refresh_node_id. destruct (Hn e Hb He) as (H1 & H2 & H3). split; [done|split; [done|]].
      unfold refresh_node. by destruct (verified node).
  - apply list_find_None in Ef. rewrite Forall_forall in Ef.
    assert (Hnew : forall n, n ∈ b -> n_id n <> n_id node) by (intros n Hin; by apply Ef).
    destruct (Nat.ltb_spec (length b) K) as [Hlt|Hge].
    + apply set_bucket_ok; [done| | |].
      * rewrite length_app. cbn. lia.
      * rewrite fmap_app. cbn. apply NoDup_app. split; [done|split; [|apply NoDup_singleton]].
        intros x Hx Hx1%list_elem_of_singleton; subst x. apply list_elem_of_fmap in Hx as (m & E & Hm). by eapply Hnew.
      * intros n [Hin|Hin%list_elem_of_singleton]%elem_of_app; [|subst n]; [by apply Hn|done].
    + destruct (victim_from _ _ _ _) as [[pos v]|] eqn:Ev; [|apply set_bucket_ok; [done..|by intros; apply Hn]].
      apply victim_from_lookup in Ev as [|Hpos]; [done|]. apply set_bucket_ok; [done|by rewrite length_insert| |].
      * rewrite list_fmap_insert. apply NoDup_replace; [done|].
        intros Hx. apply list_elem_of_fmap in Hx as (m & E & Hm). by eapply Hnew.
      * intros n Hin. apply list_elem_of_lookup in Hin as (j & Hj). apply list_lookup_insert_Some in Hj as [(-> & -> & _)|[_ Hj]].
        -- done.
        -- apply Hn; [done|]. by eapply list_elem_of_lookup_2.
Qed.

(** Every entry after an [add] was there, or is the new one, or a refreshed one. *)
Lemma elem_add p t node n :
  table_ok p t -> length (n_id node) = ID_LEN -> n ∈ all (add t node).1 ->
  n ∈ all t \/ n = node \/ exists e, e ∈ all t /\ n = refresh_node e node.
Proof.
  intros Hok Hlen. destruct (add_cases p t node Hok Hlen) as [->|(i & b & Hi & Hb & ->)]; [by left|].
  intros (j & c & Hj & Hin)%elem_of_all. cbn [buckets set_bucket] in Hj.
  assert (Hold : forall m, m ∈ b -> m ∈ all t) by (intros m Hm; apply elem_of_all; by exists i, b).
  apply list_lookup_insert_Some in Hj as [(<- & <- & _)|[_ Hj]]; [|left; apply elem_of_all; by exists j, c].
  destruct (list_find (fun n => n_id n = n_id node) b) as [[pos e]|] eqn:Ef.
  - apply list_find_Some in Ef as (Hpos & _ & _).
    apply elem_of_app in Hin as [Hin%delete_elem|Hin%list_elem_of_singleton]; [left; by apply Hold|subst n].
    right. right. exists e. split; [|done]. apply Hold. by eapply list_elem_of_lookup_2.
  - destruct (length b <? K)%nat.
    + apply elem_of_app in Hin as [Hin|Hin%list_elem_of_singleton]; [left; by apply Hold|by right; left].
    + destruct (victim_from _ _ _ _) as [[pos v]|]; [|left; by apply Hold].
      apply list_elem_of_lookup in Hin as (k & Hk). apply list_lookup_insert_Some in Hk as [(-> & -> & _)|[_ Hk]]; [by right; left|].
      left. apply Hold. by eapply list_elem_of_lookup_2.
Qed.

Lemma verify_at_id addr now n :
  n_id (verify_at addr now n) = n_id n /\ udp (verify_at addr now n) = udp n /\ p2p_port (verify_at addr now n) = p2p_port n.
Proof. unfold verify_at. by case_bool_decide. Qed.

Lemma mark_verified_ok p t addr now : table_ok p t -> table_ok p (mark_verified t addr now).
Proof.
  intros [H1 H2 H3 H4]. split; cbn [self_id buckets mark_verified]; [done|by rewrite length_map| |].
  - intros i b Hb. apply list_lookup_fmap_Some in Hb as (c & -> & Hc). destruct (H3 i c Hc) as [Hl Hnd].
    rewrite length_map. split; [done|]. change (map (verify_at addr now) c) with (verify_at addr now <$> c).
    rewrite <- list_fmap_compose.
    assert (E : n_id ∘ verify_at addr now <$> c = n_id <$> c)
      by (apply list_fmap_ext; intros k n _; cbn; apply verify_at_id).
    by rewrite E.
  - intros i b n Hb Hn. apply list_lookup_fmap_Some in Hb as (c & -> & Hc).
    apply list_elem_of_fmap in Hn as (m & -> & Hm). destruct (verify_at_id addr now m) as (-> & -> & ->). by apply (H4 i c).
Qed.

Lemma elem_mark t addr now n :
  n ∈ all (mark_verified t addr now) -> exists m, m ∈ all t /\ n = verify_at addr now m.
Proof.
  intros (i & b & Hb & Hn)%elem_of_all. apply list_lookup_fmap_Some in Hb as (c & -> & Hc).
  apply list_elem_of_fmap in Hn as (m & -> & Hm). exists m. split; [|done]. apply elem_of_all. by exists i, c.
Qed.

(** ** The bookkeeping *)

Record sources_ok (s : SourceState) : Prop := {
  ok_learn : (size (learn_slots s) <= MAX_TRACKED_SOURCES)%nat;
  ok_pending : (size (pending s) <= MAX_TRACKED_SOURCES)%nat;
  ok_pinged : (size (pinged s) <= MAX_TRACKED_SOURCES)%nat;
  ok_budget ip start n : learn_slots s !! ip = Some (start, n) -> n <= LEARN_PER_WINDOW
}.

Section PruneMap.
Context `{Countable Key} {A : Type}.
Lemma prune_map_sub (m : gmap Key A) fresh k x : prune_map m fresh !! k = Some x -> m !! k = Some x.
Proof.
  unfold prune_map. destruct (_ <=? _)%nat; [|done].
  destruct (_ <=? _)%nat; [by rewrite lookup_empty|]. by intros [? _]%map_lookup_filter_Some.
Qed.
Lemma prune_map_size (m : gmap Key A) fresh : (size (prune_map m fresh) < MAX_TRACKED_SOURCES)%nat.
Proof.
  unfold prune_map. destruct (Nat.leb_spec MAX_TRACKED_SOURCES (size m)); [|done].
  destruct (Nat.leb_spec MAX_TRACKED_SOURCES (size (filter (fun p => fresh p.2 = true) m))); [|done].
  rewrite map_size_empty. unfold MAX_TRACKED_SOURCES. lia.
Qed.
Lemma size_insert_le (m : gmap Key A) k x n : (size m < n)%nat -> (size (<[k := x]> m) <= n)%nat.
Proof. intros Hm. rewrite map_size_insert. destruct (m !! k); unfold id; lia. Qed.
End PruneMap.

Lemma prune_ok s now : sources_ok s -> sources_ok (prune s now).
Proof.
  intros [H1 H2 H3 H4]. split; cbn [learn_slots pending pinged prune];
    [apply Nat.lt_le_incl, prune_map_size..|]. intros ip start n Hl%prune_map_sub. by eapply H4.
Qed.

Lemma allow_learn_ok s ip now : sources_ok s ->
  sources_ok (allow_learn s ip now).1 /\
  (forall a t, pending (allow_learn s ip now).1 !! a = Some t -> pending s !! a = Some t).
Proof.
  intros Hs. pose proof (prune_ok s now Hs) as [H1 H2 H3 H4]. unfold allow_learn.
  set (slot := if LEARN_WINDOW <? _ then _ else _).
  assert (Hslot : slot.2 <= LEARN_PER_WINDOW).
  { unfold slot. destruct (LEARN_WINDOW <? _); cbn [snd]; [unfold LEARN_PER_WINDOW; lia|].
    destruct (learn_slots (prune s now) !! ip) as [[st n]|] eqn:E; cbn; [by eapply H4|unfold LEARN_PER_WINDOW; lia]. }
  clearbody slot.
  destruct (Z.leb_spec LEARN_PER_WINDOW slot.2) as [Hge|Hlt]; cbn [fst]; (split; [split; cbn [learn_slots pending pinged]|]).
  all: try done; try (apply size_insert_le, prune_map_size).
  all: try (intros a t Ht; by apply prune_map_sub in Ht).
  - intros j st n [[<- E]|[_ Hl]]%lookup_insert_Some; [|by eapply H4]. destruct slot; injection E as _ <-. done.
  - intros j st n [[<- E]|[_ Hl]]%lookup_insert_Some; [|by eapply H4]. injection E as _ <-. lia.
Qed.

Lemma note_query_ok s addr now : sources_ok s ->
  sources_ok (note_query s addr now) /\
  (forall a t, pending (note_query s addr now) !! a = Some t -> pending s !! a = Some t \/ (t = now /\ a = addr)).
Proof.
  intros Hs. pose proof (prune_ok s now Hs) as [H1 H2 H3 H4]. unfold note_query. split; [split; cbn [learn_slots pending pinged]|].
  all: try done. { apply size_insert_le, prune_map_size. }
  cbn [pending]. intros a t [[<- <-]|[_ Ht%prune_map_sub]]%lookup_insert_Some; [by right|by left].
Qed.

Lemma take_pending_ok s addr now : sources_ok s ->
  sources_ok (take_pending s addr now).1 /\
  (forall a t, pending (take_pending s addr now).1 !! a = Some t -> pending s !! a = Some t) /\
  ((take_pending s addr now).2 = true -> exists t, pending s !! addr = Some t /\ since now t <= PENDING_TTL).
Proof.
  intros [H1 H2 H3 H4]. unfold take_pending. cbn [fst snd]. split; [split; cbn [learn_slots pending pinged]|split].
  all: try done.
  - rewrite map_size_delete. destruct (pending s !! addr); unfold id; lia.
  - cbn [pending]. by intros a t [_ ?]%lookup_delete_Some.
  - destruct (pending s !! addr) as [t|]; [|done]. intros Ht%Z.leb_le. by exists t.
Qed.

Lemma allow_ping_ok s addr now : sources_ok s ->
  sources_ok (allow_ping s addr now).1 /\
  (forall a t, pending (allow_ping s addr now).1 !! a = Some t -> pending s !! a = Some t).
Proof.
  intros Hs. pose proof (prune_ok s now Hs) as Hp. unfold allow_ping.
  assert (Hsub : forall a t, pending (prune s now) !! a = Some t -> pending s !! a = Some t)
    by (intros a t; apply prune_map_sub).
  destruct (match pinged (prune s now) !! addr with Some t => _ | None => _ end); cbn [fst]; [by split|].
  split; [|exact Hsub]. destruct Hp as [H1 H2 H3 H4]. split; cbn [learn_slots pending pinged]; try done.
  apply size_insert_le, prune_map_size.
Qed.

(** ** The node *)

Record dht_inv (d : DhtNode) : Prop := {
  inv_self : self_id (table d) = my_id d;
  inv_table : table_ok (policy d) (table d);
  inv_sources : sources_ok (sources d)
}.

(** What a call did: addresses in [A] may have become verified, queries sent now pending. *)
Record effect (A : SocketAddr -> Prop) (now : Z) (d d' : DhtNode) (out : list Datagram) : Prop := {
  eff_inv : dht_inv d';
  eff_id : my_id d' = my_id d;
  eff_policy : policy d' = policy d;
  eff_pend a t : pending (sources d') !! a = Some t ->
    pending (sources d) !! a = Some t \/ (t = now /\ exists q, (q, a) ∈ out /\ is_answer q = false);
  eff_ver n : n ∈ all (table d') -> verified n = true ->
    A (udp n) \/ exists m, m ∈ all (table d) /\ verified m = true /\ udp m = udp n;
  eff_out m dst : (m, dst) ∈ out -> accepts_ip (policy d) dst.1 = true
}.

Lemma effect_refl A now d : dht_inv d -> effect A now d d [].
Proof.
  intros Hd. split; [done|done|done| | |].
  - by left.
  - intros n Hn Hv. right. by exists n.
  - by intros m dst ?%elem_of_nil.
Qed.

Lemma effect_trans A now d1 d2 d3 out1 out2 :
  effect A now d1 d2 out1 -> effect A now d2 d3 out2 -> effect A now d1 d3 (out1 ++ out2).
Proof.
  intros [I1 M1 P1 Q1 V1 O1] [I2 M2 P2 Q2 V2 O2]. split; [done|congruence|congruence| | |].
  - intros a t [Hp|(-> & q & Hq & Ha)]%Q2.
    + destruct (Q1 a t Hp) as [|(-> & q & Hq & Ha)]; [by left|right]. split; [done|]. exists q.
      split; [|done]. apply elem_of_app. by left.
    + right. split; [done|]. exists q. split; [|done]. apply elem_of_app. by right.
  - intros n Hn Hv. destruct (V2 n Hn Hv) as [|(m & Hm & Hvm & Eu)]; [by left|].
    destruct (V1 m Hm Hvm) as [HA|(k & Hk & Hvk & Ek)]; [left; by rewrite <- Eu|right].
    exists k. split; [done|split; [done|congruence]].
  - intros m dst [Hm|Hm]%elem_of_app; [by eapply O1|]. rewrite <- P1. by eapply O2.
Qed.

(** A change of the bookkeeping alone. *)
Lemma effect_sources A now d s out :
  dht_inv d -> sources_ok s ->
  (forall a t, pending s !! a = Some t -> pending (sources d) !! a = Some t \/ (t = now /\ exists q, (q, a) ∈ out /\ is_answer q = false)) ->
  (forall m dst, (m, dst) ∈ out -> accepts_ip (policy d) dst.1 = true) ->
  effect A now d (with_sources d s) out.
Proof.
  intros [H1 H2 H3] Hs Hp Ho. split; [by split|done|done|exact Hp| |exact Ho].
  intros n Hn Hv. right. by exists n.
Qed.

Lemma send_effect A d msg dst now :
  dht_inv d -> effect A now d (send d msg dst now).1.1 (send d msg dst now).1.2.
Proof.
  intros Hd. unfold send. destruct (accepts_ip (policy d) dst.1) eqn:Ea; cbn [negb fst snd]; [|by apply effect_refl].
  assert (Hout : forall m dst', (m, dst') ∈ [(msg, dst)] -> accepts_ip (policy d) dst'.1 = true).
  { intros m dst' Hin%list_elem_of_singleton. by injection Hin as _ ->. }
  destruct (is_answer msg) eqn:Em.
  - destruct (effect_refl A now d Hd) as [H1 H2 H3 H4 H5 _]. split; try done. by left.
  - destruct (note_query_ok (sources d) dst now (inv_sources _ Hd)) as [Hs Hp].
    apply effect_sources; [done|done| |done]. intros a t [|[-> ->]]%Hp; [by left|right].
    split; [done|]. exists msg. split; [by left|done].
Qed.

(** An [add] of an acceptable node; its address becomes verified only if it already claims so. *)
Lemma add_effect (A : SocketAddr -> Prop) now d node :
  dht_inv d -> length (n_id node) = ID_LEN -> accepts (policy d) (udp node).1 (p2p_port node) = true ->
  (verified node = true -> A (udp node)) ->
  effect A now d (with_table d (add (table d) node).1) [].
Proof.
  intros [H1 H2 H3] Hl Ha HA. pose proof (add_ok _ _ _ H2 Hl Ha) as Hok.
  split; cbn [my_id policy sources table with_table]; [split; cbn|done|done|by left| |by intros m dst ?%elem_of_nil].
  - rewrite <- H1. unfold add. destruct (bucket_of _ _); [|done]. destruct (list_find _ _) as [[? ?]|]; [done|].
    destruct (_ <? _)%nat; [done|]. by destruct (victim_from _ _ _ _) as [[? ?]|].
  - done.
  - done.
  - intros n Hn Hv. destruct (elem_add _ _ _ _ H2 Hl Hn) as [Hin|[->|(e & He & ->)]].
    + right. by exists n.
    + left. by apply HA.
    + unfold refresh_node in *. destruct (verified node) eqn:En; [left; by apply HA|]. right. by exists e.
Qed.

Lemma learn_effect (A : SocketAddr -> Prop) now d node :
  dht_inv d -> length (n_id node) = ID_LEN -> (verified node = true -> A (udp node)) ->
  effect A now d (learn d node).1 [].
Proof.
  intros Hd Hl HA. unfold learn. destruct (bool_decide _ || _) eqn:E; [by apply effect_refl|].
  apply orb_false_iff in E as [_ Ha%negb_false_iff].
  destruct (if contains (table d) (n_id node) then _ else _) as [s ok] eqn:Es.
  assert (Hs : sources_ok s /\ forall a t, pending s !! a = Some t -> pending (sources d) !! a = Some t).
  { destruct (contains _ _); [injection Es as <- _; split; [apply Hd|done]|].
    pose proof (allow_learn_ok (sources d) (udp node).1 (last_seen node) (inv_sources _ Hd)) as Hx. by rewrite Es in Hx. }
  destruct Hs as [Hs Hp].
  assert (He : effect A now d (with_sources d s) []).
  { apply effect_sources; [done|done|intros a t Hat; left; by apply Hp|by intros m dst ?%elem_of_nil]. }
  destruct ok; cbn [fst]; [|exact He].
  destruct (add (table (with_sources d s)) node) as [t new] eqn:Et. cbn [fst].
  replace t with (add (table (with_sources d s)) node).1 by (by rewrite Et).
  change (@nil Datagram) with (@nil Datagram ++ @nil Datagram). eapply effect_trans; [exact He|].
  apply add_effect; [apply He|done|done|done].
Qed.

Section HandleProofs.
Context `{IpText}.

Lemma fold_effect {X} A now (f : DhtNode -> X -> DhtNode) xs :
  (forall d x, dht_inv d -> effect A now d (f d x) []) ->
  forall d, dht_inv d -> effect A now d (foldl f d xs) [].
Proof.
  intros Hf. induction xs as [|x xs IH]; intros d Hd; [by apply effect_refl|].
  cbn [foldl]. pose proof (Hf d x Hd) as He. change (@nil Datagram) with (@nil Datagram ++ @nil Datagram).
  eapply effect_trans; [exact He|]. by apply IH, He.
Qed.

Lemma send_all_effect {X} A now (f : DhtNode -> X -> DhtNode * list Datagram) xs :
  (forall d x, dht_inv d -> effect A now d (f d x).1 (f d x).2) ->
  forall d0 acc, effect A now d0 acc.1 acc.2 -> effect A now d0 (send_all f acc xs).1 (send_all f acc xs).2.
Proof.
  intros Hf. unfold send_all. induction xs as [|x xs IH]; intros d0 acc Ha; [done|].
  cbn [foldl]. apply IH. destruct (f acc.1 x) as [d out] eqn:E. cbn [fst snd].
  eapply effect_trans; [exact Ha|]. pose proof (Hf acc.1 x (eff_inv _ _ _ _ _ Ha)) as He. by rewrite E in He.
Qed.

Lemma absorb_effect A now d r : dht_inv d -> effect A now d (absorb now d r) [].
Proof.
  intros Hd. unfold absorb. destruct (unhex (rec_id r)) as [id|] eqn:Eu; [|by apply effect_refl].
  destruct (ip_parse _) as [ip|]; [|by apply effect_refl].
  apply learn_effect; [done|by apply (unhex_len (rec_id r))|done].
Qed.

Lemma answer_effect A d msg src now : dht_inv d -> effect A now d (answer d msg src now).1 (answer d msg src now).2.
Proof.
  intros Hd. destruct msg as [from p2p|from p2p|from p2p target|from p2p nodes]; cbn [answer fst snd].
  - by apply send_effect.
  - by apply effect_refl.
  - set (msg := Nodes _ _ _). pose proof (send_effect A d msg src now Hd) as He.
    destruct (send d msg src now) as [[d1 out1] ok1]. cbn [fst snd] in He.
    destruct (is_verified_source (table d) src); [exact He|]. pose proof (eff_inv _ _ _ _ _ He) as Hd1.
    pose proof (allow_ping_ok (sources d1) src now (inv_sources _ Hd1)) as [Hs Hp].
    destruct (allow_ping (sources d1) src now) as [s allowed]. cbn [fst snd] in Hs, Hp.
    assert (He2 : effect A now d1 (with_sources d1 s) []).
    { apply effect_sources; [done|done|intros a t Hat; left; by apply Hp|by intros m dst ?%elem_of_nil]. }
    assert (He3 : effect A now d (with_sources d1 s) out1).
    { rewrite <- (app_nil_r out1). by eapply effect_trans. }
    destruct allowed; [|exact He3].
    pose proof (send_effect A (with_sources d1 s) (my_ping (with_sources d1 s)) src now (eff_inv _ _ _ _ _ He2)) as He4.
    destruct (send (with_sources d1 s) _ src now) as [[d2 out2] ok2]. cbn [fst snd] in *. by eapply effect_trans.
  - apply fold_effect; [|done]. intros d' r Hd'. by apply absorb_effect.
Qed.

(** The address of a datagram is proved by it when it answers a fresh query. *)
Definition answers (d : DhtNode) (msg : DhtMsg) (src : SocketAddr) (now : Z) (addr : SocketAddr) : Prop :=
  addr = src /\ is_answer msg = true /\ exists t, pending (sources d) !! src = Some t /\ since now t <= PENDING_TTL.

Lemma handle_effect d msg src now :
  dht_inv d -> effect (answers d msg src now) now d (handle d msg src now).1 (handle d msg src now).2.
Proof.
  intros Hd. unfold handle. destruct (negb _); [by apply effect_refl|].
  destruct (if is_answer msg then take_pending (sources d) src now else (sources d, false)) as [s sol] eqn:Es.
  assert (Hs : sources_ok s /\ (forall a t, pending s !! a = Some t -> pending (sources d) !! a = Some t) /\
            (sol = true -> answers d msg src now src)).
  { destruct (is_answer msg) eqn:Em.
    - pose proof (take_pending_ok (sources d) src now (inv_sources _ Hd)) as (H1 & H2 & H3). rewrite Es in *.
      split; [done|split; [done|]]. intros ->. by split; [|split; [|apply H3]].
    - injection Es as <- <-. split; [apply Hd|done]. }
  destruct Hs as (Hs & Hp & Hsol).
  assert (He : effect (answers d msg src now) now d (with_sources d s) []).
  { apply effect_sources; [done|done|intros a t Hat; left; by apply Hp|by intros m dst ?%elem_of_nil]. }
  set (d2 := if sol then _ else _).
  assert (He2 : effect (answers d msg src now) now (with_sources d s) d2 []).
  { pose proof (eff_inv _ _ _ _ _ He) as Hd1. destruct sol; [|by apply effect_refl]. unfold d2.
    destruct Hd1 as [K1 K2 K3]. split; cbn [my_id policy sources table with_table]; [split; cbn|done|done|by left| |by intros m dst ?%elem_of_nil].
    - done.
    - by apply mark_verified_ok.
    - done.
    - intros n (m & Hm & ->)%elem_mark Hv. unfold verify_at in *. case_bool_decide as Eu; cbn [udp verified] in *.
      + left. rewrite Eu. by apply Hsol.
      + right. by exists m. }
  destruct (sender msg) as [from p2p]. set (d3 := match unhex from with Some id => _ | None => _ end).
  assert (He3 : effect (answers d msg src now) now d2 d3 []).
  { pose proof (eff_inv _ _ _ _ _ He2) as Hd2. unfold d3. destruct (unhex from) as [id|] eqn:Eu; [|by apply effect_refl].
    apply learn_effect; [done|by apply (unhex_len from)|]. intros Hv. cbn in *. by apply Hsol. }
  pose proof (effect_trans _ _ _ _ _ _ _ He (effect_trans _ _ _ _ _ _ _ He2 He3)) as He4. cbn [app] in He4.
  pose proof (answer_effect (answers d msg src now) d3 msg src now (eff_inv _ _ _ _ _ He4)) as He5.
  exact (effect_trans _ _ _ _ _ _ _ He4 He5).
Qed.

Lemma import_effect A d nodes now : dht_inv d -> effect A now d (import_nodes d nodes now) [].
Proof.
  intros Hd. unfold import_nodes. apply fold_effect; [|done]. clear d Hd. intros d r Hd. unfold import_one.
  destruct (unhex (rec_id r)) as [id|] eqn:Eu; [|by apply effect_refl].
  destruct (ip_parse _) as [ip|]; [|by apply effect_refl].
  destruct (_ || _) eqn:E; [by apply effect_refl|].
  apply orb_false_iff in E as [E Hp%negb_false_iff]. apply orb_false_iff in E as [_ Ha%negb_false_iff].
  apply add_effect; [done|by apply (unhex_len (rec_id r))| |done]. cbn [udp p2p_port fst].
  unfold accepts in *. apply andb_true_iff in Ha as [_ ->]. by rewrite Hp.
Qed.

Lemma bootstrap_effect A d addrs now : dht_inv d -> effect A now d (bootstrap d addrs now).1 (bootstrap d addrs now).2.
Proof.
  intros Hd. apply send_all_effect; [|by apply effect_refl]. intros d' [a|] Hd'; [by apply send_effect|by apply effect_refl].
Qed.

Lemma refresh_effect A d now : dht_inv d -> effect A now d (refresh d now).1 (refresh d now).2.
Proof.
  intros Hd. unfold refresh. apply send_all_effect.
  - intros d' addr Hd'. unfold challenge.
    pose proof (allow_ping_ok (sources d') addr now (inv_sources _ Hd')) as [Hs Hp].
    destruct (allow_ping (sources d') addr now) as [s allowed]. cbn [fst snd] in Hs, Hp.
    assert (He : effect A now d' (with_sources d' s) []).
    { apply effect_sources; [done|done|intros a t Hat; left; by apply Hp|by intros m dst ?%elem_of_nil]. }
    destruct allowed; [|exact He]. change (?x.1.2) with ([] ++ x.1.2).
    eapply (effect_trans _ _ _ _ _ []); [exact He|]. by apply send_effect, He.
  - apply send_all_effect; [|by apply effect_refl]. intros d' t Hd'.
    apply send_all_effect; [|by apply effect_refl]. intros d'' n Hd''. by apply send_effect.
Qed.

(** ** Runs *)

(** What can happen to a node. *)
Inductive Event :=
| Recv (msg : DhtMsg) (src : SocketAddr) (now : Z)
| Refresh (now : Z)
| Import (nodes : list NodeRec) (now : Z)
| Bootstrap (addrs : list (option SocketAddr)) (now : Z).
Definition time_of (e : Event) : Z :=
  match e with Recv _ _ now | Refresh now | Import _ now | Bootstrap _ now => now end.
Definition exec (d : DhtNode) (e : Event) : DhtNode * list Datagram :=
  match e with
  | Recv msg src now => handle d msg src now
  | Refresh now => refresh d now
  | Import nodes now => (import_nodes d nodes now, [])
  | Bootstrap addrs now => bootstrap d addrs now
  end.
(** A run and its log: the events with the datagrams each made the node send. *)
Abbreviation Log := (list (Event * list Datagram)).
Inductive dht_run (d0 : DhtNode) : Log -> DhtNode -> Prop :=
| run_start : dht_run d0 [] d0
| run_step log d e : dht_run d0 log d -> dht_run d0 (log ++ [(e, (exec d e).2)]) (exec d e).1.

(** A query to [addr] left at time [t]. *)
Definition queried (log : Log) (addr : SocketAddr) (t : Z) : Prop :=
  exists e out q, (e, out) ∈ log /\ (q, addr) ∈ out /\ is_answer q = false /\ time_of e = t.
(** [addr] answered a query within the time limit. *)
Definition proved (log : Log) (addr : SocketAddr) : Prop :=
  exists log1 log2 msg t' t out, log = log1 ++ (Recv msg addr t', out) :: log2 /\
    is_answer msg = true /\ queried log1 addr t /\ since t' t <= PENDING_TTL.

Lemma exec_effect d e : dht_inv d ->
  effect (fun a => match e with Recv msg src now => answers d msg src now a | _ => False end) (time_of e) d (exec d e).1 (exec d e).2.
Proof.
  intros Hd. destruct e; cbn [exec time_of fst snd];
    [by apply handle_effect|by apply refresh_effect|by apply import_effect|by apply bootstrap_effect].
Qed.

Lemma queried_app log log' a t : queried log a t -> queried (log ++ log') a t.
Proof.
  intros (e & out & q & Hin & Hq & Ha & Ht). exists e, out, q. split; [apply elem_of_app; by left|done].
Qed.
Lemma proved_app log log' a : proved log a -> proved (log ++ log') a.
Proof.
  intros (l1 & l2 & msg & t' & t & out & -> & Hm & Hq & Ht). exists l1, (l2 ++ log'), msg, t', t, out.
  split; [by rewrite <- app_assoc|done].
Qed.

Lemma run_inv d0 log d : dht_inv d0 -> (forall n, n ∈ all (table d0) -> verified n = false) ->
  pending (sources d0) = ∅ -> dht_run d0 log d ->
  dht_inv d /\ policy d = policy d0 /\
  (forall a t, pending (sources d) !! a = Some t -> queried log a t) /\
  (forall n, n ∈ all (table d) -> verified n = true -> proved log (udp n)) /\
  (forall e out m dst, (e, out) ∈ log -> (m, dst) ∈ out -> accepts_ip (policy d0) dst.1 = true).
Proof.
  intros H0 Hv0 Hp0 Hr. induction Hr as [|log d e Hr IH].
  - split; [done|split; [done|split; [|split]]].
    + intros a t. by rewrite Hp0, lookup_empty.
    + intros n Hn. by rewrite (Hv0 n Hn).
    + by intros e out m dst ?%elem_of_nil.
  - destruct IH as (Hd & Hpol & Hpend & Hver & Hout). pose proof (exec_effect d e Hd) as [E1 E2 E3 E4 E5 E6].
    split; [done|split; [congruence|split; [|split]]].
    + intros a t [Hp|(-> & q & Hq & Ha)]%E4; [by apply queried_app, Hpend|].
      exists e, (exec d e).2, q. split; [apply elem_of_app; right; by left|done].
    + intros n Hn Hv. destruct (E5 n Hn Hv) as [HA|(m & Hm & Hvm & <-)]; [|by apply proved_app, Hver].
      destruct e as [msg src now| | |]; [|done..]. destruct HA as (-> & Hm & t & Ht & Hs).
      exists log, [], msg, now, t, (exec d (Recv msg src now)).2. split; [done|split; [done|split; [by apply Hpend|done]]].
    + intros e' out m dst [Hin|Hin%list_elem_of_singleton]%elem_of_app Hmd; [by eapply Hout|].
      injection Hin as -> ->. rewrite <- Hpol. by eapply E6.
Qed.

Lemma bound_inv `{CryptoPrims} peer port p :
  length (id_from_peer peer) = ID_LEN -> dht_inv (bind_with_policy peer port p) /\
  (forall n, n ∈ all (table (bind_with_policy peer port p)) -> verified n = false).
Proof.
  intros Hl. split.
  - split; cbn; [done|by apply table_new_ok|]. split; cbn; [rewrite map_size_empty; lia..|]. intros ip st n. by rewrite lookup_empty.
  - intros n (i & b & [-> _]%lookup_replicate & ?%elem_of_nil)%elem_of_all. done.
Qed.
End HandleProofs.


(** Verification is earned: in every run, an entry is verified - served in full, persisted
    and handed to the discovery - only if a datagram answering one of our queries arrived from
    its exact address, within the time limit of a query this node really sent there. Hearsay,
    unsolicited packets and restored snapshots never verify anything. *)
Theorem verified_proved `{CryptoPrims} `{IpText} peer port p log d n :
  length (id_from_peer peer) = ID_LEN -> dht_run (bind_with_policy peer port p) log d ->
  n ∈ all (table d) -> verified n = true -> proved log (udp n).
Proof.
  intros Hl Hr. destruct (bound_inv peer port p Hl) as [Hi Hv].
  destruct (run_inv _ log d Hi Hv eq_refl Hr) as (_ & _ & _ & H4 & _). apply H4.
Qed.

(** ** What a datagram can make the node send *)

Lemma closest_length t target n : (length (closest t target n) <= n)%nat.
Proof. unfold closest. rewrite length_take. lia. Qed.

(** [send] adds at most the one datagram and leaves the table alone. *)
Lemma send_one d m src now : exists l, (send d m src now).1.2 = l /\ (l = [] \/ l = [(m, src)]) /\
  table (send d m src now).1.1 = table d.
Proof.
  unfold send. destruct (negb _); eexists; (split; [done|]); [by auto|].
  split; [by right|]. by destruct (is_answer m).
Qed.

Lemma answer_bounded `{IpText} d msg src now :
  let '(d', out) := answer d msg src now in
  (length out <= 2)%nat /\ (is_answer msg = true -> out = []) /\ (forall m dst, (m, dst) ∈ out -> dst = src) /\
  (forall from p2p recs dst, (Nodes from p2p recs, dst) ∈ out ->
     (length recs <= K)%nat /\
     ((length recs <= K_UNVERIFIED)%nat \/ is_verified_source (table d') src = true)).
Proof.
  destruct msg as [from p2p|from p2p|from p2p target|from p2p nodes]; cbn [answer is_answer].
  - destruct (send_one d (DhtPong (hex (my_id d)) (my_p2p_port d)) src now) as (l & E & Hl & _).
    destruct (send d _ src now) as [[d1 out] ok]. cbn [fst snd] in *. subst out. destruct Hl as [->| ->].
    + by split; [cbn; lia|split; [done|split; [by intros ? ? ?%elem_of_nil|by intros ? ? ? ? ?%elem_of_nil]]].
    + split; [cbn; lia|split; [done|split]].
      * intros m dst Hin%list_elem_of_singleton. by injection Hin as _ ->.
      * intros f q recs dst Hin%list_elem_of_singleton. discriminate.
  - split; [cbn; lia|split; [done|split; [by intros ? ? ?%elem_of_nil|by intros ? ? ? ? ?%elem_of_nil]]].
  - set (want := if is_verified_source (table d) src then K else K_UNVERIFIED).
    set (near := closest (table d) (default (my_id d) (unhex target)) want).
    assert (Hwant : (length near <= want)%nat) by apply closest_length.
    assert (Hrec : (length (to_rec <$> near) <= K)%nat /\
              ((length (to_rec <$> near) <= K_UNVERIFIED)%nat \/ is_verified_source (table d) src = true)).
    { rewrite length_fmap. unfold want in Hwant. destruct (is_verified_source (table d) src); [by auto|].
      unfold K, K_UNVERIFIED in *. split; [lia|by left]. }
    destruct (send_one d (Nodes (hex (my_id d)) (my_p2p_port d) (to_rec <$> near)) src now) as (l & E & Hl & Et).
    destruct (send d _ src now) as [[d1 out] ok]. cbn [fst snd] in E, Et. subst out.
    assert (Hout : (length l <= 1)%nat /\ (forall m dst, (m, dst) ∈ l -> dst = src) /\
              forall f q recs dst, (Nodes f q recs, dst) ∈ l -> recs = to_rec <$> near).
    { destruct Hl as [->| ->]; (split; [cbn; lia|split]).
      - by intros ? ? ?%elem_of_nil.
      - by intros ? ? ? ? ?%elem_of_nil.
      - intros m dst Hin%list_elem_of_singleton. by injection Hin as _ ->.
      - intros f q recs dst Hin%list_elem_of_singleton. by injection Hin as _ _ -> _. }
    destruct Hout as (Hlen & Hdst & Hnodes).
    destruct (is_verified_source (table d) src) eqn:Ev.
    + split; [lia|split; [done|split; [done|]]]. intros f q recs dst Hin. rewrite (Hnodes _ _ _ _ Hin), Et. by rewrite Ev.
    + destruct (allow_ping (sources d1) src now) as [s allowed]. destruct allowed.
      * destruct (send_one (with_sources d1 s) (my_ping (with_sources d1 s)) src now) as (l2 & E2 & Hl2 & Et2).
        destruct (send (with_sources d1 s) _ src now) as [[d2 out2] ok2]. cbn [fst snd] in E2, Et2. subst out2.
        split; [rewrite length_app; destruct Hl2 as [->| ->]; cbn; lia|split; [done|split]].
        -- intros m dst [Hin|Hin]%elem_of_app; [by eapply Hdst|]. destruct Hl2 as [->| ->]; [by apply elem_of_nil in Hin|].
           apply list_elem_of_singleton in Hin. by injection Hin as _ ->.
        -- intros f q recs dst [Hin|Hin]%elem_of_app.
           ++ rewrite (Hnodes _ _ _ _ Hin). destruct Hrec as [? [?|?]]; [by auto|discriminate].
           ++ destruct Hl2 as [->| ->]; [by apply elem_of_nil in Hin|]. by apply list_elem_of_singleton in Hin.
      * split; [lia|split; [done|split; [done|]]]. intros f q recs dst Hin.
        rewrite (Hnodes _ _ _ _ Hin). destruct Hrec as [? [?|?]]; [by auto|discriminate].
  - split; [cbn; lia|split; [done|split; [by intros ? ? ?%elem_of_nil|by intros ? ? ? ? ?%elem_of_nil]]].
Qed.

(** No amplification: a datagram from an address the policy refuses is ignored; any other
    is answered only to its source, by at most two datagrams, an answer by none; and a list of
    nodes has at most two records unless the source is verified, and never more than eight. *)
Theorem handle_bounded `{IpText} d msg src now :
  let '(d', out) := handle d msg src now in
  (accepts_ip (policy d) src.1 = false -> out = [] /\ d' = d) /\
  (length out <= 2)%nat /\ (is_answer msg = true -> out = []) /\
  (forall m dst, (m, dst) ∈ out -> dst = src) /\
  (forall from p2p recs dst, (Nodes from p2p recs, dst) ∈ out ->
     (length recs <= K)%nat /\
     ((length recs <= K_UNVERIFIED)%nat \/ is_verified_source (table d') src = true)).
Proof.
  unfold handle. destruct (accepts_ip (policy d) src.1) eqn:Ea; cbn [negb].
  - destruct (if is_answer msg then _ else _) as [s sol]. destruct (sender msg) as [from p2p].
    set (d3 := match unhex from with Some id => _ | None => _ end). pose proof (answer_bounded d3 msg src now) as Hanswer.
    destruct (answer d3 msg src now) as [d' out]. split; [discriminate|exact Hanswer].
  - split; [done|split; [cbn; lia|split; [done|split; [by intros ? ? ?%elem_of_nil|by intros ? ? ? ? ?%elem_of_nil]]]].
Qed.

(** ** The closest nodes *)

Lemma bytes_leb_total a b : bytes_leb a b = true \/ bytes_leb b a = true.
Proof.
  revert b. induction a as [|x a IH]; intros [|y b]; [by left..|by right|]. cbn [bytes_leb].
  destruct (Z.ltb_spec (b2z x) (b2z y)); [by left|]. destruct (Z.ltb_spec (b2z y) (b2z x)); [by right|].
  assert (b2z x = b2z y) as -> by lia. rewrite Z.eqb_refl. apply IH.
Qed.
Lemma bytes_leb_trans a b c : bytes_leb a b = true -> bytes_leb b c = true -> bytes_leb a c = true.
Proof.
  revert b c. induction a as [|x a IH]; intros [|y b] [|z c]; try done. cbn [bytes_leb].
  rewrite !orb_true_iff, !andb_true_iff, !Z.ltb_lt, !Z.eqb_eq.
  intros [H1|[H1 H2]] [H3|[H3 H4]]; [left; lia..|]. right. split; [lia|by eapply IH].
Qed.
#[export] Instance closer_total target : Total (closer target).
Proof. intros n m. unfold closer. destruct (bytes_leb_total (xor (n_id n) target) (xor (n_id m) target)) as [->| ->]; auto. Qed.
#[export] Instance closer_trans target : Transitive (closer target).
Proof.
  intros a b c. unfold closer. intros H1%Is_true_true H2%Is_true_true. apply Is_true_true. by eapply bytes_leb_trans.
Qed.

(** [closest] is the Kademlia lookup: as many entries as asked for, or all of them, each
    from the table, and no entry left out is strictly closer to the target. *)
Theorem closest_spec t target count :
  length (closest t target count) = Nat.min count (length (all t)) /\
  closest t target count ⊆ all t /\
  exists rest, all t ≡ₚ closest t target count ++ rest /\
    forall n m, n ∈ closest t target count -> m ∈ rest -> closer target n m.
Proof.
  unfold closest. pose proof (merge_sort_Permutation (closer target) (all t)) as Hp.
  split; [by rewrite length_take, Hp|split].
  - intros n Hn. rewrite <- Hp. by eapply elem_of_take in Hn as (i & Hi & _); eapply list_elem_of_lookup_2.
  - exists (drop count (merge_sort (closer target) (all t))). rewrite take_drop. split; [done|].
    assert (Hs : StronglySorted (closer target) (merge_sort (closer target) (all t)))
      by (apply StronglySorted_merge_sort; apply _).
    rewrite <- (take_drop count (merge_sort _ _)) in Hs. intros n m Hn Hm.
    eapply StronglySorted_app_1_elem_of; [exact Hs|done|done].
Qed.
