(* ===== verification/DhtWitness.v ===== *)
(** * Concrete runs of the DHT node

    A node that queries a bootstrap address and hears its answer, and what hearsay can make
    it contact. *)

From Stdlib Require Import ZArith Lia Strings.Ascii Strings.String Strings.Byte.
From stdpp Require Import base numbers list gmap strings.
From S2P Require Import Prelude External Crypto Dht DhtProofs.
Import Toy.

Module DhtRun.
(** Addresses as the binary digits of their code. *)
Fixpoint digits (p : positive) : string :=
  match p with
  | xH => ""
  | xO p => String "0" (digits p)
  | xI p => String "1" (digits p)
  end.
Fixpoint undigits (s : string) : positive :=
  match s with
  | EmptyString => xH
  | String c s => if Ascii.eqb c "0" then xO (undigits s) else xI (undigits s)
  end.
Lemma undigits_digits p : undigits (digits p) = p.
Proof. induction p as [p IH|p IH|]; cbn; congruence. Defined.
#[export] Instance ip_text : IpText.
Proof.
  refine {| ip_to_string := fun ip => digits (encode ip); ip_parse := fun s => decode (undigits s) |}.
  intros ip. by rewrite undigits_digits, decode_encode.
Defined.

Definition node0 : DhtNode := bind_with_policy "me" 3119 PublicOnly.
Definition friend : SocketAddr := (V4 9 9 9 9, 6881).
Definition friend_id : string := hex (id_from_peer "friend").
Definition victim : SocketAddr := (V4 8 8 8 8, 22).

Definition e1 : Event := Bootstrap [Some friend] 0.
Definition e2 : Event := Recv (Nodes friend_id 3119 []) friend 5.
Definition log2 : list (Event * list Datagram) := [(e1, (exec node0 e1).2); (e2, (exec (exec node0 e1).1 e2).2)].
Definition node2 : DhtNode := (exec (exec node0 e1).1 e2).1.

Lemma run2 : dht_run node0 log2 node2.
Proof. apply (run_step node0 [_] _ e2), (run_step node0 [] node0 e1), run_start. Defined.

Lemma id_ok : length (id_from_peer "me") = ID_LEN.
Proof. reflexivity. Defined.


(** The friend answered: its entry is verified. *)
Definition friend_node : Node := mkNode (id_from_peer "friend") friend 3119 true 5.
Lemma verified_proved_witness : verified friend_node = true /\ proved log2 friend.
Proof.
  split; [reflexivity|].
  refine (verified_proved "me" 3119 PublicOnly log2 node2 friend_node id_ok run2 _ eq_refl).
  assert (E : all (table node2) = [friend_node]) by (vm_compute; reflexivity).
  rewrite E. by left.
Defined.

(** Hearsay can aim the node at a privileged port: one [Nodes] datagram from any public
    source makes the next refresh query and challenge an address on port 22, although the
    policy calls such a port not contactable and a snapshot with the same record is refused. *)
Theorem hearsay_privileged_port :
  let told := Nodes friend_id 3119 [mkRec (hex (id_from_peer "x")) (ip_to_string victim.1) victim.2 3119] in
  let d := (handle node0 told friend 0).1 in
  is_contactable_port victim.2 = false /\
  (my_ping d, victim) ∈ (refresh d 1).2 /\ (my_find d (my_id d), victim) ∈ (refresh d 1).2 /\
  all (table (import_nodes node0 [mkRec (hex (id_from_peer "x")) (ip_to_string victim.1) victim.2 3119] 0)) = [].
Proof.
  cbv zeta. split; [reflexivity|split; [|split]].
  - apply (bool_decide_eq_true _). vm_compute. reflexivity.
  - apply (bool_decide_eq_true _). vm_compute. reflexivity.
  - vm_compute. reflexivity.
Qed.
End DhtRun.
