(* ===== verification/ReadPath.v ===== *)
(** * Downloads over the network ([crates/server/src/handlers/files.rs])

    The read path of the server: the shards of every chunk are asked for at once, on this
    node and on the peers, each answer is checked against the hash of its row, the first ten
    good ones of a chunk win, and the chunks pass through a window of four. The peers are a
    function from request to answer that nothing is assumed about; the order in which the
    fetches of a chunk, and the chunks of the window, complete is an argument. *)

From Stdlib Require Import ZArith Lia Strings.Ascii Strings.String Strings.Byte.
From stdpp Require Import base numbers list gmap strings sorting.
From S2P Require Import Prelude External Erasure Crypto Pipeline Paths Manifest ManifestInv ChunkStore.
From S2P Require Import Service ServiceProofs ServiceSpec Protocol.

Inductive P2pError :=
| Unauthorized
| Forbidden
| NoSuchFile
| BadRequest (msg : string)
| DbError
| Store (e : StoreError).

Definition READ_CHUNK_WINDOW : nat := 4.
Abbreviation ChunkShards := (ChunkRow * list ShardRow)%type.
(** Position in the file, the chunk, its slots. *)
Abbreviation ChunkFetch := (nat * ChunkRow * list (option bytes))%type.
Abbreviation PeerAddrs := (gmap string string).

(** [request_with_timeout(..).ok()], over one download. *)
Abbreviation Answers := (string -> P2pMessage -> option P2pMessage).

Section ReadPath.
Context `{CryptoPrims} `{Zstd} `{ReedSolomon}.
Variable data_key : bytes.
Variable answer : Answers.
Variable peers : PeerAddrs.

Definition fetch_shard_for_read (st : ChunkStore) (s : ShardRow) : Z * option bytes :=
  let i := as_u64 (shard_index s) in
  if same (location s) "local" then (i, read_local_verified st (fragment s) (hash s))
  else
    match peers !! location s with
    | None => (i, None)
    | Some addr =>
        match answer addr (GetShard (fragment s)) with
        | Some (ShardData _ data) => if verify_hash data (hash s) then (i, Some data) else (i, None)
        | _ => (i, None)
        end
    end.

(** The answers of one chunk, in order of arrival, until ten slots are filled. *)
Fixpoint collect (present : list (option bytes)) (got : nat) (arrivals : list (Z * option bytes))
    : list (option bytes) :=
  match arrivals with
  | [] => present
  | (_, None) :: arrivals => collect present got arrivals
  | (i, Some b) :: arrivals =>
      match (if i <? len present then present !! Z.to_nat i else None) with
      | None => collect present got arrivals
      | Some cell =>
          let '(present, got) :=
            match cell with
            | None => (<[Z.to_nat i := Some b]> present, S got)
            | Some _ => (present, got)
            end in
          if (DATA_SHARDS <=? got)%nat then present else collect present got arrivals
      end
  end.

(** [arrive] orders the completions of the fetches of a chunk. *)
Variable arrive : ChunkRow -> list ShardRow -> list ShardRow.

Definition fetch_chunk_shards (st : ChunkStore) (c : ChunkShards) : list (option bytes) :=
  collect (replicate TOTAL_SHARDS None) 0 (fetch_shard_for_read st <$> arrive c.1 c.2).

(** Chunks not started, in flight, and fetched. *)
Abbreviation Window := (list (nat * ChunkShards) * list (nat * ChunkShards) * list ChunkFetch)%type.

Definition spawn_chunk_fetch (w : Window) : Window :=
  match w with
  | (x :: queue, flying, fetched) => (queue, flying ++ [x], fetched)
  | _ => w
  end.

(** [pick k]: which of the chunks in flight is the [k]-th to complete. *)
Variable pick : nat -> nat.

Fixpoint drain (fuel k : nat) (st : ChunkStore) (w : Window) : list ChunkFetch :=
  match fuel with
  | O => w.2
  | S fuel =>
      let '(queue, flying, fetched) := w in
      let j := (pick k mod length flying)%nat in
      match flying !! j with
      | None => fetched
      | Some (i, c) =>
          drain fuel (S k) st
            (spawn_chunk_fetch (queue, base.delete j flying, fetched ++ [(i, c.1, fetch_chunk_shards st c)]))
      end
  end.

Definition fetch_window (st : ChunkStore) (plan : list ChunkShards) : list ChunkFetch :=
  drain (S (length plan)) 0 st
    (Nat.iter READ_CHUNK_WINDOW spawn_chunk_fetch (imap pair plan, [], [])).

Definition by_position (a b : ChunkFetch) : Prop := (a.1.1 <= b.1.1)%nat.
#[export] Instance by_position_dec a b : Decision (by_position a b).
Proof. unfold by_position. apply _. Defined.

Definition fetch_and_reassemble (st : ChunkStore) (f : FileRow) (plan : list ChunkShards) : res StoreError bytes :=
  reassemble data_key f ((fun x => (x.1.2, x.2)) <$> merge_sort by_position (fetch_window st plan)).

Definition reconstruct_file (db : Db) (st : ChunkStore) (user id : string) : res StoreError bytes :=
  p ← pull_plan db user id;
  match r_pack_id p.1 with
  | None => fetch_and_reassemble st p.1 p.2
  | Some pack =>
      q ← pull_plan db user pack;
      if negb (is_none (r_pack_id q.1)) then Err (Integrity ("pack " ++ pack ++ " is itself a pack member"))
      else
        plain ← fetch_and_reassemble st q.1 q.2;
        member_slice plain p.1
  end.

Definition download (db : Db) (st : ChunkStore) (user id : string) : res P2pError bytes :=
  map_err Store (reconstruct_file db st user id).
Definition download_path (db : Db) (st : ChunkStore) (user p : string) : res P2pError bytes :=
  f ← ok_or (get_file_by_path db user p) NoSuchFile;
  map_err Store (reconstruct_file db st user (r_file_id f)).
End ReadPath.

(** ** The window hands back every chunk *)

Section Window.
Context `{CryptoPrims} `{Zstd} `{ReedSolomon}.
Variables (data_key : bytes) (answer : Answers) (peers : PeerAddrs).
Variables (arrive : ChunkRow -> list ShardRow -> list ShardRow) (pick : nat -> nat) (st : ChunkStore).

Definition fetched_as (p : nat * ChunkShards) : ChunkFetch :=
  (p.1, p.2.1, fetch_chunk_shards answer peers arrive st p.2).

Lemma drain_all fuel : forall k queue flying fetched,
  (length queue + length flying <= fuel)%nat -> (queue = [] \/ flying <> []) ->
  drain answer peers arrive pick fuel k st (queue, flying, fetched) ≡ₚ fetched ++ (fetched_as <$> flying ++ queue).
Proof.
  induction fuel as [|fuel IH]; intros k queue flying fetched Hf Hq; cbn [drain].
  { destruct queue, flying; cbn in Hf; try lia. cbn. by rewrite app_nil_r. }
  destruct (decide (flying = [])) as [->|Hne].
  { destruct Hq as [->|]; [|done]. cbn. by rewrite app_nil_r. }
  assert (Hlt : (pick k mod length flying < length flying)%nat).
  { apply Nat.mod_upper_bound. by destruct flying. }
  apply lookup_lt_is_Some in Hlt as [[i c] Hj]. rewrite Hj.
  pose proof (delete_Permutation _ _ _ Hj) as Hp. pose proof (length_delete _ _ (ex_intro _ _ Hj)) as Hdel.
  pose proof (lookup_lt_Some _ _ _ Hj) as Hjl.
  change (i, c.1, fetch_chunk_shards answer peers arrive st c) with (fetched_as (i, c)).
  apply (fmap_Permutation fetched_as) in Hp. rewrite fmap_cons in Hp.
  destruct queue as [|x queue]; cbn [spawn_chunk_fetch].
  - rewrite IH; [|cbn in *; lia|by left]. rewrite !app_nil_r, <- app_assoc.
    apply Permutation_app_head. symmetry. exact Hp.
  - rewrite IH; [|rewrite length_app; cbn in *; lia|right; by destruct (base.delete _ flying)].
    rewrite <- !app_assoc. apply Permutation_app_head. cbn [app]. rewrite !fmap_app, Hp. done.
Qed.

Lemma spawn_window n queue flying fetched :
  exists k, Nat.iter n spawn_chunk_fetch (queue, flying, fetched) = (drop k queue, flying ++ take k queue, fetched) /\
    k = (n `min` length queue)%nat.
Proof.
  induction n as [|n (k & IH & Hk)].
  - cbn. exists 0%nat. rewrite drop_0, take_0, app_nil_r. split; [done|lia].
  - change (Nat.iter (S n) spawn_chunk_fetch (queue, flying, fetched))
      with (spawn_chunk_fetch (Nat.iter n spawn_chunk_fetch (queue, flying, fetched))).
    rewrite IH. clear IH. destruct (decide (n < length queue)%nat) as [Hl|Hl].
    + exists (S k). split; [|lia]. replace k with n by lia.
      destruct (lookup_lt_is_Some_2 queue n Hl) as [x Hx].
      rewrite (drop_S _ _ _ Hx), (take_S_r _ _ _ Hx). cbn. by rewrite <- app_assoc.
    + exists k. split; [|lia]. by rewrite (drop_ge queue k) by lia.
Qed.

(** Every chunk of the plan once, whatever completes first. *)
Lemma fetch_window_all plan :
  fetch_window answer peers arrive pick st plan ≡ₚ imap (fun i c => fetched_as (i, c)) plan.
Proof.
  unfold fetch_window. destruct (spawn_window READ_CHUNK_WINDOW (imap pair plan) [] []) as (k & -> & Hk).
  rewrite length_imap in Hk. rewrite drain_all.
  - cbn [app]. by rewrite take_drop, fmap_imap.
  - cbn [app]. rewrite length_drop, length_take, length_imap. lia.
  - cbn [app]. destruct plan as [|c plan]; [by left; destruct k|right].
    intros Hn. apply (f_equal length) in Hn. rewrite length_take in Hn. cbn in Hn, Hk.
    rewrite length_imap in Hn. unfold READ_CHUNK_WINDOW in Hk. lia.
Qed.

Lemma by_position_imap (g : ChunkShards -> ChunkRow * list (option bytes)) plan :
  forall k, StronglySorted by_position (imap (fun i c => ((k + i)%nat, (g c).1, (g c).2)) plan).
Proof.
  induction plan as [|c plan IH]; intros k; cbn; constructor.
  - eapply (eq_ind _ (StronglySorted by_position) (IH (S k))). apply imap_ext. intros i x _. cbn.
    by rewrite Nat.add_succ_r.
  - apply Forall_forall. intros x (i & c' & -> & _)%elem_of_lookup_imap. unfold by_position. cbn. lia.
Qed.

Lemma fetch_window_sorted plan :
  merge_sort by_position (fetch_window answer peers arrive pick st plan) = imap (fun i c => fetched_as (i, c)) plan.
Proof.
  assert (Htr : Transitive by_position) by (intros a b c; unfold by_position; lia).
  assert (Hto : Total by_position) by (intros a b; unfold by_position; lia).
  apply (Sorted_unique_strong by_position).
  - intros a b Ha Hb Hab Hba.
    rewrite merge_sort_Permutation, fetch_window_all in Ha.
    apply elem_of_lookup_imap in Ha as (i & c & -> & Hi), Hb as (j & d & -> & Hj).
    unfold by_position in Hab, Hba. cbn in Hab, Hba. assert (i = j) as -> by lia. congruence.
  - apply Sorted_merge_sort, Hto.
  - apply StronglySorted_Sorted.
    apply (by_position_imap (fun c => (c.1, fetch_chunk_shards answer peers arrive st c)) plan 0).
  - rewrite merge_sort_Permutation. apply fetch_window_all.
Qed.

(** So the download decodes the chunks of the plan in file order. *)
Lemma fetch_and_reassemble_eq f plan :
  fetch_and_reassemble data_key answer peers arrive pick st f plan =
  reassemble data_key f ((fun c => (c.1, fetch_chunk_shards answer peers arrive st c)) <$> plan).
Proof.
  unfold fetch_and_reassemble. rewrite fetch_window_sorted, fmap_imap. f_equal.
  rewrite <- (imap_const _ plan). apply imap_ext. done.
Qed.
End Window.

(** ** The shards of one chunk *)

(** One good answer: its slot is filled afterwards, nothing else changes. *)
Lemma collect_step present got i b arrivals :
  got = length (omap id present) -> 0 <= i ->
  exists present' got',
    got' = length (omap id present') /\ length present' = length present /\
    (forall j v, present' !! j = Some (Some v) -> present !! j = Some (Some v) \/ (Z.of_nat j = i /\ v = b)) /\
    (forall j v, present !! j = Some (Some v) -> present' !! j = Some (Some v)) /\
    (i < len present -> exists v, present' !! Z.to_nat i = Some (Some v)) /\
    (collect present got ((i, Some b) :: arrivals) = collect present' got' arrivals \/
     (DATA_SHARDS <= got')%nat /\ collect present got ((i, Some b) :: arrivals) = present').
Proof.
  intros Hgot Hi. cbn [collect].
  destruct (if i <? len present then present !! Z.to_nat i else None) as [[v|]|] eqn:Ec.
  - destruct (i <? len present); [|done]. exists present, got.
    split; [done|split; [done|split; [by left|split; [done|split; [by eauto|]]]]].
    destruct (Nat.leb_spec DATA_SHARDS got); [by right|by left].
  - destruct (i <? len present); [|done]. exists (<[Z.to_nat i := Some b]> present), (S got).
    split; [by rewrite (omap_insert_none _ _ b Ec), Hgot|split; [by rewrite length_insert|]].
    split; [|split; [|split]].
    + intros j v [(<- & [= ->] & _)|[_ ?]]%list_lookup_insert_Some; [right; split; [lia|done]|by left].
    + intros j v Hj. rewrite list_lookup_insert_ne; [done|]. intros <-. congruence.
    + intros _. exists b. apply list_lookup_insert_eq. by eapply lookup_lt_Some.
    + destruct (Nat.leb_spec DATA_SHARDS (S got)); [by right|by left].
  - exists present, got. split; [done|split; [done|split; [by left|split; [done|split; [|by left]]]]].
    intros Hlt. destruct (Z.ltb_spec i (len present)); [|lia]. apply lookup_ge_None in Ec. unfold len in *. lia.
Qed.

(** A filled slot holds an arrival for it, and the slots are ten, or all that arrived. *)
Lemma collect_spec arrivals : forall present got,
  got = length (omap id present) -> Forall (fun a => 0 <= a.1) arrivals ->
  let r := collect present got arrivals in
  length r = length present /\
  (forall j b, r !! j = Some (Some b) -> present !! j = Some (Some b) \/ (Z.of_nat j, Some b) ∈ arrivals) /\
  (forall j b, present !! j = Some (Some b) -> r !! j = Some (Some b)) /\
  ((DATA_SHARDS <= length (omap id r))%nat \/
   forall j b, (Z.of_nat j, Some b) ∈ arrivals -> (j < length present)%nat -> exists v, r !! j = Some (Some v)).
Proof.
  induction arrivals as [|[i [b|]] arrivals IH]; intros present got Hgot Hpos.
  - split; [done|split; [by left|split; [done|right]]]. by intros j b ?%elem_of_nil.
  - apply Forall_cons in Hpos as [Hi Hpos]. cbn [fst] in Hi.
    destruct (collect_step present got i b arrivals Hgot Hi) as (p & g & Hg & Hl & Hsub & Hmono & Hput & [->|[Hten ->]]).
    + destruct (IH p g Hg Hpos) as (H1 & H2 & H3 & H4). split; [by rewrite H1|split; [|split]].
      * intros j v [Hj|?]%H2; [|right; by right]. apply Hsub in Hj as [?|[<- ->]]; [by left|right; left].
      * intros j v Hj. by apply H3, Hmono.
      * destruct H4 as [?|H4]; [by left|right]. rewrite <- Hl. intros j v [[= <- <-]|Hin]%elem_of_cons Hj; [|by eapply H4].
        destruct Hput as (w & Hw); [unfold len; lia|]. rewrite Nat2Z.id in Hw. exists w. by apply H3.
    + split; [done|split; [|split; [done|left; lia]]].
      intros j v [?|[<- ->]]%Hsub; [by left|right; left].
  - apply Forall_cons in Hpos as [_ Hpos]. destruct (IH present got Hgot Hpos) as (H1 & H2 & H3 & H4).
    cbn [collect]. split; [done|split; [|split; [done|]]].
    + intros j v [?|?]%H2; [by left|right; by right].
    + destruct H4 as [?|H4]; [by left|right]. intros j v [[=]|Hin]%elem_of_cons. by eapply H4.
Qed.

(** ** What a stored file reads as *)

(** Two buffers with one shard hash. *)
Definition hash_collision `{CryptoPrims} : Prop := exists a b : bytes, a <> b /\ shard_hash a = shard_hash b.

Lemma shard_hash_ne `{CryptoLaws} b : shard_hash b <> "".
Proof.
  unfold shard_hash. pose proof (blake3_len b) as Hl. destruct (blake3 b) as [|x l]; [done|].
  cbn. discriminate.
Qed.

Lemma verify_shard_hash `{CryptoLaws} b a : verify_hash b (shard_hash a) = true -> b = a \/ hash_collision.
Proof.
  unfold verify_hash. pose proof (shard_hash_ne a) as Hne.
  intros [E%bool_decide_eq_true|E%bool_decide_eq_true]%orb_true_iff; [done|].
  destruct (decide (b = a)); [by left|right]. by exists b, a.
Qed.

Section Stored.
Context `{CryptoPrims} `{Zstd} `{ReedSolomon}.
Variable data_key : bytes.

(** The rows of a chunk record its fourteen shards. *)
Definition shard_rows_of (cid : string) (all : list bytes) (shards : list ShardRow) : Prop :=
  Forall2 (fun jb s => shard_index s = Z.of_nat jb.1 /\ fragment s = fragment_id cid jb.1 /\
                       hash s = shard_hash jb.2) (imap pair all) shards.

Definition chunk_stored (fc : FileCipher) (c : ChunkRow) (shards : list ShardRow) (piece : bytes) : Prop :=
  exists cipher all buf,
    encode cipher = Ok all /\ as_u64 (cipher_len c) = len cipher /\
    open_chunk fc (as_u64 (idx c)) cipher = Ok buf /\ restore buf (is_compressed c) = Ok piece /\
    shard_rows_of (chunk_id_of c) all shards.

Definition file_stored (db : Db) (user id : string) (data : bytes) : Prop :=
  exists f fc pieces,
    get_file db user id = Some f /\ r_pack_id f = None /\
    row_cipher data_key f (r_file_id f) = Ok fc /\ mjoin pieces = data /\
    Forall2 (fun c piece => chunk_stored fc c (get_shards db (chunk_id_of c)) piece) (get_chunks db id) pieces.
End Stored.

Section Download.
Context {CP : CryptoPrims} {CL : CryptoLaws} {ZS : Zstd} {RS : ReedSolomon} {RL : ReedSolomonLaws}.
Variables (data_key : bytes) (answer : Answers) (peers : PeerAddrs) (st : ChunkStore).
Variables (arrive : ChunkRow -> list ShardRow -> list ShardRow) (pick : nat -> nat).
Hypothesis arrive_all : forall c l, arrive c l ≡ₚ l.

(** A shard that can be had: its holder answers with bytes that pass the check. *)
Definition obtainable (s : ShardRow) : Prop := is_Some (fetch_shard_for_read answer peers st s).2.
#[export] Instance obtainable_dec s : Decision (obtainable s).
Proof. unfold obtainable. apply _. Defined.

Lemma fetch_verified s i b :
  fetch_shard_for_read answer peers st s = (i, Some b) ->
  i = as_u64 (shard_index s) /\ verify_hash b (hash s) = true.
Proof.
  unfold fetch_shard_for_read, read_local_verified. destruct (same (location s) "local").
  - destruct (read st (fragment s)) as [v| |]; [|done..].
    destruct (verify_hash v (hash s)) eqn:E; [|done]. by intros [= <- <-].
  - destruct (peers !! location s) as [addr|]; [|done]. destruct (answer addr _) as [[]|]; try done.
    destruct (verify_hash data (hash s)) eqn:E; [|done]. by intros [= <- <-].
Qed.

Lemma fetch_index s : (fetch_shard_for_read answer peers st s).1 = as_u64 (shard_index s).
Proof.
  unfold fetch_shard_for_read. destruct (same (location s) "local"); [done|].
  destruct (peers !! location s) as [addr|]; [|done]. destruct (answer addr _) as [[]|]; try done.
  by destruct (verify_hash data (hash s)).
Qed.

Lemma shard_rows_lookup cid all shards j s :
  shard_rows_of cid all shards -> shards !! j = Some s ->
  exists b, all !! j = Some b /\ shard_index s = Z.of_nat j /\ fragment s = fragment_id cid j /\ hash s = shard_hash b.
Proof.
  intros Hr Hj. destruct (Forall2_lookup_r _ _ _ _ _ Hr Hj) as ([i b] & Hi & H1 & H2 & H3).
  rewrite list_lookup_imap in Hi. apply fmap_Some in Hi as (b' & Hb & [= -> ->]). by exists b'.
Qed.

Lemma shard_rows_length cid all shards : shard_rows_of cid all shards -> length shards = length all.
Proof. intros Hr%Forall2_length. by rewrite length_imap in Hr. Qed.

(** The arrivals for slot [j] come from row [j]. *)
Lemma arrival_row cid all shards c j b :
  shard_rows_of cid all shards -> length all = TOTAL_SHARDS ->
  (Z.of_nat j, Some b) ∈ fetch_shard_for_read answer peers st <$> arrive c shards <->
  exists s, shards !! j = Some s /\ (fetch_shard_for_read answer peers st s).2 = Some b.
Proof.
  intros Hr Hl.
  assert (Hix : forall i s, shards !! i = Some s -> (fetch_shard_for_read answer peers st s).1 = Z.of_nat i).
  { intros i s Hi. rewrite fetch_index. destruct (shard_rows_lookup _ _ _ _ _ Hr Hi) as (v & Hv & -> & _).
    apply lookup_lt_Some in Hv. unfold as_u64. rewrite Z.mod_small; [done|].
    rewrite Hl in Hv. unfold TOTAL_SHARDS, DATA_SHARDS, PARITY_SHARDS in Hv. lia. }
  rewrite list_elem_of_fmap. split.
  - intros (s & Hs & Hin). rewrite arrive_all in Hin. apply list_elem_of_lookup in Hin as (i & Hi).
    pose proof (Hix _ _ Hi) as E. rewrite <- Hs in E. cbn in E. assert (j = i) as -> by lia.
    exists s. split; [done|]. by rewrite <- Hs.
  - intros (s & Hj & Hb). exists s. split; [|rewrite arrive_all; by eapply list_elem_of_lookup_2].
    rewrite <- (Hix _ _ Hj), <- Hb. by destruct (fetch_shard_for_read _ _ _ s).
Qed.

Lemma survives_or_collision (present : list (option bytes)) all :
  length present = length all ->
  (forall j b, present !! j = Some (Some b) -> exists a, all !! j = Some a /\ (b = a \/ hash_collision)) ->
  hash_collision \/ survives present all.
Proof.
  revert all. induction present as [|p present IH]; intros [|a all] Hl Hp; try done; [by right; constructor|].
  destruct (IH all) as [?|IHs]; [by injection Hl|intros j b Hj; by apply (Hp (S j))|by left|].
  destruct p as [b|]; [|right; constructor; [by left|done]].
  destruct (Hp O b eq_refl) as (a' & [= <-] & [->|?]); [right; constructor; [by right|done]|by left].
Qed.

Lemma count_le (present : list (option bytes)) {A} (P : A -> Prop) `{!forall x, Decision (P x)} (l : list A) :
  length present = length l ->
  (forall j b x, present !! j = Some (Some b) -> l !! j = Some x -> P x) ->
  (length (omap id present) <= length (filter P l))%nat.
Proof.
  revert l. induction present as [|p present IH]; intros [|x l] Hl Hp; [cbn; lia|done..|].
  specialize (IH l ltac:(by injection Hl) ltac:(intros j b y; apply (Hp (S j)))).
  rewrite filter_cons. destruct p as [b|]; cbn.
  - rewrite decide_True by (by apply (Hp O b)). cbn. apply le_n_S. exact IH.
  - case_decide; cbn; [apply le_S|]; exact IH.
Qed.

Lemma count_ge (present : list (option bytes)) {A} (P : A -> Prop) `{!forall x, Decision (P x)} (l : list A) :
  length present = length l ->
  (forall j x, l !! j = Some x -> P x -> exists b, present !! j = Some (Some b)) ->
  (length (filter P l) <= length (omap id present))%nat.
Proof.
  revert l. induction present as [|p present IH]; intros [|x l] Hl Hp; [cbn; lia|done..|].
  specialize (IH l ltac:(by injection Hl) ltac:(intros j y; apply (Hp (S j)))).
  rewrite filter_cons. case_decide as Hx.
  - destruct (Hp O x eq_refl Hx) as (b & [= ->]). cbn. apply le_n_S. exact IH.
  - destruct p; cbn; [apply le_S|]; exact IH.
Qed.

(** The slots filled for a chunk: only its own shards, unless hashes collide; ten or more
    exactly when ten of its rows are obtainable. *)
Lemma chunk_slots cid all c shards :
  shard_rows_of cid all shards -> length all = TOTAL_SHARDS ->
  let present := fetch_chunk_shards answer peers arrive st (c, shards) in
  (hash_collision \/ survives present all) /\ length present = TOTAL_SHARDS /\
  ((DATA_SHARDS <= length (omap id present))%nat <-> (DATA_SHARDS <= length (filter obtainable shards))%nat).
Proof.
  intros Hr Hl present. unfold present, fetch_chunk_shards. cbn [fst snd].
  destruct (collect_spec (fetch_shard_for_read answer peers st <$> arrive c shards) (replicate TOTAL_SHARDS None) 0)
    as (H1 & H2 & _ & H4); [done| |].
  { apply Forall_fmap, Forall_forall. intros s _. cbn [compose]. rewrite fetch_index. unfold as_u64.
    by apply Z.mod_pos_bound. }
  set (r := collect _ _ _) in *. rewrite length_replicate in H1, H4.
  assert (Hsl : length r = length shards) by (rewrite (shard_rows_length _ _ _ Hr), Hl; exact H1).
  assert (Hslot : forall j b, r !! j = Some (Some b) ->
            exists s, shards !! j = Some s /\ (fetch_shard_for_read answer peers st s).2 = Some b).
  { intros j b [Hj|Hj]%H2; [by apply lookup_replicate in Hj as [? _]|]. by apply (arrival_row cid all shards c j b Hr Hl). }
  split; [|split; [done|]].
  - apply survives_or_collision; [by rewrite H1|]. intros j b (s & Hs & Hb)%Hslot.
    destruct (shard_rows_lookup _ _ _ _ _ Hr Hs) as (a & Ha & _ & _ & Hh). exists a. split; [done|].
    destruct (fetch_shard_for_read answer peers st s) as [i o] eqn:E. cbn in Hb. subst o.
    apply fetch_verified in E as [_ Hv]. rewrite Hh in Hv. by apply verify_shard_hash.
  - split; intros Hten.
    + etransitivity; [exact Hten|]. apply (count_le r obtainable); [done|].
      intros j b s (s' & Hs' & Hb)%Hslot Hs. assert (s' = s) as -> by congruence. unfold obtainable. by rewrite Hb.
    + destruct H4 as [?|H4]; [done|]. etransitivity; [exact Hten|]. apply (count_ge r obtainable); [done|].
      intros j s Hs [b Hb]. apply (H4 j b).
      * apply (arrival_row cid all shards c j b Hr Hl). by exists s.
      * rewrite <- H1, Hsl. by eapply lookup_lt_Some.
Qed.

Lemma encode_count c all : encode c = Ok all -> length all = TOTAL_SHARDS.
Proof.
  rewrite encode_blocks. destruct (encode_total c) as (rec & -> & Hl & _). cbn [map_err mbind res_bind].
  intros E. assert (all = (block c <$> seq 0 DATA_SHARDS) ++ rec) as -> by congruence.
  by rewrite length_app, length_fmap, length_seq, Hl.
Qed.

Definition ten_obtainable (shards : list ShardRow) : Prop := (DATA_SHARDS <= length (filter obtainable shards))%nat.

(** One chunk: its piece, or an error when fewer than ten shards can be had. *)
Lemma chunk_decodes fc c shards piece :
  chunk_stored fc c shards piece ->
  let r := decode_chunk fc c (fetch_chunk_shards answer peers arrive st (c, shards)) in
  hash_collision \/ (ten_obtainable shards /\ r = Ok piece) \/ (~ ten_obtainable shards /\ exists e, r = Err e).
Proof.
  intros (cipher & all & buf & Henc & Hlen & Hopen & Hres & Hrows) r. unfold r, ten_obtainable.
  destruct (chunk_slots _ _ c _ Hrows (encode_count _ _ Henc)) as ([?|Hs] & Hl & Hcount); [by left|right].
  unfold decode_chunk. rewrite Hlen. destruct (decide (DATA_SHARDS <= length (filter obtainable shards))%nat) as [Hten|Hfew].
  - left. split; [done|]. apply Hcount in Hten. rewrite (reconstruct_survivors _ _ _ Henc Hs Hten).
    cbn [map_err mbind res_bind]. rewrite Hopen. cbn [map_err mbind res_bind]. by rewrite Hres.
  - right. split; [done|]. destruct (reconstruct_short _ (len cipher) Hl) as (e & ->); [lia|].
    cbn [map_err mbind res_bind]. by eexists.
Qed.

Lemma reassemble_chunks fc chunks pieces (shards : ChunkRow -> list ShardRow) out :
  Forall2 (fun c piece => chunk_stored fc c (shards c) piece) chunks pieces ->
  let r := foldM (fun out p => data ← decode_chunk fc p.1 p.2; Ok (out ++ data)) out
             ((fun c => (c, fetch_chunk_shards answer peers arrive st (c, shards c))) <$> chunks) in
  hash_collision \/ ((forall c, c ∈ chunks -> ten_obtainable (shards c)) /\ r = Ok (out ++ mjoin pieces)) \/
    ((exists c, c ∈ chunks /\ ~ ten_obtainable (shards c)) /\ exists e, r = Err e).
Proof.
  intros H2. revert out. induction H2 as [|c piece chunks pieces Hc Hcs IH]; intros out; cbv zeta.
  { right. left. split; [by intros c ?%elem_of_nil|]. cbn. by rewrite app_nil_r. }
  rewrite fmap_cons. cbn [foldM fst snd].
  destruct (chunk_decodes _ _ _ _ Hc) as [?|[[Ht ->]|[Hn (e & ->)]]]; [by left| |].
  - cbn [mbind res_bind]. destruct (IH (out ++ piece)) as [?|[[Ha Hr]|[(d & Hd & Hn) Hr]]]; [by left| |]; right.
    + left. split; [by intros d [->|?]%elem_of_cons; [|apply Ha]|]. by rewrite Hr, mjoin_cons, app_assoc.
    + right. split; [|done]. exists d. split; [by right|done].
  - right. right. split; [exists c; split; [by left|done]|]. by exists e.
Qed.

Lemma download_outcome db user id data :
  file_stored data_key db user id data ->
  let r := download data_key answer peers arrive pick db st user id in
  let chunks := get_chunks db id in
  hash_collision \/
  ((forall c, c ∈ chunks -> ten_obtainable (get_shards db (chunk_id_of c))) /\ r = Ok data) \/
  ((exists c, c ∈ chunks /\ ~ ten_obtainable (get_shards db (chunk_id_of c))) /\ exists e, r = Err e).
Proof.
  intros (f & fc & pieces & Hf & Hpk & Hfc & <- & Hch) r chunks. subst r chunks.
  unfold download, reconstruct_file, pull_plan. rewrite Hf. cbn [ok_or mbind res_bind fst snd]. rewrite Hpk.
  rewrite fetch_and_reassemble_eq. unfold reassemble. rewrite Hfc. cbn [mbind res_bind].
  rewrite <- list_fmap_compose.
  destruct (reassemble_chunks fc (get_chunks db id) pieces (fun c => get_shards db (chunk_id_of c)) [] Hch)
    as [?|[[Ha Hr]|[Hn (e & Hr)]]]; [by left| |]; right.
  - left. split; [done|]. unfold compose. cbn [fst]. by rewrite Hr.
  - right. split; [done|]. unfold compose. cbn [fst]. rewrite Hr. by exists (Store e).
Qed.

End Download.

(** ** A push stores its file *)

Section Pushed.
Context {CP : CryptoPrims} {CL : CryptoLaws} {ZS : Zstd} {ZL : ZstdLaws} {L2 : Log2} {RS : ReedSolomon} {RL : ReedSolomonLaws}.
Variable data_key : bytes.

Lemma shard_data_encode fc i chunk c bs :
  chunk_emitted fc i chunk c ->
  Forall2 (fun i b => shard_data c i = Ok b) (seq 0 TOTAL_SHARDS) bs -> encode (pc_cipher c) = Ok bs.
Proof.
  intros (_ & _ & _ & Hsl & Her & _) Hbs. destruct (encode_total (pc_cipher c)) as (rec & Hrec & Hl & _).
  rewrite encode_recovery_blocks, Hrec in Her. cbn [map_err mbind res_bind] in Her.
  assert (Hr : pc_recovery c = rec) by congruence.
  rewrite encode_blocks, Hrec. cbn [map_err mbind res_bind]. f_equal.
  pose proof (Forall2_length _ _ _ Hbs) as Hlen. rewrite length_seq in Hlen.
  assert (Hbl : length (block (pc_cipher c) <$> seq 0 DATA_SHARDS) = DATA_SHARDS) by (by rewrite length_fmap, length_seq).
  apply list_eq. intros j. destruct (decide (j < TOTAL_SHARDS)%nat) as [Hj|Hj].
  2: { rewrite !lookup_ge_None_2; [done|lia|]. rewrite length_app, Hbl, Hl. unfold TOTAL_SHARDS in Hj. lia. }
  destruct (lookup_lt_is_Some_2 bs j) as [b Hb]; [lia|]. rewrite Hb.
  destruct (Forall2_lookup_r _ _ _ _ _ Hbs Hb) as (k & [-> _]%lookup_seq & Hk). cbn [Nat.add] in Hk.
  unfold shard_data in Hk. destruct (decide (j < DATA_SHARDS)%nat) as [Hd|Hd].
  - pose proof (shard_data_block c j Hsl Hd) as Hblk. unfold shard_data in Hblk. rewrite decide_True in Hblk by done.
    rewrite lookup_app_l by lia. rewrite list_lookup_fmap, lookup_seq_lt by done. cbn. congruence.
  - rewrite lookup_app_r, Hbl by lia. rewrite <- Hr. unfold index in Hk.
    destruct (pc_recovery c !! (j - DATA_SHARDS)%nat); [congruence|done].
Qed.

Lemma written_chunk_stored db f st' db' data pcs fc pieces bss i pc piece bs :
  written_file data_key db f st' db' data pcs fc pieces bss ->
  pcs !! i = Some pc -> pieces !! i = Some piece -> bss !! i = Some bs ->
  chunk_stored fc (chunk_row (r_file_id f) pc) (get_shards db' (chunk_id_of (chunk_row (r_file_id f) pc))) piece.
Proof.
  intros W Hi Hp Hb. destruct (wf_emitted _ _ _ _ _ _ _ _ _ _ W i pc Hi) as (chunk & Hc & Hem).
  assert (chunk = piece) as -> by congruence.
  pose proof (Forall2_lookup_lr _ _ _ _ _ _ (wf_shards _ _ _ _ _ _ _ _ _ _ W) Hi Hb) as Hbs.
  pose proof (shard_data_encode _ _ _ _ _ Hem Hbs) as Henc.
  destruct Hem as (Hix & _ & _ & _ & _ & buf & Hseal & Hres & Hlen).
  destruct (seal_chunk_ok _ _ _ _ _ _ _ _ _ _ (wf_new _ _ _ _ _ _ _ _ _ _ W) Hseal) as (Hmax & _ & Hae).
  rewrite (wf_rows _ _ _ _ _ _ _ _ _ _ W i pc bs Hi Hb).
  exists (pc_cipher pc), bs, buf. split; [done|]. cbn [chunk_row cipher_len idx is_compressed chunk_id_of].
  split; [|split; [|split; [done|]]].
  - apply len_lt_u64. rewrite (aead_seal_len _ _ _ _ _ Hae). unfold TAG_LEN.
    pose proof (Forall_lookup_1 _ _ _ _ (wf_small _ _ _ _ _ _ _ _ _ _ W) Hp) as Hs. cbv beta in Hs. lia.
  - rewrite Hix. unfold as_u64. rewrite Z.mod_small by (unfold MAX_CHUNK_INDEX, u32_max in Hmax; lia).
    eapply open_sealed; [by eapply wf_new|done|]. intros _. apply lookup_lt_Some in Hi. unfold len. lia.
  - unfold shard_rows_of, chunk_shards.
    pose proof (Forall2_length _ _ _ Hbs) as Hl. rewrite length_seq in Hl.
    apply Forall2_same_length_lookup. split.
    + rewrite length_imap, length_fmap, length_zip_with, length_seq. lia.
    + intros j [k b] s. rewrite list_lookup_imap. intros (b' & Hb' & [= -> ->])%fmap_Some.
      rewrite list_lookup_fmap, lookup_zip_with, Hb', lookup_seq_lt by (apply lookup_lt_Some in Hb'; lia).
      cbn. intros [= <-]. done.
Qed.

(** A file written by the service is stored. *)
Lemma written_file_stored db f st' db' data pcs fc pieces bss :
  r_pack_id f = None -> written_file data_key db f st' db' data pcs fc pieces bss ->
  file_stored data_key db' (r_user_id f) (r_file_id f) data.
Proof.
  intros Hn W. pose proof (wf_inv _ _ _ _ _ _ _ _ _ _ W) as Hinv'.
  exists (map_file (rec_of f)), fc, pieces. split; [|split; [done|split; [exact (wf_cipher _ _ _ _ _ _ _ _ _ _ W)|]]].
  - apply get_file_found; [done| |by apply is_row_true].
    rewrite (wf_files _ _ _ _ _ _ _ _ _ _ W). apply elem_of_app. right. left.
  - split; [by eapply wf_pieces|]. rewrite (wf_chunks _ _ _ _ _ _ _ _ _ _ W).
    apply Forall2_same_length_lookup. rewrite length_fmap. split; [symmetry; by eapply wf_length|].
    intros i c piece Hc Hp. rewrite list_lookup_fmap in Hc. apply fmap_Some in Hc as (pc & Hpc & ->).
    destruct (Forall2_lookup_l _ _ _ _ _ (wf_shards _ _ _ _ _ _ _ _ _ _ W) Hpc) as (bs & Hbs & _).
    by eapply written_chunk_stored.
Qed.

(** Where a push leaves its file: rows recording the content, every shard on this node. *)
Lemma push_file_stored db user p data rnd now st st' db' r :
  db_inv db -> len data <= isize_max -> push data_key db user p data rnd now st = (st', Ok (db', r)) ->
  pr_unchanged r = false ->
  db_inv db' /\ file_stored data_key db' user (pr_file_id r) data /\
  (forall c s, c ∈ get_chunks db' (pr_file_id r) -> s ∈ get_shards db' (chunk_id_of c) ->
     location s = "local" /\ exists b, read st' (fragment s) = Ok b /\ hash s = shard_hash b).
Proof.
  intros Hinv Hlen Hpush Hun.
  destruct (push_ok _ _ _ _ _ _ _ _ _ _ _ Hpush) as [(Hu & -> & ->)|
    (pcs & db1 & x & db2 & _ & Hid & _ & _ & _ & Hproc & Hsup & Hins & Hw)].
  { unfold unchanged_upload in Hu. destruct (get_file_by_path db user p); [|done].
    destruct (_ && _); [|done]. injection Hu as <-. done. }
  destruct (supersede_current_ok db st _ _ _ _ _ _ Hinv Hsup) as (Hinv1 & _ & _).
  match type of Hins with insert_file _ ?g = _ => set (f := g) in * end.
  destruct (store_writes data_key db1 f db2 data pcs st st' db' ZL Hinv1 Hlen Hins eq_refl eq_refl Hproc Hw)
    as [(fc & pieces & bss & W) _].
  rewrite Hid. change (mint_file_id rnd) with (r_file_id f). pose proof (wf_inv _ _ _ _ _ _ _ _ _ _ W) as Hinv'.
  split; [done|split].
  - exact (written_file_stored _ f _ _ _ _ _ _ _ eq_refl W).
  - intros c s Hc Hs. rewrite (wf_chunks _ _ _ _ _ _ _ _ _ _ W) in Hc. apply list_elem_of_lookup in Hc as (i & Hi).
    rewrite list_lookup_fmap in Hi. apply fmap_Some in Hi as (pc & Hpc & ->).
    destruct (Forall2_lookup_l _ _ _ _ _ (wf_shards _ _ _ _ _ _ _ _ _ _ W) Hpc) as (bs & Hbs & _).
    rewrite (wf_rows _ _ _ _ _ _ _ _ _ _ W i pc bs Hpc Hbs) in Hs.
    apply list_elem_of_fmap in Hs as ([s' b] & -> & Hin). cbn [fst].
    assert (Hread : read st' (fragment s') = Ok b).
    { eapply (wf_read _ _ _ _ _ _ _ _ _ _ W). apply list_elem_of_join. exists (chunk_shards (r_file_id f) pc bs).
      split; [done|]. apply list_elem_of_lookup. exists i. by rewrite lookup_zip_with, Hpc, Hbs. }
    apply list_elem_of_lookup in Hin as (j & Hj). unfold chunk_shards in Hj.
    apply lookup_zip_with_Some in Hj as (k & b' & [= -> ->] & _). split; [done|]. by exists b'.
Qed.
End Pushed.
