(* ===== verification/Placement.v ===== *)
(** * Shard placement ([crates/server/src/placement.rs])

    The greedy planner that spreads the shards of a chunk over this node and its peers under
    a cap per location and a cap per failure zone. Scores are binary64 ([float]); the zone
    derived from an address is a parameter of its callers. *)

From Stdlib Require Import Floats Uint63.
From Stdlib Require Import ZArith Lia Strings.Ascii Strings.String.
From stdpp Require Import base numbers list gmap strings pretty.
From S2P Require Import Prelude Erasure Pipeline Dht.

Definition RELIABILITY_WEIGHT : float := 0.5%float.

(** [None] keeps the shard on the owner. *)
Abbreviation Placement := (option nat).

Record PeerCandidate := mkCandidate {
  rtt_ms : float;
  zone : option string;
  reliability : float
}.
(** [PeerCandidate::new]. *)
Definition new_candidate (rtt : float) : PeerCandidate := mkCandidate rtt None 100%float.

(** Hexadecimal without padding, as [{:x}] writes a segment. *)
Definition hex_char (v : Z) : Ascii.ascii :=
  Ascii.ascii_of_nat (Z.to_nat (if v <? 10 then 48 + v else 87 + v)).
Fixpoint hex_fuel (fuel : nat) (v : Z) (acc : string) : string :=
  match fuel with
  | O => acc
  | S fuel => let acc := String (hex_char (v mod 16)) acc in
              if v <? 16 then acc else hex_fuel fuel (v / 16) acc
  end.
Definition hex16 (v : Z) : string := hex_fuel 4 v "".

Definition zone_v4 (a b c : Z) : string :=
  (pretty a ++ "." ++ pretty b ++ "." ++ pretty c ++ ".0/24")%string.
Definition zone_of_ip (ip : IpAddr) : string :=
  match ip with
  | V4 a b c _ => zone_v4 a b c
  | V6 s =>
      match to_ipv4_mapped s with
      | Some (a, b, c, _) => zone_v4 a b c
      | None => (hex16 (seg s 0) ++ ":" ++ hex16 (seg s 1) ++ ":" ++ hex16 (seg s 2) ++ ":" ++
                 hex16 (seg s 3) ++ "::/64")%string
      end
  end.

(** The first and the last separator of a string. *)
Fixpoint before_first (c : Ascii.ascii) (s : string) : string :=
  match s with
  | EmptyString => EmptyString
  | String d s => if Ascii.eqb c d then EmptyString else String d (before_first c s)
  end.
Fixpoint before_last (c : Ascii.ascii) (s : string) : option string :=
  match s with
  | EmptyString => None
  | String d s =>
      match before_last c s with
      | Some h => Some (String d h)
      | None => if Ascii.eqb c d then Some EmptyString else None
      end
  end.

(** [parse_sock] is [str::parse::<SocketAddr>]. *)
Definition ip_of_addr `{IpText} (parse_sock : string -> option (IpAddr * Z)) (addr : string) : option IpAddr :=
  match ip_parse addr with
  | Some ip => Some ip
  | None =>
      match parse_sock addr with
      | Some (ip, _) => Some ip
      | None =>
          host ← match addr with
                 | String "["%char rest => Some (before_first "]"%char rest)
                 | _ => before_last ":"%char addr
                 end;
          ip_parse host
      end
  end.
Definition zone_of_addr `{IpText} (parse_sock : string -> option (IpAddr * Z)) (addr : string) : option string :=
  zone_of_ip <$> ip_of_addr parse_sock addr.

(** ** The planner *)

(** [f64::max] ignores a NaN; [f64::clamp(0, 100)] keeps it. *)
Definition f64_max (a b : float) : float :=
  if PrimFloat.is_nan a then b else if PrimFloat.is_nan b then a else if (a <? b)%float then b else a.
Definition clamp100 (x : float) : float :=
  if (x <? 0)%float then 0%float else if (100 <? x)%float then 100%float else x.

Definition max_rtt (peers : list PeerCandidate) : float := foldl f64_max 1%float (rtt_ms <$> peers).
Definition alpha (parity : nat) : float := (1 / f64_of (Z.of_nat (parity `max` 1)))%float.

Definition labelled (z : option string) : option string :=
  match z with Some EmptyString => None | z => z end.
Definition zone_key (i : nat) (p : PeerCandidate) : string :=
  match labelled (zone p) with
  | Some z => ("zone:" ++ z)%string
  | None => ("unzoned-peer:" ++ pretty i)%string
  end.
Definition self_key (self_zone : option string) : string :=
  match labelled self_zone with Some z => ("zone:" ++ z)%string | None => "zone:@self" end.

Record Plan := mkPlan {
  zone_count : gmap string nat;
  peer_count : list nat;
  self_count : nat;
  placed : list Placement
}.

Definition in_zone (s : Plan) (key : string) : nat := default 0%nat (zone_count s !! key).
Definition at_peer (s : Plan) (i : nat) : nat := default 0%nat (peer_count s !! i).

Section Planner.
Context (peers : list PeerCandidate) (self_zone : option string) (parity : nat).

Definition key_of (i : nat) : string :=
  match peers !! i with Some p => zone_key i p | None => "" end.

Definition score (p : PeerCandidate) (count : nat) : float :=
  let unreliability := (1 - clamp100 (reliability p) / 100)%float in
  (rtt_ms p / max_rtt peers + alpha parity * f64_of (Z.of_nat count) + RELIABILITY_WEIGHT * unreliability)%float.

(** One candidate of the inner loop. *)
Definition consider (honor_zones : bool) (s : Plan) (acc : option Placement * float) (ip : nat * PeerCandidate)
    : option Placement * float :=
  let '(best, best_score) := acc in
  let '(i, p) := ip in
  if (parity <=? at_peer s i)%nat then acc
  else if honor_zones && (parity <=? in_zone s (zone_key i p))%nat then acc
  else
    let sc := score p (at_peer s i) in
    if (sc <? best_score)%float then (Some (Some i), sc) else acc.

Definition pass (honor_zones : bool) (s : Plan) : option Placement :=
  let self_zone_ok := negb honor_zones || (in_zone s (self_key self_zone) <? parity)%nat in
  let start :=
    if (self_count s <? parity)%nat && self_zone_ok
    then (Some None, (alpha parity * f64_of (Z.of_nat (self_count s)))%float)
    else (None, infinity) in
  fst (foldl (consider honor_zones s) start (imap pair peers)).

(** Zones first, then relaxed. *)
Definition choose (s : Plan) : option Placement :=
  match pass true s with Some c => Some c | None => pass false s end.

(** [choice.flatten()] and the bookkeeping of the shard. *)
Definition place_one (s : Plan) : Plan :=
  let placement := mjoin (choose s) in
  match placement with
  | Some i =>
      mkPlan (<[key_of i := S (in_zone s (key_of i))]> (zone_count s))
             (alter S i (peer_count s)) (self_count s) (placed s ++ [placement])
  | None =>
      mkPlan (<[self_key self_zone := S (in_zone s (self_key self_zone))]> (zone_count s))
             (peer_count s) (S (self_count s)) (placed s ++ [placement])
  end.

Definition plan0 : Plan := mkPlan ∅ (replicate (length peers) 0%nat) 0 [].
Definition plan_placement_zoned (total : nat) : list Placement :=
  placed (Nat.iter total place_one plan0).
End Planner.

Definition plan_placement (peer_rtt : list float) (total parity : nat) : list Placement :=
  plan_placement_zoned (new_candidate <$> peer_rtt) None parity total.

(** An empty allow-list admits everyone; otherwise the country must be known and listed. *)
Definition jurisdiction_allowed (allow : list string) (country : option string) : bool :=
  bool_decide (allow = []) ||
  match country with Some c => bool_decide (c ∈ allow) | None => false end.

(** ** What the planner keeps *)

Definition count {A} `{!EqDecision A} (x : A) (l : list A) : nat := length (filter (fun y => y = x) l).

Lemma count_snoc {A} `{!EqDecision A} (x y : A) l :
  count x (l ++ [y]) = (count x l + if decide (y = x) then 1 else 0)%nat.
Proof. unfold count. rewrite filter_app, length_app, filter_cons. by case_decide. Qed.

Lemma count_others {A} `{!EqDecision A} (x : A) l :
  (count x l + length (filter (fun y => y <> x) l))%nat = length l.
Proof.
  unfold count. induction l as [|y l IH]; [done|]. rewrite !filter_cons.
  destruct (decide (y = x)), (decide (y <> x)); try done; cbn [length]; lia.
Qed.

(** Lists whose every value is counted at most [n] times are no longer than [n] times their
    values. *)
Lemma count_bound {A} `{!EqDecision A} (ks l : list A) n :
  NoDup ks -> (forall x, x ∈ l -> x ∈ ks) -> (forall x, x ∈ ks -> (count x l <= n)%nat) ->
  (length l <= n * length ks)%nat.
Proof.
  intros Hnd. revert l. induction Hnd as [|k ks Hk Hnd IH]; intros l Hin Hc.
  - destruct l as [|x l]; [cbn; lia|]. exfalso. apply (not_elem_of_nil x), Hin. left.
  - rewrite <- (count_others k l). pose proof (Hc k ltac:(left)) as Hck.
    assert (Hrest : (length (filter (fun y => y <> k) l) <= n * length ks)%nat).
    { apply IH.
      - intros x [Hne Hx]%list_elem_of_filter. apply Hin in Hx. apply elem_of_cons in Hx as [|?]; done.
      - intros x Hx. etransitivity; [|apply (Hc x); by right]. unfold count.
        clear. induction l as [|y l IH]; [done|]. destruct (decide (y <> k)) as [Hy|Hy].
        + rewrite (filter_cons_True _ y l Hy), !filter_cons. case_decide; cbn [length]; lia.
        + rewrite (filter_cons_False _ y l Hy), (filter_cons _ y l). case_decide; cbn [length]; lia. }
    cbn [length]. lia.
Qed.

Lemma count_fmap {A B} `{!EqDecision A} `{!EqDecision B} (f : A -> B) x l : (count x l <= count (f x) (f <$> l))%nat.
Proof.
  unfold count. induction l as [|y l IH]; [done|]. rewrite fmap_cons, !filter_cons.
  destruct (decide (y = x)) as [->|]; [rewrite decide_True by done; cbn [length]; lia|].
  case_decide; cbn [length]; lia.
Qed.

Lemma count_lower {A} `{!EqDecision A} (ks l : list A) n :
  NoDup ks -> (forall x, x ∈ ks -> (n <= count x l)%nat) -> (n * length ks <= length l)%nat.
Proof.
  intros Hnd. revert l. induction Hnd as [|k ks Hk Hnd IH]; intros l Hc; [cbn; lia|].
  rewrite <- (count_others k l). pose proof (Hc k ltac:(left)) as Hck.
  assert (Hrest : (n * length ks <= length (filter (fun y => y <> k) l))%nat).
  { apply IH. intros x Hx. assert (x <> k) by (intros ->; done). etransitivity; [apply (Hc x); by right|].
    unfold count. rewrite list_filter_filter. apply Nat.eq_le_incl. f_equal. apply list_filter_iff. intros y. split; [|tauto].
    intros ->. done. }
  cbn [length]. lia.
Qed.

Section Caps.
Context (peers : list PeerCandidate) (self_zone : option string) (parity : nat).

Abbreviation choose := (choose peers self_zone parity).
Abbreviation place_one := (place_one peers self_zone parity).

(** The location's zone key. *)
Definition pkey (c : Placement) : string :=
  match c with Some i => key_of peers i | None => self_key self_zone end.

(** A location below its caps. *)
Definition admissible (honor : bool) (s : Plan) (c : Placement) : Prop :=
  (honor = true -> (in_zone s (pkey c) < parity)%nat) /\
  match c with
  | None => (self_count s < parity)%nat
  | Some i => (i < length peers)%nat /\ (at_peer s i < parity)%nat
  end.

(** No score overflows: a candidate below its cap can be picked. *)
Definition finite_scores : Prop :=
  forall p c, p ∈ peers -> (c < parity)%nat -> (score peers parity p c <? infinity)%float = true.

Definition cand_ok (honor : bool) (s : Plan) (acc : option Placement * float) : Prop :=
  (forall c, acc.1 = Some c -> admissible honor s c) /\ (acc.1 = None -> acc.2 = infinity).

Lemma consider_ok honor s acc i p :
  peers !! i = Some p -> cand_ok honor s acc ->
  cand_ok honor s (consider peers parity honor s acc (i, p)) /\
  (finite_scores -> (consider peers parity honor s acc (i, p)).1 = None ->
   acc.1 = None /\ ~ admissible honor s (Some i)).
Proof.
  intros Hp [Ha Hn]. unfold consider. destruct acc as [best sc]. cbn [fst snd] in *.
  assert (Hk : pkey (Some i) = zone_key i p) by (unfold pkey, key_of; by rewrite Hp).
  destruct (Nat.leb_spec parity (at_peer s i)) as [Hle|Hlt].
  { split; [done|]. intros _ ?. split; [done|]. intros (_ & _ & ?). lia. }
  destruct (honor && _) eqn:Ez.
  { apply andb_true_iff in Ez as [-> Hz%Nat.leb_le]. split; [done|]. intros _ ?. split; [done|].
    intros (Hh & _). specialize (Hh eq_refl). rewrite Hk in Hh. lia. }
  assert (Hadm : admissible honor s (Some i)).
  { split; [|split; [by eapply lookup_lt_Some|done]]. intros ->. cbn [andb] in Ez. rewrite Hk.
    apply Nat.leb_gt in Ez. lia. }
  destruct (score peers parity p (at_peer s i) <? sc)%float eqn:Es.
  - split; [split; [by intros c [= <-]|done]|done].
  - split; [done|]. intros Hfin Hb. exfalso. cbn in Hb. rewrite (Hn Hb) in Es.
    rewrite Hfin in Es; [done| |done]. by eapply list_elem_of_lookup_2.
Qed.

Lemma pass_ok honor s :
  (forall c, pass peers self_zone parity honor s = Some c -> admissible honor s c) /\
  (finite_scores -> pass peers self_zone parity honor s = None -> forall c, ~ admissible honor s c).
Proof.
  unfold pass. match goal with |- context [foldl _ ?st _] => set (start := st) end.
  assert (Hstart : cand_ok honor s start /\ (start.1 = None -> ~ admissible honor s None)).
  { unfold start. destruct (Nat.ltb_spec (self_count s) parity) as [Hlt|Hle]; cbn [andb].
    - destruct (negb honor || _) eqn:E.
      + split; [|done]. split; [|done]. intros c [= <-]. split; [|done]. intros ->. cbn in E. by apply Nat.ltb_lt.
      + split; [done|]. intros _ (Hh & _). apply orb_false_iff in E as [E1 E2%Nat.ltb_ge]. destruct honor; [|done].
        specialize (Hh eq_refl). cbn in Hh. lia.
    - split; [done|]. intros _ (_ & ?). lia. }
  destruct Hstart as [Hst Hself]. clearbody start.
  assert (Hgen : forall (l : list PeerCandidate) (k : nat),
    (forall j p, l !! j = Some p -> peers !! (k + j)%nat = Some p) -> forall st, cand_ok honor s st ->
    let r := foldl (consider peers parity honor s) st (imap (fun j (p : PeerCandidate) => ((k + j)%nat, p)) l) in
    cand_ok honor s r /\ (finite_scores -> r.1 = None ->
      st.1 = None /\ forall j, (j < length l)%nat -> ~ admissible honor s (Some (k + j)%nat))).
  { intros l. induction l as [|p l IH]; intros k Hl st Hok.
    { split; [done|]. intros _ ?. split; [done|]. cbn. lia. }
    cbn [imap foldl]. rewrite Nat.add_0_r.
    destruct (consider_ok honor s st k p) as [Hok' Hnone]; [specialize (Hl O p eq_refl); by rewrite Nat.add_0_r in Hl|done|].
    assert (E : imap ((fun j p => ((k + j)%nat, p)) ∘ S) l = imap (fun j (p : PeerCandidate) => ((S k + j)%nat, p)) l)
      by (apply imap_ext; intros; cbn; f_equal; lia).
    rewrite E. destruct (IH (S k)) with (st := consider peers parity honor s st (k, p)) as [Hr Hrn].
    { intros j q Hj. replace (S k + j)%nat with (k + S j)%nat by lia. by apply Hl. }
    { done. }
    split; [done|]. intros Hfin Hr1. destruct (Hrn Hfin Hr1) as [Hc Hadm]. destruct (Hnone Hfin Hc) as [Hst1 Hk].
    split; [done|]. intros [|j] Hj; [by rewrite Nat.add_0_r|].
    replace (k + S j)%nat with (S k + j)%nat by lia. apply Hadm. cbn in Hj. lia. }
  destruct (Hgen peers 0%nat ltac:(done) start Hst) as [[Hr _] Hn]. cbn [Nat.add] in *. clear Hgen.
  split; [exact Hr|]. intros Hfin Hnone [i|]; [|by apply Hself, Hn].
  destruct (decide (i < length peers)%nat) as [Hi|Hi]; [by apply Hn|]. intros (_ & ? & _). done.
Qed.

(** The bookkeeping says what was placed, and no peer is above its cap. *)
Record plan_ok (s : Plan) : Prop := {
  pk_len : length (peer_count s) = length peers;
  pk_self : self_count s = count None (placed s);
  pk_peer : forall i, (i < length peers)%nat -> at_peer s i = count (Some i) (placed s);
  pk_zone : forall k, in_zone s k = count k (pkey <$> placed s);
  pk_range : forall i, Some i ∈ placed s -> (i < length peers)%nat;
  pk_cap : forall i, (at_peer s i <= parity)%nat
}.

Lemma choose_ok s c : choose s = Some c -> exists h, admissible h s c.
Proof.
  unfold choose. destruct (pass _ _ _ true s) as [c'|] eqn:E.
  - intros [= <-]. exists true. by apply pass_ok.
  - intros Hc. exists false. by apply pass_ok.
Qed.

Lemma place_one_spec s :
  exists c, (c = None \/ choose s = Some c) /\ c = mjoin (choose s) /\ placed (place_one s) = placed s ++ [c].
Proof.
  unfold place_one. destruct (choose s) as [[i|]|] eqn:E; cbn.
  - exists (Some i). split; [by right|]. split; [done|]. done.
  - exists None. split; [by left|]. done.
  - exists None. split; [by left|]. done.
Qed.

Lemma place_one_ok s : plan_ok s -> plan_ok (place_one s).
Proof.
  intros [Hl Hs Hp Hz Hr Hc]. unfold place_one.
  assert (Hzone : forall k c, default 0%nat (<[pkey c := S (in_zone s (pkey c))]> (zone_count s) !! k) =
            count k (pkey <$> (placed s ++ [c]))).
  { intros k c. rewrite fmap_app. change (pkey <$> [c]) with [pkey c]. rewrite count_snoc, <- Hz. case_decide as E.
    - subst k. rewrite lookup_insert_eq. cbn. lia.
    - rewrite lookup_insert_ne by done. unfold in_zone. lia. }
  destruct (mjoin (choose s)) as [i|] eqn:E.
  - assert (Hadm : exists h, admissible h s (Some i)).
    { destruct (choose s) as [c|] eqn:Ec; [|done]. cbn in E. subst c. by apply choose_ok. }
    destruct Hadm as (h & _ & Hi & Hcap). destruct (lookup_lt_is_Some_2 (peer_count s) i) as [n Hn]; [lia|].
    assert (Hat : forall j, default 0%nat (alter S i (peer_count s) !! j) = (at_peer s j + if decide (i = j) then 1 else 0)%nat).
    { intros j. unfold at_peer. case_decide as Ej.
      - subst j. rewrite list_lookup_alter_eq, Hn. cbn. lia.
      - rewrite list_lookup_alter_ne by done. lia. }
    split; cbn [peer_count self_count placed zone_count]; unfold at_peer, in_zone; cbn [peer_count zone_count].
    + by rewrite length_alter.
    + rewrite count_snoc, Hs. case_decide; [done|]. lia.
    + intros j Hj. rewrite Hat, count_snoc, Hp by done. destruct (decide (i = j)), (decide (Some i = Some j)); congruence.
    + intros k. apply (Hzone k (Some i)).
    + intros j [Hj|Hj%list_elem_of_singleton]%elem_of_app; [by apply Hr|]. by injection Hj as ->.
    + intros j. rewrite Hat. specialize (Hc j). case_decide; [subst j; lia|lia].
  - split; cbn [peer_count self_count placed zone_count]; unfold at_peer, in_zone; cbn [peer_count zone_count].
    + done.
    + rewrite count_snoc, Hs. rewrite decide_True by done. lia.
    + intros j Hj. rewrite count_snoc, <- Hp by done. case_decide; [done|]. unfold at_peer. lia.
    + intros k. apply (Hzone k None).
    + intros j [Hj|Hj%list_elem_of_singleton]%elem_of_app; [by apply Hr|done].
    + exact Hc.
Qed.

Lemma plan0_ok : plan_ok (plan0 peers).
Proof.
  split; cbn; try done.
  - apply length_replicate.
  - intros i Hi. unfold at_peer. cbn. by rewrite lookup_replicate_2.
  - by intros i ?%elem_of_nil.
  - intros i. unfold at_peer. cbn. destruct (replicate _ _ !! i) eqn:E; [|cbn; lia].
    apply lookup_replicate in E as [-> _]. cbn. lia.
Qed.

Definition steps (n : nat) : Plan := Nat.iter n place_one (plan0 peers).

Lemma plan_steps n : plan_placement_zoned peers self_zone parity n = placed (steps n).
Proof. done. Qed.

Lemma steps_ok n : plan_ok (steps n) /\ length (placed (steps n)) = n.
Proof.
  induction n as [|n [IH Hl]]; [split; [apply plan0_ok|done]|]. change (steps (S n)) with (place_one (steps n)).
  split; [by apply place_one_ok|]. destruct (place_one_spec (steps n)) as (c & _ & _ & ->). rewrite length_app, Hl. cbn. lia.
Qed.

(** Every location is below its cap when there is room left somewhere. *)
Lemma choose_room s n :
  finite_scores -> plan_ok s -> length (placed s) = n -> (n < parity * S (length peers))%nat ->
  choose s <> None.
Proof.
  intros Hfin Hok Hn Hroom Hnone. unfold choose in Hnone.
  destruct (pass _ _ _ true s); [done|]. pose proof (proj2 (pass_ok false s) Hfin Hnone) as Hno.
  assert (Hle : (parity * length (None :: (Some <$> seq 0 (length peers))) <= length (placed s))%nat).
  { apply count_lower.
    - constructor; [by intros (? & ? & _)%list_elem_of_fmap|]. apply NoDup_fmap_2; [|apply NoDup_seq]. intros ? ? [=]. done.
    - intros c [->|Hc]%elem_of_cons.
      + rewrite <- (pk_self s Hok). apply Nat.nlt_ge. intros Hlt. apply (Hno None). done.
      + apply list_elem_of_fmap in Hc as (i & -> & Hi%elem_of_seq). rewrite <- (pk_peer s Hok) by lia.
        apply Nat.nlt_ge. intros Hlt. apply (Hno (Some i)). split; [done|]. split; [lia|done]. }
  cbn [length] in Hle. rewrite length_fmap, length_seq in Hle. lia.
Qed.

(** The zones that can receive a shard. *)
Definition zones : list string := remove_dups (self_key self_zone :: (key_of peers <$> seq 0 (length peers))).

Lemma zone_room s :
  finite_scores -> plan_ok s -> (length (placed s) < parity * length zones)%nat ->
  exists c, pass peers self_zone parity true s = Some c.
Proof.
  intros Hfin Hok Hroom. destruct (pass peers self_zone parity true s) as [c|] eqn:Hnone; [by exists c|exfalso].
  pose proof (proj2 (pass_ok true s) Hfin Hnone) as Hno.
  assert (Hle : (parity * length zones <= length (pkey <$> placed s))%nat).
  { apply count_lower; [apply NoDup_remove_dups|]. intros z Hz. unfold zones in Hz. apply (proj1 (elem_of_remove_dups _ _)) in Hz.
    assert (Hc : exists c, pkey c = z /\ match c with Some i => (i < length peers)%nat | None => True end).
    { apply elem_of_cons in Hz as [->|Hz]; [by exists None|].
      apply list_elem_of_fmap in Hz as (i & -> & Hi%elem_of_seq). exists (Some i). split; [done|lia]. }
    destruct Hc as (c & <- & Hi). apply Nat.nlt_ge. intros Hlt. apply (Hno c). rewrite <- (pk_zone s Hok) in Hlt.
    split; [done|]. pose proof (count_fmap pkey c (placed s)) as Hcf. rewrite <- (pk_zone s Hok) in Hcf.
    destruct c as [i|]; [split; [done|]; rewrite (pk_peer s Hok) by done; lia|]. rewrite (pk_self s Hok). lia. }
  rewrite length_fmap in Hle. lia.
Qed.

Lemma self_cap n total :
  finite_scores -> (total <= parity * S (length peers))%nat -> (n <= total)%nat ->
  (count None (placed (steps n)) <= parity)%nat.
Proof.
  intros Hfin Ht. induction n as [|n IH]; intros Hn; [cbn; lia|]. specialize (IH ltac:(lia)).
  destruct (steps_ok n) as [Hok Hl]. change (steps (S n)) with (place_one (steps n)).
  destruct (place_one_spec (steps n)) as (c & Hc & Hm & ->). rewrite count_snoc. case_decide as E; [|lia]. rewrite E in Hm. clear Hc.
  destruct (choose (steps n)) as [c'|] eqn:Ec; [|by apply (choose_room (steps n) n) in Ec; try done; lia].
  cbn in Hm. subst c'. apply choose_ok in Ec as (h & _ & Hlt). rewrite (pk_self _ Hok) in Hlt. lia.
Qed.

Lemma zone_cap n total k :
  finite_scores -> (total <= parity * length zones)%nat -> (n <= total)%nat ->
  (count k (pkey <$> placed (steps n)) <= parity)%nat.
Proof.
  intros Hfin Ht. induction n as [|n IH]; intros Hn; [cbn; lia|]. specialize (IH ltac:(lia)).
  destruct (steps_ok n) as [Hok Hl]. change (steps (S n)) with (place_one (steps n)).
  destruct (place_one_spec (steps n)) as (c & _ & Hm & ->). rewrite fmap_app. change (pkey <$> [c]) with [pkey c].
  rewrite count_snoc. case_decide as E; [|lia].
  destruct (zone_room (steps n) Hfin Hok) as (c' & Hp); [lia|].
  assert (c' = c) as -> by (unfold choose in Hm; rewrite Hp in Hm; done).
  apply pass_ok in Hp as [Hz _]. specialize (Hz eq_refl). rewrite (pk_zone _ Hok), E in Hz. lia.
Qed.
End Caps.

(** C23. A planned layout survives the loss of any one location or zone. Whatever the
    measurements, it places every shard, at a peer that exists, never more than [parity] at
    one peer. If no score overflows: with three peers or more, dropping any single location
    (this node included) leaves ten shards of the fourteen; with four distinct zones or more
    (this node's own counted), so does dropping any single zone. *)
Theorem placement_survives peers self_zone loc z :
  let layout := plan_placement_zoned peers self_zone PARITY_SHARDS TOTAL_SHARDS in
  length layout = TOTAL_SHARDS /\
  (forall i, Some i ∈ layout -> (i < length peers)%nat) /\
  (forall i, (count (Some i) layout <= PARITY_SHARDS)%nat) /\
  (finite_scores peers PARITY_SHARDS -> (3 <= length peers)%nat ->
   (DATA_SHARDS <= length (filter (fun c => c <> loc) layout))%nat) /\
  (finite_scores peers PARITY_SHARDS -> (4 <= length (zones peers self_zone))%nat ->
   (DATA_SHARDS <= length (filter (fun k => k <> z) (pkey peers self_zone <$> layout)))%nat).
Proof.
  cbv zeta. rewrite plan_steps.
  destruct (steps_ok peers self_zone PARITY_SHARDS TOTAL_SHARDS) as [Hok Hl].
  pose proof (self_cap peers self_zone PARITY_SHARDS TOTAL_SHARDS TOTAL_SHARDS) as Hself.
  pose proof (zone_cap peers self_zone PARITY_SHARDS TOTAL_SHARDS TOTAL_SHARDS z) as Hzone.
  revert Hok Hl Hself Hzone. generalize (steps peers self_zone PARITY_SHARDS TOTAL_SHARDS). intros s Hok Hl Hself Hzone.
  assert (Hpeer : forall i, (count (Some i) (placed s) <= PARITY_SHARDS)%nat).
  { intros i. destruct (decide (i < length peers)%nat) as [Hi|Hi].
    - rewrite <- (pk_peer _ _ _ _ Hok) by done. apply (pk_cap _ _ _ _ Hok).
    - unfold count. destruct (filter _ _) as [|c l] eqn:E; [cbn; lia|]. exfalso. apply Hi.
      apply (pk_range _ _ _ _ Hok). assert (Hc : c ∈ filter (fun y => y = Some i) (placed s)) by (rewrite E; left).
      by apply list_elem_of_filter in Hc as [-> Hc]. }
  split; [done|split; [apply (pk_range _ _ _ _ Hok)|split; [done|]]].
  unfold TOTAL_SHARDS, DATA_SHARDS, PARITY_SHARDS in *. split.
  - intros Hfin Hp. pose proof (count_others loc (placed s)) as Hsum.
    assert (Hloc : (count loc (placed s) <= 4)%nat) by (destruct loc; [done|apply Hself; [done|lia..]]). lia.
  - intros Hfin Hz. pose proof (count_others z (pkey peers self_zone <$> placed s)) as Hsum. rewrite length_fmap in Hsum.
    assert (Hcap : (count z (pkey peers self_zone <$> placed s) <= 4)%nat) by (apply Hzone; [done|lia..]). lia.
Qed.

(** ** The theorem at four measured peers, two of them on one site *)
Module PlacementRun.
Definition sample : list PeerCandidate :=
  [mkCandidate 2 (Some "10.0.0.0/24") 100; mkCandidate 3 (Some "10.0.0.0/24") 90;
   mkCandidate 25 (Some "paris") 80; mkCandidate 40 None 100]%float.

Lemma sample_finite : finite_scores sample PARITY_SHARDS.
Proof.
  assert (Hall : forallb (fun p => forallb (fun c => score sample PARITY_SHARDS p c <? infinity)%float (seq 0 4)) sample = true)
    by (vm_compute; reflexivity).
  rewrite forallb_forall in Hall. intros p c Hp%list_elem_of_In Hc. specialize (Hall p Hp).
  rewrite forallb_forall in Hall. apply Hall, list_elem_of_In, elem_of_seq. unfold PARITY_SHARDS in Hc. lia.
Qed.

Lemma placement_survives_witness :
  (DATA_SHARDS <= length (filter (fun c => c <> None) (plan_placement_zoned sample None PARITY_SHARDS TOTAL_SHARDS)))%nat /\
  (DATA_SHARDS <= length (filter (fun k => k <> "zone:10.0.0.0/24"%string)
     (pkey sample None <$> plan_placement_zoned sample None PARITY_SHARDS TOTAL_SHARDS)))%nat.
Proof.
  destruct (placement_survives sample None None "zone:10.0.0.0/24"%string) as (_ & _ & _ & Hl & Hz).
  exact (conj (Hl sample_finite ltac:(apply Nat.leb_le; vm_compute; reflexivity))
              (Hz sample_finite ltac:(apply Nat.leb_le; vm_compute; reflexivity))).
Defined.
End PlacementRun.
