(* ===== verification/Peers.v ===== *)
(** * The peer table ([crates/server/src/discovery/mod.rs], [handlers/admin.rs])

    How a discovered or administered address becomes a row of [peers]: the handshake, trust on
    first use, and the guard that pins a key. Times are seconds; the remote is any state that
    answers; the statements succeed. *)

From Stdlib Require Import ZArith Lia Strings.String Strings.Byte.
From stdpp Require Import base numbers list gmap strings.
From S2P Require Import Prelude External Erasure Crypto Paths Text Manifest ChunkStore Service Protocol Server Client ReadPath Dht Placement.

(** The columns of [p2pnas.peers] these statements touch. *)
Record Peer := mkPeerRec {
  p_addr : string;
  p_status : string;
  p_zone : option string;
  p_key : option string;
  p_verified_at : option Z;
  p_last_seen : option Z;
  p_threshold_days : Z
}.
Abbreviation Table := (gmap string Peer).

Definition coalesce {A} (a b : option A) : option A := match a with Some _ => a | None => b end.
(** No key is pinned, or the one proven is the one pinned. *)
Definition key_allowed (pinned key : option string) : bool := is_none pinned || bool_decide (pinned = key).
Definition stamp (now : Z) (key : option string) (old : option Z) : option Z :=
  match key with Some _ => Some now | None => old end.

(** One transaction. *)
Definition upsert_peer_guarded (now : Z) (t : Table) (peer_id addr : string) (zone public_key : option string) : Table * bool :=
  match t !! peer_id with
  | None => (<[peer_id := mkPeerRec addr "active" zone public_key (stamp now public_key None) (Some now) 7]> t, true)
  | Some p =>
      if key_allowed (p_key p) public_key
      then (<[peer_id := mkPeerRec addr (p_status p) (coalesce (p_zone p) zone) (coalesce (p_key p) public_key)
                           (stamp now public_key (p_verified_at p)) (Some now) (p_threshold_days p)]> t, true)
      else (t, false)
  end.

Section Peers.
Context `{IpText} `{Ed25519} {R : Type} `{!Remote R}.
Variable parse_sock : string -> option (IpAddr * Z).
(** [identity.peer_id], the API port, [P2PNAS_STRICT_PEER_AUTH]. *)
Variable me : string.
Variable port : Z.
Variable strict : bool.
(** The row a statement without [ORDER BY] fetches first. *)
Variable fetch_first : list string -> option string.

(** The peers at an address seen in the last two minutes. *)
Definition recent_at (now : Z) (t : Table) (addr : string) : list string :=
  fst <$> filter (fun p : string * Peer => same (p_addr p.2) addr &&
                    match p_last_seen p.2 with Some s => now - 120 <? s | None => false end = true) (map_to_list t).

Definition register_peer (now : Z) (addr : string) (rnd : option bytes) (r : R) (t : Table) : R * Table * option string :=
  match fetch_first (recent_at now t addr) with
  | Some pid => (r, t, Some pid)
  | None =>
      match handshake_verified addr me port rnd r with
      | (r, Ok peer) =>
          if same (vp_peer_id peer) me then (r, t, None)
          else if is_none (vp_public_key peer) && strict then (r, t, None)
          else
            let '(t, applied) :=
              upsert_peer_guarded now t (vp_peer_id peer) addr (zone_of_addr parse_sock addr) (vp_public_key peer) in
            (r, t, if applied then Some (vp_peer_id peer) else None)
      | (r, _) => (r, t, None)
      end
  end.

(** The body of the request. *)
Record AddPeer := mkAddPeer { body_addr : string; body_peer_id : option string; body_threshold_days : option Z }.

Definition clamp_days (d : Z) : Z := Z.min (Z.max d 0) 3650.

(** [as_deref().map(str::trim).filter(..)]. *)
Definition offline_id (b : AddPeer) : option string :=
  pid ← trim <$> body_peer_id b; if same pid "" then None else Some pid.

(** What the handler found out before its transaction: (peer_id, status, key). *)
Definition add_peer_subject (b : AddPeer) (addr : string) (rnd : option bytes) (r : R)
    : R * res P2pError (string * string * option string) :=
  match offline_id b with
  | Some pid => (r, Ok (pid, "down"%string, None))
  | None =>
      match handshake_verified addr me port rnd r with
      | (r, Ok peer) => (r, Ok (vp_peer_id peer, "active"%string, vp_public_key peer))
      | (r, _) => (r, Err (BadRequest "handshake"))
      end
  end.

Definition add_peer (now : Z) (b : AddPeer) (rnd : option bytes) (r : R) (t : Table)
    : R * Table * res P2pError (string * string * option string) :=
  let addr := trim (body_addr b) in
  if same addr "" then (r, t, Err (BadRequest "addr requis (ip:port)"))
  else
    match add_peer_subject b addr rnd r with
    | (r, Ok (pid, status, key)) =>
        let generosity := clamp_days <$> body_threshold_days b in
        match t !! pid with
        | None =>
            (r, <[pid := mkPeerRec addr status None key (stamp now key None) (Some now) (default 7 generosity)]> t,
             Ok (pid, status, key))
        | Some p =>
            if key_allowed (p_key p) key
            then (r, <[pid := mkPeerRec addr (p_status p) (p_zone p) (coalesce (p_key p) key)
                               (stamp now key (p_verified_at p)) (Some now) (default (p_threshold_days p) generosity)]> t,
                  Ok (pid, status, key))
            else (r, t, Err (BadRequest "another key is pinned"))
        end
    | (r, Err e) => (r, t, Err e)
    | (r, Panic) => (r, t, Panic)
    end.

Definition remove_peer (t : Table) (peer_id : string) : Table * bool :=
  (base.delete peer_id t, bool_decide (is_Some (t !! peer_id))).

(** ** The pinned key *)

(** What the network and the administrator can ask for, short of forgetting a peer. *)
Inductive PeerOp :=
| Discover (now : Z) (addr : string) (rnd : option bytes)
| Administer (now : Z) (b : AddPeer) (rnd : option bytes).
Definition op_addr (o : PeerOp) : string := match o with Discover _ a _ => a | Administer _ b _ => trim (body_addr b) end.
Definition run_peer_op (s : R * Table) (o : PeerOp) : R * Table :=
  match o with
  | Discover now addr rnd => (register_peer now addr rnd s.1 s.2).1
  | Administer now b rnd => (add_peer now b rnd s.1 s.2).1
  end.

(** The remote behind the address signed, with [key], a challenge made for this very step. *)
Definition proves (r : R) (o : PeerOp) (pid key : string) : Prop :=
  exists n r1 r2 api observed sig ch,
    connect (op_addr o) r = Ok r1 /\ exchange r1 (AuthPing me port n) = (r2, Ok (AuthPong pid api observed key sig ch)) /\
    match o with Discover _ _ rnd | Administer _ _ rnd => rnd = Some n end /\
    verify_signature key (pong_transcript pid api n observed) sig = true.

Lemma handshake_proves addr rnd r r' v k :
  handshake_verified addr me port rnd r = (r', Ok v) -> vp_public_key v = Some k ->
  exists n r1 sig ch, rnd = Some n /\ connect addr r = Ok r1 /\
    exchange r1 (AuthPing me port n) = (r', Ok (AuthPong (vp_peer_id v) (vp_api_port v) (vp_observed_addr v) k sig ch)) /\
    verify_signature k (pong_transcript (vp_peer_id v) (vp_api_port v) n (vp_observed_addr v)) sig = true.
Proof.
  intros Hv Hk. destruct rnd as [n|]; [|discriminate Hv].
  destruct (handshake_verified_ok _ _ _ _ _ _ _ _ Hv Hk) as (r1 & sig & ch & H1 & H2 & H3). by exists n, r1, sig, ch.
Qed.

(** What one step may do to the table. *)
Record guarded (proven : string -> string -> Prop) (addr : string) (t t' : Table) : Prop := {
  gd_rows pid p : t !! pid = Some p -> exists p', t' !! pid = Some p' /\
    (p' = p \/ (p_addr p' = addr /\ p_zone p' = coalesce (p_zone p) (p_zone p') /\
      match p_key p with
      | Some k => p_key p' = Some k /\ proven pid k
      | None => match p_key p' with Some k => proven pid k | None => True end
      end));
  gd_new pid p' : t !! pid = None -> t' !! pid = Some p' ->
    p_addr p' = addr /\ match p_key p' with Some k => proven pid k | None => True end
}.

Lemma guarded_refl proven addr t : guarded proven addr t t.
Proof. split; [|congruence]. intros pid p Hp. exists p. split; [done|by left]. Qed.

(** Both transactions write at most the row of [pid], under the same guard. *)
Lemma guarded_insert proven addr t pid p' :
  p_addr p' = addr ->
  (match t !! pid with
   | Some p => p_zone p' = coalesce (p_zone p) (p_zone p') /\ exists key, key_allowed (p_key p) key = true /\
                 p_key p' = coalesce (p_key p) key /\ (forall k, key = Some k -> proven pid k)
   | None => forall k, p_key p' = Some k -> proven pid k
   end) ->
  guarded proven addr t (<[pid := p']> t).
Proof.
  intros Ha Hrow. split.
  - intros q p Hq. destruct (decide (pid = q)) as [->|Hne]; [|exists p; rewrite lookup_insert_ne by done; split; [done|by left]].
    exists p'. rewrite lookup_insert_eq. split; [done|right]. rewrite Hq in Hrow. destruct Hrow as (Hz & key & Hk & Ek & Hpr).
    split; [done|split; [done|]]. unfold key_allowed in Hk. destruct (p_key p) as [k|] eqn:E; cbn in *.
    + apply bool_decide_eq_true in Hk. subst key. split; [done|by apply Hpr].
    + rewrite Ek. destruct key as [k|]; [by apply Hpr|done].
  - intros q p'' Hn Hq. destruct (decide (pid = q)) as [->|Hne]; [|rewrite lookup_insert_ne in Hq by done; congruence].
    rewrite lookup_insert_eq in Hq. injection Hq as <-. rewrite Hn in Hrow. split; [done|].
    destruct (p_key p') as [k|]; [by apply Hrow|done].
Qed.

Lemma coalesce_self {A} (a : option A) : a = coalesce a a.
Proof. by destruct a. Qed.
Lemma coalesce_left {A} (a b : option A) : coalesce a b = coalesce a (coalesce a b).
Proof. by destruct a. Qed.

Lemma discover_guarded now addr rnd r t r' t' ans :
  register_peer now addr rnd r t = (r', t', ans) -> guarded (proves r (Discover now addr rnd)) addr t t'.
Proof.
  unfold register_peer. destruct (fetch_first _); [intros [= _ <- _]; apply guarded_refl|].
  destruct (handshake_verified addr me port rnd r) as [r1 [v|e|]] eqn:Ev; [|intros [= _ <- _]; apply guarded_refl..].
  destruct (same (vp_peer_id v) me); [intros [= _ <- _]; apply guarded_refl|].
  destruct (_ && _); [intros [= _ <- _]; apply guarded_refl|].
  assert (Hpr : forall k, vp_public_key v = Some k -> proves r (Discover now addr rnd) (vp_peer_id v) k).
  { intros k Hk. destruct (handshake_proves _ _ _ _ _ _ Ev Hk) as (n & r2 & sig & ch & -> & H1 & H2 & H3). by exists n, r2, r1, (vp_api_port v), (vp_observed_addr v), sig, ch. }
  unfold upsert_peer_guarded. destruct (t !! vp_peer_id v) as [p|] eqn:Et.
  - destruct (key_allowed _ _) eqn:Ek; [|intros [= _ <- _]; apply guarded_refl]. intros [= _ <- _].
    apply guarded_insert; [done|]. rewrite Et. split; [apply coalesce_left|]. by exists (vp_public_key v).
  - intros [= _ <- _]. apply guarded_insert; [done|]. by rewrite Et.
Qed.

Lemma administer_guarded now b rnd r t r' t' ans :
  add_peer now b rnd r t = (r', t', ans) -> guarded (proves r (Administer now b rnd)) (trim (body_addr b)) t t'.
Proof.
  unfold add_peer. destruct (same _ _); [intros [= _ <- _]; apply guarded_refl|].
  destruct (add_peer_subject b (trim (body_addr b)) rnd r) as [r1 [[[pid status] key]|e|]] eqn:Es;
    [|intros [= _ <- _]; apply guarded_refl..].
  assert (Hpr : forall k, key = Some k -> proves r (Administer now b rnd) pid k).
  { intros k ->. unfold add_peer_subject in Es. destruct (offline_id b); [discriminate|].
    destruct (handshake_verified _ me port rnd r) as [r2 [v|e|]] eqn:Ev; try discriminate. injection Es as -> <- _ Hk.
    destruct (handshake_proves _ _ _ _ _ _ Ev Hk) as (n & r3 & sig & ch & -> & H1 & H2 & H3). by exists n, r3, r1, (vp_api_port v), (vp_observed_addr v), sig, ch. }
  destruct (t !! pid) as [p|] eqn:Et.
  - destruct (key_allowed _ _) eqn:Ek; [|intros [= _ <- _]; apply guarded_refl]. intros [= _ <- _].
    apply guarded_insert; [done|]. rewrite Et. split; [apply coalesce_self|]. by exists key.
  - intros [= _ <- _]. apply guarded_insert; [done|]. by rewrite Et.
Qed.

Lemma op_guarded s o : guarded (proves s.1 o) (op_addr o) s.2 (run_peer_op s o).2.
Proof.
  destruct o as [now addr rnd|now b rnd]; cbn [run_peer_op op_addr].
  - destruct (register_peer now addr rnd s.1 s.2) as [[r' t'] ans] eqn:E. by eapply discover_guarded.
  - destruct (add_peer now b rnd s.1 s.2) as [[r' t'] ans] eqn:E. by eapply administer_guarded.
Qed.

(** At some step of the run the remote at [addr] proved the key. *)
Definition proved_during (s : R * Table) (ops : list PeerOp) (addr : option string) (pid k : string) : Prop :=
  exists pre o post, ops = pre ++ o :: post /\ proves (foldl run_peer_op s pre).1 o pid k /\
    match addr with Some a => a = op_addr o | None => True end.
Lemma proved_later s ops o addr pid k : proved_during s ops addr pid k -> proved_during s (ops ++ [o]) addr pid k.
Proof. intros (pre & o' & post & -> & H1 & H2). exists pre, o', (post ++ [o]). by rewrite <- app_assoc. Qed.

Lemma pinned_kept s ops pid p k :
  s.2 !! pid = Some p -> p_key p = Some k ->
  exists p', (foldl run_peer_op s ops).2 !! pid = Some p' /\ p_key p' = Some k /\
    (p_addr p' = p_addr p \/ proved_during s ops (Some (p_addr p')) pid k).
Proof.
  intros Hp Hk. induction ops as [|o ops (p1 & H1 & H2 & H3)] using rev_ind; [exists p; cbn; auto|].
  rewrite foldl_app. cbn [foldl]. destruct (gd_rows _ _ _ _ (op_guarded (foldl run_peer_op s ops) o) pid p1 H1) as (p2 & G1 & G2).
  exists p2. split; [done|]. destruct G2 as [->|(Ha & _ & Hkey)].
  - split; [done|]. destruct H3 as [H3|H3]; [by left|right; by apply proved_later].
  - rewrite H2 in Hkey. destruct Hkey as [Hkey Hpr]. split; [done|right]. exists ops, o, []. by rewrite Ha.
Qed.

Lemma pins_proved s ops pid p' k :
  (foldl run_peer_op s ops).2 !! pid = Some p' -> p_key p' = Some k ->
  (exists p, s.2 !! pid = Some p /\ p_key p = Some k) \/ proved_during s ops None pid k.
Proof.
  revert p'. induction ops as [|o ops IH] using rev_ind; intros p' Hp Hk; [left; by exists p'|].
  rewrite foldl_app in Hp. cbn [foldl] in Hp. pose proof (op_guarded (foldl run_peer_op s ops) o) as [G1 G2].
  assert (Hnow : proves (foldl run_peer_op s ops).1 o pid k -> proved_during s (ops ++ [o]) None pid k)
    by (intros Hpr; by exists ops, o, []).
  destruct ((foldl run_peer_op s ops).2 !! pid) as [p1|] eqn:E1.
  - destruct (G1 pid p1 E1) as (p2 & E2 & Hc). assert (p2 = p') as -> by congruence.
    destruct Hc as [->|(_ & _ & Hkey)].
    + destruct (IH p1 eq_refl Hk) as [H3|H3]; [by left|right; by apply proved_later].
    + destruct (p_key p1) as [k1|] eqn:Ek1; rewrite Hk in Hkey; [|right; by apply Hnow].
      destruct Hkey as [[= ->] Hpr]. right. by apply Hnow.
  - destruct (G2 pid p' E1 Hp) as [_ Hkey]. rewrite Hk in Hkey. right. by apply Hnow.
Qed.

(** C31. A pinned key stays pinned and guards its address: over any sequence of discoveries and
    administrative additions, against any remotes, a peer with a pinned key keeps that key,
    and its address is the one it had or one where, during the run, a fresh challenge was
    signed with that very key; and every key in the table was there before or was proven in
    the same way during the run. *)
Theorem key_pinning r t ops :
  let t' := (foldl run_peer_op (r, t) ops).2 in
  (forall pid p k, t !! pid = Some p -> p_key p = Some k ->
     exists p', t' !! pid = Some p' /\ p_key p' = Some k /\
       (p_addr p' = p_addr p \/ proved_during (r, t) ops (Some (p_addr p')) pid k)) /\
  (forall pid p' k, t' !! pid = Some p' -> p_key p' = Some k ->
     (exists p, t !! pid = Some p /\ p_key p = Some k) \/ proved_during (r, t) ops None pid k).
Proof. split; [intros pid p k; apply (pinned_kept (r, t))|intros pid p' k; apply (pins_proved (r, t))]. Qed.

(** In strict mode a discovery that was not proven writes nothing. *)
Lemma strict_discovery now addr rnd r t r' t' ans :
  strict = true -> register_peer now addr rnd r t = (r', t', ans) -> t' <> t ->
  exists pid k, ans = Some pid /\ proves r (Discover now addr rnd) pid k.
Proof.
  intros Hs. unfold register_peer. destruct (fetch_first _); [by intros [= _ <- _]|].
  destruct (handshake_verified addr me port rnd r) as [r1 [v|e|]] eqn:Ev; [|by intros [= _ <- _]..].
  destruct (same (vp_peer_id v) me); [by intros [= _ <- _]|]. rewrite Hs, andb_true_r.
  destruct (vp_public_key v) as [k|] eqn:Ek; cbn [is_none]; [|by intros [= _ <- _]].
  destruct (upsert_peer_guarded _ _ _ _ _ _) as [t2 []] eqn:Eu; intros [= _ <- <-] Hne.
  - exists (vp_peer_id v), k. split; [done|].
    destruct (handshake_proves _ _ _ _ _ _ Ev Ek) as (n & r2 & sig & ch & -> & H1 & H2 & H3). by exists n, r2, r1, (vp_api_port v), (vp_observed_addr v), sig, ch.
  - unfold upsert_peer_guarded in Eu. destruct (t !! _); [|discriminate]. destruct (key_allowed _ _); [discriminate|]. congruence.
Qed.

(** The generosity granted to a peer cannot be adjusted while that peer is away: posting it
    again with its id is refused as soon as a key is pinned for it, since an offline
    registration proves nothing, and posting it without the id needs its handshake. *)
Theorem offline_repost_refused now r t p k pid addr days rnd :
  trim addr <> ""%string -> offline_id (mkAddPeer addr (Some pid) days) = Some pid ->
  t !! pid = Some p -> p_key p = Some k ->
  add_peer now (mkAddPeer addr (Some pid) days) rnd r t = (r, t, Err (BadRequest "another key is pinned")).
Proof.
  intros Ha Ho Hp Hk. unfold add_peer, add_peer_subject. cbn [body_addr]. unfold same. rewrite bool_decide_eq_false_2 by done.
  rewrite Ho, Hp.
  unfold key_allowed. by rewrite Hk.
Qed.
End Peers.
