(* ===== verification/Fleet.v ===== *)
(** * The node and its peers ([crates/server/src/{p2p,repair}.rs], [store/service.rs])

    The interface between the passes of the server (distribution, repair, rebalance) and the
    network: requests in the clear and signed requests over a state of the peers
    ([PeerNet]), and what an honest peer does with them ([HonestNet]). On top of it the
    elementary moves the passes share: fetch, place and drop one shard, record its location.
    The manifest write of a location can fail; [set_location_ok] says which ones succeed. *)

From Stdlib Require Import ZArith Lia Strings.Ascii Strings.String Strings.Byte.
From stdpp Require Import base numbers list gmap strings sorting.
From S2P Require Import Prelude External Erasure Crypto Pipeline Paths Manifest ManifestInv ChunkStore.
From S2P Require Import Service ServiceProofs Protocol.

(** [p2pnas_p2p::request] and [crate::p2p::signed_request], by address. *)
Class PeerNet (N : Type) := {
  ask : string -> P2pMessage -> N -> N * res IoError P2pMessage;
  ask_signed : string -> P2pMessage -> N -> N * res IoError P2pMessage
}.

Definition read_only (m : P2pMessage) : Prop :=
  match m with Ping _ _ | GetShard _ | HasShard _ | AuditShard _ => True | _ => False end.

(** Peers that keep what they acknowledged: [held n addr f], the bytes behind an address. *)
Class HonestNet (N : Type) `{PeerNet N} `{CryptoPrims} := {
  held : N -> string -> string -> option bytes;
  ask_keeps a m n : read_only m -> forall x f, held (ask a m n).1 x f = held n x f;
  ask_get a f n n' g b : ask a (GetShard f) n = (n', Ok (ShardData g b)) -> held n a f = Some b;
  ask_audit a f n n' g h :
    ask a (AuditShard f) n = (n', Ok (AuditResult g h)) -> h <> "" ->
    exists b, held n a f = Some b /\ shard_hash b = h;
  store_other a f o i b n x g :
    (x, g) <> (a, f) -> held (ask_signed a (StoreShard f o i b) n).1 x g = held n x g;
  store_self a f o i b n :
    held (ask_signed a (StoreShard f o i b) n).1 a f = held n a f \/
    held (ask_signed a (StoreShard f o i b) n).1 a f = Some b;
  store_ack a f o i b n n' g :
    ask_signed a (StoreShard f o i b) n = (n', Ok (Ack g)) -> held n' a f = Some b;
  delete_other a f o n x g :
    (x, g) <> (a, f) -> held (ask_signed a (DeleteShard f o) n).1 x g = held n x g
}.

(** Peers that go on serving: [serves n a f b], the peer at [a] answers and has [b] for [f];
    [lacks n a f], nobody at [a] claims [f]. Reading changes neither. *)
Class ServingNet (N : Type) `{PeerNet N} := {
  serves : N -> string -> string -> bytes -> Prop;
  lacks : N -> string -> string -> Prop;
  serves_keeps a m n x f b : read_only m -> serves n x f b -> serves (ask a m n).1 x f b;
  lacks_keeps a m n x f : read_only m -> lacks n x f -> lacks (ask a m n).1 x f;
  serves_has n a f b : serves n a f b -> exists g, (ask a (HasShard f) n).2 = Ok (HasShardResult g true);
  serves_get n a f b : serves n a f b -> exists g, (ask a (GetShard f) n).2 = Ok (ShardData g b);
  lacks_has n a f : lacks n a f -> forall g, (ask a (HasShard f) n).2 <> Ok (HasShardResult g true)
}.

Record World (N : Type) := mkWorld { w_db : Db; w_store : ChunkStore; w_net : N }.
Arguments mkWorld {N}.
Arguments w_db {N}.
Arguments w_store {N}.
Arguments w_net {N}.

(** A pass over the world; peers, disk and manifest answer, nothing aborts. *)
Definition act (N A : Type) : Type := World N -> World N * A.
#[export] Instance act_ret {N} : MRet (act N) := fun A a w => (w, a).
#[export] Instance act_bind {N} : MBind (act N) := fun A B f m w => let '(w, a) := m w in f a w.
Definition get {N A} (g : World N -> A) : act N A := fun w => (w, g w).

Section Moves.
Context `{CryptoPrims} {N : Type} `{PN : !PeerNet N}.
(** [identity.peer_id]. *)
Variable me : string.
(** Whether the manifest write of (fragment, location) succeeds. *)
Variable set_location_ok : string -> string -> bool.

Definition request_to (addr : string) (m : P2pMessage) : act N (res IoError P2pMessage) := fun w =>
  let '(n, r) := ask addr m (w_net w) in (mkWorld (w_db w) (w_store w) n, r).
Definition signed_request_to (addr : string) (m : P2pMessage) : act N (res IoError P2pMessage) := fun w =>
  let '(n, r) := ask_signed addr m (w_net w) in (mkWorld (w_db w) (w_store w) n, r).

(** [service::set_location]; its callers discard the result. *)
Definition set_location (frag loc : string) : act N unit := fun w =>
  (if set_location_ok frag loc
   then mkWorld (set_shard_location (w_db w) frag loc) (w_store w) (w_net w) else w, ()).

(** [store.delete], result discarded. *)
Definition delete_local (frag : string) : act N unit := fun w =>
  (match delete (w_store w) frag with Ok st => mkWorld (w_db w) st (w_net w) | _ => w end, ()).

(** [service::write_local]. *)
Definition write_local (frag : string) (data : bytes) : act N bool := fun w =>
  match write (w_store w) frag data with
  | Ok st => (mkWorld (w_db w) st (w_net w), true)
  | _ => (w, false)
  end.

Definition is_ack (r : res IoError P2pMessage) : bool := match r with Ok (Ack _) => true | _ => false end.

Definition fetch_shard (reachable : gmap string string) (s : ShardRow) : act N (option bytes) :=
  b ← (if same (location s) "local" then get (fun w => read_local (w_store w) (fragment s))
       else
         match reachable !! location s with
         | None => mret None
         | Some addr =>
             r ← request_to addr (GetShard (fragment s));
             mret match r with Ok (ShardData _ data) => Some data | _ => None end
         end);
  mret match b with
       | Some b => if verify_hash b (hash s) then Some b else None
       | None => None
       end.

Definition drop_shard (reachable : gmap string string) (loc frag : string) : act N unit :=
  if same loc "local" then delete_local frag
  else
    match reachable !! loc with
    | Some addr => signed_request_to addr (DeleteShard frag me);; mret ()
    | None => mret ()
    end.

Definition place_shard (reachable : gmap string string) (target frag : string) (shard_index : Z) (data : bytes)
    : act N bool :=
  if same target "local" then write_local frag data
  else
    match reachable !! target with
    | None => mret false
    | Some addr => r ← signed_request_to addr (StoreShard frag me shard_index data); mret (is_ack r)
    end.
End Moves.

(** ** Where the bytes of a shard are *)

Section Held.
Context {CP : CryptoPrims} {N : Type} {PN : PeerNet N} {HN : HonestNet N}.
(** The addresses of the peers, by identity. *)
Variable dir : gmap string string.

(** The bytes the location of a row stands for. *)
Definition shard_at (w : World N) (loc f : string) : option bytes :=
  if same loc "local" then read_local (w_store w) f
  else a ← dir !! loc; held (w_net w) a f.

(** The rows of [f] record the hash of [b]. *)
Definition recorded (w : World N) (f : string) (b : bytes) : Prop :=
  forall s, s ∈ shard_rows (w_db w) -> fragment s = f -> hash s = shard_hash b.
(** The rows of [f] are at [loc]. *)
Definition located (w : World N) (f loc : string) : Prop :=
  forall s, s ∈ shard_rows (w_db w) -> fragment s = f -> location s = loc.

(** A shard is kept: its bytes are where its row says. *)
Definition kept_at (w : World N) (f loc : string) : Prop :=
  located w f loc /\ exists b, recorded w f b /\ shard_at w loc f = Some b.
Definition kept (w : World N) (f : string) : Prop := exists loc, kept_at w f loc.

(** What a move of shard [f] leaves alone. *)
Record moves_only (f : string) (w w' : World N) : Prop := {
  mo_store g : g <> f -> read (w_store w') g = read (w_store w) g;
  mo_net g a : g <> f -> held (w_net w') a g = held (w_net w) a g;
  mo_db : w_db w' = w_db w \/ exists loc, w_db w' = set_shard_location (w_db w) f loc
}.

Lemma moves_refl f w : moves_only f w w.
Proof. split; [done|done|by left]. Qed.

Lemma relocated_rows db f loc s :
  s ∈ shard_rows (set_shard_location db f loc) <->
  exists s0, s0 ∈ shard_rows db /\
    s = if same (fragment s0) f then mkShard (fragment s0) (shard_chunk s0) (shard_index s0) loc (hash s0) else s0.
Proof. unfold set_shard_location. cbn [shard_rows]. rewrite list_elem_of_fmap. split; intros (x & ? & ?); eauto. Qed.

Lemma relocated db f loc s :
  s ∈ shard_rows (set_shard_location db f loc) ->
  exists s0, s0 ∈ shard_rows db /\ fragment s0 = fragment s /\ hash s0 = hash s /\
    shard_index s0 = shard_index s /\ shard_chunk s0 = shard_chunk s /\
    (fragment s = f -> location s = loc) /\ (fragment s <> f -> s = s0).
Proof.
  intros (s0 & H0 & ->)%relocated_rows. exists s0. unfold same.
  destruct (bool_decide (fragment s0 = f)) eqn:E; cbn.
  - apply bool_decide_eq_true in E as <-. done.
  - by apply bool_decide_eq_false in E.
Qed.

Lemma moves_located f w w' g loc : moves_only f w w' -> g <> f -> located w g loc -> located w' g loc.
Proof.
  intros [_ _ [Hd|(l & Hd)]] Hne Hl s Hs Hf; rewrite Hd in Hs; [by apply Hl|].
  apply relocated in Hs as (s0 & H0 & E & _ & _ & _ & _ & Hsame). rewrite (Hsame ltac:(congruence)). apply Hl; congruence.
Qed.

Lemma moves_recorded f w w' g b : moves_only f w w' -> recorded w g b -> recorded w' g b.
Proof.
  intros [_ _ [Hd|(l & Hd)]] Hr s Hs Hf; rewrite Hd in Hs; [by apply Hr|].
  apply relocated in Hs as (s0 & H0 & E & <- & _). apply Hr; congruence.
Qed.

Lemma moves_shard_at f w w' g loc : moves_only f w w' -> g <> f -> shard_at w' loc g = shard_at w loc g.
Proof.
  intros Hm Hne. unfold shard_at, read_local. destruct (same loc "local").
  - by rewrite (mo_store _ _ _ Hm).
  - destruct (dir !! loc); [|done]. by apply (mo_net _ _ _ Hm).
Qed.

(** Moving one shard keeps all the others. *)
Lemma moves_kept_at f w w' g loc : moves_only f w w' -> g <> f -> kept_at w g loc -> kept_at w' g loc.
Proof.
  intros Hm Hne [Hl (b & Hr & Hb)]. split; [by eapply moves_located|].
  exists b. split; [by eapply moves_recorded|]. by rewrite (moves_shard_at _ _ _ _ _ Hm Hne).
Qed.

(** ** The elementary moves *)

Variable me : string.
Variable set_location_ok : string -> string -> bool.

Lemma set_location_moves f loc (w : World N) : moves_only f w (set_location set_location_ok f loc w).1.
Proof.
  unfold set_location. destruct (set_location_ok f loc); [|apply moves_refl]. cbn.
  split; [done|done|right]. by exists loc.
Qed.

Lemma set_location_located f loc (w : World N) :
  set_location_ok f loc = true -> located (set_location set_location_ok f loc w).1 f loc.
Proof.
  intros Hok s Hs Hf. unfold set_location in Hs. rewrite Hok in Hs. cbn in Hs.
  apply relocated in Hs as (s0 & _ & _ & _ & _ & _ & Hl & _). by apply Hl.
Qed.

Lemma set_location_rest f loc (w : World N) :
  w_store (set_location set_location_ok f loc w).1 = w_store w /\ w_net (set_location set_location_ok f loc w).1 = w_net w.
Proof. unfold set_location. by destruct (set_location_ok f loc). Qed.

Lemma delete_local_moves f (w : World N) : moves_only f w (delete_local f w).1.
Proof.
  unfold delete_local. destruct (delete (w_store w) f) as [st| |] eqn:E; [|apply moves_refl..].
  split; cbn; [|done|by left]. intros g Hne. by eapply delete_read_ne.
Qed.

Lemma delete_local_rest f (w : World N) :
  w_db (delete_local f w).1 = w_db w /\ w_net (delete_local f w).1 = w_net w.
Proof. unfold delete_local. by destruct (delete (w_store w) f). Qed.

Lemma write_local_moves f b (w : World N) : moves_only f w (write_local f b w).1.
Proof.
  unfold write_local. destruct (write (w_store w) f b) as [st| |] eqn:E; [|apply moves_refl..].
  split; cbn; [|done|by left]. intros g Hne. by eapply write_read_ne.
Qed.

Lemma write_local_ok f b (w w' : World N) :
  write_local f b w = (w', true) -> shard_at w' "local" f = Some b /\ w_db w' = w_db w /\ w_net w' = w_net w.
Proof.
  unfold write_local. destruct (write (w_store w) f b) as [st| |] eqn:E; [|done..]. intros [= <-].
  unfold shard_at, read_local. cbn. by rewrite (write_read _ _ _ _ E).
Qed.

(** A request that only reads moves nothing. *)
Lemma request_moves f a m (w : World N) :
  read_only m -> moves_only f w (request_to a m w).1 /\
  w_db (request_to a m w).1 = w_db w /\ w_store (request_to a m w).1 = w_store w /\
  forall x g, held (w_net (request_to a m w).1) x g = held (w_net w) x g.
Proof.
  intros Hro. unfold request_to. pose proof (ask_keeps a m (w_net w) Hro) as Hk.
  destruct (ask a m (w_net w)) as [n r]. cbn in *. split; [|done]. split; cbn; [done| |by left].
  intros g x _. apply Hk.
Qed.

Lemma store_moves f a i b (w : World N) : moves_only f w (signed_request_to a (StoreShard f me i b) w).1.
Proof.
  unfold signed_request_to. pose proof (store_other a f me i b (w_net w)) as Hk.
  destruct (ask_signed a _ (w_net w)) as [n r]. cbn in *. split; cbn; [done| |by left].
  intros g x Hne. apply Hk. congruence.
Qed.

Lemma store_rest f a i b (w : World N) :
  w_db (signed_request_to a (StoreShard f me i b) w).1 = w_db w /\
  w_store (signed_request_to a (StoreShard f me i b) w).1 = w_store w.
Proof. unfold signed_request_to. by destruct (ask_signed a _ (w_net w)). Qed.

Lemma store_acked f a i b (w w' : World N) r :
  signed_request_to a (StoreShard f me i b) w = (w', r) -> is_ack r = true -> held (w_net w') a f = Some b.
Proof.
  unfold signed_request_to. destruct (ask_signed a _ (w_net w)) as [n r0] eqn:E. intros [= <- <-] Ha. cbn.
  destruct r0 as [[]| |]; try done. by eapply store_ack.
Qed.
End Held.
