(* ===== verification/HostNet.v ===== *)
(** * A network of listeners

    The peers of a node as the hosts of [Host.v], each behind the listener of [Server.v] at
    its address and reached with the client of [Client.v]: they are honest in the sense of
    [Fleet.v], so what the passes of the server assume of their peers is what this same
    program does when it hosts. *)

From Stdlib Require Import ZArith Lia Strings.Ascii Strings.String Strings.Byte.
From stdpp Require Import base numbers list gmap strings sorting.
From S2P Require Import Prelude External Erasure Crypto Pipeline Paths Manifest ChunkStore.
From S2P Require Import Protocol Server Client Host Fleet.

(** The hosts by address, and the open connection: address, session, requests served. *)
Record Hosts `{CryptoPrims} `{Ed25519} := mkHosts {
  hosts : gmap string Host;
  conn : string * PeerAuthSession * nat
}.

Section HostNet.
Context {CP : CryptoPrims} {ED : Ed25519}.
(** The address a listener sees us at, and the challenges it draws. *)
Variable ip : string.
Variable rnd : nat -> option bytes.
(** Our key, identity, port and the nonce of our challenges. *)
Variables (signer : option PeerSigner) (me : string) (port : Z) (nonce : option bytes).

#[local] Instance listeners : Remote Hosts := {|
  connect a r := match hosts r !! a with
                 | Some _ => Ok (mkHosts _ _ (hosts r) (a, new_session, 0%nat))
                 | None => Err (TimedOut "connect timeout")
                 end;
  exchange r m :=
    let '(a, session, i) := conn r in
    match hosts r !! a with
    | None => (r, Err UnexpectedEof)
    | Some h =>
        let '(h, session, resp) := dispatch ip h session (rnd i) m in
        (mkHosts _ _ (<[a := h]> (hosts r)) (a, session, Datatypes.S i), Ok resp)
    end
|}.

#[local] Instance host_net : PeerNet Hosts := {|
  ask a m := request a m;
  ask_signed a m := signed_request signer a me port nonce m
|}.

Definition held_by (r : Hosts) (a f : string) : option bytes :=
  h ← hosts r !! a; res_ok (read (Host.store h) f).

(** What a message may change: the shard it names, on the host it is sent to. *)
Definition changes (m : P2pMessage) (f : string) : Prop :=
  match m with StoreShard id _ _ _ | DeleteShard id _ => id = f | _ => False end.

Lemma host_store_read h id owner i data h' f :
  host_store h id owner i data = (h', true) ->
  res_ok (read (Host.store h') f) = if decide (f = id) then Some data else res_ok (read (Host.store h) f).
Proof.
  intros (st & Hw & _ & _ & _ & ->)%host_store_ok. cbn [Host.store with_store].
  case_decide as E; [subst f; by rewrite (write_read _ _ _ _ Hw)|by rewrite (write_read_ne _ _ _ _ f Hw)].
Qed.

Lemma dispatch_read h session r m h' s' resp f :
  dispatch ip h session r m = (h', s', resp) ->
  (~ changes m f -> res_ok (read (Host.store h') f) = res_ok (read (Host.store h) f)) /\
  (forall owner i data, m = StoreShard f owner i data ->
     res_ok (read (Host.store h') f) = res_ok (read (Host.store h) f) \/ res_ok (read (Host.store h') f) = Some data) /\
  (forall owner i data g, m = StoreShard f owner i data -> resp = Ack g -> res_ok (read (Host.store h') f) = Some data).
Proof.
  intros Hd. split; [|split].
  - intros Hc. apply dispatch_host in Hd as [->|[(id & o & i & d & -> & _ & Hs)|(id & o & hr & -> & _ & _ & _ & ->)]].
    + done.
    + rewrite (host_store_read _ _ _ _ _ _ f Hs). cbn in Hc. by rewrite decide_False by done.
    + cbn in Hc |- *. destruct (delete (Host.store h) id) as [st| |] eqn:E; [|done..].
      by rewrite (delete_read_ne _ _ _ f E) by congruence.
  - intros owner i data ->. apply dispatch_host in Hd as [->|[(id & o & j & d & [= -> -> -> ->] & _ & Hs)|(? & ? & ? & [=] & _)]].
    + by left.
    + right. rewrite (host_store_read _ _ _ _ _ _ id Hs). by rewrite decide_True.
  - intros owner i data g -> ->. cbn in Hd. unfold host_store_from in Hd.
    destruct (authorize_owner h (authenticated_peer session) owner); [|done]. cbn in Hd.
    destruct (host_store h f owner i data) as [h2 ok] eqn:E. destruct ok; [|done]. injection Hd as -> _ _.
    rewrite (host_store_read _ _ _ _ _ _ f E). by rewrite decide_True.
Qed.

Lemma elsewhere (a f x g : string) (m : P2pMessage) :
  (forall h, changes m h -> h = f) -> (x, g) <> (a, f) -> x <> a \/ ~ changes m g.
Proof. intros Hm Hne. destruct (decide (x = a)) as [->|]; [right|by left]. intros ->%Hm. done. Qed.

(** The open connection goes to [a]. *)
Definition at_addr (a : string) (r : Hosts) : Prop := (conn r).1.1 = a.

Lemma exchange_read a r m r' ans :
  at_addr a r -> exchange r m = (r', ans) ->
  at_addr a r' /\
  (forall x f, x <> a \/ ~ changes m f -> held_by r' x f = held_by r x f) /\
  (forall f owner i data, m = StoreShard f owner i data ->
     held_by r' a f = held_by r a f \/ held_by r' a f = Some data) /\
  (forall f owner i data g, m = StoreShard f owner i data -> ans = Ok (Ack g) -> held_by r' a f = Some data).
Proof.
  unfold at_addr. cbn [exchange listeners]. destruct (conn r) as [[b session] i] eqn:Ec. cbn [fst]. intros ->.
  destruct (hosts r !! a) as [h|] eqn:Eh.
  2: { intros [= <- <-]. rewrite Ec. split; [done|split; [done|split; [by left|done]]]. }
  destruct (dispatch ip h session (rnd i) m) as [[h' s'] resp] eqn:Ed. intros [= <- <-].
  pose proof (fun f => dispatch_read _ _ _ _ _ _ _ f Ed) as Hr. unfold held_by. cbn [hosts conn fst].
  split; [done|split; [|split]].
  - intros x f Hne. destruct (decide (x = a)) as [->|Hx]; [|by rewrite lookup_insert_ne by done].
    rewrite lookup_insert_eq, Eh. cbn. destruct Hne as [Hne|Hne]; [done|by apply Hr].
  - intros f owner j data ->. rewrite lookup_insert_eq, Eh. cbn. by apply (Hr f) with (owner := owner) (i := j).
  - intros f owner j data g -> [= ->]. rewrite lookup_insert_eq. cbn. by eapply (Hr f).
Qed.

(** What a whole request does to the shards of the peers. *)
Record asked (a : string) (m : P2pMessage) (r r' : Hosts) (ans : res IoError P2pMessage) : Prop := {
  as_frame x f : x <> a \/ ~ changes m f -> held_by r' x f = held_by r x f;
  as_self f owner i data : m = StoreShard f owner i data ->
    held_by r' a f = held_by r a f \/ held_by r' a f = Some data;
  as_ack f owner i data g : m = StoreShard f owner i data -> ans = Ok (Ack g) -> held_by r' a f = Some data
}.
Definition quiet (r r' : Hosts) : Prop := forall x f, held_by r' x f = held_by r x f.

Lemma asked_quiet a m r r1 r' ans : quiet r r1 -> asked a m r1 r' ans -> asked a m r r' ans.
Proof. intros Hq [H1 H2 H3]. split; [|intros f ????; rewrite <- Hq; by eapply H2|done]. intros x f Hc. by rewrite H1. Qed.

Lemma quiet_asked a m r r' ans : (forall g, ans <> Ok (Ack g)) -> quiet r r' -> asked a m r r' ans.
Proof. intros Hn Hq. split; [by intros|intros; left; apply Hq|intros f o i d g _ E; by apply Hn in E]. Qed.

Lemma asked_again a m r r1 r' e ans : asked a m r r1 (Err e) -> asked a m r1 r' ans -> asked a m r r' ans.
Proof.
  intros [H1 H2 _] [F1 F2 F3]. split; [|intros f o i d E|done].
  - intros x f Hc. by rewrite F1, H1.
  - destruct (F2 f o i d E) as [->|?]; [by eapply H2|by right].
Qed.

Lemma open_quiet a r r' ans :
  open_conn a r = (r', ans) -> quiet r r' /\ (forall u, ans = Ok u -> at_addr a r') /\ (ans <> Ok () -> exists e, ans = Err e).
Proof.
  unfold open_conn. cbn. destruct (hosts r !! a); intros [= <- <-]; [done|]. split; [done|split; [done|by eexists]].
Qed.

Lemma exchange_asked a m r r' ans : at_addr a r -> roundtrip m r = (r', ans) -> at_addr a r' /\ asked a m r r' ans.
Proof. intros Ha (H0 & H1 & H2 & H3)%(exchange_read a); [|done]. split; [done|by split]. Qed.

Lemma exchange_quiet a m r r' ans :
  (forall f, ~ changes m f) -> at_addr a r -> roundtrip m r = (r', ans) -> at_addr a r' /\ quiet r r'.
Proof. intros Hc Ha [H0 [H1 _ _]]%(exchange_asked a); [|done]. split; [done|]. intros x f. apply H1. by right. Qed.

Lemma request_asked a m r r' ans : request a m r = (r', ans) -> asked a m r r' ans.
Proof.
  unfold request. run_net. destruct (open_conn a r) as [r1 o] eqn:Eo. unfold open_conn in Eo.
  destruct (connect a r) as [r2| |] eqn:Ec.
  - intros Hx. destruct (open_quiet a r r2 (Ok ())) as (Hq & Ha & _); [unfold open_conn; by rewrite Ec|].
    eapply asked_quiet; [exact Hq|]. eapply exchange_asked; [by eapply Ha|exact Hx].
  - intros [= <- <-]. by apply quiet_asked.
  - cbn in Ec. by destruct (hosts r !! a).
Qed.

Lemma quiet_remote_trans r1 r2 r3 : quiet r1 r2 -> quiet r2 r3 -> quiet r1 r3.
Proof. intros H1 H2 x f. by rewrite H2, H1. Qed.

(** The handshake of a session moves nothing; the message is sent once it is over. *)
Lemma session_asked a k m r r' ans :
  authenticated_session a k me port nonce m r = (r', ans) -> asked a m r r' ans.
Proof.
  unfold authenticated_session. run_net. destruct (connect a r) as [r0| |] eqn:Ec.
  2,3: intros [= <- <-]; by apply quiet_asked.
  destruct (open_quiet a r r0 (Ok ())) as (Hq0 & Ha0 & _); [unfold open_conn; by rewrite Ec|].
  specialize (Ha0 () eq_refl). destruct nonce as [n|]; [|intros [= <- <-]; by apply quiet_asked].
  destruct (exchange r0 (AuthPing me port n)) as [r1 o1] eqn:E1.
  destruct (exchange_quiet a (AuthPing me port n) r0 r1 o1 (fun f Hf => Hf) Ha0 E1) as [Ha1 Hq1].
  pose proof (quiet_remote_trans _ _ _ Hq0 Hq1) as Hq.
  destruct o1 as [resp|e|]; [|intros [= <- <-]; by apply quiet_asked..].
  destruct (match resp with AuthPong _ _ _ _ _ _ => _ | _ => _ end) as [[rid ch]|e|];
    [|intros [= <- <-]; by apply quiet_asked..].
  destruct (sign_hex k _) as [sig|e|]; [|intros [= <- <-]; by apply quiet_asked..].
  destruct (exchange r1 (AuthProof me (public_key_hex k) sig)) as [r2 o2] eqn:E2.
  destruct (exchange_quiet a (AuthProof me (public_key_hex k) sig) r1 r2 o2 (fun f Hf => Hf) Ha1 E2) as [Ha2 Hq2].
  pose proof (quiet_remote_trans _ _ _ Hq Hq2) as Hq'.
  destruct o2 as [resp2|e|]; [|intros [= <- <-]; by apply quiet_asked..].
  destruct resp2; try (intros [= <- <-]; by apply quiet_asked).
  intros Hx. eapply asked_quiet; [exact Hq'|]. by eapply exchange_asked.
Qed.

Lemma signed_asked a m r r' ans : signed_request signer a me port nonce m r = (r', ans) -> asked a m r r' ans.
Proof.
  unfold signed_request. destruct signer as [k|]; [|apply request_asked]. unfold authenticated_request.
  destruct (authenticated_session a k me port nonce m r) as [r1 o] eqn:Es. apply session_asked in Es.
  destruct o as [resp|e|]; [by intros [= <- <-]| |by intros [= <- <-]].
  destruct e; try (intros Hr; eapply asked_again; [exact Es|by apply request_asked]). by intros [= <- <-].
Qed.

Lemma request_reply a m r r' ans :
  request a m r = (r', Ok ans) ->
  exists h h' s i s', hosts r !! a = Some h /\ dispatch ip h s (rnd i) m = (h', s', ans).
Proof.
  unfold request. run_net. cbn. destruct (hosts r !! a) as [h|] eqn:Eh; [|done]. cbn. rewrite Eh.
  destruct (dispatch ip h new_session (rnd 0%nat) m) as [[h' s'] resp] eqn:Ed. intros [= _ <-]. by eauto 10.
Qed.

#[global] Instance hosts_honest : HonestNet Hosts.
Proof.
  refine {| held := held_by |}.
  - intros a m n Hro x f. cbn. destruct (request a m n) as [n' ans] eqn:E. apply request_asked in E as [Hf _ _].
    apply Hf. right. destruct m; cbn in *; tauto.
  - intros a f n n' g b. cbn. intros (h & h' & s & i & s' & Eh & Ed)%request_reply. cbn in Ed. injection Ed as _ _ Eg.
    unfold held_by. rewrite Eh. cbn. unfold host_get in Eg. destruct (hosted_shards h !! f); [|discriminate Eg].
    destruct (res_ok _); [congruence|discriminate Eg].
  - intros a f n n' g hh. cbn. intros (h & h' & s & i & s' & Eh & Ed)%request_reply Hne. cbn in Ed. injection Ed as _ _ _ Eg.
    unfold held_by. rewrite Eh. cbn. unfold host_audit in Eg. destruct (read (Host.store h) f); [|congruence..].
    cbn. by eexists.
  - intros a f o i b n x g Hne. cbn. destruct (signed_request _ _ _ _ _ _ n) as [n' ans] eqn:E.
    apply signed_asked in E as [Hf _ _]. apply Hf. by apply (elsewhere a f).
  - intros a f o i b n. cbn. destruct (signed_request _ _ _ _ _ _ n) as [n' ans] eqn:E.
    apply signed_asked in E as [_ Hs _]. eapply Hs. reflexivity.
  - intros a f o i b n n' g. cbn. intros [_ _ Ha]%signed_asked. eapply Ha; reflexivity.
  - intros a f o n x g Hne. cbn. destruct (signed_request _ _ _ _ _ _ n) as [n' ans] eqn:E.
    apply signed_asked in E as [Hf _ _]. apply Hf. by apply (elsewhere a f).
Defined.

(** A request that only reads leaves every host as it was. *)
Lemma dispatch_reads h session r m h' s' resp :
  read_only m -> dispatch ip h session r m = (h', s', resp) -> h' = h.
Proof. by intros Hro [->|[(? & ? & ? & ? & -> & _)|(? & ? & ? & -> & _)]]%dispatch_host. Qed.

Lemma request_hosts a m r : read_only m -> hosts (request a m r).1 = hosts r.
Proof.
  intros Hro. unfold request. run_net. cbn. destruct (hosts r !! a) as [h|] eqn:Eh; [|done]. cbn. rewrite Eh.
  destruct (dispatch ip h new_session (rnd 0%nat) m) as [[h' s'] resp] eqn:Ed. cbn.
  apply dispatch_reads in Ed as ->; [|done]. by apply insert_id.
Qed.

Lemma request_answer a m r h : hosts r !! a = Some h ->
  exists h' s', (request a m r).2 = Ok (dispatch ip h new_session (rnd 0%nat) m).2 /\ dispatch ip h new_session (rnd 0%nat) m = (h', s', (dispatch ip h new_session (rnd 0%nat) m).2).
Proof.
  intros Eh. unfold request. run_net. cbn. rewrite Eh. cbn. rewrite Eh.
  destruct (dispatch ip h new_session (rnd 0%nat) m) as [[h' s'] resp]. by exists h', s'.
Qed.

Lemma request_closed a m r : hosts r !! a = None -> exists e, (request a m r).2 = Err e.
Proof. intros Eh. unfold request. run_net. cbn. rewrite Eh. by eexists. Qed.

#[global] Instance hosts_serving : ServingNet Hosts.
Proof.
  refine {|
    serves r a f b := exists h, hosts r !! a = Some h /\ is_Some (hosted_shards h !! f) /\ read (Host.store h) f = Ok b;
    lacks r a f := match hosts r !! a with None => True | Some h => exists_ (Host.store h) f = false end |}.
  - intros a m n x f b Hro. cbn. by rewrite (request_hosts a m n Hro).
  - intros a m n x f Hro. cbn. by rewrite (request_hosts a m n Hro).
  - intros n a f b (h & Eh & _ & Hr). cbn. destruct (request_answer a (HasShard f) n h Eh) as (h' & s' & -> & _).
    cbn. unfold host_has. eexists. do 2 f_equal. by eapply read_exists.
  - intros n a f b (h & Eh & [row Hrow] & Hr). cbn. destruct (request_answer a (GetShard f) n h Eh) as (h' & s' & -> & _).
    cbn. unfold host_get. rewrite Hrow, Hr. cbn. by eexists.
  - intros n a f. cbn. destruct (hosts n !! a) as [h|] eqn:Eh.
    + intros Hx g. destruct (request_answer a (HasShard f) n h Eh) as (h' & s' & -> & _). cbn. unfold host_has. by rewrite Hx.
    + intros _ g. by destruct (request_closed a (HasShard f) n Eh) as (e & ->).
Defined.
End HostNet.
