(* ===== verification/Distribute.v ===== *)
(** * Spreading a fresh file over the peers ([handlers/files.rs], [distribute_shards])

    Peers are vetted against the jurisdiction list, probed, sorted near to far; one layout
    serves every chunk; then one task per remote placement reads the shard, offers it to its
    primary peer and to the next two, records the location and drops the local copy. The
    tasks run concurrently: [dist_step] is one await-to-await step of one task, and a
    schedule says whose turn it is, so a prefix of a schedule is a crash. *)

From Stdlib Require Import Floats.
From Stdlib Require Import ZArith Lia Strings.Ascii Strings.String Strings.Byte.
From stdpp Require Import base numbers list gmap strings sorting.
From S2P Require Import Prelude External Erasure Crypto Pipeline Paths Manifest ManifestInv ChunkStore.
From S2P Require Import Service ServiceProofs ServiceSpec Protocol Dht Placement Fleet.

(** [GeoOutcome]. *)
Inductive GeoOutcome := Resolved (country : option string) | Unavailable.

(** A row of [peers], as the passes read it. *)
Record PeerRow := mkPeer {
  peer_id : string;
  addr : string;
  country : option string;
  peer_zone : option string;
  reliability_score : float;
  status : string
}.

(** Peers eligible for placement: the query of [distribute_shards] and [rebalance_all]. *)
Definition placement_rows (me : string) (rows : list PeerRow) : list PeerRow :=
  filter (fun p => peer_id p <> me /\ status p <> "down") rows.

(** The console's list wins when it says something. *)
Definition allow_list (instance_allow settings_allow : list string) : list string :=
  if bool_decide (instance_allow = []) then settings_allow else instance_allow.

(** [addr.rsplit_once(':')], the address itself when there is no colon. *)
Definition geo_ip (a : string) : string := default a (before_last ":"%char a).

(** The jurisdiction filter over the rows, in order; [None] is the early return. *)
Fixpoint vet (allow : list string) (geo : string -> GeoOutcome) (rows : list PeerRow) : option (list PeerRow) :=
  match rows with
  | [] => Some []
  | p :: rows =>
      c ← match country p with
          | Some c => Some (Some c)
          | None => match geo (geo_ip (addr p)) with Resolved c => Some c | Unavailable => None end
          end;
      kept ← vet allow geo rows;
      Some (if jurisdiction_allowed allow c then p :: kept else kept)
  end.
Definition vetted (allow : list string) (geo : string -> GeoOutcome) (rows : list PeerRow) : option (list PeerRow) :=
  if bool_decide (allow = []) then Some rows else vet allow geo rows.

(** A peer that answered the probe, with its round-trip time. *)
Abbreviation LivePeer := (PeerRow * float)%type.
Definition probe (rtt : string -> option float) (rows : list PeerRow) : list LivePeer :=
  omap (fun p => pair p <$> rtt (addr p)) rows.
(** [sort_by partial_cmp], near to far. *)
Definition nearer (a b : LivePeer) : Prop := (a.2 <=? b.2)%float = true.
#[export] Instance nearer_dec a b : Decision (nearer a b).
Proof. unfold nearer. apply _. Defined.
Definition live_peers (rtt : string -> option float) (rows : list PeerRow) : list LivePeer :=
  merge_sort nearer (probe rtt rows).

Definition candidate_of `{IpText} (parse_sock : string -> option (IpAddr * Z)) (l : LivePeer) : PeerCandidate :=
  {| rtt_ms := l.2;
     zone := match peer_zone l.1 with Some z => Some z | None => zone_of_addr parse_sock (addr l.1) end;
     reliability := reliability_score l.1 |}.
Definition layout_for `{IpText} (parse_sock : string -> option (IpAddr * Z)) (live : list LivePeer) : list Placement :=
  plan_placement_zoned (candidate_of parse_sock <$> live) None PARITY_SHARDS TOTAL_SHARDS.

(** The shards that leave this node, each with the index of its primary peer. *)
Definition placements (layout : list Placement) (plan : list (ChunkRow * list ShardRow)) : list (ShardRow * nat) :=
  mjoin ((fun c : ChunkRow * list ShardRow =>
            omap (fun s => pair s <$> mjoin (layout !! Z.to_nat (as_u64 (shard_index s)))) c.2) <$> plan).

(** ** The tasks *)

Inductive Task :=
| Start (s : ShardRow) (primary : nat)
| Offering (s : ShardRow) (primary off : nat) (data : bytes)
| Stored (s : ShardRow) (pid : string)
| Recorded (s : ShardRow) (pid : string)
| Finished (s : ShardRow).
Definition task_shard (t : Task) : ShardRow :=
  match t with Start s _ | Offering s _ _ _ | Stored s _ | Recorded s _ | Finished s => s end.

Section Distribute.
Context `{CryptoPrims} {N : Type} `{PN : !PeerNet N}.
Variable me : string.
Variable set_location_ok : string -> string -> bool.
(** (peer_id, addr), near to far. *)
Variable peers : list (string * string).

Definition dist_step (t : Task) : act N Task :=
  match t with
  | Start s primary =>
      b ← get (fun w : World N => read_local (w_store w) (fragment s));
      mret match b with Some data => Offering s primary 0 data | None => Finished s end
  | Offering s primary off data =>
      if (off <? length peers `min` 3)%nat then
        match peers !! ((primary + off) mod length peers)%nat with
        | None => mret (Finished s)
        | Some (pid, a) =>
            r ← signed_request_to a (StoreShard (fragment s) me (shard_index s) data);
            mret (if is_ack r then Stored s pid else Offering s primary (S off) data)
        end
      else mret (Finished s)
  | Stored s pid => set_location set_location_ok (fragment s) pid;; mret (Recorded s pid)
  | Recorded s pid => delete_local (fragment s);; mret (Finished s)
  | Finished s => mret (Finished s)
  end.

(** A turn of task [i]. *)
Definition turn (c : World N * list Task) (i : nat) : World N * list Task :=
  match c.2 !! i with
  | None => c
  | Some t => let '(w, t) := dist_step t c.1 in (w, <[i := t]> c.2)
  end.
Definition run_tasks (schedule : list nat) (c : World N * list Task) : World N * list Task :=
  foldl turn c schedule.
End Distribute.

(** The tasks [distribute_shards] spawns, and the peers they choose from. Nothing is moved
    when no peer may or can be used. *)
Definition distribution `{IpText} (parse_sock : string -> option (IpAddr * Z)) (me : string)
    (rows : list PeerRow) (instance_allow settings_allow : list string) (geo : string -> GeoOutcome)
    (rtt : string -> option float) (db : Db) (user id : string) : list (string * string) * list Task :=
  match vetted (allow_list instance_allow settings_allow) geo (placement_rows me rows) with
  | None => ([], [])
  | Some rows =>
      let live := live_peers rtt rows in
      if bool_decide (live = []) then ([], [])
      else
        match pull_plan db user id with
        | Ok (_, plan) =>
            ((fun l => (peer_id l.1, addr l.1)) <$> live,
             (fun p => Start p.1 p.2) <$> placements (layout_for parse_sock live) plan)
        | _ => ([], [])
        end
  end.
