(* ===== verification/DistributeProofs.v ===== *)
(** * Nothing is lost while shards are spread ([distribute_shards])

    Task by task: what a turn leaves alone, what it keeps, and that it ends. *)

From Stdlib Require Import Floats.
From Stdlib Require Import ZArith Lia Strings.Ascii Strings.String Strings.Byte.
From stdpp Require Import base numbers list gmap strings sorting.
From S2P Require Import Prelude External Erasure Crypto Pipeline Paths Manifest ManifestInv ChunkStore.
From S2P Require Import Service ServiceProofs ServiceSpec Protocol Dht Placement Fleet Distribute.

Section Tasks.
Context {CP : CryptoPrims} {N : Type} {PN : PeerNet N} {HN : HonestNet N}.
Variable dir : gmap string string.
Variable me : string.
Variable set_location_ok : string -> string -> bool.
Variable peers : list (string * string).

Abbreviation frag t := (fragment (task_shard t)).
Abbreviation step := (dist_step me set_location_ok peers).

(** What is known of the shard at each stage of its task. *)
Definition task_inv (w : World N) (t : Task) : Prop :=
  let f := frag t in
  match t with
  | Start _ _ => kept_at dir w f "local"
  | Offering _ _ _ data => kept_at dir w f "local" /\ shard_at dir w "local" f = Some data
  | Stored _ pid => kept_at dir w f "local" /\ pid <> "local" /\ exists b, recorded w f b /\ shard_at dir w pid f = Some b
  | Recorded _ pid => kept_at dir w f pid /\ pid <> "local"
  | Finished _ => kept dir w f
  end.

Lemma task_inv_kept w t : task_inv w t -> kept dir w (frag t).
Proof. destruct t; cbn; [by exists "local"|intros [? _]; by exists "local"..|intros [? _]; by eexists|done]. Qed.

(** A turn moves the shard of its task only, and keeps the task's shard. *)
Lemma step_moves t w : moves_only (frag t) w (step t w).1 /\ task_shard (step t w).2 = task_shard t.
Proof.
  destruct t as [s p|s p off data|s pid|s pid|s]; cbn [dist_step task_shard]; unfold mbind, act_bind, mret, act_ret, get.
  - destruct (read_local _ _); (split; [apply moves_refl|done]).
  - destruct (off <? _)%nat; [|split; [apply moves_refl|done]].
    destruct (peers !! _) as [[pid a]|]; [|split; [apply moves_refl|done]].
    pose proof (store_moves me (fragment s) a (shard_index s) data w) as Hm.
    destruct (signed_request_to a _ w) as [w' r]. split; [exact Hm|]. by destruct (is_ack r).
  - pose proof (set_location_moves set_location_ok (fragment s) pid w) as Hm.
    destruct (set_location set_location_ok (fragment s) pid w). split; [exact Hm|done].
  - pose proof (delete_local_moves (fragment s) w) as Hm.
    destruct (delete_local (fragment s) w). split; [exact Hm|done].
  - split; [apply moves_refl|done].
Qed.

Lemma moves_task_inv f w w' t : moves_only f w w' -> frag t <> f -> task_inv w t -> task_inv w' t.
Proof.
  intros Hm Hne. pose proof (fun loc => moves_kept_at dir f w w' (frag t) loc Hm Hne) as Hk.
  pose proof (fun loc => moves_shard_at dir f w w' (frag t) loc Hm Hne) as Hs.
  destruct t; cbn in *.
  - apply Hk.
  - intros [H1 H2]. split; [by apply Hk|]. by rewrite Hs.
  - intros (H1 & H2 & b & H3 & H4). split; [by apply Hk|split; [done|]]. exists b.
    split; [by eapply moves_recorded|]. by rewrite Hs.
  - intros [H1 H2]. split; [by apply Hk|done].
  - intros (loc & Hl). exists loc. by apply Hk.
Qed.

Hypothesis peers_dir : Forall (fun p => p.1 <> "local" /\ dir !! p.1 = Some p.2) peers.

Lemma step_inv t w :
  (forall f l, set_location_ok f l = true) -> task_inv w t -> task_inv (step t w).1 (step t w).2.
Proof.
  intros Hok. destruct t as [s p|s p off data|s pid|s pid|s]; cbn [dist_step task_inv task_shard];
    unfold mbind, act_bind, mret, act_ret, get.
  - intros Hk. assert (Hr : exists b, read_local (w_store w) (fragment s) = Some b).
    { destruct Hk as [_ (b & _ & Hb)]. unfold shard_at in Hb. cbn in Hb. by exists b. }
    destruct Hr as (b & Hb). rewrite Hb. cbn. split; [done|]. unfold shard_at. cbn. done.
  - intros [Hk Hd]. destruct (off <? _)%nat; cbn; [|by exists "local"].
    destruct (peers !! _) as [[pid a]|] eqn:Ep; cbn; [|by exists "local"].
    apply (Forall_lookup_1 _ _ _ _ peers_dir) in Ep as [Hne Hdir]. cbn in Hne, Hdir.
    pose proof (store_moves me (fragment s) a (shard_index s) data w) as Hm.
    destruct (store_rest me (fragment s) a (shard_index s) data w) as [Edb Est].
    destruct (signed_request_to a _ w) as [w' r] eqn:Er. cbn [fst snd] in *.
    assert (Hk' : kept_at dir w' (fragment s) "local" /\ shard_at dir w' "local" (fragment s) = Some data).
    { unfold kept_at, located, recorded, shard_at in *. cbn in *. by rewrite Edb, Est. }
    destruct (is_ack r) eqn:Ea; cbn; [|done]. destruct Hk' as [Hk' Hd']. split; [done|split; [done|]].
    exists data. split.
    + destruct Hk' as [_ (b & Hb & Hs)]. assert (b = data) as -> by congruence. done.
    + unfold shard_at. unfold same. rewrite bool_decide_eq_false_2 by done. rewrite Hdir. cbn. by eapply store_acked.
  - intros (Hk & Hne & b & Hr & Hb). unfold set_location. rewrite Hok. cbn. split; [|done]. split.
    + intros s' Hs Hf. apply relocated in Hs as (s0 & _ & _ & _ & _ & _ & Hl & _). by apply Hl.
    + exists b. split; [|done]. intros s' Hs Hf. apply relocated in Hs as (s0 & H0 & E & <- & _). apply Hr; congruence.
  - intros [[Hl (b & Hr & Hb)] Hne]. destruct (delete_local_rest (fragment s) w) as [Edb En].
    destruct (delete_local (fragment s) w) as [w' u]. cbn in *. exists pid. unfold kept_at, located, recorded, shard_at in *.
    rewrite Edb, En. split; [done|]. exists b. split; [done|]. unfold same in *.
    rewrite bool_decide_eq_false_2 in Hb |- * by done. done.
  - done.
Qed.

(** A schedule: every task keeps its invariant, every other shard its place. *)
Lemma run_keeps schedule : forall w ts w' ts',
  (forall f l, set_location_ok f l = true) -> NoDup ((fun t => frag t) <$> ts) ->
  run_tasks me set_location_ok peers schedule (w, ts) = (w', ts') ->
  task_shard <$> ts' = task_shard <$> ts /\
  (forall i t, ts !! i = Some t -> task_inv w t -> exists t', ts' !! i = Some t' /\ task_inv w' t') /\
  (forall f loc, f ∉ (fun t => frag t) <$> ts -> kept_at dir w f loc -> kept_at dir w' f loc).
Proof.
  induction schedule as [|i schedule IH]; intros w ts w' ts' Hok Hnd Hrun; cbn in Hrun.
  { injection Hrun as <- <-. split; [done|split; [by eauto|done]]. }
  unfold turn at 2 in Hrun. cbn [fst snd] in Hrun.
  destruct (ts !! i) as [t|] eqn:Ei; [|by apply IH].
  destruct (step_moves t w) as [Hm Hts]. pose proof (step_inv t w Hok) as Hinv.
  destruct (step t w) as [w1 t1]. cbn [fst snd] in *.
  assert (Hsh : task_shard <$> <[i := t1]> ts = task_shard <$> ts).
  { rewrite list_fmap_insert, Hts. apply list_insert_id. by rewrite list_lookup_fmap, Ei. }
  assert (Hfr : (fun t => frag t) <$> <[i := t1]> ts = (fun t => frag t) <$> ts).
  { rewrite (list_fmap_compose task_shard fragment), Hsh. by rewrite <- list_fmap_compose. }
  destruct (IH w1 (<[i := t1]> ts) w' ts' Hok ltac:(by rewrite Hfr) Hrun) as (H1 & H2 & H3).
  split; [by rewrite H1|split].
  - intros j u Hj Hu. destruct (decide (i = j)) as [<-|Hne].
    + assert (u = t) as -> by congruence. apply (H2 i t1); [|by apply Hinv].
      apply list_lookup_insert_eq. by eapply lookup_lt_Some.
    + apply (H2 j u); [by rewrite list_lookup_insert_ne|]. eapply moves_task_inv; [exact Hm| |done].
      intros E. apply Hne. eapply (NoDup_lookup _ i j (frag t) Hnd); [by rewrite list_lookup_fmap, Ei|].
      rewrite list_lookup_fmap, Hj. cbn. by rewrite E.
  - intros f loc Hf Hk. apply H3; [by rewrite Hfr|]. eapply moves_kept_at; [exact Hm| |done].
    intros ->. apply Hf. apply list_elem_of_fmap. exists t. split; [done|]. by eapply list_elem_of_lookup_2.
Qed.

Lemma distribution_kept schedule w ts w' ts' :
  (forall f l, set_location_ok f l = true) ->
  NoDup ((fun t => frag t) <$> ts) -> Forall (fun t => exists s p, t = Start s p) ts ->
  run_tasks me set_location_ok peers schedule (w, ts) = (w', ts') ->
  forall f, kept_at dir w f "local" ->
    kept dir w' f /\ (f ∉ (fun t => frag t) <$> ts -> kept_at dir w' f "local").
Proof.
  intros Hok Hnd Hst Hrun f Hf. destruct (run_keeps _ _ _ _ _ Hok Hnd Hrun) as (Hsh & Ht & Ho).
  split; [|intros Hn; by apply Ho].
  destruct (decide (f ∈ (fun t => frag t) <$> ts)) as [Hin|Hn]; [|by exists "local"; apply Ho].
  apply list_elem_of_fmap in Hin as (t & -> & Hin). apply list_elem_of_lookup in Hin as (i & Hi).
  destruct (Forall_lookup_1 _ _ _ _ Hst Hi) as (s & p & ->). cbn in Hf.
  destruct (Ht i _ Hi Hf) as (t' & Hi' & Hinv). apply task_inv_kept in Hinv.
  assert (E : (task_shard <$> ts') !! i = Some s) by (by rewrite Hsh, list_lookup_fmap, Hi).
  rewrite list_lookup_fmap, Hi' in E. cbn in E. assert (task_shard t' = s) as E' by congruence.
  by rewrite E' in Hinv.
Qed.


(** ** The tasks end *)

Definition task_left (t : Task) : nat :=
  match t with
  | Start _ _ => 7 | Offering _ _ off _ => 3 - off + 3 | Stored _ _ => 2 | Recorded _ _ => 1 | Finished _ => 0
  end.

Lemma step_left t w : (task_left (step t w).2 <= pred (task_left t))%nat.
Proof.
  destruct t as [s p|s p off data|s pid|s pid|s]; cbn [dist_step]; unfold mbind, act_bind, mret, act_ret, get.
  - destruct (read_local _ _); cbn; lia.
  - destruct (Nat.ltb_spec off (length peers `min` 3)); cbn; [|lia].
    destruct (peers !! _) as [[pid a]|]; cbn; [|lia].
    destruct (signed_request_to a _ w) as [w' r]. destruct (is_ack r); cbn; lia.
  - destruct (set_location set_location_ok (fragment s) pid w). cbn. lia.
  - destruct (delete_local (fragment s) w). cbn. lia.
  - cbn. lia.
Qed.

(** C38. The tasks end: however the turns are interleaved and whatever the peers answer, a
    task that has had seven turns is finished - one read, at most three offers and one
    failed check, or an offer, the location and the deletion. *)
Theorem distribution_ends schedule w ts i :
  (7 <= length (filter (fun j => j = i) schedule))%nat ->
  match (run_tasks me set_location_ok peers schedule (w, ts)).2 !! i with
  | Some t => exists s, t = Finished s
  | None => ts !! i = None
  end.
Proof.
  intros Hs. enough (Hg : forall w ts, match ts !! i with
    | Some t => exists t', (run_tasks me set_location_ok peers schedule (w, ts)).2 !! i = Some t' /\
        (task_left t' <= task_left t - length (filter (fun j => j = i) schedule))%nat
    | None => (run_tasks me set_location_ok peers schedule (w, ts)).2 !! i = None end).
  { specialize (Hg w ts). destruct (ts !! i) as [t|]; [|by rewrite Hg].
    destruct Hg as (t' & -> & Hle). destruct t'; cbn in Hle; try (destruct t; cbn in Hle; lia). by eexists. }
  clear. induction schedule as [|j schedule IH]; intros w ts.
  { cbn. destruct (ts !! i) as [t|]; [|done]. exists t. split; [done|lia]. }
  cbn [run_tasks foldl]. unfold turn at 2 4. cbn [fst snd]. rewrite filter_cons.
  destruct (ts !! j) as [t|] eqn:Ej.
  2: { specialize (IH w ts). unfold run_tasks in IH. destruct (ts !! i) as [u|] eqn:Ei; [|done].
       rewrite decide_False by congruence. done. }
  pose proof (step_left t w) as Hl. destruct (step t w) as [w1 t1]. cbn [snd] in Hl.
  specialize (IH w1 (<[j := t1]> ts)). unfold run_tasks in IH. case_decide as E.
  - subst j. rewrite Ej. rewrite list_lookup_insert_eq in IH by (by eapply lookup_lt_Some).
    destruct IH as (t' & Ht' & Hle). exists t'. split; [done|]. cbn [length]. lia.
  - by rewrite list_lookup_insert_ne in IH by done.
Qed.
End Tasks.
