(* ===== verification/Survival.v ===== *)
(** * From a push to a download through failing peers

    The passes of the server composed: a pushed file, spread over the peers by the tasks of
    [distribute_shards] (stopped anywhere), then read over the network while some of its
    holders are gone. *)

From Stdlib Require Import Floats.
From Stdlib Require Import ZArith Lia Strings.Ascii Strings.String Strings.Byte.
From stdpp Require Import base numbers list gmap strings sorting.
From S2P Require Import Prelude External Erasure Crypto Pipeline Paths Manifest ManifestInv ChunkStore.
From S2P Require Import Service ServiceProofs ServiceSpec Protocol ReadPath Dht Placement Fleet Distribute DistributeProofs.

(** ** Moving rows keeps what they record *)

Section Sort.
Context {A : Type} (R : A -> A -> Prop) `{!forall x y, Decision (R x y)} (g : A -> A).
Hypothesis g_order : forall x y, R (g x) (g y) <-> R x y.

Lemma list_merge_fmap l1 : forall l2, list_merge R (g <$> l1) (g <$> l2) = g <$> list_merge R l1 l2.
Proof.
  induction l1 as [|x l1 IH1]; intros l2; [by destruct l2|].
  induction l2 as [|y l2 IH2]; [done|]. rewrite !fmap_cons.
  rewrite !list_merge_cons. rewrite <- !fmap_cons.
  destruct (decide (R x y)) as [Hr|Hr].
  - rewrite decide_True by by apply g_order. rewrite IH1. done.
  - rewrite decide_False by by rewrite g_order. rewrite IH2. done.
Qed.

Lemma merge_stack_fmap (st : list (option (list A))) : forall l,
  merge_list_to_stack R (fmap (M:=option) (fmap (M:=list) g) <$> st) (g <$> l) =
  fmap (M:=option) (fmap (M:=list) g) <$> merge_list_to_stack R st l.
Proof.
  induction st as [|[l'|] st IH]; intros l; cbn; [done| |done].
  rewrite list_merge_fmap. f_equal. exact (IH _).
Qed.

Lemma merge_of_stack_fmap (st : list (option (list A))) :
  merge_stack R (fmap (M:=option) (fmap (M:=list) g) <$> st) = g <$> merge_stack R st.
Proof. induction st as [|[l'|] st IH]; cbn; [done| |exact IH]. by rewrite <- list_merge_fmap, <- IH. Qed.

Lemma merge_sort_fmap l : merge_sort R (g <$> l) = g <$> merge_sort R l.
Proof.
  unfold merge_sort. change (@nil (option (list A))) with (fmap (M:=option) (fmap (M:=list) g) <$> @nil (option (list A))) at 1.
  generalize (@nil (option (list A))) as st. induction l as [|x l IH]; intros st; cbn.
  - apply merge_of_stack_fmap.
  - rewrite <- IH. f_equal. exact (merge_stack_fmap st [x]).
Qed.
End Sort.

Lemma Forall2_chain {A B C} (P : A -> B -> Prop) (Q : B -> C -> Prop) (R : A -> C -> Prop) l k m :
  (forall x y z, P x y -> Q y z -> R x z) -> Forall2 P l k -> Forall2 Q k m -> Forall2 R l m.
Proof.
  intros Hc Hp. revert m. induction Hp as [|x y l k Hxy Hlk IH]; intros m Hq; inversion Hq; subst; constructor; eauto.
Qed.

(** A row moved to [loc] when it is the row of [f]. *)
Definition relocate (f loc : string) (s : ShardRow) : ShardRow :=
  if same (fragment s) f then mkShard (fragment s) (shard_chunk s) (shard_index s) loc (hash s) else s.

Lemma relocate_rest f loc s :
  fragment (relocate f loc s) = fragment s /\ shard_chunk (relocate f loc s) = shard_chunk s /\
  shard_index (relocate f loc s) = shard_index s /\ hash (relocate f loc s) = hash s.
Proof. unfold relocate. by destruct (same (fragment s) f). Qed.

Lemma get_shards_relocate db f loc cid :
  get_shards (set_shard_location db f loc) cid = relocate f loc <$> get_shards db cid.
Proof.
  unfold get_shards, set_shard_location. cbn [shard_rows].
  change (fun s => if same (fragment s) f then _ else s) with (relocate f loc).
  rewrite <- merge_sort_fmap.
  - f_equal. induction (shard_rows db) as [|s l IH]; [done|]. rewrite fmap_cons, !filter_cons.
    destruct (relocate_rest f loc s) as (_ & -> & _). case_decide; [rewrite fmap_cons; by f_equal|done].
  - intros x y. unfold by_shard_index. by rewrite !(proj1 (proj2 (proj2 (relocate_rest f loc _)))).
Qed.

(** Two databases with the same files and chunks, and the same shard rows up to their place. *)
Definition same_shards (db db' : Db) : Prop :=
  (forall u i, get_file db' u i = get_file db u i) /\ (forall i, get_chunks db' i = get_chunks db i) /\
  (forall cid, Forall2 (fun s s' => fragment s' = fragment s /\ shard_index s' = shard_index s /\ hash s' = hash s)
                 (get_shards db cid) (get_shards db' cid)).

Lemma same_shards_refl db : same_shards db db.
Proof. split; [done|split; [done|]]. intros cid. by apply Forall_Forall2_diag, Forall_forall. Qed.

Lemma same_shards_relocate db0 db f loc : same_shards db0 db -> same_shards db0 (set_shard_location db f loc).
Proof.
  intros (H1 & H2 & H3). split; [done|split; [done|]]. intros cid. rewrite get_shards_relocate.
  specialize (H3 cid). revert H3. generalize (get_shards db cid) as l'. generalize (get_shards db0 cid) as l.
  intros l l' H3. induction H3 as [|s s' l l' Hs Hl IH]; cbn; constructor; [|done].
  destruct (relocate_rest f loc s') as (-> & _ & -> & ->). done.
Qed.

Lemma same_shards_stored `{CryptoPrims} `{Zstd} `{ReedSolomon} key db db' u i data :
  same_shards db db' -> file_stored key db u i data -> file_stored key db' u i data.
Proof.
  intros (H1' & H2' & H3') (f & fc & pieces & Hf & Hpk & Hfc & Hj & Hch). exists f, fc, pieces.
  rewrite H1', H2'. split; [done|split; [done|split; [done|split; [done|]]]].
  eapply Forall2_impl; [exact Hch|]. intros c piece (cipher & all & buf & He & Hl & Ho & Hr & Hrows).
  exists cipher, all, buf. split; [done|split; [done|split; [done|split; [done|]]]].
  eapply Forall2_chain; [|exact Hrows|exact (H3' (chunk_id_of c))].
  cbn. intros [j b] s s' (E1 & E2 & E3) (F1 & F2 & F3). cbn in *. split; [congruence|split; congruence].
Qed.

Section Run.
Context {CP : CryptoPrims} {N : Type} {PN : PeerNet N}.
Variables (me : string) (set_location_ok : string -> string -> bool) (peers : list (string * string)).

Lemma step_same_shards db0 t (w : World N) :
  same_shards db0 (w_db w) -> same_shards db0 (w_db (dist_step me set_location_ok peers t w).1).
Proof.
  intros Hs. destruct t as [s p|s p off data|s pid|s pid|s]; cbn [dist_step]; unfold mbind, act_bind, mret, act_ret, get.
  - by destruct (read_local _ _).
  - destruct (off <? _)%nat; [|done]. destruct (peers !! _) as [[pid a]|]; [|done].
    destruct (store_rest me (fragment s) a (shard_index s) data w) as [E _].
    destruct (signed_request_to a _ w) as [w' r]. cbn in *. by rewrite E.
  - unfold set_location. destruct (set_location_ok _ _); cbn; [by apply same_shards_relocate|done].
  - destruct (delete_local_rest (fragment s) w) as [E _]. destruct (delete_local (fragment s) w). cbn in *. by rewrite E.
  - done.
Qed.

Lemma run_same_shards db0 schedule : forall (w : World N) ts,
  same_shards db0 (w_db w) -> same_shards db0 (w_db (run_tasks me set_location_ok peers schedule (w, ts)).1).
Proof.
  induction schedule as [|i schedule IH]; intros w ts Hs; [done|]. cbn [run_tasks foldl]. unfold turn at 2. cbn [fst snd].
  destruct (ts !! i) as [t|]; [|by apply IH]. pose proof (step_same_shards db0 t w Hs) as Hs'.
  destruct (dist_step me set_location_ok peers t w) as [w1 t1]. by apply IH.
Qed.

(** The tasks leave a stored file stored. *)
Lemma run_keeps_stored `{Zstd} `{ReedSolomon} key schedule db st (n : N) ts w ts' u i data :
  run_tasks me set_location_ok peers schedule (mkWorld db st n, ts) = (w, ts') ->
  file_stored key db u i data -> file_stored key (w_db w) u i data.
Proof.
  intros Hrun. pose proof (run_same_shards db schedule (mkWorld db st n) ts (same_shards_refl db)) as Hsame.
  rewrite Hrun in Hsame. by apply same_shards_stored.
Qed.
End Run.

(** ** The shards of a plan are distinct *)

Lemma shards_in_db db c s : s ∈ get_shards db c -> s ∈ shard_rows db.
Proof. by intros [? _]%elem_of_get_shards. Qed.

Lemma sublist_fmap {A B} (f : A -> B) l k : l `sublist_of` k -> f <$> l `sublist_of` f <$> k.
Proof. induction 1; cbn; by constructor. Qed.

Lemma shard_unique db s s' : db_inv db -> s ∈ shard_rows db -> s' ∈ shard_rows db -> fragment s = fragment s' -> s = s'.
Proof.
  intros Hinv Hs Hs' E. apply list_elem_of_lookup in Hs as (a & Ha), Hs' as (b & Hb).
  assert (a = b) as ->; [|congruence].
  eapply NoDup_lookup; [apply (inv_shards _ Hinv)| |]; rewrite list_lookup_fmap; [by rewrite Ha|by rewrite Hb; cbn; rewrite E].
Qed.

Lemma get_shards_nodup db cid : db_inv db -> NoDup (fragment <$> get_shards db cid).
Proof.
  intros Hinv. unfold get_shards. rewrite merge_sort_Permutation.
  eapply sublist_NoDup; [apply (inv_shards _ Hinv)|]. apply sublist_fmap, sublist_filter.
Qed.

Lemma get_chunks_nodup db i : db_inv db -> NoDup (chunk_id_of <$> get_chunks db i).
Proof.
  intros Hinv. unfold get_chunks. rewrite merge_sort_Permutation.
  eapply sublist_NoDup; [apply (inv_chunks _ Hinv)|]. apply sublist_fmap, sublist_filter.
Qed.

Lemma plan_nodup db cs :
  db_inv db -> NoDup (chunk_id_of <$> cs) ->
  NoDup (fragment <$> mjoin ((fun c => get_shards db (chunk_id_of c)) <$> cs)).
Proof.
  intros Hinv. induction cs as [|c cs IH]; cbn; intros Hnd; [constructor|].
  apply NoDup_cons in Hnd as [Hc Hnd]. rewrite fmap_app. apply NoDup_app.
  split; [by apply get_shards_nodup|split; [|by apply IH]].
  intros f Hf Hf'. apply list_elem_of_fmap in Hf as (s & -> & Hs), Hf' as (s' & E & Hs').
  apply list_elem_of_join in Hs' as (l & Hs' & Hl). apply list_elem_of_fmap in Hl as (c' & -> & Hc').
  apply elem_of_get_shards in Hs as [Hs1 Hs2], Hs' as [Hs1' Hs2'].
  assert (s = s') as <- by by apply (shard_unique db).
  apply Hc. rewrite <- Hs2, Hs2'. by apply list_elem_of_fmap_2.
Qed.

Lemma placements_sublist layout (plan : list (ChunkRow * list ShardRow)) :
  (placements layout plan).*1 `sublist_of` mjoin (snd <$> plan).
Proof.
  unfold placements. induction plan as [|[c shards] plan IH]; [done|]. rewrite !fmap_cons, !mjoin_cons, fmap_app.
  apply sublist_app; [|exact IH]. cbn [snd]. clear. induction shards as [|s shards IH]; [done|]. cbn.
  destruct (mjoin _); cbn; [by apply sublist_skip|by apply sublist_cons].
Qed.

Section Survival.
Context {CP : CryptoPrims} {CL : CryptoLaws} {ZS : Zstd} {ZL : ZstdLaws} {L2 : Log2}.
Context {RS : ReedSolomon} {RL : ReedSolomonLaws} {N : Type} {PN : PeerNet N} {HN : HonestNet N} {IT : IpText}.
Variable data_key : bytes.

(** The addresses of a list of peer rows, by identity. *)
Definition directory (rows : list PeerRow) : gmap string string := list_to_map ((fun p => (peer_id p, addr p)) <$> rows).

Lemma vet_sub allow geo rows kept : vet allow geo rows = Some kept -> forall p, p ∈ kept -> p ∈ rows.
Proof.
  revert kept. induction rows as [|p rows IH]; intros kept; cbn [vet]; [by intros [= <-] q ?%elem_of_nil|].
  intros (c & _ & (k & Hk & [= <-])%bind_Some)%bind_Some q Hq.
  destruct (jurisdiction_allowed allow c); [apply elem_of_cons in Hq as [->|Hq]; [by left|]|]; right; by eapply IH.
Qed.

Lemma live_sub rtt rows l : l ∈ live_peers rtt rows -> l.1 ∈ rows.
Proof.
  unfold live_peers, probe. rewrite merge_sort_Permutation. intros (p & Hp & E)%list_elem_of_omap.
  destruct (rtt (addr p)); [|done]. cbn in E. injection E as <-. done.
Qed.

(** The peers and the tasks of a distribution, over the rows it read. *)
Lemma distribution_shape parse_sock me rows ia sa geo rtt db user id peers ts :
  NoDup (peer_id <$> rows) -> "local" ∉ peer_id <$> rows -> db_inv db ->
  distribution parse_sock me rows ia sa geo rtt db user id = (peers, ts) ->
  Forall (fun p => p.1 <> "local" /\ directory rows !! p.1 = Some p.2) peers /\
  NoDup ((fun t => fragment (task_shard t)) <$> ts) /\ Forall (fun t => exists s p, t = Start s p) ts.
Proof.
  intros Hnd Hloc Hinv. unfold distribution.
  destruct (vetted _ _ _) as [kept|] eqn:Ev; [|intros [= <- <-]; split; [constructor|split; [constructor|done]]].
  case_bool_decide; [intros [= <- <-]; split; [constructor|split; [constructor|done]]|].
  unfold pull_plan. destruct (get_file db user id) as [f|]; cbn [ok_or mbind res_bind];
    [|intros [= <- <-]; split; [constructor|split; [constructor|done]]].
  intros [= <- <-]. split; [|split].
  - apply Forall_fmap, Forall_forall. intros l Hl%live_sub. cbn [compose fst snd].
    assert (Hin : l.1 ∈ rows).
    { unfold vetted in Ev. case_bool_decide; [injection Ev as <-|apply (vet_sub _ _ _ _ Ev) in Hl];
        by apply list_elem_of_filter in Hl as [_ Hl]. }
    split; [intros E; apply Hloc; rewrite <- E; by apply list_elem_of_fmap_2|].
    unfold directory. apply elem_of_list_to_map_1; [by rewrite <- list_fmap_compose|].
    apply list_elem_of_fmap. by exists l.1.
  - match goal with |- NoDup (_ <$> (_ <$> ?ps)) =>
      assert (E : (fun t => fragment (task_shard t)) <$> ((fun p => Start p.1 p.2) <$> ps) = fragment <$> ps.*1)
        by (by rewrite <- !list_fmap_compose); rewrite E end.
    eapply sublist_NoDup; [|apply sublist_fmap, placements_sublist].
    rewrite <- list_fmap_compose. apply (plan_nodup db (get_chunks db id) Hinv). by apply get_chunks_nodup.
  - apply Forall_fmap, Forall_forall. intros p _. by eexists _, _.
Qed.

(** The holder of a row still answers: this node, or a peer at its recorded address. *)
Definition holder_up (rows : list PeerRow) (up : string -> bool) (readers : gmap string string) (s : ShardRow) : Prop :=
  location s = "local" \/ exists a, directory rows !! location s = Some a /\ readers !! location s = Some a /\ up a = true.
#[export] Instance holder_up_dec rows up readers s : Decision (holder_up rows up readers s).
Proof.
  destruct (decide (location s = "local")); [left; by left|].
  destruct (directory rows !! location s) as [a|] eqn:E; [|right; intros [?|(a & ? & _)]; congruence].
  destruct (decide (readers !! location s = Some a /\ up a = true)) as [[? ?]|Hn]; [left; right; by exists a|right].
  intros [?|(b & ? & ? & ?)]; [done|]. apply Hn. split; congruence.
Defined.

Lemma filter_le {A} (P Q : A -> Prop) `{!forall x, Decision (P x)} `{!forall x, Decision (Q x)} (l : list A) :
  (forall x, x ∈ l -> P x -> Q x) -> (length (filter P l) <= length (filter Q l))%nat.
Proof.
  induction l as [|x l IH]; intros Hpq; [done|]. specialize (IH (fun y Hy => Hpq y ltac:(by right))).
  rewrite !filter_cons. destruct (decide (P x)) as [Hx|]; [rewrite decide_True by (apply Hpq; [by left|done]); cbn; lia|].
  case_decide; cbn; lia.
Qed.

(** A shard that is kept, by a holder that answers, can be had. *)
Lemma kept_obtainable rows up readers answer (w : World N) s :
  (forall a f b, up a = true -> held (w_net w) a f = Some b -> answer a (GetShard f) = Some (ShardData f b)) ->
  s ∈ shard_rows (w_db w) -> kept (directory rows) w (fragment s) -> holder_up rows up readers s ->
  obtainable answer readers (w_store w) s.
Proof.
  intros Hans Hs (loc & Hl & b & Hr & Hb) Hup. rewrite <- (Hl s Hs eq_refl) in Hb. specialize (Hr s Hs eq_refl).
  assert (Hv : verify_hash b (hash s) = true).
  { unfold verify_hash. rewrite Hr. unfold same. rewrite (bool_decide_eq_true_2 (_ = shard_hash b)) by done. apply orb_true_r. }
  unfold obtainable, fetch_shard_for_read. unfold shard_at in Hb.
  destruct (same (location s) "local") eqn:El.
  - unfold read_local_verified. unfold read_local in Hb. destruct (read (w_store w) (fragment s)) as [v| |]; [|done..].
    cbn in Hb. injection Hb as ->. rewrite Hv. by eexists.
  - destruct Hup as [E|(a & Ha & Hra & Hu)]; [rewrite E in El; done|]. rewrite Hra. rewrite Ha in Hb. cbn in Hb.
    rewrite (Hans a (fragment s) b Hu Hb), Hv. by eexists.
Qed.

End Survival.
