(* ===== verification/Repair.v ===== *)
(** * The self-healing pass ([crates/server/src/repair.rs])

    Peer health, the rotating scrub sample, the classification of the shards of a chunk, the
    decision what to re-replicate, the bounded priority buffer, and the repair of one chunk:
    regenerate from ten verified survivors, place, record. The probes of the peers are an
    argument; the messages to them go through [PeerNet]. [repair_all] is the whole pass but
    for the log of events and the node's own public address, which is in [Wiring.v]. *)

From Stdlib Require Import Floats.
From Stdlib Require Import ZArith Lia Strings.Ascii Strings.String Strings.Byte.
From stdpp Require Import base numbers list gmap strings sorting.
From S2P Require Import Prelude External Erasure Crypto Pipeline Paths Manifest ManifestInv ChunkStore.
From S2P Require Import Service ServiceProofs Protocol Placement Fleet Distribute.

Definition CRITICAL_MARGIN : nat := 2.
Definition SCRUB_CYCLE_SECS : Z := 7 * 24 * 60 * 60.
Definition MAX_PENDING_REPAIRS : nat := 4096.
Definition LOCAL_RELIABILITY : float := 100%float.

(** ** Peer health *)

Record PeerHealth := mkHealth {
  h_reliability : float;
  h_rtt : option float;
  h_failures : Z;
  h_status : string
}.

(** SQL [LEAST(100.0, x)] and [GREATEST(0.0, x)]. *)
Definition least_100 (x : float) : float := if (x <? 100)%float then x else 100%float.
Definition greatest_0 (x : float) : float := if (0 <? x)%float then x else 0%float.

(** The row after a probe, and whether the peer just went down. *)
Definition record_peer_health (threshold : Z) (h : PeerHealth) (rtt : option float) : PeerHealth * bool :=
  match rtt with
  | Some r =>
      (mkHealth (least_100 (h_reliability h * 0x1.999999999999ap-1 + 20))
                (Some match h_rtt h with
                      | None => r
                      | Some x => x * 0x1.6666666666666p-1 + r * 0x1.3333333333333p-2
                      end)
                0 "active", false)%float
  | None =>
      let failures := h_failures h + 1 in
      let after := if threshold <=? failures then "down" else h_status h in
      (mkHealth (greatest_0 (h_reliability h * 0x1.999999999999ap-1)) (h_rtt h) failures after,
       negb (same (h_status h) "down") && same after "down")
  end.

(** ** The scrub sample *)

Definition fnv1a (b : bytes) : Z :=
  foldl (fun h c => wrap64 (Z.lxor h (b2z c) * 0x100000001b3)) 0xcbf29ce484222325 b.

Record ScrubPlan := mkScrub { bucket : Z; buckets : Z }.
Definition ScrubPlan_new (now_secs interval_secs : Z) : ScrubPlan :=
  let interval := Z.max interval_secs 1 in
  let buckets := Z.max (SCRUB_CYCLE_SECS / interval) 1 in
  mkScrub ((now_secs / interval) mod buckets) buckets.
Definition due (p : ScrubPlan) (fragment_id : string) : bool :=
  fnv1a (as_bytes fragment_id) mod buckets p =? bucket p.

(** ** The report *)

Record RepairReport := mkRep {
  files_scanned : Z;
  chunks_scanned : Z;
  chunks_healthy : Z;
  chunks_repaired : Z;
  shards_replaced : Z;
  chunks_unrepairable : Z;
  peers_total : Z;
  peers_reachable : Z;
  shards_scrubbed : Z;
  shards_corrupt : Z;
  shards_in_grace : Z;
  chunks_deferred : Z
}.
(** Counters only grow: a report is the sum of what each step counted. *)
Definition rep_add (a b : RepairReport) : RepairReport :=
  mkRep (files_scanned a + files_scanned b) (chunks_scanned a + chunks_scanned b)
        (chunks_healthy a + chunks_healthy b) (chunks_repaired a + chunks_repaired b)
        (shards_replaced a + shards_replaced b) (chunks_unrepairable a + chunks_unrepairable b)
        (peers_total a + peers_total b) (peers_reachable a + peers_reachable b)
        (shards_scrubbed a + shards_scrubbed b) (shards_corrupt a + shards_corrupt b)
        (shards_in_grace a + shards_in_grace b) (chunks_deferred a + chunks_deferred b).
Definition rep0 : RepairReport := mkRep 0 0 0 0 0 0 0 0 0 0 0 0.
Definition one_file : RepairReport := mkRep 1 0 0 0 0 0 0 0 0 0 0 0.
Definition one_chunk : RepairReport := mkRep 0 1 0 0 0 0 0 0 0 0 0 0.
Definition one_healthy : RepairReport := mkRep 0 0 1 0 0 0 0 0 0 0 0 0.
Definition one_repaired : RepairReport := mkRep 0 0 0 1 0 0 0 0 0 0 0 0.
Definition one_replaced : RepairReport := mkRep 0 0 0 0 1 0 0 0 0 0 0 0.
Definition one_unrepairable : RepairReport := mkRep 0 0 0 0 0 1 0 0 0 0 0 0.
Definition peers_seen (total reachable : Z) : RepairReport := mkRep 0 0 0 0 0 0 total reachable 0 0 0 0.
Definition one_scrubbed : RepairReport := mkRep 0 0 0 0 0 0 0 0 1 0 0 0.
Definition one_corrupt : RepairReport := mkRep 0 0 0 0 0 0 0 0 0 1 0 0.
Definition in_grace (n : nat) : RepairReport := mkRep 0 0 0 0 0 0 0 0 0 0 (Z.of_nat n) 0.
Definition one_deferred : RepairReport := mkRep 0 0 0 0 0 0 0 0 0 0 0 1.

(** ** The decision for one chunk *)

Record PeerView := mkView {
  reachable : gmap string string;
  down : gset string;
  known : gset string;
  reliability_of : gmap string float
}.

Inductive ShardState := Live | Grace | Lost.
#[export] Instance ShardState_eq_dec : EqDecision ShardState.
Proof. solve_decision. Defined.

Record ChunkPlan := mkChunkPlan { live : nat; deferred : nat; missing : list nat }.

Definition is_state (x : ShardState) (s : option ShardState) : Prop := s = Some x.
#[export] Instance is_state_dec x s : Decision (is_state x s).
Proof. unfold is_state. apply _. Defined.

Definition plan_chunk (states : list (option ShardState)) : ChunkPlan :=
  let live := length (filter (is_state Live) states) in
  let critical := (live <? DATA_SHARDS + CRITICAL_MARGIN)%nat in
  let missing := omap (fun is_ : nat * option ShardState =>
                         match is_.2 with
                         | Some Lost => Some is_.1
                         | Some Grace => if critical then Some is_.1 else None
                         | _ => None
                         end) (imap pair states) in
  mkChunkPlan live (if critical then 0 else length (filter (is_state Grace) states)) missing.

Record Degraded := mkDegraded {
  d_chunk : ChunkRow;
  d_shard_at : list (option ShardRow);
  d_states : list (option ShardState);
  d_missing : list nat;
  d_margin : nat
}.

(** The buffer, least margin first: [peek] and [pop] take its end. *)
Definition by_margin (a b : Degraded) : Prop := (d_margin a <= d_margin b)%nat.
#[export] Instance by_margin_dec a b : Decision (by_margin a b).
Proof. unfold by_margin. apply _. Defined.
Definition heap_push (pending : list Degraded) (d : Degraded) : list Degraded := list_merge by_margin pending [d].

Definition push_pending (pending : list Degraded) (d : Degraded) (rep : RepairReport) : list Degraded * RepairReport :=
  if (length pending <? MAX_PENDING_REPAIRS)%nat then (heap_push pending d, rep)
  else
    (match last pending with
     | Some worst =>
         if (d_margin d <? d_margin worst)%nat then heap_push (take (length pending - 1) pending) d else pending
     | None => pending
     end, rep_add rep one_deferred).

(** Slot [shard_index] of the fourteen takes the row; an index outside is skipped. *)
Definition index_rows (shards : list ShardRow) : list (option ShardRow) :=
  foldl (fun at_ s => let i := as_u64 (shard_index s) in
                      if i <? Z.of_nat TOTAL_SHARDS then <[Z.to_nat i := Some s]> at_ else at_)
        (replicate TOTAL_SHARDS None) shards.

(** ** Where a rebuilt shard goes *)

(** [f64::total_cmp], a NaN above everything. *)
Definition total_le (a b : float) : bool :=
  if PrimFloat.is_nan b then true
  else if PrimFloat.is_nan a then false
  else if (a =? b)%float then (PrimFloat.get_sign a || negb (PrimFloat.get_sign b)) else (a <? b)%float.

(** The ranking of [choose_target]: [a] is no worse than [b]. *)
Definition no_worse (loc_count : gmap string nat) (reliability : gmap string float) (a b : string) : bool :=
  let n c := default 0%nat (loc_count !! c) in
  let r c := if same c "local" then LOCAL_RELIABILITY else default 0%float (reliability !! c) in
  let capped c := (PARITY_SHARDS <=? n c)%nat in
  if negb (Bool.eqb (capped a) (capped b)) then negb (capped a)
  else if negb (n a =? n b)%nat then (n a <? n b)%nat
  else if negb (total_le (r a) (r b) && total_le (r b) (r a)) then total_le (r b) (r a)
  else String.leb a b.

Definition choose_target (loc_count : gmap string nat) (reachable : gmap string string)
    (reliability : gmap string float) : string :=
  foldl (fun best c => if no_worse loc_count reliability best c then best else c)
        "local" (map_to_list reachable).*1.

(** ** The pass *)

Section Repair.
Context `{CryptoPrims} `{ReedSolomon} {N : Type} `{PN : !PeerNet N}.
Variable me : string.
Variable set_location_ok : string -> string -> bool.
Variable view : PeerView.
Variable scrub : ScrubPlan.

Definition classify_shard (s : ShardRow) (rep : RepairReport) : act N (ShardState * RepairReport) :=
  if same (location s) "local" then
    if due scrub (fragment s) then
      let rep := rep_add rep one_scrubbed in
      ok ← get (fun w : World N => negb (is_none (read_local_verified (w_store w) (fragment s) (hash s))));
      if (ok : bool) then mret (Live, rep)
      else
        here ← get (fun w : World N => exists_ (w_store w) (fragment s));
        mret (Lost, if (here : bool) then rep_add rep one_corrupt else rep)
    else
      here ← get (fun w : World N => exists_ (w_store w) (fragment s));
      mret (if (here : bool) then Live else Lost, rep)
  else
    match reachable view !! location s with
    | Some a =>
        r ← request_to a (AuditShard (fragment s));
        mret (match r with
              | Ok (AuditResult _ h) =>
                  if negb (same h "") && (same (hash s) "" || same h (hash s)) then Live else Lost
              | _ => Lost
              end, rep)
    | None =>
        mret (if bool_decide (location s ∈ down view) || negb (bool_decide (location s ∈ known view))
              then Lost else Grace, rep)
    end.

Fixpoint classify_all (rows : list (option ShardRow)) (rep : RepairReport)
    : act N (list (option ShardState) * RepairReport) :=
  match rows with
  | [] => mret ([], rep)
  | None :: rows => x ← classify_all rows rep; mret (None :: x.1, x.2)
  | Some s :: rows =>
      y ← classify_shard s rep;
      x ← classify_all rows y.2;
      mret (Some y.1 :: x.1, x.2)
  end.

Definition assess_chunk (chunk : ChunkRow) (shards : list ShardRow) (rep : RepairReport)
    : act N (option Degraded * RepairReport) :=
  let shard_at := index_rows shards in
  x ← classify_all shard_at rep;
  let '(states, rep) := x : list (option ShardState) * RepairReport in
  let plan := plan_chunk states in
  let rep := rep_add rep (in_grace (deferred plan)) in
  mret (if bool_decide (missing plan = []) then (None, rep_add rep one_healthy)
        else if (live plan <? DATA_SHARDS)%nat then (None, rep_add rep one_unrepairable)
        else (Some (mkDegraded chunk shard_at states (missing plan) (live plan - DATA_SHARDS)), rep)).

(** Ten live shards, fetched in slot order. *)
Fixpoint gather_shards (got : nat) (rows : list (option ShardState * option ShardRow))
    : act N (list (option bytes) * nat) :=
  match rows with
  | [] => mret ([], got)
  | (state, row) :: rows =>
      if (DATA_SHARDS <=? got)%nat then x ← gather_shards got rows; mret (None :: x.1, x.2)
      else
        b ← match state, row with
            | Some Live, Some s => fetch_shard (reachable view) s
            | _, _ => mret None
            end;
        x ← gather_shards (match b with Some _ => S got | None => got end) rows;
        mret (b :: x.1, x.2)
  end.

(** Copies that stay, per location. *)
Definition count_locations (d : Degraded) : gmap string nat :=
  foldl (fun m sr => match sr with
                     | (Some Live, Some s) | (Some Grace, Some s) =>
                         <[location s := S (default 0%nat (m !! location s))]> m
                     | _ => m
                     end) ∅ (zip (d_states d) (d_shard_at d)).

Definition frag_at (d : Degraded) (i : nat) : string := default "" (fragment <$> mjoin (d_shard_at d !! i)).

(** One missing shard: chosen, placed, recorded and counted. *)
Definition replace_one (d : Degraded) (all : list bytes) (acc : gmap string nat * RepairReport * bool) (i : nat)
    : act N (gmap string nat * RepairReport * bool) :=
  let '(loc_count, rep, repaired_any) := acc in
  let frag := frag_at d i in
  match all !! i with
  | None => mret acc
  | Some b =>
      let target := choose_target loc_count (reachable view) (reliability_of view) in
      ok ← place_shard me (reachable view) target frag (Z.of_nat i) b;
      if (ok : bool) then
        set_location set_location_ok frag target;;
        mret (<[target := S (default 0%nat (loc_count !! target))]> loc_count, rep_add rep one_replaced, true)
      else mret acc
  end.

Fixpoint act_fold {S X} (f : S -> X -> act N S) (s : S) (xs : list X) : act N S :=
  match xs with [] => mret s | x :: xs => s ← f s x; act_fold f s xs end.

Definition repair_chunk (d : Degraded) (rep : RepairReport) : act N RepairReport :=
  x ← gather_shards 0 (zip (d_states d) (d_shard_at d));
  let '(present, got) := x : list (option bytes) * nat in
  if (got <? DATA_SHARDS)%nat then mret (rep_add rep one_unrepairable)
  else
    match regen_chunk_shards present (as_u64 (cipher_len (d_chunk d))) with
    | Ok all =>
        y ← act_fold (replace_one d all) (count_locations d, rep, false) (d_missing d);
        let '(_, rep, repaired_any) := y : gmap string nat * RepairReport * bool in
        mret (if repaired_any then rep_add rep one_repaired else rep)
    | _ => mret (rep_add rep one_unrepairable)
    end.

Definition assess_one (acc : list Degraded * RepairReport) (c : ChunkRow * list ShardRow)
    : act N (list Degraded * RepairReport) :=
  let '(pending, rep) := acc in
  x ← assess_chunk c.1 c.2 (rep_add rep one_chunk);
  mret match x with
       | (Some d, rep) => push_pending pending d rep
       | (None, rep) => (pending, rep)
       end.

Definition assess_file (acc : list Degraded * RepairReport) (f : FileRow) : act N (list Degraded * RepairReport) :=
  let '(pending, rep) := acc in
  let rep := rep_add rep one_file in
  plan ← get (fun w : World N => pull_plan (w_db w) (r_user_id f) (r_file_id f));
  match plan with
  | Ok (_, chunks) => act_fold assess_one (pending, rep) chunks
  | _ => mret (pending, rep)
  end.

(** Assess every file, then repair, least margin first. *)
Definition sweep (rep : RepairReport) : act N RepairReport :=
  files ← get (fun w : World N => list_all_files (w_db w));
  x ← act_fold assess_file ([], rep) files;
  act_fold (fun rep d => repair_chunk d rep) x.2 x.1.
End Repair.

(** What the probes of the peers tell the pass. [probes]: the answer of each peer, if any;
    [went_down]: the peers whose health row crossed the threshold on this probe. *)
Definition peer_view (rows : list PeerRow) (probes : string -> option float) (went_down : string -> bool) : PeerView :=
  let ids := peer_id <$> rows in
  let answered := filter (fun p => is_Some (probes (peer_id p))) rows in
  mkView (list_to_map ((fun p => (peer_id p, addr p)) <$> answered))
         (list_to_set (peer_id <$> filter (fun p => (status p = "down" \/ went_down (peer_id p) = true) /\
                                                     ~ is_Some (probes (peer_id p))) rows))
         (list_to_set ids)
         (list_to_map ((fun p => (peer_id p, reliability_score p)) <$> rows)).

Definition repair_all `{CryptoPrims} `{ReedSolomon} {N} `{PN : !PeerNet N} (me : string)
    (set_location_ok : string -> string -> bool) (rows : list PeerRow) (probes : string -> option float)
    (went_down : string -> bool) (now_secs interval_secs : Z) : act N RepairReport :=
  let rows := filter (fun p => peer_id p <> me) rows in
  let view := peer_view rows probes went_down in
  sweep me set_location_ok view (ScrubPlan_new now_secs interval_secs)
    (peers_seen (Z.of_nat (length rows)) (Z.of_nat (base.size (reachable view)))).
