(* ===== verification/RepairProofs.v ===== *)
(** * What the repair pass keeps and restores ([repair.rs]) *)

From Stdlib Require Import Floats.
From Stdlib Require Import ZArith Lia Strings.Ascii Strings.String Strings.Byte.
From stdpp Require Import base numbers list gmap strings sorting.
From S2P Require Import Prelude External Erasure Crypto Pipeline Paths Manifest ManifestInv ChunkStore.
From S2P Require Import Service ServiceProofs ServiceSpec Protocol ReadPath Placement Fleet Distribute Survival Repair.

(** ** Rows that record the shards of their chunk *)

(** Every chunk row has fourteen shard rows that record the shards of one sealed buffer. *)
Definition chunk_recorded `{CryptoPrims} `{ReedSolomon} (c : ChunkRow) (shards : list ShardRow) (all : list bytes) : Prop :=
  exists cipher, encode cipher = Ok all /\ as_u64 (cipher_len c) = len cipher /\
    shard_rows_of (chunk_id_of c) all shards.
Definition chunks_recorded `{CryptoPrims} `{ReedSolomon} (db : Db) : Prop :=
  forall c, c ∈ chunk_rows db -> exists all, chunk_recorded c (get_shards db (chunk_id_of c)) all.

Lemma index_rows_all `{CryptoPrims} cid all shards :
  shard_rows_of cid all shards -> length all = TOTAL_SHARDS -> index_rows shards = Some <$> shards.
Proof.
  intros Hr Hl. pose proof (shard_rows_length _ _ _ Hr) as Hsl. rewrite Hl in Hsl.
  enough (Hg : forall k rows pre, length pre = k -> (k + length rows = TOTAL_SHARDS)%nat ->
    (forall j s, rows !! j = Some s -> shard_index s = Z.of_nat (k + j)) ->
    foldl (fun at_ s => let i := as_u64 (shard_index s) in
                        if i <? Z.of_nat TOTAL_SHARDS then <[Z.to_nat i := Some s]> at_ else at_)
          (pre ++ replicate (length rows) None) rows = pre ++ (Some <$> rows)).
  { pose proof (Hg 0%nat shards [] eq_refl Hsl) as E. rewrite Hsl in E. apply E.
    intros j s Hj. by destruct (shard_rows_lookup _ _ _ _ _ Hr Hj) as (b & _ & ? & _). }
  intros k rows. revert k. induction rows as [|s rows IH]; intros k pre Hp Hk Hix; cbn [foldl length replicate fmap list_fmap].
  { by rewrite app_nil_r. }
  pose proof (Hix O s eq_refl) as Hs. rewrite Nat.add_0_r in Hs. cbn [length] in Hk.
  assert (Eu : as_u64 (shard_index s) = Z.of_nat k).
  { rewrite Hs. unfold as_u64. apply Z.mod_small. unfold TOTAL_SHARDS, DATA_SHARDS, PARITY_SHARDS in Hk. lia. }
  cbv zeta. rewrite Eu. destruct (Z.ltb_spec (Z.of_nat k) (Z.of_nat TOTAL_SHARDS)); [|lia].
  rewrite Nat2Z.id.
  replace (<[k := Some s]> (pre ++ None :: replicate (length rows) None))
    with ((pre ++ [Some s]) ++ replicate (length rows) None)
    by (rewrite <- Hp, insert_app_r_alt, Nat.sub_diag, <- app_assoc by lia; done).
  rewrite (IH (S k)); [by rewrite <- app_assoc|rewrite length_app; cbn; lia|lia|].
  intros j s' Hj. rewrite (Hix (S j) s' Hj). f_equal. lia.
Qed.

Section Keeps.
Context {CP : CryptoPrims} {CL : CryptoLaws} {RS : ReedSolomon} {RL : ReedSolomonLaws}.
Context {N : Type} {PN : PeerNet N} {HN : HonestNet N}.
Variable dir : gmap string string.
Variable me : string.
Variable set_location_ok : string -> string -> bool.
Hypothesis set_location_works : forall f l, set_location_ok f l = true.
Variable view : PeerView.
Hypothesis view_dir : forall pid a, reachable view !! pid = Some a -> dir !! pid = Some a.
Variable db0 : Db.
Hypothesis inv0 : db_inv db0.

(** The world still has the rows of [db0], up to their places. *)
Definition aligned (w : World N) : Prop := same_shards db0 (w_db w).

(** Everything that was kept still is. *)
Definition no_loss (w w' : World N) : Prop := forall f, kept dir w f -> kept dir w' f.

Lemma no_loss_refl w : no_loss w w.
Proof. by intros f. Qed.
Lemma no_loss_trans w1 w2 w3 : no_loss w1 w2 -> no_loss w2 w3 -> no_loss w1 w3.
Proof. intros H1 H2 f Hf. by apply H2, H1. Qed.

(** A pass that only asks. *)
Definition quiet (w w' : World N) : Prop :=
  w_db w' = w_db w /\ w_store w' = w_store w /\ forall a f, held (w_net w') a f = held (w_net w) a f.

Lemma quiet_refl w : quiet w w.
Proof. by split; [|split]. Qed.
Lemma quiet_trans w1 w2 w3 : quiet w1 w2 -> quiet w2 w3 -> quiet w1 w3.
Proof. intros (A1 & A2 & A3) (B1 & B2 & B3). split; [congruence|split; [congruence|]]. intros a f. by rewrite B3. Qed.

Lemma quiet_shard_at w w' loc f : quiet w w' -> shard_at dir w' loc f = shard_at dir w loc f.
Proof. intros (_ & Hs & Hh). unfold shard_at. rewrite Hs. destruct (same loc "local"), (dir !! loc); cbn; auto. Qed.

Lemma quiet_no_loss w w' : quiet w w' -> no_loss w w'.
Proof.
  intros Hq f (loc & Hl & b & Hr & Hb). pose proof (quiet_shard_at _ _ loc f Hq) as E. destruct Hq as (Hd & _ & _).
  exists loc. unfold kept_at, located, recorded in *. rewrite Hd, E. eauto.
Qed.

Lemma request_quiet a m (w : World N) : read_only m -> quiet w (request_to a m w).1.
Proof. intros Hro. by destruct (request_moves "" a m w Hro) as (_ & ? & ? & ?). Qed.

Lemma fetch_quiet s (w : World N) :
  quiet w (fetch_shard (reachable view) s w).1 /\
  forall b, (fetch_shard (reachable view) s w).2 = Some b -> verify_hash b (hash s) = true.
Proof.
  assert (Hv : forall (o : option bytes) b, match o with Some b => if verify_hash b (hash s) then Some b else None | None => None end = Some b ->
    verify_hash b (hash s) = true).
  { intros [v|] b; [|done]. destruct (verify_hash v (hash s)) eqn:E; [|done]. by intros [= <-]. }
  unfold fetch_shard, mbind, act_bind, mret, act_ret, get. destruct (same (location s) "local").
  - split; [apply quiet_refl|apply Hv].
  - destruct (reachable view !! location s) as [a|]; [|split; [apply quiet_refl|apply (Hv None)]].
    pose proof (request_quiet a (GetShard (fragment s)) w I) as Hq.
    destruct (request_to a _ w) as [w' r]. cbn [fst snd] in *. split; [exact Hq|apply Hv].
Qed.

(** ** One chunk *)

Lemma aligned_recorded w s0 b :
  aligned w -> s0 ∈ shard_rows db0 -> hash s0 = shard_hash b -> recorded w (fragment s0) b.
Proof.
  intros (_ & _ & Hsh) Hs0 Hh s Hs Hf.
  assert (Hin : s ∈ get_shards (w_db w) (shard_chunk s)) by by apply elem_of_get_shards.
  apply list_elem_of_lookup in Hin as (j & Hj).
  destruct (Forall2_lookup_r _ _ _ _ _ (Hsh (shard_chunk s)) Hj) as (s1 & Hs1 & E1 & _ & E3).
  apply list_elem_of_lookup_2, shards_in_db in Hs1.
  assert (s1 = s0) as -> by (apply (shard_unique db0); [done..|congruence]). congruence.
Qed.

Lemma shard_rows_same cid all l l' :
  shard_rows_of cid all l ->
  Forall2 (fun s s' => fragment s' = fragment s /\ shard_index s' = shard_index s /\ hash s' = hash s) l l' ->
  shard_rows_of cid all l'.
Proof.
  intros H1 H2. eapply Forall2_chain; [|exact H1|exact H2].
  cbn. intros [j b] s s' (E1 & E2 & E3) (F1 & F2 & F3). cbn in *. split; [congruence|split; congruence].
Qed.

(** What the repair of a chunk starts from: its own rows. *)
Definition degraded_ok (d : Degraded) : Prop :=
  d_chunk d ∈ chunk_rows db0 /\ exists all shards,
    chunk_recorded (d_chunk d) shards all /\ d_shard_at d = Some <$> shards /\
    Forall2 (fun s s' => fragment s' = fragment s /\ shard_index s' = shard_index s /\ hash s' = hash s)
      (get_shards db0 (chunk_id_of (d_chunk d))) shards.

Lemma gather_spec rows : forall got w,
  let r := gather_shards view got rows w in
  quiet w r.1 /\ length r.2.1 = length rows /\ r.2.2 = (got + length (omap id r.2.1))%nat /\
  (forall i b, r.2.1 !! i = Some (Some b) -> exists st s, rows !! i = Some (st, Some s) /\ verify_hash b (hash s) = true).
Proof.
  induction rows as [|[state row] rows IH]; intros got w; cbn [gather_shards]; unfold mbind, act_bind, mret, act_ret.
  { split; [apply quiet_refl|split; [done|split; [cbn; lia|done]]]. }
  destruct (DATA_SHARDS <=? got)%nat.
  { specialize (IH got w). cbv zeta in IH. destruct (gather_shards view got rows w) as [w1 [present g]]. cbn [fst snd] in *.
    destruct IH as (H1 & H2 & H3 & H4). split; [done|split; [cbn; by rewrite H2|split; [done|]]].
    intros [|i] b Hi; [done|]. by apply (H4 i). }
  set (m := match state, row with Some Live, Some s => _ | _, _ => _ end).
  assert (Hm : quiet w (m w).1 /\ forall b, (m w).2 = Some b -> exists s, row = Some s /\ verify_hash b (hash s) = true).
  { unfold m. destruct state as [[]|], row as [s|]; try (split; [apply quiet_refl|done]).
    destruct (fetch_quiet s w) as [Hq Hv]. split; [done|]. intros b Hb. exists s. split; [done|by apply Hv]. }
  destruct (m w) as [w1 o]. cbn [fst snd] in Hm. destruct Hm as [Hq Hv].
  specialize (IH (match o with Some _ => S got | None => got end) w1). cbv zeta in IH.
  destruct (gather_shards view _ rows w1) as [w2 [present g]]. cbn [fst snd] in *. destruct IH as (H1 & H2 & H3 & H4).
  split; [by eapply quiet_trans|split; [cbn; by rewrite H2|split]].
  - rewrite H3. destruct o; cbn; lia.
  - intros [|i] b Hi; [|by apply (H4 i)]. injection Hi as ->. destruct (Hv b eq_refl) as (s & -> & ?). by exists state, s.
Qed.

(** The regenerated shards are the recorded ones. *)
Lemma regenerated d all shards got w :
  chunk_recorded (d_chunk d) shards all -> d_shard_at d = Some <$> shards ->
  let r := gather_shards view got (zip (d_states d) (d_shard_at d)) w in
  length (d_states d) = TOTAL_SHARDS -> (DATA_SHARDS <= length (omap id r.2.1))%nat ->
  hash_collision \/ regen_chunk_shards r.2.1 (as_u64 (cipher_len (d_chunk d))) = Ok all.
Proof.
  intros (cipher & Henc & Hlen & Hrows) Hat r Hst Hten.
  pose proof (encode_count _ _ Henc) as Hl. pose proof (shard_rows_length _ _ _ Hrows) as Hsl.
  destruct (gather_spec (zip (d_states d) (d_shard_at d)) got w) as (_ & Hlr & _ & Hslot). fold r in Hlr, Hslot, Hten.
  rewrite length_zip_with, Hat, length_fmap, Hsl, Hl, Hst, Nat.min_id in Hlr.
  destruct (survives_or_collision r.2.1 all) as [?|Hs]; [by rewrite Hlr| |by left|right].
  - intros j b (st & s & Hj & Hv)%Hslot. apply lookup_zip_with_Some in Hj as (? & ? & [= <- <-] & _ & Hj).
    rewrite Hat, list_lookup_fmap in Hj. apply fmap_Some in Hj as (s' & Hj & [= ->]).
    destruct (shard_rows_lookup _ _ _ _ _ Hrows Hj) as (a & Ha & _ & _ & Hh). exists a. split; [done|].
    rewrite Hh in Hv. by apply verify_shard_hash.
  - unfold regen_chunk_shards. rewrite Hlen. rewrite (reconstruct_survivors _ _ _ Henc Hs Hten).
    cbn [map_err mbind res_bind]. by rewrite Henc.
Qed.

(** Placing the right bytes loses nothing, and a success puts them where it says. *)
Lemma place_keeps target f i b w :
  recorded w f b ->
  let r := place_shard me (reachable view) target f i b w in
  moves_only f w r.1 /\ w_db r.1 = w_db w /\ no_loss w r.1 /\ (r.2 = true -> shard_at dir r.1 target f = Some b).
Proof.
  intros Hrec r.
  assert (Hself : forall w', moves_only f w w' -> w_db w' = w_db w ->
    (forall loc v, shard_at dir w loc f = Some v -> shard_at dir w' loc f = Some v \/ shard_at dir w' loc f = Some b) ->
    no_loss w w').
  { intros w' Hm Hdb Hat g (loc & Hk). destruct (decide (g = f)) as [->|Hne].
    - destruct Hk as [Hl (v & Hr & Hv)]. exists loc. unfold kept_at, located, recorded in *. rewrite Hdb.
      split; [done|]. destruct (Hat loc v Hv); eauto.
    - exists loc. by eapply moves_kept_at. }
  unfold r, place_shard. destruct (same target "local") eqn:Et.
  - pose proof (write_local_moves f b w) as Hm. pose proof (write_local_ok dir f b w) as Hok.
    unfold write_local in *. destruct (write (w_store w) f b) as [st| |] eqn:Ew.
    2,3: split; [apply moves_refl|split; [done|split; [apply no_loss_refl|done]]].
    cbn [fst snd] in *. split; [done|split; [done|split]].
    + apply Hself; [done|done|]. intros loc v Hv. unfold shard_at, read_local in *. cbn [w_store w_net].
      destruct (same loc "local"); [right; by rewrite (write_read _ _ _ _ Ew)|by left].
    + intros _. apply bool_decide_eq_true in Et as ->. by apply (Hok _ eq_refl).
  - destruct (reachable view !! target) as [a|] eqn:Ea;
      [|unfold mret, act_ret; split; [apply moves_refl|split; [done|split; [apply no_loss_refl|done]]]].
    unfold mbind, act_bind, mret, act_ret. pose proof (store_moves me f a i b w) as Hm.
    destruct (store_rest me f a i b w) as [Edb Est].
    pose proof (store_self a f me i b (w_net w)) as Hself2. pose proof (store_acked me f a i b w) as Hack.
    pose proof (store_other a f me i b (w_net w)) as Hoth.
    unfold signed_request_to in *. destruct (ask_signed a _ (w_net w)) as [n rr]. cbn [fst snd w_net w_db w_store] in *.
    split; [done|split; [done|split]].
    + apply Hself; [done|done|]. intros loc v Hv. unfold shard_at in *. cbn [w_store w_net].
      destruct (same loc "local"); [by left|]. destruct (dir !! loc) as [x|]; [|done]. cbn in *.
      destruct (decide (x = a)) as [->|Hx]; [destruct Hself2 as [-> | ->]; [by left|by right]|].
      left. by rewrite Hoth by congruence.
    + intros Ha. unfold shard_at. rewrite Et. rewrite (view_dir _ _ Ea). cbn. exact (Hack _ _ eq_refl Ha).
Qed.

Lemma set_location_keeps target f b w :
  recorded w f b -> shard_at dir w target f = Some b ->
  let r := set_location set_location_ok f target w in
  no_loss w r.1 /\ kept dir r.1 f /\ (aligned w -> aligned r.1).
Proof.
  intros Hr Hb r.
  assert (Hf : kept dir r.1 f).
  { exists target. split; [by apply set_location_located|]. exists b.
    split; [eapply moves_recorded; [apply set_location_moves|done]|].
    destruct (set_location_rest set_location_ok f target w) as [Es En]. fold r in Es, En.
    unfold shard_at in *. by rewrite Es, En. }
  split; [|split; [done|]].
  - intros g (loc & Hk). destruct (decide (g = f)) as [->|Hne]; [done|]. exists loc.
    eapply moves_kept_at; [apply set_location_moves|done|done].
  - intros Ha. unfold r, set_location. rewrite set_location_works. by apply same_shards_relocate.
Qed.

(** The rows of a chunk under repair, through a database with moved rows. *)
Lemma degraded_recorded d all shards w i b :
  d_chunk d ∈ chunk_rows db0 -> chunk_recorded (d_chunk d) shards all -> d_shard_at d = Some <$> shards ->
  Forall2 (fun s s' => fragment s' = fragment s /\ shard_index s' = shard_index s /\ hash s' = hash s)
    (get_shards db0 (chunk_id_of (d_chunk d))) shards ->
  aligned w -> all !! i = Some b -> recorded w (frag_at d i) b.
Proof.
  intros Hin (cipher & Henc & _ & Hrows) Hat Hsame Ha Hi. pose proof (shard_rows_length _ _ _ Hrows) as Hl.
  destruct (lookup_lt_is_Some_2 shards i) as [s Hs]; [rewrite Hl; by eapply lookup_lt_Some|].
  destruct (shard_rows_lookup _ _ _ _ _ Hrows Hs) as (b' & Hb' & _ & _ & Hh). assert (b' = b) as -> by congruence.
  destruct (Forall2_lookup_r _ _ _ _ _ Hsame Hs) as (s0 & Hs0 & E1 & _ & E3).
  unfold frag_at. rewrite Hat, list_lookup_fmap, Hs. cbn. rewrite E1.
  apply aligned_recorded; [done|by eapply shards_in_db, list_elem_of_lookup_2|congruence].
Qed.

Lemma act_fold_inv {S X} (Q : X -> Prop) (f : S -> X -> act N S) (P : S -> World N -> Prop) :
  (forall s x w, Q x -> P s w -> P (f s x w).2 (f s x w).1) ->
  forall xs s w, Forall Q xs -> P s w -> P (act_fold f s xs w).2 (act_fold f s xs w).1.
Proof.
  intros Hf. induction xs as [|x xs IH]; intros s w HQ Hp; [done|]. apply Forall_cons in HQ as [Hx HQ]. cbn [act_fold].
  specialize (Hf s x w Hx Hp). unfold mbind, act_bind. destruct (f s x w) as [w1 s1]. by apply IH.
Qed.

Lemma replace_keeps d all shards w0 acc i w :
  d_chunk d ∈ chunk_rows db0 -> chunk_recorded (d_chunk d) shards all -> d_shard_at d = Some <$> shards ->
  Forall2 (fun s s' => fragment s' = fragment s /\ shard_index s' = shard_index s /\ hash s' = hash s)
    (get_shards db0 (chunk_id_of (d_chunk d))) shards ->
  no_loss w0 w /\ aligned w ->
  let r := replace_one me set_location_ok view d all acc i w in no_loss w0 r.1 /\ aligned r.1.
Proof.
  intros Hin Hrec Hat Hsame [Hl Ha] r. unfold r, replace_one. destruct acc as [[lc rep] any].
  destruct (all !! i) as [b|] eqn:Ei; [|done].
  pose proof (degraded_recorded d all shards w i b Hin Hrec Hat Hsame Ha Ei) as Hb.
  set (target := choose_target lc (reachable view) (reliability_of view)).
  destruct (place_keeps target (frag_at d i) (Z.of_nat i) b w Hb) as (Hm & Edb & Hnl & Hok).
  unfold mbind, act_bind, mret, act_ret.
  destruct (place_shard me (reachable view) target (frag_at d i) (Z.of_nat i) b w) as [w1 ok]. cbn [fst snd] in *.
  assert (Ha1 : aligned w1) by (unfold aligned; by rewrite Edb).
  assert (Hl1 : no_loss w0 w1) by (by eapply no_loss_trans).
  destruct ok; [|done].
  destruct (set_location_keeps target (frag_at d i) b w1) as (Hl2 & _ & Ha2); [by eapply moves_recorded|by apply Hok|].
  destruct (set_location set_location_ok (frag_at d i) target w1). cbn [fst] in *.
  split; [by eapply no_loss_trans|by apply Ha2].
Qed.

Lemma repair_chunk_keeps d rep w :
  degraded_ok d -> length (d_states d) = TOTAL_SHARDS -> aligned w ->
  let r := repair_chunk me set_location_ok view d rep w in hash_collision \/ (no_loss w r.1 /\ aligned r.1).
Proof.
  intros (Hin & all & shards & Hrec & Hat & Hsame) Hst Ha. cbv zeta. unfold repair_chunk, mbind, act_bind, mret, act_ret.
  destruct (gather_spec (zip (d_states d) (d_shard_at d)) 0 w) as (Hq & _ & Hgot & _).
  pose proof (regenerated d all shards 0 w Hrec Hat Hst) as Hreg. cbv zeta in Hreg.
  destruct (gather_shards view 0 _ w) as [w1 [present got]]. cbn [fst snd] in *.
  assert (Hok : no_loss w w1 /\ aligned w1).
  { split; [by apply quiet_no_loss|]. destruct Hq as (Ed & _). unfold aligned. by rewrite Ed. }
  destruct (Nat.ltb_spec got DATA_SHARDS); [by right|].
  destruct (Hreg ltac:(lia)) as [?|Hr]; [by left|right]. rewrite Hr.
  pose proof (act_fold_inv (fun _ => True) (replace_one me set_location_ok view d all)
    (fun _ w' => no_loss w w' /\ aligned w')
    (fun s x w' _ Hp => replace_keeps d all shards w s x w' Hin Hrec Hat Hsame Hp)
    (d_missing d) (count_locations d, rep, false) w1 ltac:(by apply Forall_forall) Hok) as Hfold.
  destruct (act_fold _ _ (d_missing d) w1) as [w2 [[lc rep'] any]]. cbn [fst snd] in *. exact Hfold.
Qed.

(** ** The whole pass *)
Variable scrub : ScrubPlan.

Lemma classify_quiet s rep w : quiet w (classify_shard view scrub s rep w).1.
Proof.
  unfold classify_shard, mbind, act_bind, mret, act_ret, get. destruct (same (location s) "local").
  - destruct (due scrub (fragment s)); [|apply quiet_refl]. destruct (negb _); apply quiet_refl.
  - destruct (reachable view !! location s) as [a|]; [|apply quiet_refl].
    pose proof (request_quiet a (AuditShard (fragment s)) w I) as Hq. by destruct (request_to a _ w).
Qed.

Lemma classify_all_quiet rows : forall rep w,
  quiet w (classify_all view scrub rows rep w).1 /\ length (classify_all view scrub rows rep w).2.1 = length rows.
Proof.
  induction rows as [|[s|] rows IH]; intros rep w; cbn [classify_all]; unfold mbind, act_bind, mret, act_ret.
  - split; [apply quiet_refl|done].
  - pose proof (classify_quiet s rep w) as Hq. destruct (classify_shard view scrub s rep w) as [w1 y]. cbn [fst snd] in *.
    destruct (IH y.2 w1) as [Hq1 Hl]. destruct (classify_all view scrub rows y.2 w1) as [w2 x]. cbn [fst snd] in *.
    split; [by eapply quiet_trans|cbn; by rewrite Hl].
  - destruct (IH rep w) as [Hq1 Hl]. destruct (classify_all view scrub rows rep w) as [w2 x]. cbn [fst snd] in *.
    split; [done|cbn; by rewrite Hl].
Qed.

Hypothesis recorded0 : chunks_recorded db0.

Lemma plan_degraded w c :
  aligned w -> c ∈ chunk_rows db0 ->
  exists all, chunk_recorded c (get_shards (w_db w) (chunk_id_of c)) all /\
    index_rows (get_shards (w_db w) (chunk_id_of c)) = Some <$> get_shards (w_db w) (chunk_id_of c) /\
    length (index_rows (get_shards (w_db w) (chunk_id_of c))) = TOTAL_SHARDS /\
    Forall2 (fun s s' => fragment s' = fragment s /\ shard_index s' = shard_index s /\ hash s' = hash s)
      (get_shards db0 (chunk_id_of c)) (get_shards (w_db w) (chunk_id_of c)).
Proof.
  intros (_ & _ & Hsh) Hc. destruct (recorded0 c Hc) as (all & cipher & Henc & Hlen & Hrows).
  pose proof (shard_rows_same _ _ _ _ Hrows (Hsh (chunk_id_of c))) as Hrows'. pose proof (encode_count _ _ Henc) as Hl.
  exists all. split; [by exists cipher|split; [by eapply index_rows_all|split; [|apply Hsh]]].
  rewrite (index_rows_all _ _ _ Hrows' Hl), length_fmap, (shard_rows_length _ _ _ Hrows'). done.
Qed.

Definition pending_ok (d : Degraded) : Prop := degraded_ok d /\ length (d_states d) = TOTAL_SHARDS.

Lemma assess_chunk_keeps c rep w :
  aligned w -> c ∈ chunk_rows db0 ->
  let r := assess_chunk view scrub c (get_shards (w_db w) (chunk_id_of c)) rep w in
  quiet w r.1 /\ forall d, r.2.1 = Some d -> pending_ok d.
Proof.
  intros Ha Hc. destruct (plan_degraded w c Ha Hc) as (all & Hrec & Hix & Hl & Hsame). cbv zeta.
  unfold assess_chunk, mbind, act_bind, mret, act_ret.
  destruct (classify_all_quiet (index_rows (get_shards (w_db w) (chunk_id_of c))) rep w) as [Hq Hlen].
  destruct (classify_all view scrub _ rep w) as [w1 [states rep1]]. cbn [fst snd] in *. rewrite Hl in Hlen.
  case_bool_decide; [done|]. destruct (_ <? _)%nat; [done|]. cbn [fst snd]. split; [done|].
  intros d [= <-]. split; [|done]. split; [done|]. by exists all, (get_shards (w_db w) (chunk_id_of c)).
Qed.

Lemma push_pending_ok pending d rep :
  Forall pending_ok pending -> pending_ok d -> Forall pending_ok (push_pending pending d rep).1.
Proof.
  intros Hp Hd. assert (Hpush : forall l, Forall pending_ok l -> Forall pending_ok (heap_push l d)).
  { intros l Hl. unfold heap_push. rewrite merge_Permutation. apply Forall_app. split; [done|by constructor]. }
  unfold push_pending. destruct (_ <? _)%nat; cbn [fst]; [by apply Hpush|].
  destruct (last pending) as [worst|]; [|done]. destruct (_ <? _)%nat; [|done]. by apply Hpush, Forall_take.
Qed.

Lemma assess_one_keeps w0 acc c w :
  c ∈ chunk_rows db0 /\ aligned w0 ->
  quiet w0 w /\ Forall pending_ok acc.1 ->
  let r := assess_one view scrub acc (c, get_shards (w_db w0) (chunk_id_of c)) w in
  quiet w0 r.1 /\ Forall pending_ok r.2.1.
Proof.
  intros [Hc Ha0] [Hq Hp]. destruct acc as [pending rep]. cbv zeta. cbn [assess_one fst snd].
  unfold mbind, act_bind, mret, act_ret.
  assert (Ea : aligned w) by (unfold aligned; by rewrite (proj1 Hq)). rewrite <- (proj1 Hq).
  destruct (assess_chunk_keeps c (rep_add rep one_chunk) w Ea Hc) as [Hq1 Hd].
  destruct (assess_chunk view scrub c _ _ w) as [w1 [[d|] rep1]]; cbn [fst snd] in *; (split; [by eapply quiet_trans|]).
  - apply push_pending_ok; [done|by apply Hd].
  - done.
Qed.

Lemma assess_file_keeps w0 acc f w :
  aligned w0 -> quiet w0 w /\ Forall pending_ok acc.1 ->
  let r := assess_file view scrub acc f w in quiet w0 r.1 /\ Forall pending_ok r.2.1.
Proof.
  intros Ha [Hq Hp]. destruct acc as [pending rep]. cbv zeta. cbn [assess_file]. unfold mbind, act_bind, mret, act_ret, get.
  rewrite (proj1 Hq). unfold pull_plan.
  destruct (get_file (w_db w0) (r_user_id f) (r_file_id f)) as [row|]; cbn [ok_or mbind res_bind]; [|done].
  assert (Hplan : Forall (fun c => exists c0, c0 ∈ chunk_rows db0 /\ c = (c0, get_shards (w_db w0) (chunk_id_of c0)))
            ((fun c => (c, get_shards (w_db w0) (chunk_id_of c))) <$> get_chunks (w_db w0) (r_file_id f))).
  { apply Forall_fmap, Forall_forall. intros c Hc. exists c. split; [|done].
    destruct Ha as (_ & Hch & _). rewrite Hch in Hc. by apply elem_of_get_chunks in Hc as [? _]. }
  refine (act_fold_inv _ (assess_one view scrub) (fun s w' => quiet w0 w' /\ Forall pending_ok s.1) _ _ _ _ Hplan _).
  - intros s c w' (c0 & Hc0 & ->) Hs. by apply assess_one_keeps.
  - done.
Qed.

Lemma sweep_keeps rep w :
  aligned w -> let r := sweep me set_location_ok view scrub rep w in hash_collision \/ (no_loss w r.1 /\ aligned r.1).
Proof.
  intros Ha. cbv zeta. unfold sweep, mbind, act_bind, mret, act_ret, get.
  pose proof (act_fold_inv (fun _ => True) (assess_file view scrub) (fun s w' => quiet w w' /\ Forall pending_ok s.1)
    (fun s f w' _ Hs => assess_file_keeps w s f w' Ha Hs) (list_all_files (w_db w)) ([], rep) w
    ltac:(by apply Forall_forall) (conj (quiet_refl w) (Forall_nil_2 _))) as [Hq Hp].
  destruct (act_fold (assess_file view scrub) _ _ w) as [w1 [pending rep1]]. cbn [fst snd] in *.
  refine (act_fold_inv pending_ok (fun rep d => repair_chunk me set_location_ok view d rep)
    (fun _ w' => hash_collision \/ (no_loss w w' /\ aligned w')) _ pending rep1 w1 Hp _).
  - intros s d w' [Hd Hl] [?|[Hn Ha']]; [by left|].
    destruct (repair_chunk_keeps d s w' Hd Hl Ha') as [?|[H1 H2]]; [by left|right]. split; [by eapply no_loss_trans|done].
  - right. split; [by apply quiet_no_loss|]. unfold aligned. by rewrite (proj1 Hq).
Qed.
End Keeps.

Lemma peer_view_dir rows probes wd pid a :
  NoDup (peer_id <$> rows) -> reachable (peer_view rows probes wd) !! pid = Some a -> directory rows !! pid = Some a.
Proof.
  intros Hnd. unfold peer_view, directory. cbn [reachable].
  intros (p & [= -> ->] & Hp)%elem_of_list_to_map_2%list_elem_of_fmap.
  apply list_elem_of_filter in Hp as [_ Hp]. apply elem_of_list_to_map_1; [by rewrite <- list_fmap_compose|].
  apply list_elem_of_fmap. by exists p.
Qed.

Section Pass.
Context {CP : CryptoPrims} {CL : CryptoLaws} {RS : ReedSolomon} {RL : ReedSolomonLaws}.
Context {N : Type} {PN : PeerNet N} {HN : HonestNet N}.

End Pass.
