(* ===== verification/RepairSpec.v ===== *)
(** * What the decisions of the repair pass promise ([repair.rs])

    Restoration of a degraded chunk, the choice of targets, the priority buffer, the scrub
    cycle and the threshold after which a silent peer is down. *)

From Stdlib Require Import Floats.
From Stdlib Require Import ZArith Lia Strings.Ascii Strings.String Strings.Byte.
From stdpp Require Import base numbers list gmap strings sorting.
From S2P Require Import Prelude External Erasure Crypto Pipeline Paths Manifest ManifestInv ChunkStore.
From S2P Require Import Service ServiceProofs ServiceSpec Identity Protocol ReadPath Placement Fleet Distribute Survival Repair RepairProofs.

(** ** Targets *)

Section Target.
Variables (loc_count : gmap string nat) (reachable : gmap string string) (reliability : gmap string float).
Let n (c : string) : nat := default 0%nat (loc_count !! c).

Lemma no_worse_count a b :
  (no_worse loc_count reliability a b = true -> (n a <= n b)%nat) /\
  (no_worse loc_count reliability a b = false -> (n b <= n a)%nat).
Proof.
  unfold no_worse. fold (n a) (n b). cbv zeta.
  destruct (Nat.leb_spec PARITY_SHARDS (n a)), (Nat.leb_spec PARITY_SHARDS (n b)); cbn [Bool.eqb negb];
    [|split; [done|lia]|split; [lia|done]|];
    (destruct (Nat.eqb_spec (n a) (n b)) as [E|E]; cbn [negb];
     [split; intros _; lia|destruct (Nat.ltb_spec (n a) (n b)); split; (done || lia)]).
Qed.

Lemma target_candidate : choose_target loc_count reachable reliability = "local" \/
  is_Some (reachable !! choose_target loc_count reachable reliability).
Proof.
  unfold choose_target.
  enough (Hg : forall l best, (forall c, c ∈ l -> is_Some (reachable !! c)) -> best = "local" \/ is_Some (reachable !! best) ->
    let r := foldl (fun best c => if no_worse loc_count reliability best c then best else c) best l in
    r = "local" \/ is_Some (reachable !! r)).
  { apply Hg; [|by left]. intros c Hc. apply list_elem_of_fmap in Hc as ([k a] & -> & Hk%elem_of_map_to_list). by exists a. }
  induction l as [|c l IH]; intros best Hl Hb; [done|]. cbn [foldl]. apply IH; [intros x Hx; apply Hl; by right|].
  destruct (no_worse _ _ _ _); [done|right; apply Hl; by left].
Qed.

(** The chosen location holds the fewest shards of the chunk of all candidates; so it is
    under the cap whenever one of them is. *)
Lemma target_fewest c :
  c = "local" \/ is_Some (reachable !! c) -> (n (choose_target loc_count reachable reliability) <= n c)%nat.
Proof.
  intros Hc. unfold choose_target.
  enough (Hg : forall l best,
    let r := foldl (fun best c => if no_worse loc_count reliability best c then best else c) best l in
    (n r <= n best)%nat /\ forall x, x ∈ l -> (n r <= n x)%nat).
  { destruct (Hg (map_to_list reachable).*1 "local") as [H1 H2]. destruct Hc as [->|[a Ha]]; [done|].
    apply H2, list_elem_of_fmap. exists (c, a). split; [done|]. by apply elem_of_map_to_list. }
  induction l as [|d l IH]; intros best; [split; [done|by intros x ?%elem_of_nil]|]. cbn [foldl].
  destruct (IH (if no_worse loc_count reliability best d then best else d)) as [H1 H2].
  destruct (no_worse_count best d) as [Ht Hf].
  assert (Hd : (n (if no_worse loc_count reliability best d then best else d) <= n best)%nat /\
               (n (if no_worse loc_count reliability best d then best else d) <= n d)%nat).
  { destruct (no_worse loc_count reliability best d); split; try lia; by (apply Ht || apply Hf). }
  split; [lia|]. intros x [->|Hx]%elem_of_cons; [lia|by apply H2].
Qed.
End Target.

(** ** The priority buffer *)

Definition push_all (ds : list Degraded) : list Degraded * RepairReport :=
  foldl (fun acc d => push_pending acc.1 d acc.2) ([], rep0) ds.

Lemma by_margin_total : Total by_margin.
Proof. intros a b. unfold by_margin. lia. Qed.
#[export] Instance by_margin_trans : Transitive by_margin.
Proof. intros a b c. unfold by_margin. lia. Qed.

Lemma heap_push_sorted l d : Sorted by_margin l -> Sorted by_margin (heap_push l d).
Proof. intros Hl. unfold heap_push. apply Sorted_list_merge; [apply by_margin_total|done|by repeat constructor]. Qed.

Lemma sorted_last l d x : Sorted by_margin l -> last l = Some d -> x ∈ l -> (d_margin x <= d_margin d)%nat.
Proof.
  intros Hs Hl Hx. apply Sorted_StronglySorted in Hs; [|apply _].
  apply last_Some in Hl as (l' & ->). apply elem_of_app in Hx as [Hx| ->%list_elem_of_singleton]; [|done].
  apply StronglySorted_app in Hs as (H1 & _). specialize (H1 x d Hx ltac:(left)). exact H1.
Qed.

(** What a run of pushes leaves: the buffer, and the chunks left out. *)
Definition buffered (ds : list Degraded) (x : list Degraded * RepairReport) (out : list Degraded) : Prop :=
  Sorted by_margin x.1 /\ (length x.1 <= MAX_PENDING_REPAIRS)%nat /\ x.1 ++ out ≡ₚ ds /\
  chunks_deferred x.2 = Z.of_nat (length out) /\
  (forall p o, p ∈ x.1 -> o ∈ out -> (d_margin p <= d_margin o)%nat) /\
  (out = [] \/ length x.1 = MAX_PENDING_REPAIRS).

Lemma heap_push_perm l d : heap_push l d ≡ₚ l ++ [d].
Proof. unfold heap_push. apply merge_Permutation. Qed.

Lemma push_full ds pending rep out d worst l :
  buffered ds (pending, rep) out -> length pending = MAX_PENDING_REPAIRS -> pending = l ++ [worst] ->
  exists out', buffered (ds ++ [d]) (push_pending pending d rep) out'.
Proof.
  intros (H1 & H2 & H3 & H4 & H5 & H6) Hfull El. cbn [fst snd] in *.
  assert (Hw : forall x, x ∈ pending -> (d_margin x <= d_margin worst)%nat).
  { intros x. apply sorted_last; [done|]. rewrite El. apply last_snoc. }
  unfold push_pending. rewrite Hfull, Nat.ltb_irrefl.
  replace (last pending) with (Some worst) by (rewrite El; symmetry; apply last_snoc).
  destruct (Nat.ltb_spec (d_margin d) (d_margin worst)) as [Hlt|Hge].
  - assert (Et : take (MAX_PENDING_REPAIRS - 1) pending = l).
    { rewrite <- Hfull, El, length_app, Nat.add_sub. apply take_app_length. }
    assert (Hlen : S (length l) = MAX_PENDING_REPAIRS) by (rewrite <- Hfull, El, length_app; cbn; lia).
    rewrite Et. exists (worst :: out). split; [|split; [|split; [|split; [|split]]]]; cbn [fst snd].
    + apply heap_push_sorted. rewrite El in H1. apply Sorted_StronglySorted in H1; [|apply _].
      apply StronglySorted_app in H1 as (_ & H1 & _). by apply StronglySorted_Sorted.
    + rewrite heap_push_perm, length_app. cbn [length]. lia.
    + rewrite heap_push_perm, <- H3, El. rewrite <- !app_assoc. f_equiv. cbn.
      rewrite (Permutation_app_comm out [d]). cbn. constructor.
    + cbn [chunks_deferred rep_add one_deferred length]. rewrite H4. lia.
    + intros p o. rewrite heap_push_perm. intros [Hp| ->%list_elem_of_singleton]%elem_of_app [->|Ho]%elem_of_cons.
      * apply Hw. rewrite El. apply elem_of_app. by left.
      * apply H5; [|done]. rewrite El. apply elem_of_app. by left.
      * lia.
      * assert (d_margin worst <= d_margin o)%nat; [|lia]. apply H5; [|done]. rewrite El. apply elem_of_app. right. left.
    + right. rewrite heap_push_perm, length_app. cbn [length]. lia.
  - exists (d :: out). split; [done|split; [done|split; [|split; [|split]]]]; cbn [fst snd].
    + rewrite <- H3, <- app_assoc. f_equiv. apply Permutation_cons_append.
    + cbn [chunks_deferred rep_add one_deferred length]. rewrite H4. lia.
    + intros p o Hp [->|Ho]%elem_of_cons; [specialize (Hw p Hp); lia|by apply H5].
    + by right.
Qed.

Lemma push_all_buffered ds : exists out, buffered ds (push_all ds) out.
Proof.
  induction ds as [|d ds (out & IH)] using rev_ind.
  { exists []. split; [constructor|split; [cbn; lia|split; [done|split; [done|split; [|by left]]]]].
    by intros p o _ ?%elem_of_nil. }
  unfold push_all. rewrite foldl_app. cbn [foldl]. fold (push_all ds).
  destruct (push_all ds) as [pending rep] eqn:E. cbn [fst snd].
  destruct (decide (length pending = MAX_PENDING_REPAIRS)) as [Hfull|Hne].
  - assert (Hnn : pending <> []) by (intros ->; done).
    destruct (exists_last Hnn) as (l & worst & El). by eapply push_full.
  - destruct IH as (H1 & H2 & H3 & H4 & H5 & H6). cbn [fst snd] in *.
    assert (Hlt : (length pending < MAX_PENDING_REPAIRS)%nat) by lia.
    destruct H6 as [->|?]; [|done]. rewrite app_nil_r in H3. unfold push_pending.
    rewrite (proj2 (Nat.ltb_lt _ _) Hlt). exists []. split; [|split; [|split; [|split; [|split]]]]; cbn [fst snd].
    + by apply heap_push_sorted.
    + rewrite heap_push_perm, length_app. cbn [length]. lia.
    + rewrite app_nil_r, heap_push_perm. by rewrite H3.
    + done.
    + by intros p o _ ?%elem_of_nil.
    + by left.
Qed.

(** The buffer of degraded chunks is bounded and keeps the most endangered: after any
    sequence of pushes it is sorted by margin, holds at most 4096 of the chunks pushed, each
    with a margin no larger than that of every chunk left out, and the report counts exactly
    the chunks left out. *)
Theorem priority_buffer ds :
  let '(pending, rep) := push_all ds in
  Sorted by_margin pending /\ (length pending <= MAX_PENDING_REPAIRS)%nat /\
  exists out, pending ++ out ≡ₚ ds /\ chunks_deferred rep = Z.of_nat (length out) /\
    forall p o, p ∈ pending -> o ∈ out -> (d_margin p <= d_margin o)%nat.
Proof.
  destruct (push_all_buffered ds) as (out & H1 & H2 & H3 & H4 & H5 & _).
  destruct (push_all ds) as [pending rep]. split; [done|split; [done|]]. by exists out.
Qed.

(** ** The scrub cycle *)

Lemma scrub_bucket t0 interval k :
  0 <= t0 -> 0 < interval ->
  let p := ScrubPlan_new (t0 + Z.of_nat k * interval) interval in
  buckets p = Z.max (SCRUB_CYCLE_SECS / interval) 1 /\ bucket p = (t0 / interval + Z.of_nat k) mod buckets p.
Proof.
  intros Ht Hi. unfold ScrubPlan_new. rewrite Z.max_l by lia. cbn [buckets bucket]. split; [done|].
  by rewrite Z.div_add by lia.
Qed.

(** Each shard is scrubbed exactly once per cycle: of the passes of one cycle, started
    at any time and spaced by the repair interval, exactly one has the shard due. *)
Theorem scrub_once_per_cycle fragment_id t0 interval :
  0 <= t0 -> 0 < interval ->
  length (filter (fun k => due (ScrubPlan_new (t0 + Z.of_nat k * interval) interval) fragment_id = true)
            (seq 0 (Z.to_nat (buckets (ScrubPlan_new t0 interval))))) = 1%nat.
Proof.
  intros Ht Hi. set (n := Z.max (SCRUB_CYCLE_SECS / interval) 1). assert (Hn : 0 < n) by lia.
  assert (Hb0 : buckets (ScrubPlan_new t0 interval) = n).
  { pose proof (proj1 (scrub_bucket t0 interval 0 Ht Hi)) as E. by rewrite Z.mul_0_l, Z.add_0_r in E. }
  rewrite Hb0. set (q := t0 / interval). set (b := fnv1a (as_bytes fragment_id) mod n).
  assert (Hb : 0 <= b < n) by by apply Z.mod_pos_bound.
  assert (Hdue : forall k, due (ScrubPlan_new (t0 + Z.of_nat k * interval) interval) fragment_id = true <->
                   (q + Z.of_nat k) mod n = b).
  { intros k. destruct (scrub_bucket t0 interval k Ht Hi) as [E1 E2]. cbv zeta in E1, E2. fold n in E1. rewrite E1 in E2.
    unfold due. rewrite E1, E2, Z.eqb_eq. fold b q. split; congruence. }
  set (k0 := (b - q) mod n). assert (Hk0 : 0 <= k0 < n) by by apply Z.mod_pos_bound.
  assert (Ek0 : (q + k0) mod n = b).
  { unfold k0. rewrite Zplus_mod_idemp_r. replace (q + (b - q)) with b by lia. by apply Z.mod_small. }
  change 1%nat with (length [Z.to_nat k0]). apply Permutation_length. apply NoDup_Permutation.
  - apply NoDup_filter, NoDup_seq.
  - apply NoDup_singleton.
  - intros k. rewrite list_elem_of_filter, Hdue, elem_of_seq, list_elem_of_singleton. split.
    + intros [Ek Hk]. assert (E : (q + Z.of_nat k) mod n = (q + k0) mod n) by congruence.
      apply (f_equal (fun z => (z - q) mod n)) in E. rewrite !Zminus_mod_idemp_l in E.
      replace (q + Z.of_nat k - q) with (Z.of_nat k) in E by lia. replace (q + k0 - q) with k0 in E by lia.
      rewrite !Z.mod_small in E by lia. lia.
    + intros ->. rewrite Z2Nat.id by lia. split; [done|lia].
Qed.

(** ** Going down *)

(** A run of probes of one peer, and whether the last one took it down. *)
Definition run_health (threshold : Z) (h : PeerHealth) (probes : list (option float)) : PeerHealth * bool :=
  foldl (fun acc p => record_peer_health threshold acc.1 p) (h, false) probes.

(** Failed probes since the last answer. *)
Fixpoint trailing_failures (acc : Z) (probes : list (option float)) : Z :=
  match probes with
  | [] => acc
  | Some _ :: probes => trailing_failures 0 probes
  | None :: probes => trailing_failures (acc + 1) probes
  end.

(** A peer goes down for silence, not for one silent night: from an active peer, after any
    sequence of probes, its failure count is the number of failed probes since its last
    answer, it is down exactly when that number has reached the threshold, and the pass that
    reaches it - that one only - reports the peer as just gone down. *)
Theorem peer_down_exact threshold h probes :
  1 <= threshold -> h_status h = "active" -> h_failures h = 0 ->
  let '(h', went_down) := run_health threshold h probes in
  let n := trailing_failures 0 probes in
  h_failures h' = n /\ (h_status h' = "down" <-> threshold <= n) /\ (went_down = true <-> n = threshold /\ probes <> []).
Proof.
  intros Ht Hs Hf. unfold run_health.
  enough (Hg : forall probes h d n, 0 <= n -> h_failures h = n -> (h_status h = "down" <-> threshold <= n) ->
    let r := foldl (fun acc p => record_peer_health threshold acc.1 p) (h, d) probes in
    let m := trailing_failures n probes in
    h_failures r.1 = m /\ (h_status r.1 = "down" <-> threshold <= m) /\
    (probes <> [] -> (r.2 = true <-> m = threshold)) /\ (probes = [] -> r.2 = d)).
  { specialize (Hg probes h false 0 ltac:(lia) Hf). rewrite Hs in Hg. destruct Hg as (H1 & H2 & H3 & H4).
    { split; [done|lia]. }
    destruct (foldl _ _ probes) as [h' wd]. cbn [fst snd] in *. split; [done|split; [done|]].
    destruct probes as [|p probes]; [rewrite H4 by done; split; [done|by intros [_ ?]]|].
    specialize (H3 ltac:(done)). split; [intros Hw; split; [by apply H3|done]|by intros [Hn _]; apply H3]. }
  clear -Ht. intros probes. induction probes as [|p probes IH]; intros h d n Hn Hf Hd; [done|].
  cbv zeta. cbn [foldl fst].
  assert (Hstep : let x := record_peer_health threshold h p in
    let m := match p with Some _ => 0 | None => n + 1 end in
    h_failures x.1 = m /\ (h_status x.1 = "down" <-> threshold <= m) /\ (x.2 = true <-> m = threshold)).
  { destruct p as [r|]; cbn.
    - split; [done|split; (split; [by intros [=]|lia])].
    - rewrite Hf. split; [done|]. destruct (Z.leb_spec threshold (n + 1)) as [Hle|Hlt].
      + split; [done|]. rewrite andb_true_r, negb_true_iff. unfold same. rewrite bool_decide_eq_false. rewrite Hd. lia.
      + split; [rewrite Hd; lia|]. unfold same. destruct (bool_decide_reflect (h_status h = "down")); cbn; [|split; [done|lia]].
        split; [done|lia]. }
  cbv zeta in Hstep. destruct (record_peer_health threshold h p) as [h1 d1]. cbn [fst snd] in Hstep.
  destruct Hstep as (E1 & E2 & E3). set (m := match p with Some _ => 0 | None => n + 1 end) in *.
  assert (Hm : 0 <= m) by (subst m; destruct p; lia).
  destruct (IH h1 d1 m Hm E1 E2) as (H1 & H2 & H3 & H4).
  assert (Et : trailing_failures n (p :: probes) = trailing_failures m probes) by by destruct p.
  rewrite Et. split; [done|split; [done|split; [|done]]]. intros _.
  destruct probes as [|p' probes]; [|by apply H3]. rewrite H4 by done. exact E3.
Qed.

(** ** Restoration *)

Section Restore.
Context {CP : CryptoPrims} {CL : CryptoLaws} {RS : ReedSolomon} {RL : ReedSolomonLaws}.
Context {N : Type} {PN : PeerNet N} {HN : HonestNet N}.
Variable dir : gmap string string.
Variable me : string.
Variable set_location_ok : string -> string -> bool.
Hypothesis set_location_works : forall f l, set_location_ok f l = true.
Variable view : PeerView.
Hypothesis view_dir : forall pid a, reachable view !! pid = Some a -> dir !! pid = Some a.
(** The peers that answered the probe accept what they are offered. *)
Hypothesis peers_accept : forall pid a f o i b n,
  reachable view !! pid = Some a -> is_ack (ask_signed a (StoreShard f o i b) n).2 = true.

Lemma place_accepted target f i b (w : World N) :
  target = "local" \/ is_Some (reachable view !! target) -> is_valid_fragment_id f = true ->
  (place_shard me (reachable view) target f i b w).2 = true.
Proof.
  intros Ht Hf. unfold place_shard. destruct (same target "local") eqn:E.
  - unfold write_local, write, shard_path. rewrite Hf. done.
  - destruct Ht as [->|[a Ha]]; [done|]. rewrite Ha. unfold mbind, act_bind, mret, act_ret, signed_request_to.
    pose proof (peers_accept target a f me i b (w_net w) Ha) as Hack. by destruct (ask_signed a _ (w_net w)).
Qed.

Lemma frag_at_valid d all shards i :
  chunk_recorded (d_chunk d) shards all -> d_shard_at d = Some <$> shards -> (i < length all)%nat ->
  is_valid_fragment_id (frag_at d i) = true.
Proof.
  intros (cipher & _ & _ & Hrows) Hat Hi. rewrite <- (shard_rows_length _ _ _ Hrows) in Hi.
  destruct (lookup_lt_is_Some_2 shards i Hi) as [s Hs].
  destruct (shard_rows_lookup _ _ _ _ _ Hrows Hs) as (b & _ & _ & E & _).
  unfold frag_at. rewrite Hat, list_lookup_fmap, Hs. cbn. rewrite E. unfold fragment_id. apply hex_fragment_id.
  pose proof (blake3_len (as_bytes (chunk_id_of (d_chunk d)) ++ as_bytes ":" ++ be_bytes 4 (Z.of_nat i mod 2 ^ 32))) as Hl.
  unfold len in Hl. rewrite length_take. lia.
Qed.

Lemma restore_one db0 d all shards i acc (w : World N) : db_inv db0 ->
  d_chunk d ∈ chunk_rows db0 -> chunk_recorded (d_chunk d) shards all -> d_shard_at d = Some <$> shards ->
  Forall2 (fun s s' => fragment s' = fragment s /\ shard_index s' = shard_index s /\ hash s' = hash s)
    (get_shards db0 (chunk_id_of (d_chunk d))) shards ->
  (i < length all)%nat -> same_shards db0 (w_db w) ->
  let r := replace_one me set_location_ok view d all acc i w in
  (forall f, kept dir w f -> kept dir r.1 f) /\ kept dir r.1 (frag_at d i) /\ same_shards db0 (w_db r.1) /\
  shards_replaced r.2.1.2 = shards_replaced acc.1.2 + 1.
Proof.
  intros Hinv Hin Hrec Hat Hsame Hi Ha. cbv zeta. destruct acc as [[lc rep] any]. cbn [replace_one].
  pose proof (frag_at_valid d all shards i Hrec Hat Hi) as Hv. apply lookup_lt_is_Some in Hi as [b Hb]. rewrite Hb.
  pose proof (degraded_recorded db0 Hinv d all shards w i b Hin Hrec Hat Hsame Ha Hb) as Hr.
  set (target := choose_target lc (reachable view) (reliability_of view)).
  destruct (place_keeps dir me view view_dir target (frag_at d i) (Z.of_nat i) b w Hr) as (Hm & Edb & Hnl & Hok).
  pose proof (place_accepted target (frag_at d i) (Z.of_nat i) b w (target_candidate _ _ _) Hv) as Hacc.
  unfold mbind, act_bind, mret, act_ret.
  destruct (place_shard me (reachable view) target (frag_at d i) (Z.of_nat i) b w) as [w1 ok]. cbn [fst snd] in *. subst ok.
  assert (Ha1 : same_shards db0 (w_db w1)) by by rewrite Edb.
  destruct (set_location_keeps dir set_location_ok set_location_works db0 target (frag_at d i) b w1)
    as (Hl2 & Hk & Ha2); [by eapply moves_recorded|by apply Hok|].
  destruct (set_location set_location_ok (frag_at d i) target w1). cbn [fst snd] in *.
  split; [intros f Hf; by apply Hl2, Hnl|split; [done|split; [by apply Ha2|done]]].
Qed.

Lemma restore_all db0 d all shards missing : db_inv db0 ->
  d_chunk d ∈ chunk_rows db0 -> chunk_recorded (d_chunk d) shards all -> d_shard_at d = Some <$> shards ->
  Forall2 (fun s s' => fragment s' = fragment s /\ shard_index s' = shard_index s /\ hash s' = hash s)
    (get_shards db0 (chunk_id_of (d_chunk d))) shards ->
  Forall (fun i => i < length all)%nat missing ->
  forall acc (w : World N), same_shards db0 (w_db w) ->
  let r := act_fold (replace_one me set_location_ok view d all) acc missing w in
  (forall f, kept dir w f -> kept dir r.1 f) /\ (forall i, i ∈ missing -> kept dir r.1 (frag_at d i)) /\
  shards_replaced r.2.1.2 = shards_replaced acc.1.2 + Z.of_nat (length missing).
Proof.
  intros Hinv Hin Hrec Hat Hsame Hlt. induction Hlt as [|i missing Hi Hlt IH]; intros acc w Ha; cbv zeta; cbn [act_fold].
  { split; [done|split; [by intros i ?%elem_of_nil|cbn; lia]]. }
  destruct (restore_one db0 d all shards i acc w Hinv Hin Hrec Hat Hsame Hi Ha) as (H1 & H2 & H3 & H4).
  unfold mbind, act_bind. destruct (replace_one me set_location_ok view d all acc i w) as [w1 acc1]. cbn [fst snd] in *.
  destruct (IH acc1 w1 H3) as (F1 & F2 & F3). split; [auto|split].
  - intros j [->|Hj]%elem_of_cons; [by apply F1|by apply F2].
  - rewrite F3, H4. cbn [length]. lia.
Qed.

Lemma plan_missing_lt states i : i ∈ missing (plan_chunk states) -> (i < length states)%nat.
Proof.
  unfold plan_chunk. cbn [missing]. intros ([j s] & Hj & Hs)%list_elem_of_omap.
  apply elem_of_lookup_imap in Hj as (j' & s' & [= -> ->] & Hj'). apply lookup_lt_Some in Hj'.
  destruct s' as [[]|]; cbn in Hs; repeat case_match; by simplify_eq.
Qed.

(** What an assessment hands to the repair of a chunk with recorded rows. *)
Lemma assessed scrub c shards all rep rep1 d (w w1 : World N) :
  chunk_recorded c shards all -> assess_chunk view scrub c shards rep w = (w1, (Some d, rep1)) ->
  quiet w w1 /\ d_chunk d = c /\ d_shard_at d = Some <$> shards /\ length (d_states d) = TOTAL_SHARDS /\
  d_missing d <> [] /\ Forall (fun i => i < length all)%nat (d_missing d).
Proof.
  intros (cipher & Henc & Hlen & Hrows) Hassess. pose proof (encode_count _ _ Henc) as Hl.
  pose proof (index_rows_all _ _ _ Hrows Hl) as Hix. pose proof (shard_rows_length _ _ _ Hrows) as Hsl.
  unfold assess_chunk, mbind, act_bind, mret, act_ret in Hassess.
  destruct (classify_all_quiet view scrub (index_rows shards) rep w) as [Hq Hcl].
  destruct (classify_all view scrub (index_rows shards) rep w) as [w' [states rep']]. cbn [fst snd] in *.
  case_bool_decide as Hmiss; [done|]. destruct (_ <? _)%nat; [done|].
  assert (w1 = w') as -> by congruence.
  assert (Ed : d = mkDegraded c (index_rows shards) states (missing (plan_chunk states))
                     (live (plan_chunk states) - DATA_SHARDS)) by congruence.
  assert (Hst : length states = TOTAL_SHARDS) by (rewrite Hcl, Hix, length_fmap; congruence).
  rewrite Ed. cbn [d_chunk d_shard_at d_states d_missing]. split; [done|split; [done|split; [done|split; [done|split; [done|]]]]].
  apply Forall_forall. intros i Hi%plan_missing_lt. lia.
Qed.

End Restore.
