(* ===== verification/Rebalance.v ===== *)
(** * Re-homing shards near the node ([crates/server/src/rebalance.rs])

    The locality pass: live peers sorted near to far, the layout of the planner turned into a
    target count per location, and for each chunk the shards above a location's count handed
    to the locations below theirs. The order in which the hash map of locations is walked is
    an argument. *)

From Stdlib Require Import Floats.
From Stdlib Require Import ZArith Lia Strings.Ascii Strings.String Strings.Byte.
From stdpp Require Import base numbers list gmap strings sorting.
From S2P Require Import Prelude External Erasure Crypto Pipeline Paths Manifest ManifestInv ChunkStore.
From S2P Require Import Service ServiceProofs ServiceSpec Protocol ReadPath Dht Placement Fleet Distribute Survival Repair RepairProofs.

Record RebalanceReport := mkRebalance { rb_files : Z; rb_moved : Z; rb_peers : Z }.

(** [current.entry(location).or_default().push(s)]. *)
Definition by_location (shards : list ShardRow) : gmap string (list ShardRow) :=
  foldl (fun m s => <[location s := default [] (m !! location s) ++ [s]]> m) ∅ shards.

(** The wanted number of shards per location; an index outside the list is skipped. *)
Definition target_counts (layout : list Placement) (sorted_ids : list string) : gmap string nat :=
  foldl (fun m p =>
           match (match p with None => Some "local"%string | Some i => sorted_ids !! i end) with
           | Some id => <[id := S (default 0%nat (m !! id))]> m
           | None => m
           end) ∅ layout.

Section Rebalance.
Context `{CryptoPrims} {N : Type} `{PN : !PeerNet N}.
Variable me : string.
Variable set_location_ok : string -> string -> bool.
Variable reach : gmap string string.
Variable sorted_ids : list string.
Variable target : gmap string nat.
(** The order of the entries of a hash map. *)
Variable hash_order : list (string * list ShardRow) -> list (string * list ShardRow).

Abbreviation wanted loc := (default 0%nat (target !! loc)).

(** The shards a location gives up; the pool is a stack, its top first. *)
Definition donate (acc : list ShardRow * gmap string (list ShardRow)) (e : string * list ShardRow)
    : list ShardRow * gmap string (list ShardRow) :=
  let '(pool, current) := acc in
  let '(loc, here) := e in
  if same loc "local" || bool_decide (is_Some (reach !! loc))
  then (drop (wanted loc) here ++ pool, <[loc := take (wanted loc) here]> current)
  else (pool, <[loc := here]> current).
Definition donors (current : gmap string (list ShardRow)) : list ShardRow * gmap string (list ShardRow) :=
  foldl donate ([], current) (hash_order (map_to_list current)).

Definition move_shard (s : ShardRow) (dest : string) : act N bool :=
  if same (location s) dest then mret false
  else
    got ← fetch_shard reach s;
    match got with
    | None => mret false
    | Some b =>
        if negb (same (hash s) "") && negb (same (Protocol.content_hash b) (hash s)) then mret false
        else
          ok ← place_shard me reach dest (fragment s) (shard_index s) b;
          if negb ok then mret false
          else
            set_location set_location_ok (fragment s) dest;;
            drop_shard me reach (location s) (fragment s);;
            mret true
    end.

(** [for _ in have..want { pool.pop() .. }]. *)
Fixpoint fill (n : nat) (dest : string) (pool : list ShardRow) (moved : Z) : act N (list ShardRow * Z) :=
  match n with
  | O => mret (pool, moved)
  | S n =>
      match pool with
      | [] => mret (pool, moved)
      | s :: pool =>
          ok ← move_shard s dest;
          fill n dest pool (if (ok : bool) then moved + 1 else moved)
      end
  end.

Definition receive (current : gmap string (list ShardRow)) (acc : list ShardRow * Z) (dest : string)
    : act N (list ShardRow * Z) :=
  fill (wanted dest - length (default [] (current !! dest))) dest acc.1 acc.2.

Definition rebalance_chunk (moved : Z) (c : ChunkRow * list ShardRow) : act N Z :=
  let '(pool, current) := donors (by_location c.2) in
  x ← act_fold (receive current) (pool, moved) ("local" :: sorted_ids);
  mret x.2.

Definition rebalance_file (rep : RebalanceReport) (f : FileRow) : act N RebalanceReport :=
  let rep := mkRebalance (rb_files rep + 1) (rb_moved rep) (rb_peers rep) in
  plan ← get (fun w : World N => pull_plan (w_db w) (r_user_id f) (r_file_id f));
  match plan with
  | Ok (_, chunks) =>
      moved ← act_fold rebalance_chunk (rb_moved rep) chunks;
      mret (mkRebalance (rb_files rep) moved (rb_peers rep))
  | _ => mret rep
  end.
End Rebalance.

Definition rebalance_all `{CryptoPrims} `{IpText} {N} `{PN : !PeerNet N}
    (parse_sock : string -> option (IpAddr * Z)) (me : string) (set_location_ok : string -> string -> bool)
    (hash_order : list (string * list ShardRow) -> list (string * list ShardRow))
    (rows : list PeerRow) (rtt : string -> option float) : act N RebalanceReport :=
  let live := live_peers rtt (placement_rows me rows) in
  let rep := mkRebalance 0 0 (len live) in
  if bool_decide (live = []) then mret rep
  else
    let sorted_ids := (fun l : LivePeer => peer_id l.1) <$> live in
    let reach := list_to_map ((fun l : LivePeer => (peer_id l.1, addr l.1)) <$> live) in
    files ← get (fun w : World N => list_all_files (w_db w));
    act_fold (rebalance_file me set_location_ok reach sorted_ids
                (target_counts (layout_for parse_sock live) sorted_ids) hash_order) rep files.
