(* ===== verification/RebalanceProofs.v ===== *)
(** * What the locality pass keeps ([rebalance.rs]) *)

From Stdlib Require Import Floats.
From Stdlib Require Import ZArith Lia Strings.Ascii Strings.String Strings.Byte.
From stdpp Require Import base numbers list gmap strings sorting.
From S2P Require Import Prelude External Erasure Crypto Pipeline Paths Manifest ManifestInv ChunkStore.
From S2P Require Import Service ServiceProofs ServiceSpec Protocol ReadPath Dht Placement Fleet Distribute Survival Repair RepairProofs Rebalance.

(** ** The pool *)

Lemma group_values (m : gmap string (list ShardRow)) loc s :
  mjoin (map_to_list (<[loc := default [] (m !! loc) ++ [s]]> m)).*2 ≡ₚ mjoin (map_to_list m).*2 ++ [s].
Proof.
  assert (Hins : forall (m : gmap string (list ShardRow)) l, m !! loc = None ->
    mjoin (map_to_list (<[loc := l]> m)).*2 ≡ₚ l ++ mjoin (map_to_list m).*2).
  { intros m' l Hm. rewrite map_to_list_insert by done. by rewrite fmap_cons. }
  destruct (m !! loc) as [l|] eqn:E; cbn [default].
  - rewrite <- (insert_delete_id m loc l E) at 2. rewrite <- insert_delete_eq.
    rewrite !Hins by apply lookup_delete_eq. rewrite <- !app_assoc. apply Permutation_app_head. apply Permutation_app_comm.
  - rewrite Hins by done. cbn [app]. apply Permutation_cons_append.
Qed.

Lemma by_location_values shards : mjoin (map_to_list (by_location shards)).*2 ≡ₚ shards.
Proof.
  unfold by_location.
  enough (Hg : forall m, mjoin (map_to_list (foldl (fun m s => <[location s := default [] (m !! location s) ++ [s]]> m) m shards)).*2
                ≡ₚ mjoin (map_to_list m).*2 ++ shards) by (rewrite Hg, map_to_list_empty; done).
  induction shards as [|s shards IH]; intros m; cbn [foldl]; [by rewrite app_nil_r|].
  rewrite IH, group_values. by rewrite <- app_assoc.
Qed.

Section Pool.
Variables (reach : gmap string string) (target : gmap string nat).
Variable hash_order : list (string * list ShardRow) -> list (string * list ShardRow).
Hypothesis hash_order_all : forall l, hash_order l ≡ₚ l.

Lemma donate_pool l : forall acc, (foldl (donate reach target) acc l).1 ⊆+ mjoin l.*2 ++ acc.1.
Proof.
  induction l as [|[loc here] l IH]; intros [pool current]; [done|]. cbn [foldl]. rewrite fmap_cons.
  rewrite mjoin_cons. etransitivity; [apply IH|]. unfold donate. destruct (_ || _); cbn [fst snd].
  - rewrite <- !app_assoc. rewrite (Permutation_app_comm here). rewrite <- !app_assoc. apply submseteq_app; [done|].
    rewrite (Permutation_app_comm pool here). apply submseteq_app; [|done].
    apply sublist_submseteq, sublist_drop.
  - rewrite <- app_assoc. by apply submseteq_inserts_l.
Qed.

(** Every donated shard is a row of the chunk, once. *)
Lemma donors_pool shards : (donors reach target hash_order (by_location shards)).1 ⊆+ shards.
Proof.
  unfold donors. etransitivity; [apply donate_pool|]. cbn [fst]. rewrite app_nil_r.
  rewrite hash_order_all, by_location_values. done.
Qed.
End Pool.

(** ** One move *)

Section Moves.
Context {CP : CryptoPrims} {CL : CryptoLaws} {N : Type} {PN : PeerNet N} {HN : HonestNet N}.
Variable dir : gmap string string.
Variable me : string.
Variable set_location_ok : string -> string -> bool.
Hypothesis set_location_works : forall f l, set_location_ok f l = true.
Variable reach : gmap string string.
Hypothesis reach_dir : forall pid a, reach !! pid = Some a -> dir !! pid = Some a.
Hypothesis reach_inj : forall p q a, reach !! p = Some a -> reach !! q = Some a -> p = q.
Variable db0 : Db.

Abbreviation view := (mkView reach ∅ ∅ ∅).

(** Dropping the copy at [loc] leaves the one at [dest]. *)
Lemma drop_keeps loc dest f (w : World N) :
  loc <> dest -> dest = "local" \/ is_Some (reach !! dest) ->
  let r := drop_shard me reach loc f w in
  moves_only f w r.1 /\ w_db r.1 = w_db w /\ shard_at dir r.1 dest f = shard_at dir w dest f.
Proof.
  intros Hne Hdest. cbv zeta. unfold drop_shard. destruct (same loc "local") eqn:El.
  - apply bool_decide_eq_true in El as ->. destruct (delete_local_rest f w) as [Ed En].
    split; [apply delete_local_moves|split; [done|]]. unfold shard_at.
    rewrite same_false by congruence. by rewrite En.
  - destruct (reach !! loc) as [a|] eqn:Ea; [|unfold mret, act_ret; split; [apply moves_refl|done]].
    unfold mbind, act_bind, mret, act_ret, signed_request_to.
    pose proof (delete_other a f me (w_net w)) as Hk. destruct (ask_signed a _ (w_net w)) as [n rr]. cbn [fst snd w_net w_db w_store] in *.
    split; [|split; [done|]].
    + split; cbn; [done| |by left]. intros g x Hg. apply Hk. congruence.
    + unfold shard_at. cbn [w_store w_net]. destruct (same dest "local") eqn:Edl; [done|].
      destruct Hdest as [->|[x Hx]]; [done|]. rewrite (reach_dir _ _ Hx). cbn.
      apply Hk. intros [= ->]. by apply Hne, (reach_inj _ _ a).
Qed.

(** The state of a pass: the rows of the start, nothing lost since. *)
Definition going (w0 w : World N) : Prop :=
  no_loss dir w0 w /\ same_shards db0 (w_db w) /\ db_inv (w_db w).
(** The other shards stay where they are. *)
Definition others (f : string) (w w' : World N) : Prop :=
  forall g loc, g <> f -> kept_at dir w g loc -> kept_at dir w' g loc.
Lemma others_moves f w w' : moves_only f w w' -> others f w w'.
Proof. intros Hm g loc Hg. by eapply moves_kept_at. Qed.
Lemma others_trans f w1 w2 w3 : others f w1 w2 -> others f w2 w3 -> others f w1 w3.
Proof. intros H1 H2 g loc Hg Hk. by apply H2, H1. Qed.

Lemma place_moves target f i b (w : World N) :
  let r := place_shard me reach target f i b w in moves_only f w r.1 /\ w_db r.1 = w_db w.
Proof.
  cbv zeta. unfold place_shard. destruct (same target "local").
  - split; [apply write_local_moves|]. unfold write_local. by destruct (write _ _ _).
  - destruct (reach !! target) as [a|]; [|split; [apply moves_refl|done]].
    unfold mbind, act_bind, mret, act_ret. pose proof (store_moves me f a i b w) as Hm.
    destruct (store_rest me f a i b w) as [Ed _]. by destruct (signed_request_to a _ w).
Qed.

(** The last steps of a move, once the bytes are at [dest]. *)
Lemma settle_keeps s dest b (w : World N) :
  location s <> dest -> dest = "local" \/ is_Some (reach !! dest) ->
  let f := fragment s in
  let r := (set_location set_location_ok f dest;; drop_shard me reach (location s) f;; mret true) w in
  others f w r.1 /\ w_db r.1 = set_shard_location (w_db w) f dest /\
  (recorded w f b -> shard_at dir w dest f = Some b -> kept dir r.1 f).
Proof.
  intros Hne Hd. cbv zeta. set (f := fragment s). unfold mbind, act_bind, mret, act_ret.
  pose proof (set_location_moves set_location_ok f dest w) as Hm1.
  pose proof (set_location_located set_location_ok f dest w (set_location_works f dest)) as Hl1.
  destruct (set_location_rest set_location_ok f dest w) as [Es En].
  assert (Edb : w_db (set_location set_location_ok f dest w).1 = set_shard_location (w_db w) f dest)
    by (unfold set_location; by rewrite set_location_works).
  destruct (set_location set_location_ok f dest w) as [w1 u]. cbn [fst snd] in *.
  destruct (drop_keeps (location s) dest f w1 Hne Hd) as (Hm2 & Edb2 & Hat).
  destruct (drop_shard me reach (location s) f w1) as [w2 v]. cbn [fst snd] in *.
  split; [eapply others_trans; by apply others_moves|split; [congruence|]].
  intros Hr Hb. exists dest. split; [unfold located; rewrite Edb2; exact Hl1|]. exists b.
  split; [by eapply moves_recorded, moves_recorded|]. rewrite Hat. unfold shard_at in *. by rewrite Es, En.
Qed.

Lemma fetched_recorded s b (w : World N) :
  s ∈ shard_rows (w_db w) -> verify_hash b (hash s) = true -> kept dir w (fragment s) -> recorded w (fragment s) b.
Proof.
  intros Hs Hv (loc & _ & v & Hr & _) x Hx Ef. rewrite (Hr x Hx Ef), <- (Hr s Hs eq_refl).
  unfold verify_hash in Hv. rewrite (Hr s Hs eq_refl) in *. apply orb_true_iff in Hv as [E|E]; apply bool_decide_eq_true in E.
  - by apply shard_hash_ne in E.
  - done.
Qed.

Lemma move_keeps s dest (w : World N) :
  s ∈ shard_rows (w_db w) -> dest = "local" \/ is_Some (reach !! dest) ->
  let r := move_shard me set_location_ok reach s dest w in
  no_loss dir w r.1 /\ (w_db r.1 = w_db w \/ w_db r.1 = set_shard_location (w_db w) (fragment s) dest).
Proof.
  intros Hs Hd. cbv zeta. unfold move_shard. destruct (same (location s) dest) eqn:El; [split; [apply no_loss_refl|by left]|].
  apply bool_decide_eq_false in El. unfold mbind, act_bind, mret, act_ret.
  destruct (fetch_quiet view s w) as [Hq Hv]. cbn [reachable] in *.
  destruct (fetch_shard reach s w) as [w1 got]. cbn [fst snd] in *.
  pose proof (quiet_no_loss dir _ _ Hq) as Hn1. pose proof (proj1 Hq) as Ed1.
  destruct got as [b|]; [|cbn [fst]; split; [done|by left; congruence]].
  specialize (Hv b eq_refl). destruct (negb _ && negb _); [cbn [fst]; split; [done|by left; congruence]|].
  assert (Hrec : kept dir w (fragment s) -> recorded w1 (fragment s) b).
  { intros Hk. unfold recorded. rewrite Ed1. by apply fetched_recorded. }
  destruct (place_moves dest (fragment s) (shard_index s) b w1) as [Hm2 Ed2].
  pose proof (fun Hr => place_keeps dir me view reach_dir dest (fragment s) (shard_index s) b w1 Hr) as Hp.
  cbn [reachable] in Hp. destruct (place_shard me reach dest (fragment s) (shard_index s) b w1) as [w2 ok].
  cbn [fst snd] in *.
  assert (Hn2 : no_loss dir w w2).
  { intros g Hg. destruct (decide (g = fragment s)) as [->|Hne].
    - destruct (Hp (Hrec Hg)) as (_ & _ & Hn & _). by apply Hn, Hn1.
    - destruct (Hn1 g Hg) as (loc & Hk). exists loc. by eapply others_moves. }
  destruct ok; cbn [negb]; [|cbn [fst]; split; [done|left; congruence]].
  destruct (settle_keeps s dest b w2 El Hd) as (Ho & Ed3 & Hk3).
  unfold mbind, act_bind, mret, act_ret in Ho, Ed3, Hk3. split; [|right; congruence].
  intros g Hg. destruct (decide (g = fragment s)) as [->|Hne].
  - destruct (Hp (Hrec Hg)) as (_ & _ & _ & Hat). apply Hk3; [|by apply Hat]. eapply moves_recorded; [exact Hm2|by apply Hrec].
  - destruct (Hn2 g Hg) as (loc & Hk). exists loc. by apply Ho.
Qed.

(** Rows still to be handled: present, each fragment once. *)
Definition ready (l : list ShardRow) (w : World N) : Prop :=
  Forall (fun s => s ∈ shard_rows (w_db w)) l /\ NoDup (fragment <$> l).

Lemma ready_sub l l' w : l' ⊆+ l -> ready l w -> ready l' w.
Proof.
  intros Hs [Hf Hn]. split.
  - rewrite Forall_forall in *. intros s Hin. apply Hf. by eapply elem_of_submseteq.
  - apply submseteq_Permutation in Hs as (k & Hk).
    apply (fmap_Permutation fragment) in Hk. rewrite Hk, fmap_app in Hn. by apply NoDup_app in Hn as [? _].
Qed.

Lemma move_going w0 s dest l (w : World N) :
  going w0 w -> ready (s :: l) w -> dest = "local" \/ is_Some (reach !! dest) ->
  let r := move_shard me set_location_ok reach s dest w in going w0 r.1 /\ ready l r.1.
Proof.
  intros (Hn & Ha & Hi) [Hf Hnd] Hd. apply Forall_cons in Hf as [Hs Hf]. apply NoDup_cons in Hnd as [Hs' Hnd].
  destruct (move_keeps s dest w Hs Hd) as (Hn' & Hdb). cbv zeta.
  split; [split; [by eapply no_loss_trans|]|split; [|done]].
  - destruct Hdb as [-> | ->]; [done|]. split; [by apply same_shards_relocate|by apply set_location_inv].
  - destruct Hdb as [-> | ->]; [done|]. rewrite Forall_forall in *. intros x Hx. apply relocated_rows. exists x.
    split; [by apply Hf|]. rewrite same_false; [done|]. intros E. apply Hs'. rewrite <- E. by apply list_elem_of_fmap_2.
Qed.

Lemma fill_going w0 dest l n : forall pool moved (w : World N),
  going w0 w -> ready (pool ++ l) w -> dest = "local" \/ is_Some (reach !! dest) ->
  let r := fill me set_location_ok reach n dest pool moved w in going w0 r.1 /\ ready (r.2.1 ++ l) r.1.
Proof.
  induction n as [|n IH]; intros [|s pool] moved w Hg Hr Hd; [done..|]. cbn [fill]. unfold mbind, act_bind.
  destruct (move_going w0 s dest (pool ++ l) w Hg Hr Hd) as [Hg1 Hr1].
  destruct (move_shard _ _ _ s dest w) as [w1 ok]. cbn [fst] in *. by apply IH.
Qed.

Variable sorted_ids : list string.
Hypothesis sorted_reach : Forall (fun id => is_Some (reach !! id)) sorted_ids.
Variable target : gmap string nat.
Variable hash_order : list (string * list ShardRow) -> list (string * list ShardRow).
Hypothesis hash_order_all : forall l, hash_order l ≡ₚ l.

Lemma chunk_going w0 moved c l (w : World N) :
  going w0 w -> ready (c.2 ++ l) w ->
  let r := rebalance_chunk me set_location_ok reach sorted_ids target hash_order moved c w in
  going w0 r.1 /\ ready l r.1.
Proof.
  intros Hg Hr. cbv zeta. unfold rebalance_chunk.
  pose proof (donors_pool reach target hash_order hash_order_all c.2) as Hp.
  destruct (donors reach target hash_order (by_location c.2)) as [pool current]. cbn [fst] in Hp.
  assert (Hr' : ready (pool ++ l) w) by (eapply ready_sub; [|exact Hr]; by apply submseteq_app).
  pose proof (act_fold_inv (fun d => d = "local" \/ is_Some (reach !! d)) (receive me set_location_ok reach target current)
    (fun x w' => going w0 w' /\ ready (x.1 ++ l) w')
    (fun x d w' Hd Hx => fill_going w0 d l _ x.1 x.2 w' (proj1 Hx) (proj2 Hx) Hd)
    ("local" :: sorted_ids) (pool, moved) w) as Hfold.
  unfold mbind, act_bind, mret, act_ret. destruct (act_fold _ _ _ w) as [w1 x]. cbn [fst snd] in *.
  destruct Hfold as [Hg1 Hr1]; [|done|].
  - constructor; [by left|]. eapply Forall_impl; [exact sorted_reach|]. by right.
  - split; [done|]. eapply ready_sub; [|exact Hr1]. by apply submseteq_inserts_l.
Qed.

Lemma chunks_going w0 cs : forall moved (w : World N),
  going w0 w -> ready (mjoin (snd <$> cs)) w ->
  going w0 (act_fold (rebalance_chunk me set_location_ok reach sorted_ids target hash_order) moved cs w).1.
Proof.
  induction cs as [|c cs IH]; intros moved w Hg Hr; [done|]. cbn [act_fold]. unfold mbind, act_bind.
  destruct (chunk_going w0 moved c (mjoin (snd <$> cs)) w Hg Hr) as [Hg1 Hr1].
  destruct (rebalance_chunk _ _ _ _ _ _ moved c w) as [w1 m]. cbn [fst] in *. by apply IH.
Qed.

Lemma file_going w0 rep f (w : World N) :
  going w0 w ->
  going w0 (rebalance_file me set_location_ok reach sorted_ids target hash_order rep f w).1.
Proof.
  intros Hg. unfold rebalance_file, get, pull_plan. unfold mbind at 1, act_bind at 1.
  destruct (get_file (w_db w) (r_user_id f) (r_file_id f)) as [row|]; cbn [ok_or mbind res_bind]; [|done].
  unfold mbind, act_bind, mret, act_ret.
  pose proof (chunks_going w0 ((fun c => (c, get_shards (w_db w) (chunk_id_of c))) <$> get_chunks (w_db w) (r_file_id f))
    (rb_moved (mkRebalance (rb_files rep + 1) (rb_moved rep) (rb_peers rep))) w Hg) as Hc.
  destruct (act_fold _ _ _ w) as [w1 m]. cbn [fst] in *. apply Hc. destruct Hg as (_ & _ & Hi).
  rewrite <- list_fmap_compose. split.
  - apply Forall_forall. intros s Hs. apply list_elem_of_join in Hs as (l & Hs & Hl).
    apply list_elem_of_fmap in Hl as (c & -> & _). by eapply shards_in_db.
  - apply (plan_nodup (w_db w)); [done|by apply get_chunks_nodup].
Qed.
End Moves.

(** ** The whole pass *)

Section Pass.
Context {CP : CryptoPrims} {CL : CryptoLaws} {N : Type} {PN : PeerNet N} {HN : HonestNet N} {IT : IpText}.

End Pass.

(** ** Hysteresis *)

Definition at_location (loc : string) (shards : list ShardRow) : list ShardRow :=
  filter (fun s => location s = loc) shards.

Lemma by_location_lookup shards loc l : by_location shards !! loc = Some l -> l = at_location loc shards.
Proof.
  enough (Hg : forall (m : gmap string (list ShardRow)) l,
    foldl (fun m s => <[location s := default [] (m !! location s) ++ [s]]> m) m shards !! loc = Some l ->
    l = default [] (m !! loc) ++ at_location loc shards).
  { intros Hl. rewrite (Hg ∅ l Hl), lookup_empty. done. }
  clear l. unfold at_location. induction shards as [|s shards IH]; intros m l; cbn [foldl].
  { intros ->. by rewrite app_nil_r. }
  intros ->%IH. rewrite filter_cons. case_decide as E.
  - subst loc. rewrite lookup_insert_eq. cbn. by rewrite <- app_assoc.
  - by rewrite lookup_insert_ne.
Qed.

(** No location holds more than its count. *)
Definition within (target : gmap string nat) (shards : list ShardRow) : Prop :=
  forall loc, (length (at_location loc shards) <= default 0%nat (target !! loc))%nat.

Lemma within_donors reach target hash_order shards :
  (forall l, hash_order l ≡ₚ l) -> within target shards ->
  (donors reach target hash_order (by_location shards)).1 = [].
Proof.
  intros Hho Hw. unfold donors.
  assert (Hall : Forall (fun e : string * list ShardRow => drop (default 0%nat (target !! e.1)) e.2 = [])
            (hash_order (map_to_list (by_location shards)))).
  { rewrite Hho. apply Forall_forall. intros [loc l] ->%elem_of_map_to_list%by_location_lookup. apply drop_ge, Hw. }
  revert Hall. generalize (hash_order (map_to_list (by_location shards))) as es. generalize (by_location shards) as cur.
  intros cur es. revert cur. induction es as [|[loc here] es IH]; intros cur Hall; [done|].
  apply Forall_cons in Hall as [Hd Hall]. cbn in Hd. cbn [foldl donate]. destruct (_ || _); [rewrite Hd|]; by apply IH.
Qed.

Section Settled.
Context {CP : CryptoPrims} {N : Type} {PN : PeerNet N} {IT : IpText}.
Variable me : string.
Variable set_location_ok : string -> string -> bool.

Lemma settled_chunk reach ids target hash_order moved c (w : World N) :
  (forall l, hash_order l ≡ₚ l) -> within target c.2 ->
  rebalance_chunk me set_location_ok reach ids target hash_order moved c w = (w, moved).
Proof.
  intros Hho Hw. unfold rebalance_chunk. pose proof (within_donors reach target hash_order c.2 Hho Hw) as Hp.
  destruct (donors reach target hash_order (by_location c.2)) as [pool current]. cbn [fst] in Hp. subst pool.
  pose proof (act_fold_inv (fun _ => True) (receive me set_location_ok reach target current)
    (fun x w' => w' = w /\ x = ([], moved))) as Hf.
  destruct (Hf ltac:(intros x d w' _ [-> ->]; unfold receive; by destruct (_ - _)%nat) ("local" :: ids) ([], moved) w)
    as [E1 E2]; [by apply Forall_forall|done|].
  unfold mbind, act_bind, mret, act_ret. destruct (act_fold _ _ _ w) as [w1 x]. cbn [fst snd] in *. by subst.
Qed.

(** The pass is stable: when no location holds more shards of a chunk than the layout
    gives it, nothing is fetched, stored, recorded or deleted - the pass answers the same
    world, with every file scanned and no shard moved. *)
Theorem rebalance_settled parse_sock hash_order rows rtt (w : World N) :
  let live := live_peers rtt (placement_rows me rows) in
  let target := target_counts (layout_for parse_sock live) ((fun l : LivePeer => peer_id l.1) <$> live) in
  (forall l, hash_order l ≡ₚ l) ->
  (forall c, c ∈ chunk_rows (w_db w) -> within target (get_shards (w_db w) (chunk_id_of c))) ->
  rebalance_all parse_sock me set_location_ok hash_order rows rtt w =
    (w, mkRebalance (if bool_decide (live = []) then 0 else len (list_all_files (w_db w))) 0 (len live)).
Proof.
  intros live target Hho Hw. unfold rebalance_all. fold live. case_bool_decide; [done|].
  unfold get, mbind at 1, act_bind at 1. fold target.
  enough (Hg : forall fs rep, act_fold (rebalance_file me set_location_ok _ _ target hash_order) rep fs w =
    (w, mkRebalance (rb_files rep + len fs) (rb_moved rep) (rb_peers rep))) by by rewrite Hg.
  induction fs as [|f fs IH]; intros rep; cbn [act_fold].
  { unfold mret, act_ret, len. cbn. destruct rep; cbn. by rewrite Z.add_0_r. }
  unfold mbind, act_bind. 
  assert (E : forall reach ids, rebalance_file me set_location_ok reach ids target hash_order rep f w =
            (w, mkRebalance (rb_files rep + 1) (rb_moved rep) (rb_peers rep))).
  { intros reach ids. unfold rebalance_file, get, pull_plan. unfold mbind at 1, act_bind at 1.
    destruct (get_file (w_db w) (r_user_id f) (r_file_id f)) as [row|]; cbn [ok_or mbind res_bind]; [|done].
    pose proof (act_fold_inv (fun c : ChunkRow * list ShardRow => within target c.2)
      (rebalance_chunk me set_location_ok reach ids target hash_order)
      (fun x w' => w' = w /\ x = rb_moved rep)
      ltac:(intros x c w' Hc [-> ->]; by rewrite settled_chunk)) as Hf.
    destruct (Hf ((fun c => (c, get_shards (w_db w) (chunk_id_of c))) <$> get_chunks (w_db w) (r_file_id f)) (rb_moved rep) w)
      as [E1 E2]; [|done|].
    - apply Forall_fmap, Forall_forall. intros c [Hc _]%elem_of_get_chunks. by apply Hw.
    - unfold mbind, act_bind, mret, act_ret. cbn [rb_moved]. destruct (act_fold _ _ _ w) as [w1 x]. cbn [fst snd] in *. by subst. }
  rewrite E, IH. cbn [rb_files rb_moved rb_peers].
  assert (rb_files rep + 1 + len fs = rb_files rep + len (f :: fs)) as -> by (unfold len; cbn [length]; lia). done.
Qed.
End Settled.
