(* ===== verification/FleetWitness.v ===== *)
(** * Concrete runs of the passes of the server

    A node with one pushed file and three hosts behind their listeners: the file is spread,
    two of the hosts go silent, the file is read, checked and repaired. The theorems of
    [ReadPath.v], [DistributeProofs.v], [Survival.v], [RepairProofs.v], [RepairSpec.v] and
    [RebalanceProofs.v]
    applied to these states. *)

From Stdlib Require Import Floats.
From Stdlib Require Import ZArith Lia Strings.Ascii Strings.String Strings.Byte.
From stdpp Require Import base numbers list gmap strings sorting.
From S2P Require Import Prelude External Erasure RSCode Crypto Pipeline Paths Manifest ManifestInv ChunkStore.
From S2P Require Import Service ServiceProofs ServiceSpec Packs PackProofs ServiceInv ServiceWitness.
From S2P Require Import Protocol Server Client Host Dht DhtProofs DhtWitness ReadPath Placement Fleet HostNet Distribute DistributeProofs Survival Repair RepairProofs RepairSpec Rebalance RebalanceProofs.
Import Toy ToyWire.
Import StoreRun DhtRun.

Module FleetRun.
#[local] Existing Instance flat_log2.

(** ** The fleet *)

Definition host_of (id : string) : Host :=
  mkHost id 3119 None false ∅ ∅ {[ "me"%string := None ]} (Some (1048576, 0)).
Definition net0 : Hosts := mkHosts _ _
  (list_to_map [("a1"%string, host_of "p1"); ("a2"%string, host_of "p2"); ("a3"%string, host_of "p3");
                ("a4"%string, host_of "p4")]) ("", new_session, 0%nat).
#[export] Instance net : PeerNet Hosts := host_net "ip" (fun _ => None) None "me" 1 None.
#[export] Instance net_honest : HonestNet Hosts := hosts_honest "ip" (fun _ => None) None "me" 1 None.

Definition peer (id a : string) : PeerRow := mkPeer id a None (Some a) 100 "active".
Definition rows : list PeerRow := [peer "p1" "a1"; peer "p2" "a2"; peer "p3" "a3"; peer "p4" "a4"; peer "me" "a0"].
Definition rtt (a : string) : option float := Some 10%float.
Definition no_sock (s : string) : option (IpAddr * Z) := None.

Definition spread := distribution no_sock "me" rows [] [] (fun _ => Unavailable) rtt w1.1 "u" id1.
Definition all_ok (f l : string) : bool := true.
(** Seven rounds over the tasks. *)
Definition rounds : list nat := mjoin (replicate 7 (seq 0 (length spread.2))).
Definition run := run_tasks "me" all_ok spread.1 rounds (mkWorld w1.1 w1.2 net0, spread.2).
Definition world : World Hosts := run.1.
Definition readers : gmap string string := directory rows.

(** The hosts that still answer, with what they hold. *)
Definition up (a : string) : bool := negb (bool_decide (a = "a4"%string)).
Definition answer (a : string) (m : P2pMessage) : option P2pMessage :=
  match m with
  | GetShard f => if up a then ShardData f <$> held_by (w_net world) a f else None
  | _ => None
  end.
Definition in_order (c : ChunkRow) (l : list ShardRow) : list ShardRow := l.
Definition got := download key answer readers in_order (fun k => k) (w_db world) (w_store world) "u" id1.

Lemma w1_stored :
  db_inv w1.1 /\ file_stored key w1.1 "u" id1 (as_bytes "hello") /\
  (forall c s, c ∈ get_chunks w1.1 id1 -> s ∈ get_shards w1.1 (chunk_id_of c) ->
     location s = "local" /\ exists b, read w1.2 (fragment s) = Ok b /\ Manifest.hash s = shard_hash b).
Proof.
  assert (Hid : pr_file_id r1 = id1) by (vm_compute; reflexivity). rewrite <- Hid.
  exact (push_file_stored key empty_db "u" "notes/a" (as_bytes "hello") rnd1 "t1" ∅ _ _ _ empty_inv
           ltac:(apply short_ok; reflexivity) push1 ltac:(vm_compute; reflexivity)).
Qed.

Lemma ids_ok : NoDup (peer_id <$> rows) /\ "local" ∉ peer_id <$> rows.
Proof. split; apply (bool_decide_unpack _); vm_compute; exact I. Qed.

Lemma spread_eq :
  distribution no_sock "me" rows [] [] (fun _ => Unavailable) rtt w1.1 "u" id1 = (spread.1, spread.2).
Proof. unfold spread. apply surjective_pairing. Qed.
Lemma spread_run_eq :
  run_tasks "me" all_ok spread.1 rounds (mkWorld w1.1 w1.2 net0, spread.2) = (world, run.2).
Proof. unfold world, run. apply surjective_pairing. Qed.

Lemma spread_shape :
  NoDup ((fun t => fragment (task_shard t)) <$> spread.2) /\ Forall (fun t => exists s p, t = Start s p) spread.2.
Proof.
  destruct w1_stored as (Hinv & _). destruct ids_ok as [H1 H2].
  destruct (distribution_shape no_sock "me" rows [] [] (fun _ => Unavailable) rtt w1.1 "u" id1 spread.1 spread.2
    H1 H2 Hinv spread_eq) as (_ & ? & ?). done.
Qed.

(** ** Spreading and reading *)

Lemma holders_up c :
  c ∈ get_chunks (w_db world) (pr_file_id r1) ->
  (DATA_SHARDS <= length (filter (holder_up rows up readers) (get_shards (w_db world) (chunk_id_of c))))%nat.
Proof.
  revert c. apply Forall_forall.
  assert (Hb : forallb (fun c => (DATA_SHARDS <=?
      length (filter (holder_up rows up readers) (get_shards (w_db world) (chunk_id_of c))))%nat)
    (get_chunks (w_db world) (pr_file_id r1)) = true) by (vm_compute; reflexivity).
  rewrite forallb_forall in Hb. apply Forall_forall. intros c Hc%list_elem_of_In. by apply Nat.leb_le, Hb.
Qed.

Lemma held_is (n : Hosts) a f : held n a f = held_by n a f.
Proof. reflexivity. Qed.
Lemma answers a f b : up a = true -> held (w_net world) a f = Some b -> answer a (GetShard f) = Some (ShardData f b).
Proof. intros Hu Hh. unfold answer. rewrite Hu. rewrite held_is in Hh. rewrite Hh. reflexivity. Qed.


Lemma world_stored : file_stored key (w_db world) "u" id1 (as_bytes "hello").
Proof.
  exact (run_keeps_stored "me" all_ok spread.1 key rounds _ _ _ _ _ _ _ _ _ spread_run_eq (proj1 (proj2 w1_stored))).
Qed.

(** Three of the four hosts silent: the file is an error, not other bytes. *)
Definition one_left (a : string) (m : P2pMessage) : option P2pMessage :=
  if bool_decide (a = "a1"%string) then answer a m else None.


(** ** Interruption *)

Definition frag5 : string := fragment (task_shard (default (Finished (mkShard "" "" 0 "" "")) (spread.2 !! 5%nat))).
(** A crash when the sixth task has been answered but has not recorded it. *)
Definition cut : list nat := [5; 5]%nat.
Definition crashed := run_tasks "me" all_ok spread.1 cut (mkWorld w1.1 w1.2 net0, spread.2).

Definition rows_of (db : Db) (f : string) : list ShardRow := filter (fun s => fragment s = f) (shard_rows db).
Lemma kept_local (w : World Hosts) f b :
  Forall (fun s => location s = "local" /\ Manifest.hash s = shard_hash b) (rows_of (w_db w) f) ->
  read_local (w_store w) f = Some b -> kept_at (directory rows) w f "local".
Proof.
  intros Hall Hb. rewrite Forall_forall in Hall.
  split; [intros s Hs Hf; apply Hall, list_elem_of_filter; done|].
  exists b. split; [intros s Hs Hf; apply Hall, list_elem_of_filter; done|exact Hb].
Qed.

Lemma frag5_kept : kept_at (directory rows) (mkWorld w1.1 w1.2 net0) frag5 "local".
Proof.
  apply (kept_local _ _ (default [] (read_local w1.2 frag5))).
  - apply (bool_decide_unpack _). vm_compute. exact I.
  - vm_compute. reflexivity.
Qed.

Lemma crashed_eq :
  run_tasks "me" all_ok spread.1 cut (mkWorld w1.1 w1.2 net0, spread.2) = (crashed.1, crashed.2).
Proof. unfold crashed. apply surjective_pairing. Qed.


Lemma task5 : spread.2 !! 5%nat <> None.
Proof. apply (bool_decide_unpack _). vm_compute. exact I. Qed.

Lemma distribution_ends_witness :
  exists s, run.2 !! 5%nat = Some (Finished s).
Proof.
  enough (Hg : forall w ts, run_tasks "me" all_ok spread.1 rounds (mkWorld w1.1 w1.2 net0, spread.2) = (w, ts) ->
    exists s, ts !! 5%nat = Some (Finished s)) by exact (Hg _ _ spread_run_eq).
  intros w ts Hr.
  pose proof (distribution_ends "me" all_ok spread.1 rounds (mkWorld w1.1 w1.2 net0) spread.2 5
    ltac:(apply Nat.leb_le; vm_compute; reflexivity)) as H.
  rewrite Hr in H. cbn [snd] in H. destruct (ts !! 5%nat) as [t|]; [destruct H as [s ->]; exists s; reflexivity|].
  destruct (task5 H).
Defined.

(** ** Repair *)

Lemma w1_chunks : chunk_rows w1.1 = get_chunks w1.1 id1.
Proof. vm_compute. reflexivity. Qed.

Lemma w1_recorded : chunks_recorded w1.1.
Proof.
  intros c Hc. rewrite w1_chunks in Hc. destruct w1_stored as (_ & (f & fc & pieces & _ & _ & _ & _ & Hst) & _).
  apply list_elem_of_lookup in Hc as (i & Hi).
  destruct (Forall2_lookup_l _ _ _ _ _ Hst Hi) as (piece & _ & cipher & all & buf & He & Hl & _ & _ & Hr).
  exists all, cipher. exact (conj He (conj Hl Hr)).
Qed.

(** The disk lost one shard. *)
Definition store2 : ChunkStore := default ∅ (res_ok (ChunkStore.delete w1.2 frag5)).
Definition frag6 : string := fragment (task_shard (default (Finished (mkShard "" "" 0 "" "")) (spread.2 !! 6%nat))).
Definition repaired := repair_all "me" all_ok rows rtt (fun _ => false) 0 600 (mkWorld w1.1 store2 net0).

Lemma frag6_kept : kept_at (directory rows) (mkWorld w1.1 store2 net0) frag6 "local".
Proof.
  apply (kept_local _ _ (default [] (read_local w1.2 frag6))).
  - apply (bool_decide_unpack _). vm_compute. exact I.
  - vm_compute. reflexivity.
Qed.


(** Peers that take everything they are offered. *)
Definition Shelf : Type := gmap (string * string) bytes.
#[local] Instance shelf_net : PeerNet Shelf := {|
  ask a m n := (n, match m with
                   | GetShard f => match n !! (a, f) with Some b => Ok (ShardData f b) | None => Ok (ShardNotFound f) end
                   | AuditShard f =>
                       match n !! (a, f) with Some b => Ok (AuditResult f (shard_hash b)) | None => Ok (AuditResult f "") end
                   | _ => Ok (ErrorMsg "unexpected")
                   end);
  ask_signed a m n := match m with
                      | StoreShard f _ _ b => (<[(a, f) := b]> n, Ok (Ack f))
                      | DeleteShard f _ => (base.delete (a, f) n, Ok (Ack f))
                      | _ => (n, Ok (ErrorMsg "unexpected"))
                      end
|}.
#[local] Instance shelf_honest : HonestNet Shelf.
Proof.
  refine {| held n a f := n !! (a, f) |}.
  - intros a m n _ x f. reflexivity.
  - intros a f n n' g b. cbn. destruct (n !! (a, f)); [congruence|discriminate].
  - intros a f n n' g h. cbn. destruct (n !! (a, f)) as [b|]; [|congruence]. intros E _. exists b. split; congruence.
  - intros a f o i b n x g Hne. cbn. apply lookup_insert_ne. congruence.
  - intros a f o i b n. cbn. right. apply lookup_insert_eq.
  - intros a f o i b n n' g. cbn. intros E. assert (n' = <[(a, f) := b]> n) as -> by congruence. apply lookup_insert_eq.
  - intros a f o n x g Hne. cbn. apply lookup_delete_ne. congruence.
Defined.

Definition shelf_world : World Shelf := mkWorld w1.1 store2 ∅.
Definition view : PeerView := peer_view (filter (fun p => peer_id p <> "me"%string) rows) rtt (fun _ => false).
Definition scrub : ScrubPlan := ScrubPlan_new 0 600.
Definition the_chunk : ChunkRow := default (mkChunk "" "" 0 [] false 0 0 0) (head (chunk_rows w1.1)).
Definition assessed := assess_chunk view scrub the_chunk (get_shards w1.1 (chunk_id_of the_chunk)) rep0 shelf_world.
Definition the_loss : Degraded := default (mkDegraded the_chunk [] [] [] 0) assessed.2.1.

Lemma some_of {A B C} (x : A * (option B * C)) d :
  is_none x.2.1 = false -> x = (x.1, (Some (default d x.2.1), x.2.2)).
Proof. destruct x as [a [[b|] c]]; [reflexivity|discriminate]. Qed.
Lemma assessed_eq :
  assess_chunk view scrub the_chunk (get_shards w1.1 (chunk_id_of the_chunk)) rep0 shelf_world
    = (assessed.1, (Some the_loss, assessed.2.2)).
Proof. unfold the_loss, assessed. apply some_of. vm_compute. reflexivity. Qed.

Lemma view_dir pid a : reachable view !! pid = Some a -> directory rows !! pid = Some a.
Proof.
  assert (E : reachable view = base.delete "me"%string (directory rows)).
  { apply (bool_decide_unpack _). vm_compute. exact I. }
  intros Hr. rewrite E in Hr. apply lookup_delete_Some in Hr as [_ Hr]. exact Hr.
Qed.

Lemma the_chunk_in : the_chunk ∈ chunk_rows w1.1.
Proof.
  assert (E : is_none (head (chunk_rows w1.1)) = false) by (vm_compute; reflexivity).
  unfold the_chunk. destruct (chunk_rows w1.1) as [|c l]; [discriminate E|left].
Qed.


(** ** Scrub and health *)

Lemma scrub_once_per_cycle_witness :
  exists k : nat, (k < 28)%nat /\ due (ScrubPlan_new (1700000000 + Z.of_nat k * 21600) 21600) frag5 = true.
Proof.
  pose proof (scrub_once_per_cycle frag5 1700000000 21600 ltac:(lia) ltac:(lia)) as H.
  assert (Eb : Z.to_nat (buckets (ScrubPlan_new 1700000000 21600)) = 28%nat) by (vm_compute; reflexivity).
  rewrite Eb in H. revert H. generalize frag5. intros f H. destruct (filter _ _) as [|k l] eqn:E; [discriminate H|].
  assert (Hk : k ∈ k :: l) by left. rewrite <- E in Hk. apply list_elem_of_filter in Hk as [Hd Hs].
  apply elem_of_seq in Hs. exists k. split; [lia|exact Hd].
Defined.

Definition healthy : PeerHealth := mkHealth 100 (Some 20%float) 0 "active".
Lemma peer_down_exact_witness :
  let r := run_health 3 healthy [None; None; Some 30%float; None; None; None] in
  h_status r.1 = "down" /\ r.2 = true.
Proof.
  pose proof (peer_down_exact 3 healthy [None; None; Some 30%float; None; None; None] ltac:(lia) eq_refl eq_refl) as H.
  cbv zeta. destruct (run_health _ _ _) as [h' b]. destruct H as (_ & [_ Hd] & [_ Hw]). cbn [fst snd].
  split; [apply Hd; discriminate|apply Hw; split; [reflexivity|discriminate]].
Defined.

(** ** What the tasks do not guard against *)

(** The tasks drop the local copy of a shard whose new location could not be written: the
    answer of the manifest is discarded, so when that one write fails the row still says
    this node, the only copy is on a peer no row names, and the shard is lost to every
    later read. *)
Theorem unrecorded_move_loses :
  let ok f l := negb (bool_decide (f = frag5)) in
  let w := (run_tasks "me" ok spread.1 rounds (mkWorld w1.1 w1.2 net0, spread.2)).1 in
  Forall (fun s => location s = "local") (rows_of (w_db w) frag5) /\ rows_of (w_db w) frag5 <> [] /\
  read_local (w_store w) frag5 = None /\
  held_by (w_net w) "a2" frag5 = read_local w1.2 frag5 /\ is_none (read_local w1.2 frag5) = false.
Proof.
  cbv zeta. split; [|split; [|split; [|split]]].
  - apply (bool_decide_unpack _). vm_compute. exact I.
  - vm_compute. discriminate.
  - vm_compute. reflexivity.
  - vm_compute. reflexivity.
  - vm_compute. reflexivity.
Qed.

(** The same fleet, where one host contributes nothing. *)
Definition full_host : Host := mkHost "p1" 3119 None false ∅ ∅ {[ "me"%string := None ]} (Some (0, 0)).
Definition net1 : Hosts := mkHosts _ _ (<["a1"%string := full_host]> (hosts net0)) ("", new_session, 0%nat).

(** The cap of the planner does not survive a refusal: a shard its peer refuses is
    offered to the next peer whatever that peer already holds, so one full host among four
    is enough for another to end up with more shards of a chunk than the parity can lose. *)
Theorem failover_exceeds_cap :
  let w := (run_tasks "me" all_ok spread.1 rounds (mkWorld w1.1 w1.2 net1, spread.2)).1 in
  (PARITY_SHARDS < length (filter (fun s => location s = "p2") (get_shards (w_db w) (chunk_id_of the_chunk))))%nat.
Proof. apply Nat.ltb_lt. vm_compute. reflexivity. Qed.

(** ** Re-homing *)

Definition as_is (l : list (string * list ShardRow)) : list (string * list ShardRow) := l.
Lemma as_is_all l : as_is l ≡ₚ l.
Proof. reflexivity. Qed.
Definition rehomed := rebalance_all no_sock "me" all_ok as_is rows rtt (mkWorld w1.1 w1.2 net0).

Lemma addrs_ok : NoDup (addr <$> rows).
Proof. apply (bool_decide_unpack _). vm_compute. exact I. Qed.


Definition within_b (target : gmap string nat) (shards : list ShardRow) : bool :=
  forallb (fun loc => (length (at_location loc shards) <=? default 0%nat (target !! loc))%nat) (location <$> shards).
Lemma within_check target shards : within_b target shards = true -> within target shards.
Proof.
  intros Hall loc. destruct (at_location loc shards) as [|s l] eqn:E; [cbn; lia|]. rewrite <- E.
  unfold within_b in Hall. rewrite forallb_forall in Hall. apply Nat.leb_le, Hall, list_elem_of_In.
  assert (Hs : s ∈ s :: l) by left. rewrite <- E in Hs.
  apply list_elem_of_filter in Hs as [<- Hs]. apply list_elem_of_fmap_2. exact Hs.
Qed.

Abbreviation live := (live_peers rtt (placement_rows "me" rows)).
Abbreviation target := (target_counts (layout_for no_sock live) ((fun l : LivePeer => peer_id l.1) <$> live)).
Lemma world_within c : c ∈ chunk_rows (w_db world) -> within target (get_shards (w_db world) (chunk_id_of c)).
Proof.
  assert (Hb : forallb (fun c => within_b target (get_shards (w_db world) (chunk_id_of c))) (chunk_rows (w_db world)) = true)
    by (vm_compute; reflexivity).
  rewrite forallb_forall in Hb. intros Hc%list_elem_of_In. apply within_check, Hb, Hc.
Qed.

Lemma rebalance_settled_witness :
  rebalance_all no_sock "me" all_ok as_is rows rtt world = (world, mkRebalance 1 0 4).
Proof.
  pose proof (rebalance_settled "me" all_ok no_sock as_is rows rtt world as_is_all world_within) as H.
  rewrite H. f_equal.
Defined.

(** The host at "a1" was reinstalled: its new identity is a second row at the old address. *)
Definition twins : list PeerRow := peer "p5" "a1" :: rows.
Definition twinned := rebalance_all no_sock "me" all_ok as_is twins rtt world.

(** Two rows at one address make the locality pass destroy what it moves: a shard handed
    from one to the other is stored over itself and then deleted as the copy at the old
    place. The row names a host that no longer holds the bytes, and nobody else does. *)
Theorem shared_address_loses :
  existsb (fun s =>
    same (location s) "p5" && negb (is_none (held_by (w_net world) "a1" (fragment s))) &&
    is_none (read_local (w_store twinned.1) (fragment s)) &&
    forallb (fun a => is_none (held_by (w_net twinned.1) a (fragment s))) (addr <$> twins))
    (shard_rows (w_db twinned.1)) = true.
Proof. vm_compute. reflexivity. Qed.
End FleetRun.
