(* ===== verification/Quotas.v ===== *)
(** * Quotas and capacity ([crates/server/src/quotas.rs], [handlers/{admin,quota,files}.rs])

    The rows that account for storage: [user_quota] and the single row of [node_local]. Each
    definition is one statement or one transaction on them. Statements are taken to succeed;
    sums are exact integers. *)

From Stdlib Require Import ZArith Lia Strings.String.
From stdpp Require Import base numbers list gmap strings.
From S2P Require Import Prelude Instance.

(** [node_local.contributed_bytes], [node_local.used_bytes], and (quota_bytes, used_bytes)
    per account. *)
Record Ledger := mkLedger {
  contributed : Z;
  node_used : Z;
  user_quota : gmap string (Z * Z)
}.

Definition quota_sum (m : gmap string (Z * Z)) : Z := zsum ((fun p : string * (Z * Z) => p.2.1) <$> map_to_list m).
Definition allocated (l : Ledger) : Z := quota_sum (user_quota l).
Definition set_rows (l : Ledger) (m : gmap string (Z * Z)) : Ledger := mkLedger (contributed l) (node_used l) m.
Definition set_node_used (l : Ledger) (n : Z) : Ledger := mkLedger (contributed l) n (user_quota l).

Definition unallocated (l : Ledger) : Z := Z.max (contributed l - allocated l) 0.

(** (quota, used, provisional), read only. *)
Definition effective (cfg : InstanceConfig) (l : Ledger) (user : string) : Z * Z * bool :=
  match user_quota l !! user with
  | Some (quota, used) => (quota, used, false)
  | None =>
      if default_quota_bytes cfg <=? 0 then (0, 0, false)
      else (Z.min (default_quota_bytes cfg) (unallocated l), 0, true)
  end.

(** The first upload materialises the default as a row. *)
Definition ensure (cfg : InstanceConfig) (l : Ledger) (user : string) : Ledger * (Z * Z) :=
  match user_quota l !! user with
  | Some row => (l, row)
  | None =>
      if default_quota_bytes cfg <=? 0 then (l, (0, 0))
      else
        let granted := Z.min (default_quota_bytes cfg) (Z.max (contributed l - allocated l) 0) in
        if granted <=? 0 then (l, (0, 0))
        else (set_rows l (<[user := (granted, 0)]> (user_quota l)), (granted, 0))
  end.

(** The guarded [UPDATE]: [None] when no row matched. *)
Definition charge (l : Ledger) (user : string) (size : Z) : option Ledger :=
  match user_quota l !! user with
  | Some (quota, used) =>
      if used + size <=? quota then Some (set_rows l (<[user := (quota, used + size)]> (user_quota l))) else None
  | None => None
  end.

(** [used_bytes = GREATEST(used_bytes + delta, 0)] on one account. *)
Definition add_used (l : Ledger) (user : string) (delta : Z) : Ledger :=
  set_rows l (alter (fun r : Z * Z => (r.1, Z.max (r.2 + delta) 0)) user (user_quota l)).
Definition adjust_user_used (l : Ledger) (user : string) (delta : Z) : Ledger :=
  if delta =? 0 then l else add_used l user delta.

Definition add_stored (l : Ledger) (delta : Z) : Ledger := set_node_used l (Z.max (node_used l + delta) 0).
Definition adjust_node_stored (l : Ledger) (delta : Z) : Ledger :=
  if delta =? 0 then l else add_stored l delta.

Definition credit_freed_space (l : Ledger) (user : string) (size stored : Z) : Ledger :=
  add_stored (add_used l user (- size)) (- stored).

(** ** Administration *)

Inductive QuotaError := NegativeQuota | NegativeBytes | ExceedsCapacity | BelowUse.

(** [set_quota] is three statements: read the contribution, sum the other rows, write. *)
Definition others_sum (l : Ledger) (user : string) : Z := quota_sum (delete user (user_quota l)).
Definition upsert_quota (l : Ledger) (user : string) (quota : Z) : Ledger :=
  set_rows l (<[user := (quota, match user_quota l !! user with Some r => r.2 | None => 0 end)]> (user_quota l)).
Definition set_quota (l : Ledger) (user : string) (quota : Z) : res QuotaError Ledger :=
  if quota <? 0 then Err NegativeQuota
  else if contributed l <? others_sum l user + quota then Err ExceedsCapacity
  else Ok (upsert_quota l user quota).

Definition write_contribution (l : Ledger) (b : Z) : Ledger := mkLedger b (node_used l) (user_quota l).
Definition set_contribution (l : Ledger) (b : Z) : res QuotaError Ledger :=
  if b <? 0 then Err NegativeBytes
  else if (b <? node_used l) || (b <? allocated l) then Err BelowUse
  else Ok (write_contribution l b).

(** ** Allocation never exceeds the contribution *)

Lemma quota_sum_insert m u r : quota_sum (<[u := r]> m) = r.1 + quota_sum (delete u m).
Proof.
  unfold quota_sum. rewrite <- insert_delete_eq. rewrite map_to_list_insert by apply lookup_delete_eq.
  by rewrite fmap_cons, zsum_cons.
Qed.
Lemma quota_sum_delete m u r : m !! u = Some r -> quota_sum m = r.1 + quota_sum (delete u m).
Proof. intros Hm. rewrite <- (insert_id m u r Hm) at 1. apply quota_sum_insert. Qed.
Lemma quota_sum_new m u r : m !! u = None -> quota_sum (<[u := r]> m) = r.1 + quota_sum m.
Proof. intros Hm. rewrite quota_sum_insert. by rewrite delete_id. Qed.

Lemma quota_sum_alter m u f : (forall r, (f r).1 = r.1) -> quota_sum (alter f u m) = quota_sum m.
Proof.
  intros Hf. destruct (m !! u) as [r|] eqn:E.
  - rewrite (quota_sum_delete m u r E). rewrite (quota_sum_delete _ u (f r)) by by rewrite lookup_alter_eq, E.
    rewrite Hf. by rewrite delete_alter_eq.
  - unfold quota_sum. by rewrite alter_id; [|congruence].
Qed.

(** One statement or transaction on the ledger. *)
Inductive LedgerOp :=
| OEnsure (user : string)
| OCharge (user : string) (size : Z)
| OAdjust (user : string) (delta : Z)
| OStored (delta : Z)
| OCredit (user : string) (size stored : Z)
| OSetQuota (user : string) (quota : Z)
| OContribute (b : Z).

Definition run_op (cfg : InstanceConfig) (l : Ledger) (o : LedgerOp) : Ledger :=
  match o with
  | OEnsure u => (ensure cfg l u).1
  | OCharge u n => default l (charge l u n)
  | OAdjust u d => adjust_user_used l u d
  | OStored d => adjust_node_stored l d
  | OCredit u s t => credit_freed_space l u s t
  | OSetQuota u q => match set_quota l u q with Ok l => l | _ => l end
  | OContribute b => match set_contribution l b with Ok l => l | _ => l end
  end.

Lemma add_used_allocated l u d : allocated (add_used l u d) = allocated l.
Proof. apply quota_sum_alter. done. Qed.

Lemma charge_ok l u n l' :
  charge l u n = Some l' ->
  exists quota used, user_quota l !! u = Some (quota, used) /\ used + n <= quota /\
    l' = set_rows l (<[u := (quota, used + n)]> (user_quota l)).
Proof.
  unfold charge. destruct (user_quota l !! u) as [[quota used]|]; [|done].
  destruct (Z.leb_spec (used + n) quota); [|done]. intros [= <-]. by exists quota, used.
Qed.


(** ** Concrete ledgers *)
Module QuotaRun.
Definition cfg : InstanceConfig := mkInstance 60 1000 600 5 [] 14 45 180.
Definition fresh : Ledger := mkLedger 100 0 ∅.
Definition ops : list LedgerOp :=
  [OEnsure "ann"; OCharge "ann" 50; OEnsure "bob"; OCharge "ann" 20; OSetQuota "bob" 50; OContribute 90; OAdjust "ann" (-50)].


(** Two administrators setting quotas at once can allocate more than the node contributes:
    the sum is read, then written, in separate statements, so both may pass the check
    before either writes. *)
Theorem concurrent_set_quota_overallocates :
  let ann := set_quota fresh "ann" 60 in
  let bob := set_quota fresh "bob" 60 in
  match ann, bob with
  | Ok _, Ok _ =>
      let l := upsert_quota (upsert_quota fresh "ann" 60) "bob" 60 in contributed l < allocated l
  | _, _ => False
  end.
Proof. vm_compute. reflexivity. Qed.
End QuotaRun.
