(* ===== verification/Accounts.v ===== *)
(** * The storage handlers and their accounting ([crates/server/src/handlers/files.rs])

    The handlers that store, delete and pack files, with the ledger they keep: an upload as
    a task that takes one statement or one service call per turn, so that uploads can be
    interleaved; a permanent deletion likewise; the other handlers whole. Texts of error
    messages leave their figures out. *)

From Stdlib Require Import ZArith Lia Strings.Ascii Strings.String Strings.Byte.
From stdpp Require Import base numbers list gmap strings sorting.
From S2P Require Import Prelude External Erasure Crypto Pipeline Paths Manifest ManifestInv ChunkStore Text.
From S2P Require Import Service ServiceProofs ServiceSpec Packs Protocol ReadPath Instance Quotas.

(** ** The node *)

Record AppState := mkState { n_db : Db; n_store : ChunkStore; n_ledger : Ledger }.
Definition with_ledger (n : AppState) (l : Ledger) : AppState := mkState (n_db n) (n_store n) l.

Section Uploads.
Context `{CryptoPrims} `{Zstd} `{Log2} `{ReedSolomon}.
Variable data_key : bytes.
Variable cfg : InstanceConfig.

Inductive UploadTask :=
| UStart (user path : string) (data rnd : bytes) (now : string)
| UEnsured (user path : string) (data rnd : bytes) (now : string)
| UCharged (user path : string) (data rnd : bytes) (now : string)
| URefund (user : string) (size : Z) (ans : res P2pError PushResult)
| UStored (user : string) (size : Z) (r : PushResult)
| UBooked (r : PushResult)
| UDone (ans : res P2pError PushResult).

(** One turn of [upload]; the last one is followed by [distribute_shards]. *)
Definition upload_step (n : AppState) (t : UploadTask) : AppState * UploadTask :=
  match t with
  | UStart user raw data rnd now =>
      let p := trim raw in
      if same p "" then (n, UDone (Err (BadRequest "query parameter `path` is required")))
      else if max_upload_bytes cfg <? len data then (n, UDone (Err (BadRequest "file too large")))
      else (with_ledger n (ensure cfg (n_ledger n) user).1, UEnsured user p data rnd now)
  | UEnsured user p data rnd now =>
      match charge (n_ledger n) user (len data) with
      | Some l => (with_ledger n l, UCharged user p data rnd now)
      | None => (n, UDone (Err (BadRequest "quota exceeded")))
      end
  | UCharged user p data rnd now =>
      match push data_key (n_db n) user p data rnd now (n_store n) with
      | (st, Ok (db, r)) =>
          (mkState db st (n_ledger n),
           if pr_unchanged r then URefund user (len data) (Ok r) else UStored user (len data) r)
      | (st, Err e) => (mkState (n_db n) st (n_ledger n), URefund user (len data) (Err (Store e)))
      | (st, Panic) => (mkState (n_db n) st (n_ledger n), URefund user (len data) (Err (BadRequest "internal task error")))
      end
  | URefund user sz ans => (with_ledger n (adjust_user_used (n_ledger n) user (- sz)), UDone ans)
  | UStored user sz r => (with_ledger n (adjust_user_used (n_ledger n) user (pr_size r - sz)), UBooked r)
  | UBooked r => (with_ledger n (add_stored (n_ledger n) (pr_stored_bytes r)), UDone (Ok r))
  | UDone ans => (n, UDone ans)
  end.

(** ** Permanent deletion *)

(** [purge] reads the row, deletes it, then credits it: three statements, no transaction. *)
Inductive PurgeTask :=
| PStart (user id : string)
| PRead (user : string) (f : FileRow)
| PGone (user : string) (f : FileRow) (remote : list RemoteShard)
| PDone (ans : res P2pError (FileRow * list RemoteShard)).

Definition purge_step (n : AppState) (t : PurgeTask) : AppState * PurgeTask :=
  match t with
  | PStart user id =>
      match get_file (n_db n) user id with
      | Some f => (n, PRead user f)
      | None => (n, PDone (Err (Store NotFound)))
      end
  | PRead user f =>
      let '(db, frags) := purge_file_row (n_db n) user (r_file_id f) in
      let '(st, remote) := purge_local_collect_remote (n_store n) frags in
      (mkState db st (n_ledger n), PGone user f remote)
  | PGone user f remote =>
      (with_ledger n (credit_freed_space (n_ledger n) user (r_size f) (r_stored_bytes f)), PDone (Ok (f, remote)))
  | PDone ans => (n, PDone ans)
  end.
End Uploads.

(** The handler on its own. *)
Definition purge (n : AppState) (user id : string) : AppState * res P2pError (FileRow * list RemoteShard) :=
  match purge_file (n_db n) (n_store n) user id with
  | Ok (db, st, (f, remote)) =>
      (mkState db st (credit_freed_space (n_ledger n) user (r_size f) (r_stored_bytes f)), Ok (f, remote))
  | Err e => (n, Err (Store e))
  | Panic => (n, Err (BadRequest "internal task error"))
  end.

Definition empty_trash_now (n : AppState) (user : string) : AppState * (TrashSummary * list RemoteShard) :=
  let '(db, st, (s, remote)) := empty_trash (n_db n) (n_store n) user in
  (mkState db st (credit_freed_space (n_ledger n) user (ts_size s) (ts_stored_bytes s)), (s, remote)).

Definition retention_policy : RetentionPolicy := RetentionPolicy_default.

(** One account credited by the sweep; the totals cover the unparsable ones too. *)
Definition credit_one (is_uuid : string -> bool) (acc : Ledger * Z * Z) (e : string * Z * Z) : Ledger * Z * Z :=
  let '(l, size, stored) := acc in
  (if is_uuid e.1.1 then add_used l e.1.1 (- e.1.2) else l, size + e.1.2, stored + e.2).

(** The node, the number of files, their sizes and the remote shards to drop. *)
Definition purge_retired_now (is_uuid : string -> bool) (n : AppState) (ago : Z -> string)
    : AppState * (Z * Z * list RemoteShard) :=
  let '(db, st, rep) := purge_retired (n_db n) (n_store n) ago retention_policy in
  let '(l, size, stored) := foldl (credit_one is_uuid) (n_ledger n, 0, 0) (pg_freed rep) in
  (mkState db st (if 0 <? stored then add_stored l (- stored) else l), (pg_files rep, size, pg_remote rep)).

(** ** Packs *)

(** [settle_pack_write] before the remote GC and the distribution. *)
Definition settle_pack_write (l : Ledger) (r : PackResult) : Ledger :=
  adjust_node_stored l (pk_pack_stored_bytes r - pk_freed_stored_bytes r).

Record RepackTotals := mkTotals { tt_packs : Z; tt_files : Z; tt_stored_delta : Z }.
Definition count_pack (t : RepackTotals) (r : PackResult) : RepackTotals :=
  mkTotals (tt_packs t + 1) (tt_files t + pk_members r)
           (tt_stored_delta t + (pk_pack_stored_bytes r - pk_freed_stored_bytes r)).

Section Packing.
Context `{CryptoPrims} `{Zstd} `{Log2} `{ReedSolomon}.
Variable data_key : bytes.
(** What the peers answer, where they are, in which order shards arrive and tasks complete,
    while a file is read back. *)
Variable answer : string -> Answers.
Variable peers : string -> PeerAddrs.
Variable arrive : string -> ChunkRow -> list ShardRow -> list ShardRow.
Variable pick : string -> nat -> nat.

(** [reconstruct_file], each file over the network of its moment. *)
Definition read_back (n : AppState) (user id : string) : res P2pError bytes :=
  download data_key (answer id) (peers id) (arrive id) (pick id) (n_db n) (n_store n) user id.

(** The members of a group read back; one failure forfeits the group. *)
Fixpoint gather_entries (n : AppState) (user : string) (group : list FileRow) : option (list PackEntry) :=
  match group with
  | [] => Some []
  | f :: group =>
      match read_back n user (r_file_id f) with
      | Ok data => cons (mkEntry (r_file_id f) data) <$> gather_entries n user group
      | _ => None
      end
  end.

Definition pack_group (user : string) (acc : AppState * RepackTotals) (g : list FileRow * bytes * string)
    : AppState * RepackTotals :=
  let '(n, t) := acc in
  let '(group, rnd, now) := g in
  match gather_entries n user group with
  | None | Some [] => acc
  | Some entries =>
      match pack_files data_key (n_db n) user entries rnd now (n_store n) with
      | (st, Ok (db, r)) => (mkState db st (settle_pack_write (n_ledger n) r), count_pack t r)
      | (st, _) => (mkState (n_db n) st (n_ledger n), t)
      end
  end.

(** [fresh user i]: the random id and the clock of the [i]-th group of an account. *)
Definition repack_user (fresh : string -> nat -> bytes * string) (acc : AppState * RepackTotals) (user : string)
    : AppState * RepackTotals :=
  let groups := plan_packs (packable_files (n_db acc.1) user SMALL_MAX) PACK_TARGET in
  foldl (pack_group user) acc (imap (fun i g => (g, (fresh user i).1, (fresh user i).2)) groups).
Definition repack_all_now (fresh : string -> nat -> bytes * string) (n : AppState) : AppState * RepackTotals :=
  foldl (repack_user fresh) (n, mkTotals 0 0 0) (packable_user_ids (n_db n) SMALL_MAX).

Definition PACK_COMPACT_MIN_LIVE_PCT : Z := 50.

(** The surviving members sliced out of the old pack. *)
Fixpoint survivors_of (plain : bytes) (rows : list FileRow) : option (list PackEntry) :=
  match rows with
  | [] => Some []
  | m :: rows =>
      match member_slice plain m with
      | Ok data => cons (mkEntry (r_file_id m) data) <$> survivors_of plain rows
      | _ => None
      end
  end.

Definition compact_one (acc : AppState * RepackTotals) (o : FileRow * Z * Z * (bytes * string)) : AppState * RepackTotals :=
  let '(n, t) := acc in
  let '(pack, live_bytes, members, (rnd, now)) := o in
  if (0 <? members) && (r_size pack * PACK_COMPACT_MIN_LIVE_PCT <=? live_bytes * 100) then acc
  else
    match (if members =? 0 then Some []
           else
             match read_back n (r_user_id pack) (r_file_id pack) with
             | Ok plain =>
                 match survivors_of plain (pack_members (n_db n) (r_user_id pack) (r_file_id pack)) with
                 | Some [] | None => None
                 | Some entries => Some entries
                 end
             | _ => None
             end) with
    | None => acc
    | Some survivors =>
        match compact_pack data_key (n_db n) (r_user_id pack) (r_file_id pack) survivors rnd now (n_store n) with
        | (st, Ok (db, r)) => (mkState db st (settle_pack_write (n_ledger n) r), count_pack t r)
        | (st, _) => (mkState (n_db n) st (n_ledger n), t)
        end
    end.
Definition compact_packs_now (fresh : nat -> bytes * string) (n : AppState) : AppState * RepackTotals :=
  foldl compact_one (n, mkTotals 0 0 0) (imap (fun i o => (o, fresh i)) (pack_occupancy (n_db n))).
End Packing.
