(* ===== verification/AccountsProofs.v ===== *)
(** * The accounting is exact ([handlers/files.rs], [service.rs], [manifest.rs])

    What each service call does to the sums of sizes and of stored bytes, and the two
    invariants of the ledger: an account's usage is the sum of the sizes of its rows plus
    what its uploads in flight have reserved, and the node's usage is the sum of the stored
    bytes of all rows. *)

From Stdlib Require Import ZArith Lia Strings.Ascii Strings.String Strings.Byte.
From stdpp Require Import base numbers list gmap strings sorting.
From S2P Require Import Prelude External Erasure Crypto Pipeline Paths Manifest ManifestInv ChunkStore.
From S2P Require Import Service ServiceProofs ServiceSpec Packs PackProofs ServiceInv Protocol ReadPath Quotas Accounts.

(** ** Sums over the rows of [files] *)

(** What a row weighs in an account's usage: packs are charged to the node only. *)
Definition weight (u : string) (f : FileRec) : Z := if same (user_id f) u && not_pack f then size f else 0.
Definition charged (u : string) (db : Db) : Z := total (weight u) (files db).
Definition stored_total (db : Db) : Z := total stored_bytes (files db).

Lemma total_cons g f fs : total g (f :: fs) = g f + total g fs.
Proof. done. Qed.
Lemma total_nil g : total g [] = 0.
Proof. done. Qed.
Lemma total_app g fs fs' : total g (fs ++ fs') = total g fs + total g fs'.
Proof. unfold total. by rewrite fmap_app, zsum_app. Qed.

Lemma total_split g (p : FileRec -> bool) fs :
  total g fs = total g (filter (fun f => p f = true) fs) + total g (filter (fun f => p f = false) fs).
Proof.
  induction fs as [|f fs IH]; [done|]. rewrite !filter_cons, total_cons, IH.
  destruct (p f); [rewrite decide_True, decide_False by done|rewrite decide_False, decide_True by done];
    rewrite total_cons; lia.
Qed.

Lemma update_total g db p h db' n :
  update_files db p h = Ok (db', n) -> (forall f, f ∈ files db -> p f = true -> g (h f) = g f) ->
  total g (files db') = total g (files db).
Proof.
  unfold update_files. destruct (unique_paths _); [|done]. intros [= <- _] Hg. cbn [files set_files].
  induction (files db) as [|f fs IH]; [done|]. cbn [fmap list_fmap]. rewrite !total_cons, IH by (intros; apply Hg; [by right|done]).
  destruct (p f) eqn:E; [rewrite Hg; [done|by left|done]|done].
Qed.

Lemma delete_total g db p :
  total g (files (delete_files db p)) = total g (files db) - total g (filter (fun f => p f = true) (files db)).
Proof.
  change (files (delete_files db p)) with (filter (fun f => p f = false) (files db)).
  rewrite (total_split g p (files db)). lia.
Qed.

Lemma insert_total g db f db' :
  insert_file db f = Ok db' -> total g (files db') = total g (files db) + g (rec_of f).
Proof. intros [_ ->]%insert_file_ok. cbn [files set_files]. rewrite total_app, total_cons, total_nil. lia. Qed.

(** ** Paths that are not container keys *)

(** The path does not begin with U+0001, the mark of the reserved keys. *)
Definition plain (p : string) : Prop := String.get 0 p <> Some (ascii_of_nat 1).
Definition hidden (p : string) : bool := like p (PACK_PATH_PREFIX ++ "%").

Lemma utf8_head c l : exists ds rest, utf8_chars (c :: l) = (c :: ds) :: rest.
Proof.
  cbn [utf8_chars]. destruct (utf8_chars l) as [|[|d ds] rest]; [by exists [], []|by exists [], ([] :: rest)|].
  destruct (_ && _); [by exists (d :: ds), rest|]. destruct (_ && _); [by exists (d :: ds), rest|by exists [], ((d :: ds) :: rest)].
Qed.

Lemma plain_hidden p : plain p -> hidden p = false.
Proof.
  intros Hp. unfold hidden, like. change (utf8_chars (chars (PACK_PATH_PREFIX ++ "%"))) with
    ([ascii_of_nat 1] :: utf8_chars (chars "pack/%")). generalize (utf8_chars (chars "pack/%")) as q. intros q.
  destruct p as [|c p]; [done|]. destruct (utf8_head c (chars p)) as (ds & rest & E).
  change (chars (String c p)) with (c :: chars p). rewrite E. cbn [like_chars].
  rewrite bool_decide_eq_false_2 by done. rewrite bool_decide_eq_false_2 by done. cbn [orb].
  rewrite bool_decide_eq_false_2; [done|]. intros Hf. apply Hp. cbn. f_equal.
  destruct ds as [|d ds]; [|by destruct c as [[] [] [] [] [] [] [] []]].
  revert Hf. destruct c as [[] [] [] [] [] [] [] []]; cbn; intros [=]; done.
Qed.

Lemma plain_app p s : plain p -> p <> ""%string -> plain (p ++ s).
Proof. destruct p as [|c p]; [done|]. intros Hp _. exact Hp. Qed.

Lemma retired_not_hidden i : hidden (retired_key i) = false.
Proof.
  unfold hidden, like, retired_key. change (utf8_chars (chars (PACK_PATH_PREFIX ++ "%"))) with
    ([ascii_of_nat 1] :: ["p"%char] :: utf8_chars (chars "ack/%")). generalize (utf8_chars (chars "ack/%")) as q. intros q.
  change (chars (RETIRED_PATH_PREFIX ++ i)) with (ascii_of_nat 1 :: "r"%char :: chars ("etired/" ++ i)).
  destruct (utf8_head "r"%char (chars ("etired/" ++ i))) as (ds & rest & E).
  assert (E2 : utf8_chars (ascii_of_nat 1 :: "r"%char :: chars ("etired/" ++ i)) = [ascii_of_nat 1] :: ("r"%char :: ds) :: rest).
  { cbn [utf8_chars] in E |- *. rewrite E. done. }
  assert (F : bool_decide (fold_char ["p"%char] = fold_char ("r"%char :: ds)) = false)
    by (apply bool_decide_eq_false_2; by destruct ds).
  rewrite E2. cbn [like_chars]. rewrite F. done.
Qed.

Lemma utf8_ascii c l : (nat_of_ascii c <? 128)%nat = true -> utf8_chars (c :: l) = [c] :: utf8_chars l.
Proof.
  intros Hc%Nat.ltb_lt. cbn [utf8_chars]. destruct (utf8_chars l) as [|[|d ds] rest]; [done..|].
  unfold continuation. rewrite (proj2 (Nat.leb_gt 192 (nat_of_ascii c))) by lia.
  by rewrite (proj2 (Nat.leb_gt 128 (nat_of_ascii c))) by lia.
Qed.

Lemma like_any s : like_chars [["%"%char]] s = true.
Proof.
  cbn [like_chars]. rewrite bool_decide_eq_true_2 by done. apply existsb_exists. exists [].
  split; [|done]. induction s; [by left|by right].
Qed.
Lemma like_same c p s : c <> ["%"%char] -> like_chars (c :: p) (c :: s) = like_chars p s.
Proof. intros Hc. cbn [like_chars]. rewrite bool_decide_eq_false_2, (bool_decide_eq_true_2 (fold_char c = fold_char c)) by done. by rewrite orb_true_r. Qed.

Lemma hidden_pack_key i : hidden (pack_key i) = true.
Proof.
  unfold hidden, like, pack_key. change (utf8_chars (chars (PACK_PATH_PREFIX ++ "%"))) with
    ([ascii_of_nat 1] :: ["p"%char] :: ["a"%char] :: ["c"%char] :: ["k"%char] :: ["/"%char] :: [["%"%char]]).
  change (chars (PACK_PATH_PREFIX ++ i)) with
    (ascii_of_nat 1 :: "p"%char :: "a"%char :: "c"%char :: "k"%char :: "/"%char :: chars i).
  rewrite !utf8_ascii by done. do 6 (rewrite like_same; [|discriminate]). apply like_any.
Qed.

(** ** Calls that only move rows *)

(** Sizes and costs are not negative, and a member's shards are charged to its pack. *)
Definition sized (f : FileRec) : Prop := 0 <= size f /\ 0 <= stored_bytes f /\ (pack_id f <> None -> stored_bytes f = 0).
(** The row of the pair is not a container. *)
Definition no_pack (u i : string) (db : Db) : Prop :=
  forall f, f ∈ files db -> is_row u i f = true -> not_pack f = true.

Record same_sums (db db' : Db) : Prop := {
  sums_charged u : charged u db' = charged u db;
  sums_stored : stored_total db' = stored_total db;
  sums_sized : Forall sized (files db) -> Forall sized (files db')
}.
Lemma same_sums_refl db : same_sums db db.
Proof. done. Qed.
Lemma same_sums_trans db1 db2 db3 : same_sums db1 db2 -> same_sums db2 db3 -> same_sums db1 db3.
Proof. intros [A1 A2 A3] [B1 B2 B3]. split; [intros u; by rewrite B1|by rewrite B2|auto]. Qed.
Lemma same_sums_files db db' : files db' = files db -> same_sums db db'.
Proof. intros E. unfold charged, stored_total. split; [intros u|..]; unfold charged, stored_total; by rewrite E. Qed.

Lemma update_sums db p h db' n :
  update_files db p h = Ok (db', n) ->
  (forall f, f ∈ files db -> p f = true ->
     user_id (h f) = user_id f /\ size (h f) = size f /\ stored_bytes (h f) = stored_bytes f /\ pack_id (h f) = pack_id f /\
     not_pack (h f) = not_pack f) ->
  same_sums db db'.
Proof.
  intros Hu Hh. split.
  - intros u. eapply update_total; [exact Hu|]. intros f Hf Hp. destruct (Hh f Hf Hp) as (E1 & E2 & _ & _ & E4).
    unfold weight. by rewrite E1, E2, E4.
  - eapply update_total; [exact Hu|]. intros f Hf Hp. apply (Hh f Hf Hp).
  - unfold update_files in Hu. destruct (unique_paths _); [|done]. injection Hu as <- _. cbn [files set_files].
    rewrite !Forall_forall. intros Hs x (f & -> & Hf)%list_elem_of_fmap. destruct (p f) eqn:E; [|by apply Hs].
    destruct (Hh f Hf E) as (_ & E2 & E3 & E4 & _). unfold sized. rewrite E2, E3, E4. by apply Hs.
Qed.

Lemma retire_not_pack c a f : not_pack (retire c a f) = true.
Proof. change (not_pack (retire c a f)) with (negb (hidden (retired_key (file_id f)))). by rewrite retired_not_hidden. Qed.

Lemma retire_sums db u i c a db' b :
  no_pack u i db -> retire_row db u i c a = Ok (db', b) ->
  same_sums db db' /\ forall v j, no_pack v j db -> no_pack v j db'.
Proof.
  intros Hn ([d n] & Hu & [= <- _])%bind_ok. cbn [fst]. split.
  - eapply update_sums; [exact Hu|]. intros f Hf Hp. apply andb_true_iff in Hp as [Hr _].
    split; [done|split; [done|split; [done|split; [done|]]]]. by rewrite (Hn f Hf Hr), retire_not_pack.
  - intros v j Hv f Hf Hr. unfold update_files in Hu. destruct (unique_paths _); [|done]. injection Hu as <- _.
    cbn [files set_files] in Hf. apply list_elem_of_fmap in Hf as (g & -> & Hg).
    destruct (is_row u i g && _); [apply retire_not_pack|by apply Hv].
Qed.

Lemma found_no_pack db u i r f : db_inv db -> f ∈ files db -> not_pack f = true -> file_id f = i -> r = map_file f -> no_pack u i db.
Proof.
  intros Hinv Hf Hp Hi _ g Hg Hr. apply is_row_true in Hr as [_ Hid].
  by rewrite (unique_id db g f Hinv Hg Hf) by congruence.
Qed.

Lemma by_path_no_pack db u p r : db_inv db -> get_file_by_path db u p = Some r -> no_pack u (r_file_id r) db.
Proof.
  intros Hinv (f & Hf & _ & _ & _ & Hp & ->)%get_file_by_path_elem. by eapply (found_no_pack db _ _ _ f).
Qed.

Lemma trash_sums db u i now db' f : no_pack u i db -> trash db u i now = Ok (db', f) -> same_sums db db'.
Proof.
  intros Hn. unfold trash. intros (r & Hr & Ht)%bind_ok.
  destruct (negb _); [injection Ht as <- _; apply same_sums_refl|].
  destruct (negb _); [discriminate|]. apply bind_ok in Ht as ([d b] & Hd & (r' & _ & [= <- _])%bind_ok).
  by destruct (retire_sums _ _ _ _ _ _ _ Hn Hd).
Qed.

Lemma foldM_sums {X S} (f : S -> X -> res StoreError S) (proj : S -> Db) (P : Db -> Prop) xs : forall s s',
  (forall s x s', P (proj s) -> x ∈ xs -> f s x = Ok s' -> P (proj s') /\ same_sums (proj s) (proj s')) ->
  P (proj s) -> foldM f s xs = Ok s' -> same_sums (proj s) (proj s').
Proof.
  induction xs as [|x xs IH]; intros s s' Hstep Hs Hf; cbn [foldM] in Hf.
  - injection Hf as <-. apply same_sums_refl.
  - apply bind_ok in Hf as (s1 & H1 & Hf). destruct (Hstep s x s1 Hs ltac:(left) H1) as [Hs1 Hk1].
    eapply same_sums_trans; [exact Hk1|]. apply IH; [|done|done].
    intros s2 y s3 Hp Hy. apply Hstep; [done|by right].
Qed.

(** No container lies under the path. *)
Definition no_pack_under (db : Db) (u p : string) : Prop :=
  forall f, f ∈ files db -> user_id f = u -> under p (path f) = true -> not_pack f = true.

Lemma files_under_no_pack db u p i q :
  db_inv db -> no_pack_under db u p -> (i, q) ∈ files_under db u p -> no_pack u i db.
Proof.
  intros Hinv Hn. unfold files_under. rewrite merge_sort_Permutation.
  intros (g & [= -> ->] & [Hg Hin]%list_elem_of_filter)%list_elem_of_fmap.
  rewrite !andb_true_iff, same_true in Hg. destruct Hg as ((Hu & Hun) & _).
  eapply (found_no_pack db _ _ _ g); [done|done|by apply Hn|done|done].
Qed.

Lemma trash_path_sums db u p now db' s :
  db_inv db -> no_pack_under db u (trim_slashes p) -> trash_path db u p now = Ok (db', s) -> same_sums db db'.
Proof.
  intros Hinv Hn. unfold trash_path. destruct (get_file_by_path _ _ _) as [f|] eqn:Eg.
  - intros ([d b] & Hd & [= <- _])%bind_ok. cbn [fst].
    by destruct (retire_sums _ _ _ _ _ _ _ (by_path_no_pack _ _ _ _ Hinv Eg) Hd).
  - destruct (_ && _); [discriminate|]. intros ([d b] & Hd & [= <- _])%bind_ok. cbn [fst].
    eapply same_sums_trans; [|by apply (same_sums_files d)].
    set (P := fun d => forall i q, (i, q) ∈ files_under db u (trim_slashes p) -> no_pack u i d).
    refine (foldM_sums (trash_one u now) fst P _ (db, summary0) (d, b) _ _ Hd).
    + intros [d1 s1] [i q] [d2 s2] HP Hin. cbn [fst] in *. unfold trash_one. cbn [fst].
      intros ([d3 b3] & Hd3 & [= <- _])%bind_ok. cbn [fst].
      destruct (retire_sums _ _ _ _ _ _ _ (HP i q Hin) Hd3) as [Hs Hk]. split; [|done]. intros j q' Hj. by apply Hk, (HP j q').
    + intros i q. by apply files_under_no_pack.
Qed.

Lemma folder_files db u p : files (insert_folder db u p) = files db.
Proof. apply insert_folder_rows. Qed.

(** A retired row is no container: it sits on its tombstone. *)
Lemma retired_no_pack db u i r : db_inv db -> get_file db u i = Some r -> is_live r = false -> no_pack u i db.
Proof.
  intros Hinv (f & Hf & Hr & ->)%get_file_elem Hl. apply is_row_true in Hr as [_ Hid].
  eapply (found_no_pack db _ _ _ f); [done|done| |done|done].
  pose proof (inv_rows _ Hinv) as Hrows. rewrite Forall_forall in Hrows. specialize (Hrows f Hf). unfold row_ok in Hrows.
  change (is_live (map_file f)) with (LIVE f) in Hl. rewrite Hl in Hrows. destruct Hrows as [_ E].
  unfold not_pack. rewrite E. change (negb (hidden (retired_key (file_id f))) = true). by rewrite retired_not_hidden.
Qed.

Lemma no_pack_files u i db db' : files db' = files db -> no_pack u i db -> no_pack u i db'.
Proof. unfold no_pack. by intros ->. Qed.

Lemma path_sums db u i h p db' n :
  no_pack u i db -> plain p ->
  (forall f, user_id (h f) = user_id f /\ size (h f) = size f /\ stored_bytes (h f) = stored_bytes f /\ pack_id (h f) = pack_id f /\
     path (h f) = p) ->
  update_files db (is_row u i) h = Ok (db', n) -> same_sums db db'.
Proof.
  intros Hn Hp Hh Hu. eapply update_sums; [exact Hu|]. intros f Hf Hr. destruct (Hh f) as (E1 & E2 & E3 & Ep & E4).
  split; [done|split; [done|split; [done|split; [done|]]]]. rewrite (Hn f Hf Hr). unfold not_pack. rewrite E4.
  change (negb (hidden p) = true). by rewrite plain_hidden.
Qed.

Lemma restore_sums db u i np now db' r :
  db_inv db -> (forall f, get_file db u i = Some f -> plain (trim_slashes (default (r_path f) np))) ->
  restore_row db u i np now = Ok (db', r) -> same_sums db db'.
Proof.
  intros Hinv Hpl. unfold restore_row. intros (f & Hf%ok_or_ok & Ht)%bind_ok. specialize (Hpl f Hf).
  destruct (is_live f) eqn:El; [discriminate|]. pose proof (retired_no_pack _ _ _ _ Hinv Hf El) as Hn.
  destruct (same _ _); [discriminate|]. apply bind_ok in Ht as (d1 & Hd1 & Ht).
  assert (H1 : same_sums db d1 /\ no_pack u i d1).
  { destruct (get_file_by_path _ _ _) as [cur|] eqn:Eg; [|injection Hd1 as <-; split; [apply same_sums_refl|done]].
    destruct (negb _); [|injection Hd1 as <-; split; [apply same_sums_refl|done]].
    apply bind_ok in Hd1 as ([d b] & Hd & [= <-]).
    destruct (retire_sums _ _ _ _ _ _ _ (by_path_no_pack _ _ _ _ Hinv Eg) Hd) as [Hs Hk]. split; [done|by apply Hk]. }
  destruct H1 as [H1 Hn1]. apply bind_ok in Ht as ([d2 b] & Hd2 & (f' & _ & [= <- _])%bind_ok). cbn [fst].
  eapply same_sums_trans; [exact H1|]. eapply same_sums_trans; [apply same_sums_files, folder_files|].
  apply bind_ok in Hd2 as ([d3 n] & Hu & [= <- _]). cbn [fst].
  eapply path_sums; [|exact Hpl| |exact Hu]; [|done]. eapply no_pack_files; [apply folder_files|done].
Qed.

Lemma update_path_sums db u i p db' :
  no_pack u i db -> plain p -> update_file_path db u i p = Ok db' ->
  same_sums db db' /\ forall v j, no_pack v j db -> no_pack v j db'.
Proof.
  unfold update_file_path. intros Hn Hp. destruct (update_files db (is_row u i) (with_path p)) as [[d n]| |] eqn:Hu; [|done..].
  cbn. intros [= <-]. split; [eapply path_sums; [exact Hn|exact Hp| |exact Hu]; by intros f|].
  intros v j Hv f Hf Hr. unfold update_files in Hu. destruct (unique_paths _); [|done]. injection Hu as <- _.
  cbn [files set_files] in Hf. apply list_elem_of_fmap in Hf as (g & -> & Hg).
  destruct (is_row u i g) eqn:E; [|by apply Hv]. change (negb (hidden p) = true). by rewrite plain_hidden.
Qed.

Lemma rename_sums db u from to db' :
  db_inv db -> no_pack_under db u (trim_slashes from) -> plain (trim_slashes to) ->
  rename db u from to = Ok db' -> same_sums db db'.
Proof.
  intros Hinv Hn Hp. unfold rename. destruct (same (trim_slashes from) "" || same (trim_slashes to) "" || _) eqn:Ee; [discriminate|].
  rewrite !orb_false_iff in Ee. destruct Ee as ((_ & Ht%bool_decide_eq_false) & _).
  set (from' := trim_slashes from) in *. set (to' := trim_slashes to) in *.
  set (db1 := insert_folder db u (dirname to')).
  assert (Hf1 : files db1 = files db) by apply folder_files.
  assert (Hinv1 : db_inv db1) by by apply insert_folder_inv.
  assert (Hn1 : no_pack_under db1 u from') by (unfold no_pack_under; by rewrite Hf1).
  intros H. eapply same_sums_trans; [by apply (same_sums_files db db1)|]. revert H.
  destruct (get_file_by_path db1 u from') as [f|] eqn:Eg.
  - intros Hu. by eapply (update_path_sums db1 _ _ _ _ (by_path_no_pack _ _ _ _ Hinv1 Eg) Hp).
  - destruct (_ && _); [discriminate|]. intros (db2 & Hf & (db3 & Hd & [= <-])%bind_ok)%bind_ok.
    eapply same_sums_trans; [|apply same_sums_files, folder_files]. eapply same_sums_trans.
    + set (P := fun d => forall i q, (i, q) ∈ files_under db1 u from' -> no_pack u i d).
      refine (foldM_sums (move_file u from' to') (fun d => d) P _ db1 db2 _ _ Hf).
      * intros d [i q] d' HP Hin. unfold move_file. intros (sf & _ & Hu)%bind_ok. cbn [fst] in Hu.
        destruct (update_path_sums _ _ _ _ _ (HP i q Hin) (plain_app to' sf Hp Ht) Hu) as [Hs Hk].
        split; [|done]. intros j q' Hj. by apply Hk, (HP j q').
      * intros i q. by apply files_under_no_pack.
    + refine (foldM_sums (move_folder u from' to') (fun d => d) (fun _ => True) _ db2 db3 _ I Hd).
      intros d q d' _ _. unfold move_folder. intros (sf & _ & Hu)%bind_ok. split; [done|].
      unfold update_folder_path in Hu. case_bool_decide; [|discriminate]. injection Hu as <-. by apply same_sums_files.
Qed.

(** ** Calls that create and destroy rows *)

Section Sums.
Context `{CryptoPrims} `{Zstd} `{Log2} `{ReedSolomon}.
Variable data_key : bytes.

Lemma disk_cost_nonneg l : 0 <= l -> 0 <= shard_disk_cost l.
Proof. intros Hl. pose proof (shard_disk_cost_spec l). lia. Qed.

Lemma written_files file db cs st st' db' :
  write_chunk_rows file db cs st = (st', Ok db') -> files db' = files db.
Proof. intros (bss & _ & Hw)%write_chunk_rows_ok. by rewrite (w_db _ _ _ _ _ _ Hw). Qed.

Lemma supersede_sums db u p file now db' x :
  db_inv db -> supersede_current db u p file now = Ok (db', x) -> same_sums db db'.
Proof.
  intros Hinv. unfold supersede_current. destruct (get_file_by_path db u p) as [prev|] eqn:Eg; [|intros [= <- _]; apply same_sums_refl].
  intros ([d b] & Hd & [= <- _])%bind_ok. by destruct (retire_sums _ _ _ _ _ _ _ (by_path_no_pack _ _ _ _ Hinv Eg) Hd).
Qed.

(** What a push adds to the sums. *)
Definition pushed_sums (db db' : Db) (u : string) (data : bytes) (r : PushResult) : Prop :=
  if pr_unchanged r then db' = db
  else pr_size r = len data /\
       (forall v, charged v db' = charged v db + (if same u v then len data else 0)) /\
       stored_total db' = stored_total db + pr_stored_bytes r.

Lemma push_sums db u p data rnd now st st' db' r :
  db_inv db -> plain p -> push data_key db u p data rnd now st = (st', Ok (db', r)) ->
  pushed_sums db db' u data r /\
  (0 <= pr_stored_bytes r -> Forall sized (files db) -> Forall sized (files db')).
Proof.
  intros Hinv Hp Hpush. destruct (push_ok _ _ _ _ _ _ _ _ _ _ _ Hpush) as [(Hu & -> & _)|
    (pcs & db1 & x & db2 & Hun & _ & Hsz & Hst & _ & _ & Hsup & Hins & Hw)].
  - assert (pr_unchanged r = true) as E.
    { unfold unchanged_upload in Hu. destruct (get_file_by_path _ _ _); [|done]. destruct (_ && _); [|done]. by injection Hu as <-. }
    unfold pushed_sums. by rewrite E.
  - unfold pushed_sums. rewrite Hun. pose proof (supersede_sums _ _ _ _ _ _ _ Hinv Hsup) as [S1 S2 S3].
    pose proof (written_files _ _ _ _ _ _ Hw) as Hf. split; [split; [done|split]|].
    + intros v. unfold charged in *. rewrite Hf. rewrite (insert_total _ _ _ _ Hins), S1. f_equal.
      unfold weight, not_pack. cbn [rec_of user_id path size r_user_id r_path r_size].
      change (like p (PACK_PATH_PREFIX ++ "%")) with (hidden p). by rewrite (plain_hidden p Hp), andb_true_r.
    + unfold stored_total in *. rewrite Hf, (insert_total _ _ _ _ Hins), S2. cbn. by rewrite Hst.
    + intros Hnn Hs. rewrite Hf. apply insert_file_ok in Hins as [_ ->]. cbn [files set_files].
      apply Forall_app. split; [by apply S3|]. constructor; [|done]. unfold sized. cbn. rewrite <- Hst. split; [apply len_nonneg|by split].
Qed.

Lemma row_perm db u i f :
  db_inv db -> f ∈ files db -> is_row u i f = true -> filter (fun f => is_row u i f = true) (files db) ≡ₚ [f].
Proof.
  intros Hinv Hf Hr. apply NoDup_Permutation; [eapply NoDup_filter, NoDup_fmap_1, (inv_ids _ Hinv)|apply NoDup_singleton|].
  intros g'. rewrite list_elem_of_filter, list_elem_of_singleton. split; [|by intros ->].
  intros [Hr' Hg]. apply (unique_id db); [done..|]. apply is_row_true in Hr as [_ ->], Hr' as [_ ->]. done.
Qed.
Lemma total_row g db u i f :
  db_inv db -> f ∈ files db -> is_row u i f = true -> total g (filter (fun f => is_row u i f = true) (files db)) = g f.
Proof. intros Hinv Hf Hr. rewrite (total_perm g _ _ (row_perm db u i f Hinv Hf Hr)), total_cons, total_nil. lia. Qed.

Lemma purge_file_sums db st u i db' st' r remote :
  db_inv db -> purge_file db st u i = Ok (db', st', (r, remote)) ->
  exists f, f ∈ files db /\ is_row u i f = true /\ r = map_file f /\
    forall g, total g (files db') = total g (files db) - g f.
Proof.
  intros Hinv (Hf & -> & _ & _)%purge_file_ok. apply get_file_elem in Hf as (f & Hf & Hr & ->).
  exists f. split; [done|split; [done|split; [done|]]]. intros g. cbn [purge_rows foldl fst snd].
  unfold purge_file_row. cbn [fst]. rewrite delete_total. by rewrite (total_row g db u i f).
Qed.

(** ** Packs *)

Lemma stored_cost_nonneg `{!ZstdLaws} data u f cfg pcs :
  0 <= chunk_size cfg -> process_v2 data data_key u f cfg = Ok pcs -> 0 <= stored_cost pcs.
Proof.
  intros Hc Hp. destruct (process_ok _ _ _ _ _ _ _ Hc Hp) as (fc & _ & _ & _ & Hall). unfold stored_cost.
  apply zsum_nonneg. apply Forall_fmap, Forall_forall. intros pc (i & Hi)%list_elem_of_lookup.
  destruct (Hall i pc Hi) as (c & _ & Hem). destruct Hem as (_ & _ & _ & Hl & _). cbn.
  pose proof (shard_len_spec (len (pc_cipher pc)) (len_nonneg _)) as [Hs _]. rewrite <- Hl in Hs.
  pose proof (disk_cost_nonneg (pc_shard_len pc) ltac:(lia)). lia.
Qed.

Lemma push_sized `{!ZstdLaws} db u p data rnd now st st' db' r :
  db_inv db -> plain p -> push data_key db u p data rnd now st = (st', Ok (db', r)) ->
  Forall sized (files db) -> Forall sized (files db') /\ (pr_unchanged r = false -> 0 <= pr_stored_bytes r).
Proof.
  intros Hinv Hp Hpush Hs. destruct (push_sums _ _ _ _ _ _ _ _ _ _ Hinv Hp Hpush) as [_ Hsz].
  destruct (push_ok _ _ _ _ _ _ _ _ _ _ _ Hpush) as [(Hu & -> & _)|
    (pcs & db1 & x & db2 & Hun & _ & _ & Hst & _ & Hpr & _)].
  - split; [done|]. intros Hr. exfalso. unfold unchanged_upload in Hu.
    destruct (get_file_by_path _ _ _); [|done]. destruct (_ && _); [|done]. by injection Hu as <-.
  - assert (0 <= stored_cost pcs) by (eapply stored_cost_nonneg; [|exact Hpr]; done).
    rewrite Hst in *. split; [by apply Hsz|done].
Qed.

(** One row replaced: its old figures out, its new ones in. *)
Lemma update_row_total g db u i h db' n f :
  db_inv db -> f ∈ files db -> is_row u i f = true -> update_files db (is_row u i) h = Ok (db', n) ->
  total g (files db') = total g (files db) - g f + g (h f).
Proof.
  intros Hinv Hf Hr Hu. unfold update_files in Hu. destruct (unique_paths _); [|done]. injection Hu as <- _. cbn [files set_files].
  assert (E : total g ((fun f => if is_row u i f then h f else f) <$> files db) =
              total (fun f => if is_row u i f then g (h f) else g f) (files db)).
  { unfold total. f_equal. rewrite <- list_fmap_compose. apply list_fmap_ext. intros _ x _. cbn. by destruct (is_row u i x). }
  rewrite E, (total_split _ (is_row u i)), (total_split g (is_row u i) (files db)).
  rewrite (total_row g db u i f), (total_row _ db u i f) by done. rewrite Hr.
  assert (E2 : total (fun f => if is_row u i f then g (h f) else g f) (filter (fun f => is_row u i f = false) (files db)) =
               total g (filter (fun f => is_row u i f = false) (files db))); [|lia].
  unfold total. f_equal. apply list_fmap_ext. intros j x [Hx _]%list_elem_of_lookup_2%list_elem_of_filter. by rewrite Hx.
Qed.

Lemma assign_sums db u i p o l db' b f :
  db_inv db -> f ∈ files db -> is_row u i f = true -> assign_to_pack db u i p o l = Ok (db', b) ->
  (forall v, charged v db' = charged v db) /\ stored_total db' = stored_total db - stored_bytes f /\
  (Forall sized (files db) -> Forall sized (files db')).
Proof.
  intros Hinv Hf Hr ([d n] & Hu & [= <- _])%bind_ok. cbn [fst]. split; [|split].
  - intros v. unfold charged. rewrite (update_row_total (weight v) _ _ _ _ _ _ f Hinv Hf Hr Hu).
    change (weight v (assign p o l f)) with (weight v f). lia.
  - unfold stored_total. rewrite (update_row_total stored_bytes _ _ _ _ _ _ f Hinv Hf Hr Hu). cbn. lia.
  - rewrite !Forall_forall. intros Hs x Hx. unfold update_files in Hu. destruct (unique_paths _); [|done]. injection Hu as <- _.
    cbn [files set_files] in Hx. apply list_elem_of_fmap in Hx as (g & -> & Hg). destruct (is_row u i g); [|by apply Hs].
    destruct (Hs g Hg) as [Hz _]. by split; [|split].
Qed.

Lemma pack_members_sums u pack ps : forall db fr fs acc,
  db_inv db -> foldM (pack_member u pack) (db, fr, fs) ps = Ok acc ->
  (forall v, charged v acc.1.1 = charged v db) /\ stored_total acc.1.1 = stored_total db - (acc.1.2 - fr) /\
  (Forall sized (files db) -> Forall sized (files acc.1.1)).
Proof.
  induction ps as [|p ps IH]; intros db fr fs acc Hinv Hf; cbn [foldM] in Hf.
  { injection Hf as <-. cbn [fst snd]. split; [done|split; [lia|done]]. }
  apply bind_ok in Hf as ([[d1 fr1] fs1] & Hp & Hf). pose proof Hp as Hp'.
  unfold pack_member in Hp. apply bind_ok in Hp as (row & Hrow%ok_or_ok & Hp).
  destruct (_ || _); [discriminate|]. unfold strip_file_chunks in Hp. apply bind_ok in Hp as ([d2 b] & Ha & [= <- <- <-]). cbn [fst snd] in *.
  apply get_file_elem in Hrow as (f & Hfd & Hr & ->).
  assert (Hinv0 : db_inv (strip_file_chunks db u (e_file_id p.1)).1) by (by apply delete_chunks_inv).
  destruct (assign_sums _ _ _ _ _ _ _ _ f Hinv0 Hfd Hr Ha) as (A1 & A2 & A3).
  assert (Hinv2 : db_inv d2) by (eapply assign_inv; [exact Hinv0|exact Ha]).
  destruct (IH _ _ _ _ Hinv2 Hf) as (B1 & B2 & B3). split; [intros v; by rewrite B1, A1|split].
  - rewrite B2, A2. change (stored_total (strip_file_chunks db u (e_file_id p.1)).1) with (stored_total db). cbn. lia.
  - intros Hs. apply B3, A3, Hs.
Qed.

Lemma insert_pack_row_sums `{!ZstdLaws} db u pack plain now st st' db' s :
  insert_pack_row data_key db u pack plain now st = (st', Ok (db', s)) ->
  (forall v, charged v db' = charged v db) /\ stored_total db' = stored_total db + s /\
  (Forall sized (files db) -> Forall sized (files db')).
Proof.
  intros Hi. unfold insert_pack_row in Hi.
  apply io_bind_ok in Hi as (st1 & pcs & [-> Hp%map_err_ok]%lift_ok & Hi).
  apply io_bind_ok in Hi as (st2 & db1 & [-> Hins]%lift_ok & Hi).
  apply io_bind_ok in Hi as (st3 & db2 & Hw & [= _ <- <-]).
  pose proof (written_files _ _ _ _ _ _ Hw) as Hf. split; [|split].
  - intros v. unfold charged. rewrite Hf, (insert_total _ _ _ _ Hins). unfold weight, not_pack. cbn.
    change (like (pack_key pack) (PACK_PATH_PREFIX ++ "%")) with (hidden (pack_key pack)).
    rewrite hidden_pack_key, andb_false_r. lia.
  - unfold stored_total. by rewrite Hf, (insert_total _ _ _ _ Hins).
  - intros Hs. rewrite Hf. apply insert_file_ok in Hins as [_ ->]. cbn [files set_files]. apply Forall_app. split; [done|].
    constructor; [|done]. split; [apply len_nonneg|split; [|done]]. eapply stored_cost_nonneg; [|exact Hp]. done.
Qed.

Lemma insert_pack_row_rows db u pack plain now st st' db' s f :
  insert_pack_row data_key db u pack plain now st = (st', Ok (db', s)) -> f ∈ files db -> f ∈ files db'.
Proof.
  intros Hi Hf. unfold insert_pack_row in Hi. apply io_bind_ok in Hi as (st1 & pcs & _ & Hi).
  apply io_bind_ok in Hi as (st2 & db1 & [-> [_ ->]%insert_file_ok]%lift_ok & Hi).
  apply io_bind_ok in Hi as (st3 & db2 & Hw & [= _ <- <-]). rewrite (written_files _ _ _ _ _ _ Hw).
  cbn [files set_files]. apply elem_of_app. by left.
Qed.

(** Packing charges nobody; the node pays for the container and is freed of the members. *)
Lemma pack_files_sums `{!ZstdLaws} db u es rnd now st st' db' r :
  db_inv db -> pack_files data_key db u es rnd now st = (st', Ok (db', r)) ->
  (forall v, charged v db' = charged v db) /\
  stored_total db' = stored_total db + (pk_pack_stored_bytes r - pk_freed_stored_bytes r) /\
  (Forall sized (files db) -> Forall sized (files db')).
Proof.
  intros Hinv Hpk. unfold pack_files in Hpk. destruct (bool_decide _); [discriminate|].
  apply io_bind_ok in Hpk as (st1 & [plain ranges] & _ & Hpk).
  apply io_bind_ok in Hpk as (st2 & [[db1 freed] frags] & [-> Hf]%lift_ok & Hpk).
  apply io_bind_ok in Hpk as (st3 & [db2 stored] & Hins & Hpk).
  apply io_bind_ok in Hpk as (st4 & remote & _ & [= _ <- <-]). cbn.
  destruct (pack_members_sums _ _ _ _ _ _ _ Hinv Hf) as (A1 & A2 & A3). cbn [fst snd] in *.
  destruct (insert_pack_row_sums _ _ _ _ _ _ _ _ _ Hins) as (B1 & B2 & B3).
  split; [intros v; by rewrite B1, A1|split; [rewrite B2, A2; lia|auto]].
Qed.

(** A member moved to another container: its own cost was nil already. *)
Lemma compact_member_sums u old new db p db' :
  db_inv db -> Forall sized (files db) -> compact_member u old new db p = Ok db' ->
  db_inv db' /\ Forall sized (files db') /\ (forall v, charged v db' = charged v db) /\ stored_total db' = stored_total db /\
  forall i g, g ∈ files db -> is_row u i g = true ->
    exists g', g' ∈ files db' /\ is_row u i g' = true /\ stored_bytes g' = stored_bytes g /\ not_pack g' = not_pack g.
Proof.
  intros Hinv Hs Hd. unfold compact_member in Hd. apply bind_ok in Hd as (row & Hrow%ok_or_ok & Hd).
  destruct (_ || _) eqn:Eg; [discriminate|]. apply orb_false_iff in Eg as [Hp%negb_false_iff%bool_decide_eq_true _].
  destruct (assign_to_pack _ _ _ _ _ _) as [[d' b]| |] eqn:Ea; try discriminate. injection Hd as <-.
  apply get_file_elem in Hrow as (f & Hf & Hr & ->).
  assert (Hz : stored_bytes f = 0).
  { rewrite Forall_forall in Hs. destruct (Hs f Hf) as (_ & _ & Hz). apply Hz. intros E. cbn in Hp. congruence. }
  destruct (assign_sums _ _ _ _ _ _ _ _ f Hinv Hf Hr Ea) as (A1 & A2 & A3).
  split; [by eapply assign_inv|split; [by apply A3|split; [done|split; [rewrite A2, Hz; lia|]]]].
  intros i g Hg Hi. apply bind_ok in Ea as ([d n] & Hu & [= <- _]). unfold update_files in Hu.
  destruct (unique_paths _); [|done]. injection Hu as <- _. cbn [fst files set_files].
  eexists. split; [apply list_elem_of_fmap_2, Hg|]. cbn. destruct (is_row u (e_file_id p.1) g) eqn:E; [|done].
  split; [done|split; [|done]]. assert (g = f) as ->; [|done].
  apply is_row_true in E as [_ Eg], Hr as [_ Er]. apply (unique_id db); [done..|congruence].
Qed.

Lemma compact_members_sums u old new ps : forall db db',
  db_inv db -> Forall sized (files db) -> foldM (compact_member u old new) db ps = Ok db' ->
  db_inv db' /\ Forall sized (files db') /\ (forall v, charged v db' = charged v db) /\ stored_total db' = stored_total db /\
  forall i g, g ∈ files db -> is_row u i g = true ->
    exists g', g' ∈ files db' /\ is_row u i g' = true /\ stored_bytes g' = stored_bytes g /\ not_pack g' = not_pack g.
Proof.
  induction ps as [|p ps IH]; intros db db' Hinv Hs Hf; cbn [foldM] in Hf.
  { injection Hf as <-. split; [done|split; [done|split; [done|split; [done|]]]]. intros i g Hg Hi. by exists g. }
  apply bind_ok in Hf as (d & Hd & Hf). destruct (compact_member_sums _ _ _ _ _ _ Hinv Hs Hd) as (A1 & A2 & A3 & A4 & A5).
  destruct (IH d db' A1 A2 Hf) as (B1 & B2 & B3 & B4 & B5).
  split; [done|split; [done|split; [intros v; by rewrite B3, A3|split; [by rewrite B4, A4|]]]].
  intros i g Hg Hi. destruct (A5 i g Hg Hi) as (g1 & G1 & G2 & G3 & G4). destruct (B5 i g1 G1 G2) as (g2 & K1 & K2 & K3 & K4).
  exists g2. split; [done|split; [done|split; [by rewrite K3|by rewrite K4]]].
Qed.

(** The row of the pair is a container. *)
Definition container (u i : string) (db : Db) : Prop := forall f, f ∈ files db -> is_row u i f = true -> not_pack f = false.

Lemma drop_container_sums db u i g :
  db_inv db -> g ∈ files db -> is_row u i g = true -> not_pack g = false ->
  let db' := (purge_file_row db u i).1 in
  (forall v, charged v db' = charged v db) /\ stored_total db' = stored_total db - stored_bytes g /\
  (Forall sized (files db) -> Forall sized (files db')).
Proof.
  intros Hinv Hg Hr Hn. unfold purge_file_row. cbn [fst]. split; [|split].
  - intros v. unfold charged. rewrite delete_total, (total_row _ db u i g) by done. unfold weight. rewrite Hn, andb_false_r. lia.
  - unfold stored_total. by rewrite delete_total, (total_row _ db u i g).
  - intros Hs. change (files (delete_files db (is_row u i))) with (filter (fun f => is_row u i f = false) (files db)).
    apply Forall_forall. intros x [_ Hx]%list_elem_of_filter. rewrite Forall_forall in Hs. by apply Hs.
Qed.

Lemma compact_pack_sums `{!ZstdLaws} db u old es rnd now st st' db' r :
  db_inv db -> Forall sized (files db) -> container u old db ->
  compact_pack data_key db u old es rnd now st = (st', Ok (db', r)) ->
  (forall v, charged v db' = charged v db) /\
  stored_total db' = stored_total db + (pk_pack_stored_bytes r - pk_freed_stored_bytes r) /\ Forall sized (files db').
Proof.
  intros Hinv Hs Hcont Hc. unfold compact_pack in Hc. apply io_bind_ok in Hc as (st1 & f & [-> Hrow%ok_or_ok]%lift_ok & Hc).
  apply get_file_elem in Hrow as (g & Hg & Hr & ->). pose proof (Hcont g Hg Hr) as Hn.
  destruct (negb _); [discriminate|]. apply io_bind_ok in Hc as (st2 & t & _ & Hc).
  destruct (bool_decide _).
  - unfold purge_file_row in Hc. apply io_bind_ok in Hc as (st3 & remote & _ & [= _ <- <-]). cbn.
    destruct (drop_container_sums db u old g Hinv Hg Hr Hn) as (A1 & A2 & A3). split; [done|split; [|by apply A3]].
    change (stored_total (purge_file_row db u old).1 = stored_total db + (0 - stored_bytes g)). rewrite A2. lia.
  - apply io_bind_ok in Hc as (st3 & [plain ranges] & _ & Hc).
    apply io_bind_ok in Hc as (st4 & db1 & [-> Hf]%lift_ok & Hc).
    apply io_bind_ok in Hc as (st5 & [db2 stored] & Hins & Hc). unfold purge_file_row in Hc.
    apply io_bind_ok in Hc as (st6 & remote & _ & [= _ <- <-]). cbn.
    destruct (compact_members_sums _ _ _ _ _ _ Hinv Hs Hf) as (A1 & A2 & A3 & A4 & A5).
    destruct (A5 old g Hg Hr) as (g' & Hg' & Hr' & Est & En).
    destruct (insert_pack_row_sums _ _ _ _ _ _ _ _ _ Hins) as (B1 & B2 & B3).
    assert (Hg2 : g' ∈ files db2) by (eapply insert_pack_row_rows; [exact Hins|done]).
    destruct (drop_container_sums db2 u old g') as (C1 & C2 & C3); [by eapply insert_pack_row_inv|done|done|by rewrite En|].
    split; [intros v; etransitivity; [apply C1|by rewrite B1, A3]|split; [|by apply C3, B3]].
    change (stored_total (purge_file_row db2 u old).1 = stored_total db + (stored - stored_bytes g)). rewrite C2, B2, A4, Est. lia.
Qed.
End Sums.
