(* ===== verification/AccountsSpec.v ===== *)
(** * The ledger follows the files ([handlers/files.rs])

    Reclaiming calls against the ledger, the steps of the node's accounting - uploads taking
    turns with one another and with whole deletions, sweeps, packings and moves - and the
    invariant they keep: what an account is charged is what its rows weigh plus what its
    uploads in flight hold. *)

From Stdlib Require Import ZArith Lia Strings.Ascii Strings.String Strings.Byte.
From stdpp Require Import base numbers list gmap strings sorting relations.
From S2P Require Import Prelude External Erasure Crypto Pipeline Paths Manifest ManifestInv ChunkStore Text.
From S2P Require Import Service ServiceProofs ServiceSpec Packs PackProofs ServiceInv Protocol ReadPath Instance Quotas Accounts AccountsProofs.

(** ** What the reclaiming calls remove and report *)

Lemma filter_total g db p db' :
  files db' = filter (fun f => p f = false) (files db) ->
  total g (files db') = total g (files db) - total g (filter (fun f => p f = true) (files db)).
Proof. intros ->. rewrite (total_split g p (files db)). lia. Qed.

Definition trashed (u : string) (f : FileRec) : bool := same (user_id f) u && negb (is_none (deleted_at f)) && not_pack f.

Lemma fold_summary u l : forall (d : Db) fr s,
  (foldl (fun '(db, frags, s) f => let '(db, fr) := purge_file_row db u (r_file_id f) in
            (db, frags ++ fr, summary_add s f)) (d, fr, s) l).2 = foldl summary_add s l.
Proof. induction l as [|f l IH]; intros d fr s; [done|]. cbn [foldl]. exact (IH _ _ _). Qed.

Lemma summary_sums l : forall s,
  ts_size (foldl summary_add s l) = ts_size s + zsum (r_size <$> l) /\
  ts_stored_bytes (foldl summary_add s l) = ts_stored_bytes s + zsum (r_stored_bytes <$> l).
Proof.
  induction l as [|f l IH]; intros s; cbn [foldl fmap list_fmap]; [cbn; lia|].
  rewrite !zsum_cons. destruct (IH (summary_add s f)) as [-> ->]. cbn. lia.
Qed.

Lemma empty_trash_sums db st u :
  db_inv db ->
  let r := empty_trash db st u in
  let gone := filter (fun f => trashed u f = true) (files db) in
  db_inv r.1.1 /\ files r.1.1 = filter (fun f => trashed u f = false) (files db) /\
  ts_size r.2.1 = total size gone /\ ts_stored_bytes r.2.1 = total stored_bytes gone.
Proof.
  intros Hinv r gone. pose proof (empty_trash_rows db st u) as (E1 & _ & _).
  destruct (purge_rows_spec db st ((fun f => (u, r_file_id f)) <$> list_trashed db u) Hinv) as (Hi & _ & _ & Hf).
  unfold r. rewrite E1. split; [done|split].
  - rewrite Hf. apply list_filter_iff'. intros f Hfd. rewrite <- not_true_iff_false. apply not_iff_compat.
    rewrite list_elem_of_fmap. unfold list_trashed. split.
    + intros (x & [= Eu Ei] & Hx). rewrite merge_sort_Permutation in Hx. apply elem_of_select in Hx as (g & Hg & Hp & ->).
      by rewrite (unique_id db f g).
    + intros Hp. exists (map_file f). split.
      * unfold trashed in Hp. apply andb_true_iff in Hp as [[Hu%same_true _]%andb_true_iff _]. by rewrite <- Hu.
      * rewrite merge_sort_Permutation. apply elem_of_select. by exists f.
  - assert (Es : (empty_trash db st u).2.1 = foldl summary_add summary0 (list_trashed db u)).
    { unfold empty_trash. rewrite <- (fold_summary u _ db []). destruct (foldl _ _ _) as [[d fr] s].
      by destruct (purge_local_collect_remote _ _). }
    rewrite Es. destruct (summary_sums (list_trashed db u) summary0) as [-> ->]. cbn [summary0 ts_size ts_stored_bytes].
    unfold list_trashed. rewrite !Z.add_0_l, merge_sort_Permutation. unfold select, total, gone.
    rewrite <- !list_fmap_compose. done.
Qed.

(** The report of the sweep adds up to what it removed. *)
Lemma of_user_none u gone : of_user u gone = [] <-> forall f, f ∈ gone -> user_id f <> u.
Proof.
  split.
  - intros E f Hf Hu. assert (Hin : f ∈ of_user u gone) by (by apply list_elem_of_filter). rewrite E in Hin. by apply elem_of_nil in Hin.
  - intros Hn. destruct (of_user u gone) as [|f l] eqn:E; [done|]. exfalso.
    assert (Hin : f ∈ of_user u gone) by (rewrite E; left). apply list_elem_of_filter in Hin as [Hu Hf]. by apply (Hn f).
Qed.

Lemma report_sum (val : string * Z * Z -> Z) (g : FileRec -> Z) es : forall gone,
  (forall u fs, (forall f, f ∈ fs -> user_id f = u) -> val (u, total size fs, total stored_bytes fs) = total g fs) ->
  NoDup ((fun e : string * Z * Z => e.1.1) <$> es) ->
  (forall u s t, (u, s, t) ∈ es <->
     of_user u gone <> [] /\ s = total size (of_user u gone) /\ t = total stored_bytes (of_user u gone)) ->
  zsum (val <$> es) = total g gone.
Proof.
  induction es as [|[[u s] t] es IH]; intros gone Hv Hnd Hes; cbn [fmap list_fmap].
  - destruct gone as [|f gone]; [done|]. exfalso. eapply (elem_of_nil (user_id f, _, _)), Hes. split; [|done].
    intros E. by apply (proj1 (of_user_none _ _) E f ltac:(left)).
  - apply NoDup_cons in Hnd as [Hni Hnd]. destruct (proj1 (Hes u s t) ltac:(left)) as (Hne & Es & Et).
    set (rest := filter (fun f => user_id f <> u) gone).
    assert (Ho : forall v, of_user v rest = if decide (v = u) then [] else of_user v gone).
    { intros v. destruct (decide (v = u)) as [->|Hv'].
      - apply of_user_none. by intros f [Hf _]%list_elem_of_filter.
      - unfold of_user, rest. rewrite list_filter_filter. apply list_filter_iff. intros f. split; [tauto|]. intros <-. by split. }
    rewrite zsum_cons, (IH rest Hv Hnd).
    + rewrite Es, Et, Hv by (by intros f [Hf _]%list_elem_of_filter).
      rewrite (total_split g (fun f => bool_decide (user_id f = u)) gone). f_equal; f_equal; apply list_filter_iff; intros f.
      * symmetry. apply bool_decide_eq_true.
      * symmetry. apply bool_decide_eq_false.
    + intros v s' t'. rewrite Ho. destruct (decide (v = u)) as [->|Hv'].
      * split; [|by intros [? _]]. intros Hin. exfalso. apply Hni. by apply (list_elem_of_fmap_2 (fun e : string * Z * Z => e.1.1)) in Hin.
      * rewrite <- Hes. split; [by right|]. intros [[= -> _ _]|Hin]%elem_of_cons; done.
Qed.

Lemma freed_users_nodup db st ago policy : NoDup ((fun e : string * Z * Z => e.1.1) <$> pg_freed (purge_retired db st ago policy).2).
Proof.
  unfold purge_retired. destruct (foldl sweep_one _ _) as [[[[d seen] freed] frags] n].
  destruct (purge_local_collect_remote st frags) as [st' remote]. cbn [snd pg_freed]. rewrite <- list_fmap_compose.
  rewrite merge_sort_Permutation. change (NoDup ((map_to_list freed).*1)). apply NoDup_fst_map_to_list.
Qed.

(** ** What the ledger must say *)

(** Each row says what its account needs, within its quota; an account without a row needs
    nothing. *)
Definition backs (l : Ledger) (need : string -> Z) : Prop :=
  forall u, match user_quota l !! u with
            | Some (quota, used) => used = need u /\ used <= quota
            | None => need u = 0
            end.

Lemma backs_add l need need' u d :
  backs l need -> (forall v, need' v = need v + (if same u v then d else 0)) -> d <= 0 -> 0 <= need' u ->
  backs (add_used l u d) need'.
Proof.
  intros Hb Hn Hd Hpos v. specialize (Hb v). rewrite (Hn v). unfold add_used, set_rows. cbn [user_quota].
  destruct (same u v) eqn:E.
  - apply same_true in E as <-. rewrite lookup_alter_eq. specialize (Hn u). rewrite (proj2 (same_true u u) eq_refl) in Hn.
    destruct (user_quota l !! u) as [[q used]|]; cbn [fmap option_fmap option_map fst snd]; lia.
  - apply bool_decide_eq_false in E. rewrite lookup_alter_ne by done.
    destruct (user_quota l !! v) as [[q used]|]; lia.
Qed.
Lemma backs_adjust l need need' u d :
  backs l need -> (forall v, need' v = need v + (if same u v then d else 0)) -> d <= 0 -> 0 <= need' u ->
  backs (adjust_user_used l u d) need'.
Proof.
  intros Hb Hn Hd Hpos. unfold adjust_user_used. destruct (Z.eqb_spec d 0) as [->|_]; [|by eapply backs_add].
  intros v. specialize (Hb v). rewrite (Hn v). destruct (same u v); by rewrite Z.add_0_r.
Qed.
Lemma backs_ext l l' need need' :
  user_quota l' = user_quota l -> (forall v, need' v = need v) -> backs l need -> backs l' need'.
Proof. intros E Hn Hb v. rewrite E, (Hn v). apply Hb. Qed.

Lemma backs_ensure cfg l need u : backs l need -> backs (ensure cfg l u).1 need.
Proof.
  intros Hb v. pose proof (Hb v) as Hv. unfold ensure. destruct (user_quota l !! u) eqn:E; [done|].
  destruct (_ <=? 0); [done|]. destruct (Z.leb_spec (Z.min (default_quota_bytes cfg) (Z.max (contributed l - allocated l) 0)) 0); [done|].
  cbn [fst user_quota set_rows]. destruct (decide (v = u)) as [->|Hne]; [|by rewrite lookup_insert_ne].
  rewrite lookup_insert_eq. rewrite E in Hv. lia.
Qed.
Lemma backs_charge l need u n l' :
  backs l need -> charge l u n = Some l' -> backs l' (fun v => need v + (if same u v then n else 0)).
Proof.
  intros Hb (q & used & Hu & Hle & ->)%charge_ok v. cbn [user_quota set_rows]. pose proof (Hb v) as Hv.
  destruct (same u v) eqn:E.
  - apply same_true in E as <-. rewrite lookup_insert_eq. rewrite Hu in Hv. lia.
  - apply bool_decide_eq_false in E. rewrite lookup_insert_ne by done. destruct (user_quota l !! v) as [[??]|]; lia.
Qed.
Lemma backs_quota l need u q :
  backs l need -> (forall r, user_quota l !! u = Some r -> r.2 <= q) -> 0 <= q -> backs (upsert_quota l u q) need.
Proof.
  intros Hb Hq Hpos v. pose proof (Hb v) as Hv. unfold upsert_quota, set_rows. cbn [user_quota].
  destruct (decide (v = u)) as [->|Hne]; [|by rewrite lookup_insert_ne]. rewrite lookup_insert_eq.
  destruct (user_quota l !! u) as [[q' used]|] eqn:E; [|lia]. specialize (Hq _ eq_refl). cbn [snd] in *. lia.
Qed.

Lemma ensure_node cfg l u : node_used (ensure cfg l u).1 = node_used l.
Proof. unfold ensure. destruct (_ !! _); [done|]. destruct (_ <=? 0); [done|]. by destruct (_ <=? 0). Qed.
Lemma charge_node l u n l' : charge l u n = Some l' -> node_used l' = node_used l.
Proof. by intros (q & used & _ & _ & ->)%charge_ok. Qed.
Lemma adjust_node l u d : node_used (adjust_user_used l u d) = node_used l.
Proof. unfold adjust_user_used. by destruct (d =? 0). Qed.

Lemma settle_node l r :
  user_quota (settle_pack_write l r) = user_quota l /\
  (0 <= node_used l -> node_used (settle_pack_write l r) = Z.max (node_used l + (pk_pack_stored_bytes r - pk_freed_stored_bytes r)) 0).
Proof.
  unfold settle_pack_write, adjust_node_stored.
  destruct (Z.eqb_spec (pk_pack_stored_bytes r - pk_freed_stored_bytes r) 0) as [->|_]; [|done]. split; [done|lia].
Qed.

(** The credits of a sweep, one account after the other. *)
Definition credit_of (v : string) (e : string * Z * Z) : Z := if same e.1.1 v then e.1.2 else 0.
Lemma backs_credits is_uuid es : forall l need size stored,
  backs l need -> Forall (fun e : string * Z * Z => is_uuid e.1.1 = true /\ 0 <= e.1.2) es ->
  (forall v, zsum (credit_of v <$> es) <= need v) ->
  let x := foldl (credit_one is_uuid) (l, size, stored) es in
  backs x.1.1 (fun v => need v - zsum (credit_of v <$> es)) /\ node_used x.1.1 = node_used l /\
  x.2 = stored + zsum (snd <$> es).
Proof.
  induction es as [|[[u s] t] es IH]; intros l need sz stored Hb Hall Hle; cbn [foldl].
  - cbn. split; [|split; [done|lia]]. eapply backs_ext; [done| |exact Hb]. intros v. lia.
  - apply Forall_cons in Hall as [[Hu Hs] Hall]. cbn [fst snd] in *. cbv zeta.
    assert (Hc : credit_one is_uuid (l, sz, stored) (u, s, t) = (add_used l u (- s), sz + s, stored + t))
      by (unfold credit_one; cbn [fst snd]; by rewrite Hu). rewrite Hc.
    assert (Hnn : forall v, 0 <= zsum (credit_of v <$> es)).
    { intros v. apply zsum_nonneg, Forall_fmap. eapply Forall_impl; [exact Hall|]. intros e [_ He]. cbn. unfold credit_of.
      destruct (same _ _); lia. }
    assert (Hstep : forall v, zsum (credit_of v <$> (u, s, t) :: es) = (if same u v then s else 0) + zsum (credit_of v <$> es)) by done.
    destruct (IH (add_used l u (- s)) (fun v => need v + (if same u v then - s else 0)) (sz + s) (stored + t)) as (A1 & A2 & A3).
    + eapply backs_add; [exact Hb|done|lia|]. cbn. specialize (Hle u). rewrite Hstep in Hle. specialize (Hnn u).
      rewrite (proj2 (same_true u u) eq_refl) in *. lia.
    + done.
    + intros v. specialize (Hle v). rewrite Hstep in Hle. destruct (same u v); lia.
    + split; [|split; [exact A2|]].
      * eapply backs_ext; [done| |exact A1]. intros v. cbn beta. rewrite Hstep. destruct (same u v); lia.
      * rewrite A3, fmap_cons, zsum_cons. cbn. lia.
Qed.

(** ** The steps of the accounting *)

(** The calls that only move rows; no container is named, no path begins with U+0001. *)
Inductive moves (db : Db) : Db -> Prop :=
| m_trash u i now db' f : no_pack u i db -> trash db u i now = Ok (db', f) -> moves db db'
| m_trash_path u p now db' s : no_pack_under db u (trim_slashes p) -> trash_path db u p now = Ok (db', s) -> moves db db'
| m_restore u i np now db' f :
    (forall f, get_file db u i = Some f -> plain (trim_slashes (default (r_path f) np))) ->
    restore_row db u i np now = Ok (db', f) -> moves db db'
| m_mkdir u p : moves db (mkdir db u p)
| m_rename u from to db' :
    no_pack_under db u (trim_slashes from) -> plain (trim_slashes to) -> rename db u from to = Ok db' -> moves db db'.

Section Accounting.
Context {CP : CryptoPrims} {ZS : Zstd} {ZL : ZstdLaws} {LG : Log2} {RS : ReedSolomon}.
Variable data_key : bytes.
Variable cfg : InstanceConfig.
Variable is_uuid : string -> bool.

(** What an upload holds of an account's allowance without a row to show for it. *)
Definition owed (u : string) (t : UploadTask) : Z :=
  match t with
  | UCharged v _ data _ _ => if same v u then len data else 0
  | URefund v sz _ => if same v u then sz else 0
  | _ => 0
  end.
(** Bytes stored whose upload has not yet told the node's counter. *)
Definition unbooked (t : UploadTask) : Z :=
  match t with UStored _ _ r | UBooked r => pr_stored_bytes r | _ => 0 end.
Definition held (u : string) (ts : list UploadTask) : Z := zsum (owed u <$> ts).
Definition pending (ts : list UploadTask) : Z := zsum (unbooked <$> ts).

Definition task_ok (t : UploadTask) : Prop :=
  match t with
  | UStart _ raw _ _ _ => plain (trim raw)
  | UEnsured _ p _ _ _ | UCharged _ p _ _ _ => plain p
  | URefund _ sz _ => 0 <= sz
  | UStored _ sz r => pr_size r = sz /\ 0 <= pr_stored_bytes r
  | UBooked r => 0 <= pr_stored_bytes r
  | UDone _ => True
  end.

(** [calm]: nothing is reclaimed while an upload has yet to book what it stored. *)
Inductive acct_step (calm : bool) : AppState * list UploadTask -> AppState * list UploadTask -> Prop :=
| a_upload n ts u raw data rnd now :
    plain (trim raw) -> acct_step calm (n, ts) (n, ts ++ [UStart u raw data rnd now])
| a_turn n ts i t n' t' :
    ts !! i = Some t -> upload_step data_key cfg n t = (n', t') -> acct_step calm (n, ts) (n', <[i := t']> ts)
| a_move db st l ts db' : moves db db' -> acct_step calm (mkState db st l, ts) (mkState db' st l, ts)
| a_purge n ts u i n' r :
    (calm = true -> pending ts = 0) -> no_pack u i (n_db n) -> purge n u i = (n', Ok r) -> acct_step calm (n, ts) (n', ts)
| a_empty n ts u : (calm = true -> pending ts = 0) -> acct_step calm (n, ts) ((empty_trash_now n u).1, ts)
| a_sweep n ts ago :
    (calm = true -> pending ts = 0) -> (forall f, f ∈ files (n_db n) -> is_uuid (user_id f) = true) ->
    acct_step calm (n, ts) ((purge_retired_now is_uuid n ago).1, ts)
| a_pack db st l ts u es rnd now st' db' r :
    (calm = true -> pending ts = 0) -> pack_files data_key db u es rnd now st = (st', Ok (db', r)) ->
    acct_step calm (mkState db st l, ts) (mkState db' st' (settle_pack_write l r), ts)
| a_compact db st l ts u old es rnd now st' db' r :
    (calm = true -> pending ts = 0) -> container u old db -> compact_pack data_key db u old es rnd now st = (st', Ok (db', r)) ->
    acct_step calm (mkState db st l, ts) (mkState db' st' (settle_pack_write l r), ts)
| a_quota n ts u q :
    0 <= q -> (forall r, user_quota (n_ledger n) !! u = Some r -> r.2 <= q) ->
    acct_step calm (n, ts) (with_ledger n (upsert_quota (n_ledger n) u q), ts)
| a_contribute n ts b : acct_step calm (n, ts) (with_ledger n (write_contribution (n_ledger n) b), ts).

Record acct_inv (calm : bool) (s : AppState * list UploadTask) : Prop := {
  ai_db : db_inv (n_db s.1);
  ai_sized : Forall sized (files (n_db s.1));
  ai_tasks : Forall task_ok s.2;
  ai_used : backs (n_ledger s.1) (fun u => charged u (n_db s.1) + held u s.2);
  ai_node : 0 <= node_used (n_ledger s.1);
  ai_covers : stored_total (n_db s.1) <= node_used (n_ledger s.1) + pending s.2;
  ai_exact : calm = true -> node_used (n_ledger s.1) + pending s.2 = stored_total (n_db s.1)
}.

Lemma charged_nonneg u db : Forall sized (files db) -> 0 <= charged u db.
Proof.
  intros Hs. unfold charged, total. apply zsum_nonneg, Forall_fmap. eapply Forall_impl; [exact Hs|].
  intros f [Hf _]. cbn. unfold weight. destruct (_ && _); lia.
Qed.
Lemma stored_nonneg db : Forall sized (files db) -> 0 <= stored_total db.
Proof.
  intros Hs. unfold stored_total, total. apply zsum_nonneg, Forall_fmap. eapply Forall_impl; [exact Hs|].
  by intros f (_ & Hf & _).
Qed.
Lemma held_nonneg u ts : Forall task_ok ts -> 0 <= held u ts.
Proof.
  intros Hs. unfold held. apply zsum_nonneg, Forall_fmap. eapply Forall_impl; [exact Hs|]. intros t Ht. cbn.
  destruct t; cbn in *; try destruct (same _ _); try lia; apply len_nonneg.
Qed.

Lemma held_replace u ts i t t' : ts !! i = Some t -> held u (<[i := t']> ts) = held u ts - owed u t + owed u t'.
Proof. intros Hi. unfold held. rewrite list_fmap_insert. apply zsum_insert. by rewrite list_lookup_fmap, Hi. Qed.
Lemma pending_replace ts i t t' : ts !! i = Some t -> pending (<[i := t']> ts) = pending ts - unbooked t + unbooked t'.
Proof. intros Hi. unfold pending. rewrite list_fmap_insert. apply zsum_insert. by rewrite list_lookup_fmap, Hi. Qed.

(** The node's counter after a change of the stored total, clamped at zero. *)
Lemma node_follows calm nu p total total' d :
  0 <= total' -> total' = total + d -> total <= nu + p -> (calm = true -> nu + p = total) ->
  (calm = true -> d < 0 -> p = 0) ->
  0 <= Z.max (nu + d) 0 /\ total' <= Z.max (nu + d) 0 + p /\ (0 <= nu -> calm = true -> Z.max (nu + d) 0 + p = total').
Proof. intros H0 Ht Hc He Hp. split; [lia|split; [lia|]]. intros Hn Hcalm. specialize (He Hcalm). specialize (Hp Hcalm). lia. Qed.

(** A call that changes no account and moves the stored total by [d]. *)
Lemma node_inv calm db st l ts db' st' l' d :
  acct_inv calm (mkState db st l, ts) -> db_inv db' -> Forall sized (files db') ->
  (forall v, charged v db' = charged v db) -> stored_total db' = stored_total db + d ->
  user_quota l' = user_quota l -> node_used l' = Z.max (node_used l + d) 0 -> (calm = true -> pending ts = 0) ->
  acct_inv calm (mkState db' st' l', ts).
Proof.
  intros [I1 I2 I3 I4 I5 I6 I7] Hinv Hs Hc Ht Hq Hn Hp. cbn [fst snd n_db n_ledger] in *.
  destruct (node_follows calm (node_used l) (pending ts) (stored_total db) (stored_total db') d) as (A1 & A2 & A3);
    [by apply stored_nonneg|done|done|done|auto|].
  split; cbn [fst snd n_db n_ledger]; rewrite ?Hn; auto.
  eapply backs_ext; [exact Hq| |exact I4]. intros v. cbn. by rewrite Hc.
Qed.

(** A call that removes the rows [p] selects, credits their accounts and the node. *)
Lemma reclaim_inv calm db st l ts db' st' l' p :
  acct_inv calm (mkState db st l, ts) -> db_inv db' -> files db' = filter (fun f => p f = false) (files db) ->
  let gone := filter (fun f => p f = true) (files db) in
  ((forall v, total (weight v) gone <= charged v db + held v ts) ->
   backs l' (fun v => charged v db + held v ts - total (weight v) gone)) ->
  node_used l' = Z.max (node_used l - total stored_bytes gone) 0 -> (calm = true -> pending ts = 0) ->
  acct_inv calm (mkState db' st' l', ts).
Proof.
  intros [I1 I2 I3 I4 I5 I6 I7] Hinv Hf gone Hb Hn Hp. cbn [fst snd n_db n_ledger] in *.
  assert (Hs : Forall sized (files db')).
  { rewrite Hf. apply Forall_forall. intros f [_ Hin]%list_elem_of_filter. rewrite Forall_forall in I2. by apply I2. }
  assert (Ht : forall g, total g (files db') = total g (files db) - total g gone) by (intros g; by apply filter_total).
  destruct (node_follows calm (node_used l) (pending ts) (stored_total db) (stored_total db') (- total stored_bytes gone))
    as (A1 & A2 & A3); [by apply stored_nonneg|unfold stored_total; rewrite Ht; lia|done|done|auto|].
  split; cbn [fst snd n_db n_ledger]; rewrite ?Hn; rewrite <- ?Z.add_opp_r; auto.
  assert (Hle : forall v, total (weight v) gone <= charged v db + held v ts).
  { intros v. pose proof (held_nonneg v ts I3). pose proof (charged_nonneg v db' Hs) as Hc. unfold charged in *. rewrite Ht in Hc. lia. }
  eapply backs_ext; [done| |exact (Hb Hle)]. intros v. cbn. unfold charged. rewrite Ht. lia.
Qed.

(** The weight of rows of one account, none a container. *)
Lemma weight_gone v u gone :
  Forall (fun f => user_id f = u /\ not_pack f = true) gone ->
  total (weight v) gone = if same u v then total size gone else 0.
Proof.
  intros Hg. induction Hg as [|f gone [Hu Hn] _ IH]; [by destruct (same u v)|].
  rewrite !total_cons, IH. unfold weight. rewrite Hu, Hn, andb_true_r. by destruct (same u v).
Qed.

Lemma purge_step_inv calm n ts u i n' r :
  acct_inv calm (n, ts) -> (calm = true -> pending ts = 0) -> no_pack u i (n_db n) -> purge n u i = (n', Ok r) ->
  acct_inv calm (n', ts).
Proof.
  intros Hinv Hc Hn Hp. destruct n as [db st l]. cbn [n_db] in Hn. unfold purge in Hp. cbn [n_db n_store n_ledger] in Hp.
  destruct (purge_file db st u i) as [[[db' st'] [f remote]]| |] eqn:E; try discriminate. injection Hp as <- <-.
  pose proof (ai_db _ _ Hinv) as Hi. cbn [fst n_db] in Hi.
  destruct (purge_file_ok _ _ _ _ _ _ _ _ E) as (Hf & -> & _ & _).
  apply get_file_elem in Hf as (g & Hg & Hr & ->).
  assert (Hw : forall h, total h (filter (fun f => is_row u i f = true) (files db)) = h g) by (intros h; by apply (total_row h db u i g)).
  pose proof Hr as [Hu _]%is_row_true. specialize (Hn g Hg Hr).
  eapply (reclaim_inv calm db st l ts _ _ _ (is_row u i) Hinv); [by apply delete_files_inv|done| | |done].
  - intros Hle. unfold credit_freed_space. eapply backs_ext; [done|intros v; reflexivity|].
    apply (backs_add l _ _ u _ (ai_used _ _ Hinv)); cbn [fst snd n_db r_size map_file].
    + intros v. rewrite Hw. unfold weight. rewrite Hu, Hn, andb_true_r. destruct (same u v); lia.
    + pose proof (ai_sized _ _ Hinv) as Hs. cbn in Hs. rewrite Forall_forall in Hs. destruct (Hs g Hg). lia.
    + specialize (Hle u). lia.
  - unfold credit_freed_space. by rewrite Hw.
Qed.

Lemma empty_step_inv calm n ts u :
  acct_inv calm (n, ts) -> (calm = true -> pending ts = 0) -> acct_inv calm ((empty_trash_now n u).1, ts).
Proof.
  intros Hinv Hc. destruct n as [db st l]. unfold empty_trash_now. cbn [n_db n_store n_ledger].
  destruct (empty_trash_sums db st u (ai_db _ _ Hinv)) as (A1 & A2 & A3 & A4).
  destruct (empty_trash db st u) as [[db' st'] [s remote]]. cbn [fst snd] in *.
  set (gone := filter (fun f => trashed u f = true) (files db)) in *.
  assert (Hw : forall v, total (weight v) gone = if same u v then total size gone else 0).
  { intros v. apply weight_gone, Forall_forall. intros f [Ht _]%list_elem_of_filter. unfold trashed in Ht.
    apply andb_true_iff in Ht as [[Hu%same_true _]%andb_true_iff Hn]. by split. }
  eapply (reclaim_inv calm db st l ts _ _ _ (trashed u) Hinv); [done|done| | |done]; fold gone.
  - intros Hle. unfold credit_freed_space. rewrite A3. eapply backs_ext; [done|intros v; reflexivity|].
    apply (backs_add l _ _ u _ (ai_used _ _ Hinv)).
    + intros v. cbn [fst snd n_db]. rewrite Hw. destruct (same u v); lia.
    + pose proof (ai_sized _ _ Hinv) as Hs. cbn [fst n_db] in Hs. assert (0 <= total size gone); [|lia].
      apply zsum_nonneg, Forall_fmap, Forall_forall. intros f [_ Hf]%list_elem_of_filter.
      rewrite Forall_forall in Hs. by destruct (Hs f Hf).
    + specialize (Hle u). lia.
  - unfold credit_freed_space. by rewrite A4.
Qed.

Lemma retired_row_no_pack db f : db_inv db -> f ∈ files db -> LIVE f = false -> not_pack f = true.
Proof.
  intros Hinv Hf Hl. pose proof (inv_rows _ Hinv) as Hrows. rewrite Forall_forall in Hrows. specialize (Hrows f Hf).
  unfold row_ok in Hrows. rewrite Hl in Hrows. destruct Hrows as [_ E]. unfold not_pack. rewrite E.
  change (negb (hidden (retired_key (file_id f))) = true). by rewrite retired_not_hidden.
Qed.

(** A row one of the rules of the sweep selects. *)
Definition expired (db : Db) (ago : Z -> string) (f : FileRec) : bool :=
  bool_decide (f ∈ purge_rule_rows db ago retention_policy).

(** What the sweep credits to each account, and to the node. *)
Lemma sweep_report db st ago :
  db_inv db -> Forall sized (files db) ->
  let r := purge_retired db st ago retention_policy in
  let gone := filter (fun f => expired db ago f = true) (files db) in
  db_inv r.1.1 /\ files r.1.1 = filter (fun f => expired db ago f = false) (files db) /\
  (forall v, zsum (credit_of v <$> pg_freed r.2) = total (weight v) gone) /\
  zsum (snd <$> pg_freed r.2) = total stored_bytes gone /\
  Forall (fun e : string * Z * Z => (exists f, f ∈ gone /\ user_id f = e.1.1) /\ 0 <= e.1.2) (pg_freed r.2).
Proof.
  intros Hinv Hs. cbv zeta. pose proof (purge_retired_spec db st ago retention_policy Hinv) as Hspec.
  pose proof (freed_users_nodup db st ago retention_policy) as Hnd.
  destruct (purge_retired db st ago retention_policy) as [[db' st'] rep]. destruct Hspec as (A1 & A2 & _ & _ & A5). cbn [fst snd] in *.
  set (gone := filter (fun f => expired db ago f = true) (files db)).
  assert (Eg : filter (fun f => f ∈ purge_rule_rows db ago retention_policy) (files db) = gone)
    by (apply list_filter_iff; intros f; symmetry; apply bool_decide_eq_true).
  rewrite Eg in A5. split; [done|split; [|split; [|split]]].
  - rewrite A2. apply list_filter_iff. intros f. symmetry. apply bool_decide_eq_false.
  - intros v. rewrite (report_sum (credit_of v) (fun f => if same (user_id f) v then size f else 0) _ gone); [|..|done|done].
    + unfold total. f_equal. apply list_fmap_ext. intros i f [Hp Hf]%list_elem_of_lookup_2%list_elem_of_filter.
      apply bool_decide_eq_true in Hp. apply purge_rule_rows_spec in Hp as [_ Hl].
      unfold weight. rewrite (retired_row_no_pack db f Hinv Hf Hl). by rewrite andb_true_r.
    + intros u fs Hu. unfold credit_of. cbn [fst snd]. destruct (same u v) eqn:E.
      * unfold total. f_equal. apply list_fmap_ext. intros i f Hf%list_elem_of_lookup_2. by rewrite (Hu f Hf), E.
      * symmetry. apply zsum_zero, Forall_fmap, Forall_forall. intros f Hf. cbn. by rewrite (Hu f Hf), E.
  - apply report_sum; [by intros u fs _|done|done].
  - apply Forall_forall. intros [[u s] t] Hin. apply A5 in Hin as (Hne & -> & _). cbn [fst snd]. split.
    + destruct (of_user u gone) as [|f l] eqn:E; [done|]. exists f.
      assert (Hf : f ∈ of_user u gone) by (rewrite E; left). by apply list_elem_of_filter in Hf as [Hu Hf].
    + apply zsum_nonneg, Forall_fmap, Forall_forall. intros f [_ [_ Hf]%list_elem_of_filter]%list_elem_of_filter.
      rewrite Forall_forall in Hs. by destruct (Hs f Hf).
Qed.

Lemma sweep_step_inv calm n ts ago :
  acct_inv calm (n, ts) -> (calm = true -> pending ts = 0) ->
  (forall f, f ∈ files (n_db n) -> is_uuid (user_id f) = true) ->
  acct_inv calm ((purge_retired_now is_uuid n ago).1, ts).
Proof.
  intros Hinv Hc Hu. destruct n as [db st l]. unfold purge_retired_now. cbn [n_db n_store n_ledger] in *.
  destruct (sweep_report db st ago (ai_db _ _ Hinv) (ai_sized _ _ Hinv)) as (A1 & A2 & A3 & A4 & A5).
  destruct (purge_retired db st ago retention_policy) as [[db' st'] rep]. cbn [fst snd] in *.
  set (gone := filter (fun f => expired db ago f = true) (files db)) in *.
  pose proof (backs_credits is_uuid (pg_freed rep) l _ 0 0 (ai_used _ _ Hinv)) as Hb. cbv zeta in Hb.
  destruct (foldl (credit_one is_uuid) (l, 0, 0) (pg_freed rep)) as [[l' sz] stored]. cbn [fst snd n_db] in *.
  assert (Hall : Forall (fun e : string * Z * Z => is_uuid e.1.1 = true /\ 0 <= e.1.2) (pg_freed rep)).
  { eapply Forall_impl; [exact A5|]. intros e [(f & Hf & E) He]. split; [|done]. rewrite <- E. apply Hu.
    by apply list_elem_of_filter in Hf as [_ ?]. }
  assert (Hle : forall v, zsum (credit_of v <$> pg_freed rep) <= charged v db + held v ts).
  { intros v. rewrite A3. pose proof (held_nonneg v ts (ai_tasks _ _ Hinv)).
    assert (Hs' : Forall sized (files db')).
    { rewrite A2. apply Forall_forall. intros f [_ Hf]%list_elem_of_filter. pose proof (ai_sized _ _ Hinv) as Hs. cbn in Hs.
      rewrite Forall_forall in Hs. by apply Hs. }
    pose proof (charged_nonneg v db' Hs') as Hn. pose proof (filter_total (weight v) db (expired db ago) db' A2) as Ht. unfold charged in *. fold gone in Ht. lia. }
  destruct (Hb Hall Hle) as (B1 & B2 & B3).
  assert (Hst : 0 <= stored).
  { rewrite B3, A4, Z.add_0_l. apply zsum_nonneg, Forall_fmap, Forall_forall. intros f [_ Hf]%list_elem_of_filter.
    pose proof (ai_sized _ _ Hinv) as Hs. cbn in Hs. rewrite Forall_forall in Hs. by destruct (Hs f Hf) as (_ & ? & _). }
  eapply (reclaim_inv calm db st l ts _ _ _ (expired db ago) Hinv); [done|done| | |done]; fold gone.
  - intros _. eapply backs_ext; [|intros v; rewrite <- A3; reflexivity|exact B1]. by destruct (0 <? stored).
  - pose proof (ai_node _ _ Hinv) as Hnn. cbn in Hnn. rewrite <- A4.
    destruct (Z.ltb_spec 0 stored); unfold add_stored; cbn [node_used set_node_used]; rewrite B2; lia.
Qed.

(** A turn that leaves the rows alone. *)
Lemma ledger_turn calm db st l ts st' l' i t t' :
  acct_inv calm (mkState db st l, ts) -> ts !! i = Some t -> task_ok t' ->
  backs l' (fun v => charged v db + held v ts - owed v t + owed v t') ->
  node_used l' + unbooked t' = node_used l + unbooked t -> 0 <= node_used l' ->
  acct_inv calm (mkState db st' l', <[i := t']> ts).
Proof.
  intros [I1 I2 I3 I4 I5 I6 I7] Hi Ht Hb Hn Hpos. cbn [fst snd n_db n_ledger] in *.
  split; cbn [fst snd n_db n_ledger]; rewrite ?(pending_replace _ _ _ _ Hi); try done.
  - by apply Forall_insert.
  - eapply backs_ext; [done| |exact Hb]. intros v. cbn. rewrite (held_replace _ _ _ _ _ Hi). lia.
  - lia.
  - intros Hc. specialize (I7 Hc). lia.
Qed.

(** The turn that stores the bytes. *)
Lemma store_turn calm db st l ts st' i u p data rnd now db' r :
  acct_inv calm (mkState db st l, ts) -> ts !! i = Some (UCharged u p data rnd now) ->
  push data_key db u p data rnd now st = (st', Ok (db', r)) ->
  acct_inv calm (mkState db' st' l,
    <[i := if pr_unchanged r then URefund u (len data) (Ok r) else UStored u (len data) r]> ts).
Proof.
  intros Hinv Hi Hp. pose proof Hinv as [I1 I2 I3 I4 I5 I6 I7]. cbn [fst snd n_db n_ledger] in *.
  pose proof (proj1 (Forall_forall _ _) I3 _ (list_elem_of_lookup_2 _ _ _ Hi)) as Hok. cbn in Hok.
  destruct (push_sums _ _ _ _ _ _ _ _ _ _ _ I1 Hok Hp) as [Hsum _]. unfold pushed_sums in Hsum.
  destruct (push_sized _ _ _ _ _ _ _ _ _ _ _ I1 Hok Hp I2) as [Hs Hpos].
  destruct (pr_unchanged r).
  - subst db'. eapply ledger_turn; [exact Hinv|exact Hi|cbn; apply len_nonneg| |cbn; lia|done].
    eapply backs_ext; [done| |exact I4]. intros v. cbn. lia.
  - destruct Hsum as (Hsz & Hc & Ht). specialize (Hpos eq_refl).
    split; cbn [fst snd n_db n_ledger]; rewrite ?(pending_replace _ _ _ _ Hi); cbn [unbooked]; try done.
    + by eapply push_inv.
    + by apply Forall_insert.
    + eapply backs_ext; [done| |exact I4]. intros v. cbn. rewrite (held_replace _ _ _ _ _ Hi), Hc. cbn. lia.
    + lia.
    + intros Hcalm. specialize (I7 Hcalm). lia.
Qed.

(** A turn after which the accounts need what they needed. *)
Local Ltac same_need Hb := eapply backs_ext; [done| |exact Hb]; intros v; cbn; lia.

Lemma turn_inv calm n ts i t n' t' :
  acct_inv calm (n, ts) -> ts !! i = Some t -> upload_step data_key cfg n t = (n', t') -> acct_inv calm (n', <[i := t']> ts).
Proof.
  intros Hinv Hi Hstep. destruct n as [db st l]. pose proof (ai_used _ _ Hinv) as Hb. pose proof (ai_node _ _ Hinv) as Hn.
  pose proof (proj1 (Forall_forall _ _) (ai_tasks _ _ Hinv) _ (list_elem_of_lookup_2 _ _ _ Hi)) as Hok.
  cbn [fst snd n_db n_ledger] in *.
  assert (Hleft : forall v, 0 <= charged v db + held v ts - owed v t).
  { intros v. pose proof (charged_nonneg v db (ai_sized _ _ Hinv)). pose proof (held_nonneg v (<[i := UDone (Err (BadRequest ""))]> ts)
      ltac:(apply Forall_insert; [exact (ai_tasks _ _ Hinv)|done])) as Hh. rewrite (held_replace _ _ _ _ _ Hi) in Hh. cbn in Hh. lia. }
  destruct t as [u raw data rnd now|u p data rnd now|u p data rnd now|u sz ans|u sz r|r|ans]; cbn [upload_step n_db n_store n_ledger] in Hstep.
  - destruct (same _ _); [|destruct (_ <? _)]; injection Hstep as <- <-;
      (eapply (ledger_turn _ _ _ _ _ _ _ _ _ _ Hinv Hi); [done| |cbn [unbooked]|]);
      try (same_need Hb); try done.
    + same_need (backs_ensure cfg _ _ u Hb).
    + cbn [with_ledger n_ledger]. by rewrite ensure_node.
    + cbn [with_ledger n_ledger]. by rewrite ensure_node.
  - destruct (charge l u (len data)) as [l'|] eqn:E; injection Hstep as <- <-;
      (eapply (ledger_turn _ _ _ _ _ _ _ _ _ _ Hinv Hi); [done| |cbn [unbooked]|]); try done.
    + same_need (backs_charge _ _ _ _ _ Hb E).
    + by rewrite (charge_node _ _ _ _ E).
    + by rewrite (charge_node _ _ _ _ E).
    + same_need Hb.
  - destruct (push data_key db u p data rnd now st) as [st' [[db' r]|e|]] eqn:E; injection Hstep as <- <-.
    + by eapply store_turn.
    + eapply (ledger_turn _ _ _ _ _ _ _ _ _ _ Hinv Hi); [cbn; apply len_nonneg| |done|done].
      same_need Hb.
    + eapply (ledger_turn _ _ _ _ _ _ _ _ _ _ Hinv Hi); [cbn; apply len_nonneg| |done|done].
      same_need Hb.
  - injection Hstep as <- <-. eapply (ledger_turn _ _ _ _ _ _ _ _ _ _ Hinv Hi); [done| |by rewrite adjust_node|by rewrite adjust_node].
    eapply backs_adjust; [exact Hb| |cbn in Hok; lia|]; cbn; [intros v; destruct (same u v); lia|].
    specialize (Hleft u). cbn in Hleft. lia.
  - injection Hstep as <- <-. destruct Hok as [-> Hst]. rewrite Z.sub_diag.
    eapply (ledger_turn _ _ _ _ _ _ _ _ _ _ Hinv Hi); [done| |done|done]. same_need Hb.
  - injection Hstep as <- <-. eapply (ledger_turn _ _ _ _ _ _ _ _ _ _ Hinv Hi); [done| |cbn in *; lia|cbn in *; lia].
    same_need Hb.
  - injection Hstep as <- <-. eapply (ledger_turn _ _ _ _ _ _ _ _ _ _ Hinv Hi); [done| |done|done].
    same_need Hb.
Qed.

Lemma moves_sums db db' : db_inv db -> moves db db' -> db_inv db' /\ same_sums db db'.
Proof.
  intros Hinv [u i now d f Hn H|u p now d t Hn H|u i np now d f Hp H|u p|u from to d Hn Hp H].
  - split; [by apply (trash_inv _ _ _ _ _ _ ∅ Hinv H)|by eapply trash_sums].
  - split; [by apply (trash_path_inv _ _ _ _ _ _ ∅ Hinv H)|by eapply trash_path_sums].
  - split; [by apply (restore_row_inv _ _ _ _ _ _ _ ∅ Hinv H)|by eapply restore_sums].
  - split; [by apply insert_folder_inv|apply same_sums_files, folder_files].
  - split; [by apply (rename_inv _ _ _ _ _ ∅ Hinv H)|by eapply rename_sums].
Qed.

Lemma acct_step_inv calm s s' : acct_inv calm s -> acct_step calm s s' -> acct_inv calm s'.
Proof.
  intros Hinv Hstep. destruct Hstep as [n ts u raw data rnd now Hp|n ts i t n' t' Hi Ht|db st l ts db' Hm|n ts u i n' r Hc Hn Hp
    |n ts u Hc|n ts ago Hc Hu|db st l ts u es rnd now st' db' r Hc Hp|db st l ts u old es rnd now st' db' r Hc Hco Hp
    |n ts u q Hq Hle|n ts b].
  - destruct Hinv as [I1 I2 I3 I4 I5 I6 I7]. cbn [fst snd] in *.
    assert (E : pending (ts ++ [UStart u raw data rnd now]) = pending ts) by (unfold pending; rewrite fmap_app, zsum_app; cbn; lia).
    split; cbn [fst snd]; rewrite ?E; try done; [apply Forall_app; split; [done|by constructor]|].
    eapply backs_ext; [done| |exact I4]. intros v. cbn. unfold held. rewrite fmap_app, zsum_app. cbn. lia.
  - by eapply turn_inv.
  - destruct (moves_sums db db' (ai_db _ _ Hinv) Hm) as [Hi [S1 S2 S3]]. destruct Hinv as [I1 I2 I3 I4 I5 I6 I7].
    cbn [fst snd n_db n_ledger] in *. split; cbn [fst snd n_db n_ledger]; rewrite ?S2; auto.
    eapply backs_ext; [done| |exact I4]. intros v. cbn. by rewrite S1.
  - by eapply purge_step_inv.
  - by apply empty_step_inv.
  - by apply sweep_step_inv.
  - destruct (pack_files_sums _ _ _ _ _ _ _ _ _ _ (ai_db _ _ Hinv) Hp) as (A1 & A2 & A3).
    eapply (node_inv _ _ _ _ _ _ _ _ _ Hinv); [|by apply A3, (ai_sized _ _ Hinv)|done|exact A2|apply settle_node|by apply settle_node, (ai_node _ _ Hinv)|done].
    by eapply pack_files_inv, Hp; apply (ai_db _ _ Hinv).
  - destruct (compact_pack_sums _ _ _ _ _ _ _ _ _ _ _ (ai_db _ _ Hinv) (ai_sized _ _ Hinv) Hco Hp) as (A1 & A2 & A3).
    eapply (node_inv _ _ _ _ _ _ _ _ _ Hinv); [|done|done|exact A2|apply settle_node|by apply settle_node, (ai_node _ _ Hinv)|done].
    by eapply compact_pack_inv, Hp; apply (ai_db _ _ Hinv).
  - destruct Hinv as [I1 I2 I3 I4 I5 I6 I7]. split; try done. by apply backs_quota.
  - destruct Hinv as [I1 I2 I3 I4 I5 I6 I7]. by split.
Qed.

(** A node before its first upload. *)
Definition fresh_ledger (l : Ledger) : Prop :=
  node_used l = 0 /\ forall u r, user_quota l !! u = Some r -> r.2 = 0 /\ 0 <= r.1.

Lemma acct_run_inv calm st l s :
  fresh_ledger l -> rtc (acct_step calm) (mkState empty_db st l, []) s -> acct_inv calm s.
Proof.
  intros [Hn Hq] Hrun. remember (mkState empty_db st l, []) as s0 eqn:E0.
  assert (H0 : acct_inv calm s0); [|clear E0; induction Hrun; [done|eauto using acct_step_inv]].
  subst s0. split; cbn [fst snd n_db n_ledger]; rewrite ?Hn; try done; [apply empty_inv|].
  intros u. destruct (user_quota l !! u) as [[q used]|] eqn:E; [|done]. destruct (Hq u _ E). cbn in *. lia.
Qed.


End Accounting.
