(* ===== verification/AccountsWitness.v ===== *)
(** * Concrete runs of the storage handlers

    The ledger theorems on a node reached by interleaved uploads, and what the calls do on
    inputs their comments do not foresee. *)

From Stdlib Require Import ZArith Lia Strings.Ascii Strings.String Strings.Byte.
From Stdlib Require Import Floats.
From stdpp Require Import base numbers list gmap strings sorting relations.
From S2P Require Import Prelude External Erasure RSCode Crypto Pipeline Paths Manifest ManifestInv ChunkStore Text.
From S2P Require Import Service ServiceProofs ServiceSpec Packs PackProofs ServiceInv ServiceWitness Protocol ReadPath.
From S2P Require Import Instance Quotas Accounts AccountsProofs AccountsSpec.
Import Toy.

Module LedgerRun.
Import StoreRun.
#[local] Instance flat_log2' : Log2 := flat_log2.
Definition cfg : InstanceConfig := mkInstance 0 100 600 5 [] 14 45 180.
Definition ledger0 : Ledger := mkLedger 1000 0 {[ "u"%string := (10, 0) ]}.
Definition node0 : AppState := mkState empty_db ∅ ledger0.

(** The turns of a schedule. *)
Definition turn_of (s : AppState * list UploadTask) (i : nat) : AppState * list UploadTask :=
  match s.2 !! i with
  | Some t => let x := upload_step key cfg s.1 t in (x.1, <[i := x.2]> s.2)
  | None => s
  end.

Lemma turns_run is_uuid calm schedule : forall s, rtc (acct_step key cfg is_uuid calm) s (foldl turn_of s schedule).
Proof.
  induction schedule as [|i schedule IH]; intros s; [apply rtc_refl|]. cbn [foldl].
  etrans; [|apply IH]. unfold turn_of. destruct (s.2 !! i) as [t|] eqn:E; [|apply rtc_refl].
  apply rtc_once. destruct s as [n ts]. eapply a_turn; [exact E|apply surjective_pairing].
Defined.

Definition uploads : list UploadTask :=
  [UStart "u" " notes/a " (as_bytes "hello") rnd1 "t1"; UStart "u" "notes/b" (as_bytes "bye") rnd2 "t2";
   UStart "u" "notes/c" (as_bytes "again") rndp "t3"].

(** Two uploads take turns; a third, charged between them, is over the quota. *)
Definition schedule : list nat := [0; 1; 0; 1; 2; 2; 1; 0; 0; 1]%nat.
Definition after : AppState * list UploadTask := foldl turn_of (node0, uploads) schedule.

Lemma plain_check p : match String.get 0 p with Some c => negb (bool_decide (c = ascii_of_nat 1)) | None => true end = true -> plain p.
Proof. unfold plain. intros H E. rewrite E in H. by rewrite bool_decide_eq_true_2 in H. Qed.

Lemma uploads_run is_uuid calm : rtc (acct_step key cfg is_uuid calm) (node0, []) after.
Proof.
  etrans; [|apply turns_run].
  assert (Hp : forall raw, raw ∈ [" notes/a "; "notes/b"; "notes/c"]%string -> plain (trim raw)).
  { intros raw Hr. apply plain_check. revert raw Hr. apply Forall_forall. repeat constructor. }
  apply (rtc_l _ _ (node0, take 1 uploads)); [|apply (rtc_l _ _ (node0, take 2 uploads)); [|apply rtc_once]].
  - apply (a_upload key cfg is_uuid calm node0 []), Hp. set_solver.
  - apply (a_upload key cfg is_uuid calm node0 (take 1 uploads)), Hp. set_solver.
  - apply (a_upload key cfg is_uuid calm node0 (take 2 uploads)), Hp. set_solver.
Qed.

Lemma ledger0_fresh : fresh_ledger ledger0.
Proof.
  split; [done|]. intros u r. unfold ledger0, user_quota. intros [_ <-]%lookup_singleton_Some. cbn. lia.
Qed.

Lemma after_quota : user_quota (n_ledger after.1) !! "u"%string = Some (10, 8).
Proof. vm_compute. reflexivity. Qed.


Lemma after_node : 0 < pending after.2.
Proof. vm_compute. reflexivity. Qed.


(** ** What the calls do not guard against *)

(** Both uploads done. *)
Definition settled : AppState := (foldl turn_of after [0; 1; 0; 1; 0; 1]%nat).1.
Definition purge_turn (s : AppState * list PurgeTask) (i : nat) : AppState * list PurgeTask :=
  match s.2 !! i with
  | Some t => let x := purge_step s.1 t in (x.1, <[i := x.2]> s.2)
  | None => s
  end.

(** Two deletions of one file, taking turns, give its bytes back twice: both read the row
    before either deletes it, the second deletes nothing and is credited all the same, so
    the account is left with more room than its files leave it. *)
Theorem double_purge_credits_twice :
  let both := foldl purge_turn (settled, [PStart "u" id2; PStart "u" id2]) [0; 1; 0; 1; 0; 1]%nat in
  user_quota (n_ledger settled) !! "u"%string = Some (10, charged "u" (n_db settled)) /\
  user_quota (n_ledger both.1) !! "u"%string = Some (10, 2) /\ charged "u" (n_db both.1) = 5.
Proof. split; [|split]; vm_compute; reflexivity. Qed.

(** A container can be deleted like a file: the purge of its id is accepted, its members can
    no longer be read, and the account is credited the container's size, which it was never
    charged. *)
Theorem purge_accepts_pack :
  let n := mkState packed.1 packed.2 (n_ledger settled) in
  let r := purge n "u" (mint_file_id rndp) in
  pull key packed.1 packed.2 "u" id1 = Ok (as_bytes "hello") /\
  is_none (res_ok r.2) = false /\
  is_none (res_ok (pull key (n_db r.1) (n_store r.1) "u" id1)) = true /\
  user_quota (n_ledger r.1) !! "u"%string = Some (10, 0) /\ charged "u" (n_db r.1) = 8.
Proof. split; [|split; [|split; [|split]]]; vm_compute; reflexivity. Qed.

(** The characters a folder name shares with the patterns of [LIKE] reach other folders:
    deleting the folder [a_b] also puts the files of the folder [axb] into the trash. *)
Definition lookalikes : Db := (next (next w0 "axb/doc" (as_bytes "hello") rnd1 "t1") "a_b/doc" (as_bytes "bye") rnd2 "t2").1.
Theorem delete_folder_reaches_lookalike :
  match trash_path lookalikes "u" "a_b" "t3" with
  | Ok (db, s) =>
      ts_files s = 2 /\ is_none (get_file_by_path lookalikes "u" "axb/doc") = false /\
      get_file_by_path db "u" "axb/doc" = None
  | _ => False
  end.
Proof. vm_compute. split; [|split]; reflexivity. Qed.
End LedgerRun.
