(* ===== verification/PackContent.v ===== *)
(** * Background packing never changes a file

    What a file contains, wherever its bytes are: its own chunks, or a range of a container's.
    The two passes of [handlers/files.rs] that move small files in and out of containers read
    them back over the network and write them again; whatever the peers answer, every file
    keeps its content. *)

From Stdlib Require Import ZArith Lia Strings.Ascii Strings.String Strings.Byte.
From stdpp Require Import base numbers list gmap strings relations sorting.
From S2P Require Import Prelude External Erasure RSCode Crypto Pipeline Paths Manifest ManifestInv ChunkStore Text.
From S2P Require Import Service ServiceProofs ServiceSpec Packs PackProofs ServiceInv ServiceWitness Protocol ReadPath Instance Quotas Accounts AccountsProofs.

Section Content.
Context {CP : CryptoPrims} {CL : CryptoLaws} {ZS : Zstd} {ZL : ZstdLaws} {L2 : Log2} {RS : ReedSolomon} {RL : ReedSolomonLaws}.
Variable data_key : bytes.

(** The content of a file. *)
Definition content (db : Db) (user id : string) (data : bytes) : Prop :=
  file_stored data_key db user id data \/
  exists f pack plain, get_file db user id = Some f /\ r_pack_id f = Some pack /\
    file_stored data_key db user pack plain /\ member_slice plain f = Ok data.

(** A file inside a container is no container, and what it is in is one. *)
Definition packs_hold (db : Db) : Prop :=
  forall u i f p, get_file db u i = Some f -> r_pack_id f = Some p ->
    is_pack f = false /\ forall q, get_file db u p = Some q -> is_pack q = true.

(** ** What keeps rows, chunks and shards keeps content *)

Lemma keeps_stored (P : string -> Prop) db st db' st' u i data :
  keeps P db st db' st' -> P i -> file_stored data_key db u i data -> file_stored data_key db' u i data.
Proof.
  intros Hk HP (f & fc & pieces & Hf & Hn & Hc & Hj & Hch). destruct (Hk u i f HP Hf) as ((f' & Hf' & Hsame) & Hg & Hs).
  exists f', fc, pieces. split; [done|]. pose proof (row_cipher_content data_key f f' (r_file_id f) Hsame) as Hrc.
  destruct Hsame as (E1 & _ & _ & _ & _ & E6 & _). split; [congruence|split; [rewrite E1; congruence|split; [done|]]].
  rewrite Hg. apply Forall2_same_length_lookup in Hch as [Hl Hch]. apply Forall2_same_length_lookup. split; [done|].
  intros k c piece Hk' Hp'. rewrite (proj1 (Hs c (list_elem_of_lookup_2 _ _ _ Hk'))). by eapply Hch.
Qed.

Lemma keeps_content (P : string -> Prop) db st db' st' u i data :
  keeps P db st db' st' -> P i ->
  (forall f p q, get_file db u i = Some f -> r_pack_id f = Some p -> get_file db u p = Some q -> P p) ->
  content db u i data -> content db' u i data.
Proof.
  intros Hk HP Hp [Hs|(f & pack & plain & Hf & Hpk & Hs & Hsl)]; [left; by eapply keeps_stored|right].
  destruct (Hk u i f HP Hf) as ((f' & Hf' & Hsame) & _). pose proof (member_slice_content plain f f' Hsame) as Hm.
  destruct Hsame as (_ & _ & _ & _ & _ & E6 & _). exists f', pack, plain.
  split; [done|split; [congruence|split; [|congruence]]]. pose proof Hs as (q & _ & _ & Hq & _).
  eapply keeps_stored; [exact Hk|by eapply Hp|exact Hs].
Qed.

(** The container just written holds its plaintext. *)
Lemma insert_pack_stored db user pack plain now st st' db' stored :
  db_inv db -> len plain <= isize_max -> insert_pack_row data_key db user pack plain now st = (st', Ok (db', stored)) ->
  file_stored data_key db' user pack plain /\ exists f, r_file_id f = pack /\ r_user_id f = user /\ r_path f = pack_key pack /\
    r_pack_id f = None /\ files db' = files db ++ [rec_of f].
Proof.
  intros Hinv Hlen Hi. unfold insert_pack_row in Hi.
  apply io_bind_ok in Hi as (st1 & pcs & [-> Hp%map_err_ok]%lift_ok & Hi).
  apply io_bind_ok in Hi as (st2 & db1 & [-> Hins]%lift_ok & Hi).
  apply io_bind_ok in Hi as (st3 & db2 & Hw & [= <- <- _]).
  destruct (store_writes data_key db _ db1 plain pcs st st3 db2 ZL Hinv Hlen Hins eq_refl eq_refl Hp Hw)
    as [(fc & pieces & bss & W) _].
  split; [exact (written_file_stored _ _ (pack_row user pack plain pcs now) _ _ _ _ _ _ _ eq_refl W)|].
  exists (pack_row user pack plain pcs now). split; [done|split; [done|split; [done|split; [done|]]]]. exact (wf_files _ _ _ _ _ _ _ _ _ _ W).
Qed.

(** ** Packing a group *)

Lemma pack_key_is_pack f : r_path f = pack_key (r_file_id f) -> is_pack f = true.
Proof. intros E. unfold is_pack. apply starts_with_spec. exists (r_file_id f). by rewrite E. Qed.

(** What a pass does to one account's files: those that are not containers keep their
    content, and stay what they are. *)
Definition preserves (db db' : Db) : Prop :=
  db_inv db' /\ packs_hold db' /\
  forall u i f, get_file db u i = Some f -> is_pack f = false ->
    exists f', get_file db' u i = Some f' /\ is_pack f' = false /\ forall data, content db u i data -> hash_collision \/ content db' u i data.

Lemma preserves_refl db : db_inv db -> packs_hold db -> preserves db db.
Proof. intros Hi Hp. split; [done|split; [done|]]. intros u i f Hf Hn. exists f. split; [done|split; [done|]]. by right. Qed.
Lemma preserves_trans db1 db2 db3 : preserves db1 db2 -> preserves db2 db3 -> preserves db1 db3.
Proof.
  intros (_ & _ & H1) (Hi & Hp & H2). split; [done|split; [done|]]. intros u i f Hf Hn.
  destruct (H1 u i f Hf Hn) as (f1 & Hf1 & Hn1 & Hc1). destruct (H2 u i f1 Hf1 Hn1) as (f2 & Hf2 & Hn2 & Hc2).
  exists f2. split; [done|split; [done|]]. intros data Hd.
  destruct (Hc1 data Hd) as [?|Hd1]; [by left|]. by apply Hc2.
Qed.

(** The rows after members were assigned to a fresh container and the container inserted. *)
Lemma get_file_user db u v i f g : db_inv db -> get_file db u i = Some f -> get_file db v i = Some g -> u = v /\ f = g.
Proof.
  intros Hinv (a & Ha & Hra & ->)%get_file_elem (b & Hb & Hrb & ->)%get_file_elem.
  apply is_row_true in Hra as [<- Hia], Hrb as [<- Hib].
  assert (a = b) as -> by (eapply unique_id; [exact Hinv|exact Ha|exact Hb|congruence]). done.
Qed.

Lemma get_file_snoc db db' f u i :
  files db' = files db ++ [f] -> i <> file_id f -> get_file db' u i = get_file db u i.
Proof.
  intros Hf Hne. unfold get_file, select. rewrite Hf, filter_app, fmap_app.
  assert (filter (fun f0 => (same (user_id f0) u && same (file_id f0) i) = true) [f] = []) as ->.
  { rewrite filter_cons, decide_False; [done|]. rewrite andb_true_iff, !same_true. intros [_ E]. by apply Hne. }
  cbn. by rewrite app_nil_r.
Qed.
Lemma get_file_last db db' f u g :
  db_inv db' -> files db' = files db ++ [f] -> get_file db' u (file_id f) = Some g -> g = map_file f.
Proof.
  intros Hinv Hf (a & Ha & Hra & ->)%get_file_elem. f_equal. apply is_row_true in Hra as [_ Hid].
  eapply unique_id; [exact Hinv|exact Ha| |exact Hid]. rewrite Hf. apply elem_of_app. right. left.
Qed.

(** Containers of the new state, when members [ids] of [user] moved to [pack], the container
    was inserted and nothing else changed; and a file outside keeps its row. *)
Lemma moved_rows db db1 db2 user pack (ids : list string) f :
  db_inv db2 -> packs_hold db -> files db2 = files db1 ++ [rec_of f] ->
  r_file_id f = pack -> r_path f = pack_key pack -> r_pack_id f = None -> pack ∉ ids ->
  (forall v j, j ∉ ids -> get_file db1 v j = get_file db v j) ->
  (forall i g, i ∈ ids -> get_file db user i = Some g -> is_pack g = false) ->
  (forall i, i ∈ ids -> exists g g', get_file db user i = Some g /\ get_file db1 user i = Some g' /\ r_pack_id g' = Some pack /\ is_pack g' = is_pack g) ->
  db_inv db1 -> packs_hold db2.
Proof.
  intros Hinv2 Hph Hfiles Hid Hpath Hnone Hpi Hsame Hplain Hmem Hinv1 u i g p Hg Hp.
  assert (Hpk : forall u' q', get_file db2 u' pack = Some q' -> q' = map_file (rec_of f)).
  { intros u' q' Hq'. eapply (get_file_last db1 db2 (rec_of f) u'); [done|done|]. cbn. by rewrite Hid. }
  assert (Hi : i <> pack).
  { intros ->. rewrite (Hpk u g Hg) in Hp. cbn in Hp. congruence. }
  rewrite (get_file_snoc db1 db2 (rec_of f)) in Hg by (done || (cbn; congruence)).
  assert (Hcont : forall q, p <> pack -> (forall q0, get_file db u p = Some q0 -> is_pack q0 = true) ->
    get_file db2 u p = Some q -> is_pack q = true).
  { intros q Hne Hq0 Hq. rewrite (get_file_snoc db1 db2 (rec_of f)) in Hq by (done || (cbn; congruence)).
    destruct (decide (p ∈ ids)) as [Hpin|Hpn]; [|rewrite Hsame in Hq by done; by apply Hq0].
    destruct (Hmem p Hpin) as (q0 & q' & Hgq & Hgq' & _ & Hsp).
    destruct (get_file_user db1 u user p q q' Hinv1 Hq Hgq') as [-> ->]. rewrite Hsp. by apply Hq0. }
  destruct (decide (i ∈ ids)) as [Hin|Hni].
  - destruct (Hmem i Hin) as (g0 & g' & Hg0 & Hg' & Hpg & Hsp).
    destruct (get_file_user db1 u user i g g' Hinv1 Hg Hg') as [-> ->]. split; [rewrite Hsp; by eapply Hplain|].
    intros q Hq. assert (p = pack) as -> by congruence. rewrite (Hpk user q Hq). apply pack_key_is_pack. cbn.
    unfold visible_path. cbn. by rewrite Hpath, Hid.
  - rewrite (Hsame u i Hni) in Hg. destruct (Hph _ _ _ _ Hg Hp) as [Hnp Hpp]. split; [done|]. intros q Hq.
    destruct (decide (p = pack)) as [->|Hne]; [|by apply Hcont].
    rewrite (Hpk u q Hq). apply pack_key_is_pack. cbn. unfold visible_path. cbn. by rewrite Hpath, Hid.
Qed.

(** The path a row shows is not touched by an assignment. *)
Lemma assign_path db user id pack o l db' b row row' :
  db_inv db -> db_inv db' -> get_file db user id = Some row -> assign_to_pack db user id pack o l = Ok (db', b) ->
  get_file db' user id = Some row' -> r_path row' = r_path row.
Proof.
  intros Hinv Hinv' (f & Hf & Hr & ->)%get_file_elem Ha Hrow'.
  unfold assign_to_pack in Ha. apply bind_ok in Ha as ([d n] & Hu & [= <- _]). cbn [fst] in *.
  rewrite (update_row_self _ _ _ _ _ _ _ Hinv Hinv' (assign_fields pack o l) Hf Hr Hu) in Hrow'. by injection Hrow' as <-.
Qed.

Lemma pack_member_path user pack acc p acc' row row' :
  db_inv acc.1.1 -> pack_member user pack acc p = Ok acc' ->
  get_file acc.1.1 user (e_file_id p.1) = Some row -> get_file acc'.1.1 user (e_file_id p.1) = Some row' -> r_path row' = r_path row.
Proof.
  destruct acc as [[db fr] fs]. cbn [fst snd]. intros Hinv Hp Hrow Hrow'. unfold pack_member in Hp.
  apply bind_ok in Hp as (r0 & _ & Hp). destruct (_ || _); [done|].
  destruct (strip_file_chunks db user (e_file_id p.1)) as [db1 new] eqn:Es. apply bind_ok in Hp as ([db2 b] & Ha & [= <-]).
  cbn [fst snd] in *. assert (Hdb1 : db1 = (strip_file_chunks db user (e_file_id p.1)).1) by (by rewrite Es).
  assert (Hinv1 : db_inv db1) by (rewrite Hdb1; by apply delete_chunks_inv).
  assert (Hrow1 : get_file db1 user (e_file_id p.1) = Some row) by (by rewrite Hdb1).
  eapply assign_path; [exact Hinv1|by eapply assign_inv|exact Hrow1|exact Ha|exact Hrow'].
Qed.

(** All the members moved: each has its row before and after, at the same path. *)
Lemma pack_members_rows user pack ps : forall db fr fs acc',
  db_inv db -> foldM (pack_member user pack) (db, fr, fs) ps = Ok acc' ->
  (forall x, x ∈ fs.*1 -> x ∉ fragment <$> shard_rows db) ->
  forall i, i ∈ (fun p => e_file_id p.1) <$> ps ->
    exists g g', get_file db user i = Some g /\ r_pack_id g = None /\ get_file acc'.1.1 user i = Some g' /\ r_path g' = r_path g.
Proof.
  induction ps as [|p ps IH]; intros db fr fs acc' Hinv Hf Hfs i Hi; [by apply elem_of_nil in Hi|].
  cbn [foldM] in Hf. apply bind_ok in Hf as ([[db1 fr1] fs1] & Hp & Hf).
  destruct (pack_member_ok db ∅ user pack fr fs p _ Hinv Hp)
    as (Hinv1 & _ & Hg1 & Has1 & _ & Hsub1 & _ & (row & Hrow & Hn) & new1 & Hfs1 & _ & Hgone1). cbn [fst snd] in *.
  assert (Hgone : forall x, x ∈ fs1.*1 -> x ∉ fragment <$> shard_rows db1).
  { rewrite Hfs1. intros x. rewrite fmap_app. intros [Hx|Hx]%elem_of_app; [|by apply Hgone1].
    intros (s & -> & Hs)%list_elem_of_fmap. apply (Hfs _ Hx). apply list_elem_of_fmap_2, Hsub1, Hs. }
  destruct Has1 as (row1 & Hrow1 & Hpk1 & _).
  pose proof (pack_member_path user pack (db, fr, fs) p (db1, fr1, fs1) row row1 Hinv Hp Hrow Hrow1) as Hpath.
  destruct (decide (i ∈ (fun p => e_file_id p.1) <$> ps)) as [Hin|Hni].
  - destruct (IH db1 fr1 fs1 acc' Hinv1 Hf Hgone i Hin) as (g & g' & Hg & Hgn & Hg' & Hgp).
    destruct (decide (i = e_file_id p.1)) as [->|Hne]; [congruence|].
    exists g, g'. rewrite Hg1 in Hg by done. done.
  - rewrite fmap_cons in Hi. apply elem_of_cons in Hi as [->|?]; [|done].
    destruct (pack_members_ok user pack ps db1 ∅ fr1 fs1 acc' Hinv1 Hf Hgone) as (_ & _ & Hg2 & _).
    exists row, row1. split; [done|split; [done|split; [by rewrite Hg2|done]]].
Qed.

Lemma same_path_pack f g : r_path f = r_path g -> is_pack f = is_pack g.
Proof. unfold is_pack. by intros ->. Qed.

Lemma keeps_row db db' st st' (P : string -> Prop) u i f :
  keeps P db st db' st' -> P i -> get_file db u i = Some f -> exists f', get_file db' u i = Some f'.
Proof. intros Hk HP Hf. destruct (Hk u i f HP Hf) as ((f' & ? & _) & _). by exists f'. Qed.

(** Members moved to a container that is then written. *)
Lemma packed_preserves db db1 db2 st st3 user pack (ids : list string) (entries : list PackEntry) plain now stored :
  db_inv db -> packs_hold db -> len plain <= isize_max -> db_inv db1 ->
  keeps (fun j => j ∉ ids) db st db1 st -> (forall v j, j ∉ ids -> get_file db1 v j = get_file db v j) ->
  file_id <$> files db1 = file_id <$> files db -> Forall (fun i => i ∈ file_id <$> files db) ids ->
  (forall i, i ∈ ids -> exists g g' e, e ∈ entries /\ i = e_file_id e /\
    get_file db user i = Some g /\ get_file db1 user i = Some g' /\ r_pack_id g' = Some pack /\ is_pack g' = is_pack g /\
    member_slice plain g' = Ok (e_data e)) ->
  (forall e g, e ∈ entries -> get_file db user (e_file_id e) = Some g -> is_pack g = false) ->
  (forall e data, e ∈ entries -> content db user (e_file_id e) data -> hash_collision \/ data = e_data e) ->
  insert_pack_row data_key db1 user pack plain now st = (st3, Ok (db2, stored)) -> preserves db db2.
Proof.
  intros Hinv Hph Hsz Hinv1 Hk1 Hg1 Hid1 Hinids Hmem Hplainrow Htrue Hins.
  destruct (insert_pack_row_ok data_key db1 user pack plain now st st3 db2 stored CL ZL Hinv1 Hsz Hins)
    as (Hnew & Hinv2 & _ & Hk2 & _).
  destruct (insert_pack_stored db1 user pack plain now st st3 db2 stored Hinv1 Hsz Hins) as (Hst & f & Hfid & Hfu & Hfp & Hfn & Hfiles).
  assert (Hpi : pack ∉ ids) by (intros Hin; apply Hnew; rewrite Hid1; rewrite Forall_forall in Hinids; by apply Hinids).
  assert (Hrow2 : forall u i, i <> pack -> get_file db2 u i = get_file db1 u i).
  { intros u i Hne. apply (get_file_snoc _ _ _ _ _ Hfiles). cbn. congruence. }
  assert (Hnopack : forall u i g, get_file db u i = Some g -> i <> pack).
  { intros u i g Hg ->. apply Hnew. rewrite Hid1. by eapply get_file_id. }
  assert (Hcont : forall i g, i ∈ ids -> get_file db user i = Some g -> is_pack g = false).
  { intros i g Hi Hg. destruct (Hmem i Hi) as (_ & _ & e & He & -> & _). by eapply Hplainrow. }
  split; [done|split].
  - apply (moved_rows db db1 db2 user pack ids f); try done.
    intros i Hi. destruct (Hmem i Hi) as (g & g' & e & _ & _ & Hg & Hg' & Hpk & Hsp & _). by exists g, g'.
  - intros u i g Hg Hn. destruct (decide (i ∈ ids)) as [Hi|Hi].
    + destruct (Hmem i Hi) as (g0 & g' & e & He & -> & Hg0 & Hg' & Hpk & Hsp & Hsl).
      destruct (get_file_user db u user _ g g0 Hinv Hg Hg0) as [-> ->].
      exists g'. rewrite Hrow2 by (by eapply Hnopack). split; [done|split; [congruence|]]. intros data Hd.
      destruct (Htrue e data He Hd) as [?| ->]; [by left|]. right. right. exists g', pack, plain.
      rewrite Hrow2 by (by eapply Hnopack). done.
    + exists g. rewrite Hrow2 by (by eapply Hnopack). rewrite Hg1 by done. split; [done|split; [done|]].
      intros data Hd. right. apply (keeps_content (fun j => j ∉ ids /\ j <> pack) db st db2 st3 u i data); [..|exact Hd].
      * eapply keeps_trans; [intros v j r [Hj _]; by apply Hk1|intros v j r [_ Hj]; by apply Hk2].
      * split; [done|by eapply Hnopack].
      * intros g0 p q Hg0 Hp Hq. split; [|by eapply Hnopack]. intros Hin.
        destruct (Hmem p Hin) as (q0 & _ & _ & _ & _ & Hq0 & _). destruct (get_file_user db u user p q q0 Hinv Hq Hq0) as [-> ->].
        pose proof (proj2 (Hph _ _ _ _ Hg0 Hp) _ Hq). rewrite (Hcont p q0 Hin Hq0) in *. done.
Qed.

(** A group of entries that are what the files contain, packed. *)
Lemma pack_files_content db user entries rnd now st st' db' r :
  db_inv db -> packs_hold db ->
  (forall e g, e ∈ entries -> get_file db user (e_file_id e) = Some g -> is_pack g = false) ->
  (forall e data, e ∈ entries -> file_stored data_key db user (e_file_id e) data -> hash_collision \/ data = e_data e) ->
  pack_files data_key db user entries rnd now st = (st', Ok (db', r)) -> preserves db db'.
Proof.
  intros Hinv Hph Hplainrow Htrue Hpk. unfold pack_files in Hpk. destruct (bool_decide _); [discriminate|].
  apply io_bind_ok in Hpk as (st1 & [plain ranges] & [-> Hb]%lift_ok & Hpk).
  apply io_bind_ok in Hpk as (st2 & [[db1 freed] frags] & [-> Hf]%lift_ok & Hpk).
  apply io_bind_ok in Hpk as (st3 & [db2 stored] & Hins & Hpk).
  apply io_bind_ok in Hpk as (st4 & remote & _ & [= _ <- _]).
  pose proof (build_pack_fits _ _ _ Hb) as Hsz. set (pack := mint_file_id rnd) in *.
  assert (Hnil : forall x, x ∈ (@nil (string * string)).*1 -> x ∉ fragment <$> shard_rows db) by (by intros x ?%elem_of_nil).
  pose proof (pack_members_rows user pack _ db 0 [] _ Hinv Hf Hnil) as Hrows.
  destruct (pack_members_ok user pack (zip entries ranges) db st 0 [] _ Hinv Hf Hnil)
    as (Hinv1 & Hk1 & Hg1 & Has & Hid1 & Hinids & _ & _). cbn [fst snd] in *.
  destruct (build_pack_ok _ _ _ Hb) as (Hrg & _ & _ & _).
  assert (Hzip : (fun p => e_file_id p.1) <$> zip entries ranges = e_file_id <$> entries).
  { rewrite <- (fst_zip entries ranges) at 2 by (rewrite Hrg, length_ranges; lia). by rewrite <- list_fmap_compose. }
  rewrite Hzip in *.
  assert (Hmem : forall i, i ∈ e_file_id <$> entries -> exists g g' e, e ∈ entries /\ i = e_file_id e /\
    get_file db user i = Some g /\ get_file db1 user i = Some g' /\ r_pack_id g' = Some pack /\ is_pack g' = is_pack g /\
    member_slice plain g' = Ok (e_data e)).
  { intros i Hi. destruct (Hrows i Hi) as (g & g' & Hg & _ & Hg' & Hpath). apply list_elem_of_fmap in Hi as (e & -> & He).
    destruct (packed_slice db1 user pack entries plain ranges e Hb Has He) as (row & Hrow & Hpid & Hsl).
    assert (row = g') as -> by congruence. exists g, g', e.
    split; [done|split; [done|split; [done|split; [done|split; [done|split; [by apply same_path_pack|done]]]]]]. }
  assert (Htrue' : forall e data, e ∈ entries -> content db user (e_file_id e) data -> hash_collision \/ data = e_data e).
  { intros e data He [Hd|(g0 & p & _ & Hg0 & Hp & _)]; [by apply Htrue|].
    destruct (Hrows (e_file_id e)) as (g & _ & Hg & Hgn & _); [by apply list_elem_of_fmap_2|]. congruence. }
  by eapply (packed_preserves db db1 db2 st st3 user pack (e_file_id <$> entries) entries plain now stored).
Qed.


(** ** Dropping a container *)

Lemma delete_row_other db u i v j : j <> i -> get_file (delete_files db (is_row u i)) v j = get_file db v j.
Proof.
  intros Hne. unfold get_file, select, delete_files, delete_chunks. cbn [files set_files]. rewrite list_filter_filter.
  do 2 f_equal. apply list_filter_iff. intros f. split; [tauto|]. intros Hf. split; [done|].
  destruct (is_row u i f) eqn:E; [|done]. exfalso. apply Hne. apply is_row_true in E as [_ <-].
  rewrite andb_true_iff, !same_true in Hf. by destruct Hf.
Qed.
Lemma delete_row_gone db u i v f g :
  db_inv db -> get_file db u i = Some f -> get_file (delete_files db (is_row u i)) v i = Some g -> False.
Proof.
  intros Hinv Hf (a & Ha & Hra & ->)%get_file_elem. unfold delete_files, delete_chunks in Ha. cbn [files set_files] in Ha.
  apply list_elem_of_filter in Ha as [Hno Ha]. pose proof (get_file_found db v i a Hinv Ha Hra) as Hv.
  destruct (get_file_user db v u i _ f Hinv Hv Hf) as [-> _]. congruence.
Qed.

(** A container nobody is in can go. *)
Lemma purge_preserves db user old fo :
  db_inv db -> packs_hold db -> get_file db user old = Some fo -> is_pack fo = true ->
  (forall i f, get_file db user i = Some f -> r_pack_id f <> Some old) ->
  preserves db (purge_file_row db user old).1.
Proof.
  intros Hinv Hph Hfo Hpack Hnobody. unfold purge_file_row. cbn [fst]. set (db' := delete_files db (is_row user old)).
  assert (Hother : forall v j, j <> old -> get_file db' v j = get_file db v j) by (intros v j; apply delete_row_other).
  split; [by apply delete_files_inv|split].
  - intros u i f p Hf Hp. destruct (decide (i = old)) as [->|Hi]; [by destruct (delete_row_gone db user old u fo f Hinv Hfo Hf)|].
    rewrite Hother in Hf by done. destruct (Hph u i f p Hf Hp) as [Hn Hq]. split; [done|]. intros q Hgq.
    destruct (decide (p = old)) as [->|Hpo]; [by destruct (delete_row_gone db user old u fo q Hinv Hfo Hgq)|].
    rewrite Hother in Hgq by done. by apply Hq.
  - intros u i f Hf Hn. assert (Hi : i <> old).
    { intros ->. destruct (get_file_user db u user old f fo Hinv Hf Hfo) as [_ ->]. congruence. }
    exists f. rewrite Hother by done. split; [done|split; [done|]]. intros data Hd. right.
    apply (keeps_content (fun j => j <> old) db ∅ db' ∅ u i data); [by apply delete_row_keeps|done| |exact Hd].
    intros f0 p q Hf0 Hp Hq ->. destruct (get_file_user db u user old q fo Hinv Hq Hfo) as [-> _]. by eapply Hnobody.
Qed.

(** ** Compaction *)

Lemma compact_members_rows user old new ps : forall db st db',
  new <> old -> db_inv db -> foldM (compact_member user old new) db ps = Ok db' ->
  let ids := (fun p => e_file_id p.1) <$> ps in
  db_inv db' /\ keeps (fun j => j ∉ ids) db st db' st /\ (forall v j, j ∉ ids -> get_file db' v j = get_file db v j) /\
  Forall (assigned db' user new) ps /\ file_id <$> files db' = file_id <$> files db /\
  (forall i, i ∈ ids -> exists g g', get_file db user i = Some g /\ r_pack_id g = Some old /\
     get_file db' user i = Some g' /\ r_path g' = r_path g).
Proof.
  induction ps as [|p ps IH]; intros db st db' Hne Hinv Hf; cbn [foldM] in Hf; cbv zeta.
  { injection Hf as <-. split; [done|split; [apply keeps_refl|split; [done|split; [constructor|split; [done|]]]]].
    by intros i ?%elem_of_nil. }
  apply bind_ok in Hf as (db1 & Hd & Hf). unfold compact_member in Hd.
  apply bind_ok in Hd as (row & Hrow%ok_or_ok & Hd). destruct (_ || _) eqn:Eg; [done|].
  apply orb_false_iff in Eg as [Eg _]. apply negb_false_iff, bool_decide_eq_true in Eg.
  destruct (assign_to_pack _ _ _ _ _ _) as [[d' b]| |] eqn:Ea; try discriminate. injection Hd as ->.
  destruct (assign_ok db st user _ new _ _ db1 b row Hinv Hrow Ea) as (Hinv1 & Hk1 & Hg1 & (row1 & Hrow1 & Hp1 & Ho1 & Hl1) & Hid1 & _).
  pose proof (assign_path _ _ _ _ _ _ _ _ _ _ Hinv Hinv1 Hrow Ea Hrow1) as Hpath.
  destruct (IH db1 st db' Hne Hinv1 Hf) as (Hinv2 & Hk2 & Hg2 & Has2 & Hid2 & Hm2).
  assert (Hni : e_file_id p.1 ∉ (fun p => e_file_id p.1) <$> ps).
  { intros Hin. destruct (Hm2 _ Hin) as (g & _ & Hg & Hgo & _). congruence. }
  split; [done|split; [|split; [|split; [|split; [congruence|]]]]].
  - eapply keeps_trans; [intros v j r Hj; apply Hk1|intros v j r Hj; apply Hk2];
      rewrite fmap_cons, not_elem_of_cons in Hj; by destruct Hj.
  - intros v j Hj. rewrite fmap_cons, not_elem_of_cons in Hj. destruct Hj. by rewrite Hg2, Hg1.
  - constructor; [|done]. exists row1. split; [by rewrite Hg2|done].
  - intros i. rewrite fmap_cons. intros [->|Hi]%elem_of_cons.
    + exists row, row1. split; [done|split; [done|split; [by rewrite Hg2|done]]].
    + destruct (Hm2 i Hi) as (g & g' & Hg & Hgo & Hg' & Hgp). exists g, g'.
      rewrite Hg1 in Hg; [done|]. intros ->. by apply Hni.
Qed.

Lemma compact_member_in db user pack (entries : list PackEntry) ranges i :
  i ∈ (fun p => e_file_id p.1) <$> zip entries ranges -> Forall (assigned db user pack) (zip entries ranges) ->
  exists r, get_file db user i = Some r /\ r_pack_id r = Some pack.
Proof.
  intros (p & -> & Hp)%list_elem_of_fmap Hall. rewrite Forall_forall in Hall.
  destruct (Hall p Hp) as (r & Hr & Hpk & _). by exists r.
Qed.

Lemma carried_members members survivors old :
  carried_all members survivors old = Ok () -> forall m, m ∈ members -> r_file_id m ∈ e_file_id <$> survivors.
Proof.
  unfold carried_all. induction members as [|m members IH]; [by intros _ m ?%elem_of_nil|]. cbn [foldM].
  case_bool_decide as Hm; [|done]. cbn [mbind res_bind]. intros Hc m' [->|Hm']%elem_of_cons; [done|by apply IH].
Qed.

Lemma member_listed db user i f old :
  get_file db user i = Some f -> r_pack_id f = Some old -> f ∈ pack_members db user old /\ r_file_id f = i.
Proof.
  intros (a & Ha & Hr & ->)%get_file_elem Hp. apply is_row_true in Hr as [Hu Hi]. split; [|done].
  unfold pack_members. rewrite merge_sort_Permutation. apply elem_of_select. exists a. split; [done|split; [|done]].
  apply andb_true_iff. split; [by apply same_true|by apply bool_decide_eq_true].
Qed.

Lemma compact_members_ids user old new ps : forall db db',
  db_inv db -> foldM (compact_member user old new) db ps = Ok db' ->
  file_id <$> files db' = file_id <$> files db.
Proof.
  induction ps as [|p ps IH]; intros db db' Hinv Hf; cbn [foldM] in Hf; [by injection Hf as <-|].
  apply bind_ok in Hf as (db1 & Hd & Hf). unfold compact_member in Hd.
  apply bind_ok in Hd as (row & Hrow%ok_or_ok & Hd). destruct (_ || _); [done|].
  destruct (assign_to_pack _ _ _ _ _ _) as [[d' b]| |] eqn:Ea; try discriminate. injection Hd as ->.
  destruct (assign_ok db ∅ user _ new _ _ db1 b row Hinv Hrow Ea) as (Hinv1 & _ & _ & _ & Hid1 & _).
  by rewrite (IH db1 db' Hinv1 Hf).
Qed.

(** Every member moved to a written container: the old one can go. *)
Lemma compacted_preserves db db1 db2 st st5 user old new fo (entries : list PackEntry) plain ranges now stored :
  db_inv db -> packs_hold db -> build_pack entries = Ok (plain, ranges) ->
  get_file db user old = Some fo -> is_pack fo = true ->
  (forall m, m ∈ pack_members db user old -> r_file_id m ∈ e_file_id <$> entries) ->
  (forall e g, e ∈ entries -> get_file db user (e_file_id e) = Some g -> is_pack g = false) ->
  (forall e data, e ∈ entries -> content db user (e_file_id e) data -> hash_collision \/ data = e_data e) ->
  foldM (compact_member user old new) db (zip entries ranges) = Ok db1 ->
  insert_pack_row data_key db1 user new plain now st = (st5, Ok (db2, stored)) ->
  preserves db (purge_file_row db2 user old).1.
Proof.
  intros Hinv Hph Hb Hfo Hpack Hall Hplainrow Htrue Hf Hins. pose proof (build_pack_fits _ _ _ Hb) as Hsz.
  pose proof (compact_members_ids _ _ _ _ _ _ Hinv Hf) as Hids.
  destruct (insert_pack_stored db1 user new plain now st st5 db2 stored ltac:(by eapply compact_members_inv) Hsz Hins)
    as (_ & f & Hfid & _ & _ & Hfn & Hfiles).
  assert (Hfresh : new ∉ file_id <$> files db).
  { rewrite <- Hids. eapply insert_pack_row_ok; [..|exact Hins]; try done. by eapply compact_members_inv. }
  assert (Hnew : new <> old) by (intros ->; apply Hfresh; by eapply get_file_id).
  assert (Hzip : (fun p => e_file_id p.1) <$> zip entries ranges = e_file_id <$> entries).
  { destruct (build_pack_ok _ _ _ Hb) as (Hrg & _).
    rewrite <- (fst_zip entries ranges) at 2 by (rewrite Hrg, length_ranges; lia). by rewrite <- list_fmap_compose. }
  destruct (compact_members_rows user old new _ db st db1 Hnew Hinv Hf) as (Hinv1 & Hk1 & Hg1 & Has & _ & Hrows).
  rewrite Hzip in *. set (ids := e_file_id <$> entries) in *.
  assert (Hout : old ∉ ids).
  { intros Hin. pose proof Hin as (e & -> & He)%list_elem_of_fmap. rewrite (Hplainrow e fo He Hfo) in Hpack. done. }
  assert (Hrow2 : forall u i, i <> new -> get_file db2 u i = get_file db1 u i).
  { intros u i Hne. apply (get_file_snoc _ _ _ _ _ Hfiles). cbn. congruence. }
  assert (Hmid : preserves db db2).
  { eapply (packed_preserves db db1 db2 st st5 user new ids entries plain now stored); try done.
    - apply Forall_forall. intros i Hi. destruct (Hrows i Hi) as (g & _ & Hg & _). by eapply get_file_id.
    - intros i Hi. destruct (Hrows i Hi) as (g & g' & Hg & _ & Hg' & Hpath). apply list_elem_of_fmap in Hi as (e & -> & He).
      destruct (packed_slice db1 user new entries plain ranges e Hb Has He) as (row & Hrow & Hpid & Hsl).
      assert (row = g') as -> by congruence. exists g, g', e. pose proof (same_path_pack _ _ Hpath). done. }
  eapply preserves_trans; [exact Hmid|]. destruct Hmid as (Hinv2 & Hph2 & _).
  apply (purge_preserves db2 user old fo); [done..| |done|].
  { by rewrite Hrow2, Hg1 by done. }
  intros i g Hg Hp. destruct (decide (i = new)) as [->|Hi].
  { rewrite <- Hfid in Hg. rewrite (get_file_last db1 db2 (rec_of f) user g Hinv2 Hfiles Hg) in Hp. cbn in Hp. congruence. }
  rewrite Hrow2 in Hg by done. destruct (decide (i ∈ ids)) as [Hin|Hni].
  - destruct (compact_member_in db1 user new entries ranges i) as (r & Hr & Hrp); [by rewrite Hzip|done|]. congruence.
  - rewrite Hg1 in Hg by done. destruct (member_listed db user i g old Hg Hp) as [Hm <-]. by apply Hni, Hall.
Qed.

(** Survivors that are what the members contain, moved to a new container; the old one goes. *)
Lemma compact_pack_content db user old entries rnd now st st' db' r :
  db_inv db -> packs_hold db ->
  (forall e g, e ∈ entries -> get_file db user (e_file_id e) = Some g -> is_pack g = false) ->
  (forall e data, e ∈ entries -> content db user (e_file_id e) data -> hash_collision \/ data = e_data e) ->
  compact_pack data_key db user old entries rnd now st = (st', Ok (db', r)) -> preserves db db'.
Proof.
  intros Hinv Hph Hplainrow Htrue Hc. unfold compact_pack in Hc.
  apply io_bind_ok in Hc as (st1 & fo & [-> Hfo%ok_or_ok]%lift_ok & Hc).
  destruct (negb (is_pack fo)) eqn:Epack; [discriminate|]. apply negb_false_iff in Epack.
  apply io_bind_ok in Hc as (st2 & [] & [-> Hcarried]%lift_ok & Hc).
  pose proof (carried_members _ _ _ Hcarried) as Hall.
  case_bool_decide as Eempty.
  - unfold purge_file_row in Hc. apply io_bind_ok in Hc as (st3 & remote & _ & [= _ <- _]).
    apply (purge_preserves db user old fo); try done. intros i f Hf Hp.
    destruct (member_listed db user i f old Hf Hp) as [Hm _]. apply Hall in Hm. destruct entries; [|done].
    by apply elem_of_nil in Hm.
  - apply io_bind_ok in Hc as (st3 & [plain ranges] & [-> Hb]%lift_ok & Hc).
    apply io_bind_ok in Hc as (st4 & db1 & [-> Hf]%lift_ok & Hc).
    apply io_bind_ok in Hc as (st5 & [db2 stored] & Hins & Hc). unfold purge_file_row in Hc.
    apply io_bind_ok in Hc as (st6 & remote & _ & [= _ <- _]).
    by eapply (compacted_preserves db db1 db2 _ _ user old _ fo entries plain ranges now stored).
Qed.
End Content.

(** ** The passes *)

Lemma plan_steps_sub target fs : forall acc g f,
  let r := foldl (plan_step target) acc fs in
  (g ∈ r.1.1 \/ g = r.1.2) -> f ∈ g ->
  f ∈ fs \/ f ∈ acc.1.2 \/ exists h, h ∈ acc.1.1 /\ f ∈ h.
Proof.
  induction fs as [|x fs IH]; intros [[groups group] n] g f; cbn [foldl]; cbv zeta.
  { cbn [fst snd]. intros [Hg| ->] Hf; [right; right; by exists g|right; by left]. }
  intros Hg Hf. destruct (IH _ g f Hg Hf) as [Hin|Hacc]; [left; by right|].
  unfold plan_step in Hacc. destruct (_ && _); cbn [fst snd app] in *.
  - destruct Hacc as [Hin|(h & Hh & Hfh)].
    { apply list_elem_of_singleton in Hin as ->. left. by left. }
    apply elem_of_app in Hh as [Hh|Hh]; [right; right; by exists h|].
    apply list_elem_of_singleton in Hh as ->. right. by left.
  - destruct Hacc as [Hin|(h & Hh & Hfh)]; [|right; right; by exists h].
    apply elem_of_app in Hin as [Hin|Hin]; [right; by left|].
    apply list_elem_of_singleton in Hin as ->. left. by left.
Qed.

(** A planned group holds files of the plan. *)
Lemma plan_packs_sub fs target g f : g ∈ plan_packs fs target -> f ∈ g -> f ∈ fs.
Proof.
  unfold plan_packs. pose proof (plan_steps_sub target fs ([], [], 0) g f) as Hp. cbv zeta in Hp.
  destruct (foldl _ _ _) as [[groups group] n]. cbn [fst snd] in Hp. intros [_ Hg]%list_elem_of_filter Hf.
  destruct Hp as [?|[Hn|(h & Hh & _)]]; [|exact Hf|done|by apply elem_of_nil in Hn|by apply elem_of_nil in Hh].
  case_bool_decide; [by left|]. apply elem_of_app in Hg as [?|Hg]; [by left|]. right. by apply list_elem_of_singleton in Hg.
Qed.

Lemma packable_row db user m f :
  db_inv db -> f ∈ packable_files db user m -> get_file db user (r_file_id f) = Some f /\ is_pack f = false.
Proof.
  intros Hinv. unfold packable_files. rewrite merge_sort_Permutation. intros (a & Ha & Hp & ->)%elem_of_select.
  apply andb_true_iff in Hp as [Hu Hp]. unfold packable in Hp. rewrite !andb_true_iff in Hp.
  destruct Hp as ((((Hlive & _) & _) & _) & Hnp). split.
  { apply get_file_found; [done|done|]. apply is_row_true. apply same_true in Hu. done. }
  pose proof (inv_rows _ Hinv) as Hrows. rewrite Forall_forall in Hrows. specialize (Hrows a Ha). unfold row_ok in Hrows.
  rewrite Hlive in Hrows. apply not_true_is_false. unfold is_pack. intros (rest & E)%starts_with_spec.
  cbn [r_path map_file] in E. unfold visible_path in E. rewrite Hrows in E. cbn [default] in E.
  unfold not_pack in Hnp. rewrite E in Hnp. pose proof (hidden_pack_key rest) as Hh. unfold hidden, pack_key in Hh.
  by rewrite Hh in Hnp.
Qed.

Section Passes.
Context {CP : CryptoPrims} {CL : CryptoLaws} {ZS : Zstd} {ZL : ZstdLaws} {L2 : Log2} {RS : ReedSolomon} {RL : ReedSolomonLaws}.
Variable data_key : bytes.
Variable answer : string -> Answers.
Variable peers : string -> PeerAddrs.
Variable arrive : string -> ChunkRow -> list ShardRow -> list ShardRow.
Variable pick : string -> nat -> nat.
Hypothesis arrive_all : forall i c l, arrive i c l ≡ₚ l.
Abbreviation read_back := (read_back data_key answer peers arrive pick).
Abbreviation keeping := (fun n n' : AppState => preserves data_key (n_db n) (n_db n')).

(** What was read back is the content. *)
Lemma read_back_stored n user id data d :
  file_stored data_key (n_db n) user id data -> read_back n user id = Ok d -> hash_collision \/ data = d.
Proof.
  intros Hs Hr. unfold Accounts.read_back in Hr.
  destruct (download_outcome data_key (answer id) (peers id) (n_store n) (arrive id) (pick id) (arrive_all id) _ _ _ _ Hs)
    as [?|[[_ E]|[_ [e E]]]]; [by left|right; congruence|congruence].
Qed.

Lemma gathered n user group : forall entries,
  gather_entries data_key answer peers arrive pick n user group = Some entries ->
  e_file_id <$> entries = r_file_id <$> group /\
  forall e, e ∈ entries -> read_back n user (e_file_id e) = Ok (e_data e).
Proof.
  induction group as [|f group IH]; intros entries; cbn [gather_entries].
  { intros [= <-]. split; [done|]. by intros e ?%elem_of_nil. }
  destruct (Accounts.read_back _ _ _ _ _ _ _ _) as [data| |] eqn:E; [|done..]. intros Heq; apply fmap_Some in Heq as (es & Hes & ->).
  destruct (IH es Hes) as [Hid Hall]. split; [cbn; by rewrite Hid|]. intros e [->|He]%elem_of_cons; [done|by apply Hall].
Qed.

Lemma pack_group_keeps user n t group rnd now :
  db_inv (n_db n) -> packs_hold (n_db n) ->
  (forall f g, f ∈ group -> get_file (n_db n) user (r_file_id f) = Some g -> is_pack g = false) ->
  keeping n (pack_group data_key answer peers arrive pick user (n, t) (group, rnd, now)).1.
Proof.
  intros Hinv Hph Hgroup. unfold pack_group.
  destruct (gather_entries _ _ _ _ _ _ _ _) as [entries|] eqn:Eg; [|by apply preserves_refl].
  destruct (gathered _ _ _ _ Eg) as [Hids Hread].
  destruct entries as [|e es]; [by apply preserves_refl|]. set (entries := e :: es) in *.
  destruct (pack_files _ _ _ _ _ _ _) as [st [[db r]| |]] eqn:Ep; [|by apply preserves_refl..]. cbn [fst n_db].
  eapply (pack_files_content data_key (n_db n) user entries); [done|done| | |exact Ep].
  - intros e' g He' Hg. assert (Hin : e_file_id e' ∈ r_file_id <$> group) by (rewrite <- Hids; by apply list_elem_of_fmap_2).
    apply list_elem_of_fmap in Hin as (f & E & Hf). rewrite E in Hg. by eapply Hgroup.
  - intros e' data He' Hd. eapply read_back_stored; [exact Hd|]. by apply Hread.
Qed.

Lemma pack_members_row db user old m :
  db_inv db -> m ∈ pack_members db user old -> get_file db user (r_file_id m) = Some m /\ r_pack_id m = Some old.
Proof.
  intros Hinv. unfold pack_members. rewrite merge_sort_Permutation. intros (a & Ha & Hp & ->)%elem_of_select.
  apply andb_true_iff in Hp as [Hu%same_true Hp%bool_decide_eq_true]. split; [|done].
  apply get_file_found; [done|done|]. by apply is_row_true.
Qed.

(** A run of steps, each keeping what it finds. *)
Lemma foldl_keeps {A} (step : AppState * RepackTotals -> A -> AppState * RepackTotals) (l : list A) n0 acc :
  keeping n0 acc.1 ->
  (forall acc a, a ∈ l -> keeping n0 acc.1 -> keeping acc.1 (step acc a).1) ->
  keeping n0 (foldl step acc l).1.
Proof.
  revert acc. induction l as [|a l IH]; intros acc Hk Hstep; [done|]. cbn [foldl]. apply IH.
  - eapply preserves_trans; [exact Hk|]. apply Hstep; [by left|done].
  - intros acc' b Hb. apply Hstep. by right.
Qed.

Lemma repack_user_keeps fresh acc user :
  db_inv (n_db acc.1) -> packs_hold (n_db acc.1) ->
  keeping acc.1 (repack_user data_key answer peers arrive pick fresh acc user).1.
Proof.
  intros Hinv Hph. unfold repack_user. apply foldl_keeps; [by apply preserves_refl|].
  intros [n t] [[group rnd] now] Hg (Hinv' & Hph' & Hk). apply pack_group_keeps; [done|done|].
  intros f g Hf Hrow. apply list_elem_of_lookup in Hg as (i & Hi). rewrite list_lookup_imap in Hi.
  apply fmap_Some in Hi as (group' & Hgr & [= -> _ _]).
  pose proof (plan_packs_sub _ _ _ _ (list_elem_of_lookup_2 _ _ _ Hgr) Hf) as Hpf.
  destruct (packable_row _ _ _ _ Hinv Hpf) as [Hf0 Hn0].
  destruct (Hk _ _ _ Hf0 Hn0) as (g' & Hg' & Hn' & _). cbn [fst] in Hg'. congruence.
Qed.

(** The packing pass. *)
Lemma repack_keeps fresh n :
  db_inv (n_db n) -> packs_hold (n_db n) -> keeping n (repack_all_now data_key answer peers arrive pick fresh n).1.
Proof.
  intros Hinv Hph. unfold repack_all_now. apply foldl_keeps; [by apply preserves_refl|].
  intros acc user _ (Hinv' & Hph' & _). by apply repack_user_keeps.
Qed.

Lemma survivors_rows plain rows : forall entries,
  survivors_of plain rows = Some entries ->
  forall e, e ∈ entries -> exists m, m ∈ rows /\ e_file_id e = r_file_id m /\ member_slice plain m = Ok (e_data e).
Proof.
  induction rows as [|m rows IH]; intros entries; cbn [survivors_of].
  { intros [= <-]. by intros e ?%elem_of_nil. }
  destruct (member_slice plain m) as [data| |] eqn:E; [|done..]. intros Heq; apply fmap_Some in Heq as (es & Hes & ->).
  intros e [->|He]%elem_of_cons; [exists m; split; [by left|done]|].
  destruct (IH es Hes e He) as (m' & Hm' & H'). exists m'. split; [by right|done].
Qed.

(** What a member was sliced out of a container read back is its content. *)
Lemma survivor_content n user old plain entries e :
  db_inv (n_db n) -> packs_hold (n_db n) -> read_back n user old = Ok plain ->
  survivors_of plain (pack_members (n_db n) user old) = Some entries -> e ∈ entries ->
  (forall g, get_file (n_db n) user (e_file_id e) = Some g -> is_pack g = false) /\
  (forall data, content data_key (n_db n) user (e_file_id e) data -> hash_collision \/ data = e_data e).
Proof.
  intros Hinv Hph Hread Hs He. destruct (survivors_rows _ _ _ Hs e He) as (m & Hm & Hid & Hsl).
  destruct (pack_members_row _ _ _ _ Hinv Hm) as [Hrow Hpk]. rewrite <- Hid in Hrow.
  split; [intros g Hg; assert (g = m) as -> by congruence; by apply (Hph _ _ _ _ Hrow Hpk)|].
  intros data [(f & _ & _ & Hf & Hn & _)|(f & p & plain' & Hf & Hp & Hst & Hsl')]; [congruence|].
  assert (f = m) as -> by congruence. assert (p = old) as -> by congruence.
  destruct (read_back_stored _ _ _ _ _ Hst Hread) as [?| ->]; [by left|]. right. congruence.
Qed.

Lemma compact_one_keeps acc o :
  db_inv (n_db acc.1) -> packs_hold (n_db acc.1) -> keeping acc.1 (compact_one data_key answer peers arrive pick acc o).1.
Proof.
  intros Hinv Hph. destruct acc as [n t], o as [[[pack live] members] [rnd now]]. unfold compact_one. cbn [fst] in Hinv, Hph.
  destruct (_ && _); [by apply preserves_refl|].
  set (user := r_user_id pack). set (old := r_file_id pack).
  match goal with |- context [match ?o with Some _ => _ | None => _ end] => destruct o as [survivors|] eqn:Es end;
    [|by apply preserves_refl].
  assert (Hsurv : forall e, e ∈ survivors ->
    (forall g, get_file (n_db n) user (e_file_id e) = Some g -> is_pack g = false) /\
    (forall data, content data_key (n_db n) user (e_file_id e) data -> hash_collision \/ data = e_data e)).
  { destruct (members =? 0); [injection Es as <-; by intros e ?%elem_of_nil|].
    destruct (read_back n user old) as [plain| |] eqn:Er; [|done..].
    destruct (survivors_of _ _) as [[|e0 es]|] eqn:Ev; [done| |done]. injection Es as <-.
    intros e He. by eapply survivor_content. }
  destruct (compact_pack _ _ _ _ _ _ _ _) as [st [[db r]| |]] eqn:Ec; [|by apply preserves_refl..]. cbn [fst n_db].
  eapply (compact_pack_content data_key (n_db n) user old survivors); [done|done| | |exact Ec].
  - intros e g He. by apply Hsurv.
  - intros e data He. by apply Hsurv.
Qed.

(** The compaction pass. *)
Lemma compact_keeps fresh n :
  db_inv (n_db n) -> packs_hold (n_db n) -> keeping n (compact_packs_now data_key answer peers arrive pick fresh n).1.
Proof.
  intros Hinv Hph. unfold compact_packs_now. apply foldl_keeps; [by apply preserves_refl|].
  intros acc o _ (Hinv' & Hph' & _). by apply compact_one_keeps.
Qed.
End Passes.

(** One of the two background passes, over the network of its moment. *)
Inductive packing_pass `{CryptoPrims} `{Zstd} `{Log2} `{ReedSolomon} (data_key : bytes) : AppState -> AppState -> Prop :=
  | pass_repack answer peers arrive pick fresh n :
      (forall i c l, arrive i c l ≡ₚ l) ->
      packing_pass data_key n (repack_all_now data_key answer peers arrive pick fresh n).1
  | pass_compact answer peers arrive pick fresh n :
      (forall i c l, arrive i c l ≡ₚ l) ->
      packing_pass data_key n (compact_packs_now data_key answer peers arrive pick fresh n).1.


(** ** A run *)

Lemma packless_holds db : forallb (fun f => is_none (pack_id f)) (files db) = true -> packs_hold db.
Proof.
  rewrite forallb_forall. intros Hall u i f p (a & Ha & _ & ->)%get_file_elem Hp.
  apply list_elem_of_In, Hall in Ha. cbn in Hp. by rewrite Hp in Ha.
Qed.

Module PackingRun.
Import Toy StoreRun.
#[local] Instance run_log2 : Log2 := flat_log2.

Definition silent : string -> Answers := fun _ _ _ => None.
Definition nobody : string -> PeerAddrs := fun _ => ∅.
Definition as_listed : string -> ChunkRow -> list ShardRow -> list ShardRow := fun _ _ l => l.
Definition first_done : string -> nat -> nat := fun _ k => k.
Definition before : AppState := mkState w2.1 w2.2 (mkLedger 1000 0 ∅).
Definition repacked : AppState :=
  (repack_all_now key silent nobody as_listed first_done (fun _ _ => (rndp, "t4"%string)) before).1.
(** Two short files leave a container most of which is index: it is compacted at once. *)
Definition rndc : bytes := x7f :: zeros 15.
Definition compacted : AppState :=
  (compact_packs_now key silent nobody as_listed first_done (fun _ => (rndc, "t5"%string)) repacked).1.

Lemma passes_run : rtc (packing_pass key) before compacted.
Proof.
  apply (rtc_l _ _ repacked); [|apply rtc_once].
  - by apply (pass_repack key silent nobody as_listed first_done).
  - by apply (pass_compact key silent nobody as_listed first_done).
Qed.

Lemma bye_stored : file_stored key (n_db before) "u" id2 (as_bytes "bye").
Proof.
  assert (E : pr_file_id r2 = id2) by (vm_compute; reflexivity). rewrite <- E.
  refine (proj1 (proj2 (push_file_stored key w1.1 "u" "notes/b" (as_bytes "bye") rnd2 "t2" w1.2 _ _ _ w1_inv
           ltac:(apply short_ok; reflexivity) push2 ltac:(vm_compute; reflexivity)))).
Qed.

Lemma row_in (n : AppState) id (p : FileRow -> bool) :
  match get_file (n_db n) "u" id with Some f => p f | None => false end = true ->
  exists f, get_file (n_db n) "u" id = Some f /\ p f = true.
Proof. destruct (get_file _ _ _) as [f|]; [|done]. by exists f. Qed.

Lemma before_holds : packs_hold (n_db before).
Proof. apply packless_holds. vm_compute. reflexivity. Qed.

End PackingRun.
