(* ===== verification/FileHealth.v ===== *)
(** * Durability and placement of a file ([crates/server/src/handlers/files.rs])

    [file_health] counts the shards of each chunk that can be reached and judges the file;
    [file_placement] says where every shard is. With peers that answer for what they hold, the
    judgement is exactly whether the file can be downloaded. *)

From Stdlib Require Import ZArith Lia Strings.Ascii Strings.String Strings.Byte.
From stdpp Require Import base numbers list gmap strings relations sorting.
From S2P Require Import Prelude External Erasure RSCode Crypto Pipeline Paths Manifest ManifestInv ChunkStore Text.
From S2P Require Import Service ServiceProofs ServiceSpec Packs PackProofs ServiceInv ServiceWitness Protocol ReadPath Instance Quotas Accounts AccountsProofs PackContent.

(** ** The handlers *)

Record HealthReport := mkHealth {
  hr_file_id : string; hr_path : string; hr_size : Z; hr_chunks : nat;
  hr_min_reachable : nat;
  hr_fully_redundant : bool; hr_recoverable : bool; hr_single_failure_safe : bool; hr_at_risk : bool
}.

Section Health.
Variable answer : Answers.
Variable me : string.
Variable api_port : Z.

Definition pings (addr : string) : bool :=
  match answer addr (Ping me api_port) with Some (Pong _ _ _) => true | _ => false end.
Definition claims_shard (addr frag : string) : bool :=
  match answer addr (HasShard frag) with Some (HasShardResult _ present) => present | _ => false end.

(** The rows of [peers], and those that answer. *)
Definition live_peers (rows : list (string * string)) : PeerAddrs :=
  foldl (fun live r => if pings r.2 then <[r.1 := r.2]> live else live) ∅ rows.

Definition reachable (live : PeerAddrs) (st : ChunkStore) (s : ShardRow) : bool :=
  if same (location s) "local" then exists_ st (fragment s)
  else match live !! location s with Some addr => claims_shard addr (fragment s) | None => false end.

Definition min_reachable (live : PeerAddrs) (st : ChunkStore) (plan : list ChunkShards) : nat :=
  foldl (fun n c => Nat.min n (length (filter (fun s => reachable live st s = true) c.2))) TOTAL_SHARDS plan.

Definition file_health (rows : list (string * string)) (db : Db) (st : ChunkStore) (user id : string)
    : res StoreError HealthReport :=
  p ← pull_plan db user id;
  plan ← (match r_pack_id p.1 with
          | Some pack => q ← pull_plan db user pack; Ok q.2
          | None => Ok p.2
          end);
  let n := min_reachable (live_peers rows) st plan in
  let recoverable := (DATA_SHARDS <=? n)%nat in
  let margin := (n - DATA_SHARDS)%nat in
  Ok (mkHealth (r_file_id p.1) (r_path p.1) (r_size p.1) (length plan) n
        (TOTAL_SHARDS <=? n)%nat recoverable (PARITY_SHARDS <=? margin)%nat
        (negb recoverable || (margin <? PARITY_SHARDS)%nat)).
End Health.

(** What is known of a peer: latency, country, status. *)
Record PeerMeta (R : Type) := mkMeta { pm_rtt : option R; pm_country : option string; pm_status : string }.
Arguments mkMeta {R}. Arguments pm_rtt {R}. Arguments pm_country {R}. Arguments pm_status {R}.

Inductive ShardView (R : Type) :=
| LocalShard (index : Z)
| PeerShard (index : Z) (location : string) (meta : option (PeerMeta R)).
Arguments LocalShard {R}. Arguments PeerShard {R}.

Section Placement.
Context {R : Type}.
Variable meta : gmap string (PeerMeta R).

Definition view_shard (s : ShardRow) : ShardView R :=
  if same (location s) "local" then LocalShard (shard_index s)
  else PeerShard (shard_index s) (location s) (meta !! location s).

Definition count_location (m : gmap string nat) (s : ShardRow) : gmap string nat :=
  <[location s := S (default 0%nat (m !! location s))]> m.

(** The row of the file, the shards of each chunk, and how many each location holds. *)
Definition file_placement (db : Db) (user id : string)
    : res StoreError (FileRow * list (Z * list (ShardView R)) * gmap string nat) :=
  p ← pull_plan db user id;
  Ok (p.1, (fun c : ChunkShards => (idx c.1, view_shard <$> c.2)) <$> p.2,
      foldl (fun m (c : ChunkShards) => foldl count_location m c.2) ∅ p.2).
End Placement.

(** ** The count over the chunks *)

Lemma min_fold (f : ChunkShards -> nat) plan : forall n k,
  (k <= foldl (fun n c => Nat.min n (f c)) n plan)%nat <-> (k <= n)%nat /\ forall c, c ∈ plan -> (k <= f c)%nat.
Proof.
  induction plan as [|c plan IH]; intros n k; cbn [foldl].
  - split; [intros ?; split; [done|by intros c ?%elem_of_nil]|by intros [? _]].
  - rewrite IH, Nat.min_glb_iff. split.
    + intros [[Hn Hc] Hr]. split; [done|]. intros d [->|Hd]%elem_of_cons; [done|by apply Hr].
    + intros [Hn Hr]. split; [split; [done|apply Hr; by left]|]. intros d Hd. apply Hr. by right.
Qed.

Lemma min_reachable_spec answer live st plan k :
  (k <= min_reachable answer live st plan)%nat <->
  (k <= TOTAL_SHARDS)%nat /\ forall c, c ∈ plan -> (k <= length (filter (fun s => reachable answer live st s = true) c.2))%nat.
Proof. apply (min_fold (fun c => length (filter (fun s => reachable answer live st s = true) c.2))). Qed.

(** The three verdicts say one thing of the lowest count: above ten, and fourteen or not. *)
Lemma health_verdicts answer me port rows db st user id r :
  file_health answer me port rows db st user id = Ok r ->
  (hr_min_reachable r <= TOTAL_SHARDS)%nat /\ hr_single_failure_safe r = hr_fully_redundant r /\
  hr_at_risk r = negb (hr_fully_redundant r) /\ hr_recoverable r = (DATA_SHARDS <=? hr_min_reachable r)%nat.
Proof.
  unfold file_health. intros (p & _ & (plan & _ & Hr)%bind_ok)%bind_ok. cbv zeta in Hr. injection Hr as <-.
  cbn [hr_min_reachable hr_single_failure_safe hr_fully_redundant hr_at_risk hr_recoverable].
  set (n := min_reachable _ _ _ _).
  assert (Hn : (n <= TOTAL_SHARDS)%nat) by (eapply min_reachable_spec; apply Nat.le_refl).
  split; [done|]. clearbody n. change TOTAL_SHARDS with 14%nat in Hn.
  do 15 (destruct n as [|n]; [split; [|split]; reflexivity|]). lia.
Qed.

(** ** The judgement and the download *)

(** [fetch_and_reassemble] asks every peer of the table. *)
Definition peer_addrs (rows : list (string * string)) : PeerAddrs := foldl (fun m r => <[r.1 := r.2]> m) ∅ rows.

Section Exact.
Context {CP : CryptoPrims} {CL : CryptoLaws} {ZS : Zstd} {RS : ReedSolomon} {RL : ReedSolomonLaws}.
Variables (data_key : bytes) (answer : Answers) (me : string) (api_port : Z).
Variables (arrive : ChunkRow -> list ShardRow -> list ShardRow) (pick : nat -> nat).
Hypothesis arrive_all : forall c l, arrive c l ≡ₚ l.

(** A peer is down and silent, or up and answers for what it holds. *)
Definition truthful (up : string -> bool) (held : string -> string -> option bytes) : Prop :=
  forall a,
    if up a then
      pings answer me api_port a = true /\
      forall f, claims_shard answer a f = negb (is_none (held a f)) /\
        match held a f with
        | Some b => exists g, answer a (GetShard f) = Some (ShardData g b)
        | None => forall g b, answer a (GetShard f) <> Some (ShardData g b)
        end
    else forall m, answer a m = None.

(** What is held under the id of a recorded shard is that shard. *)
Definition intact (db : Db) (st : ChunkStore) (held : string -> string -> option bytes) : Prop :=
  forall s, s ∈ shard_rows db ->
    (forall b, read st (fragment s) = Ok b -> verify_hash b (hash s) = true) /\
    (forall a b, held a (fragment s) = Some b -> verify_hash b (hash s) = true).

Lemma live_lookup rows loc a :
  NoDup rows.*1 -> live_peers answer me api_port rows !! loc = Some a <->
  peer_addrs rows !! loc = Some a /\ pings answer me api_port a = true.
Proof.
  unfold live_peers, peer_addrs. intros Hnd. induction rows as [|[i b] rows IH] using rev_ind.
  { cbn. rewrite lookup_empty. split; [done|by intros [? _]]. }
  rewrite fmap_app in Hnd. apply NoDup_app in Hnd as (Hnd & Hd & _). specialize (IH Hnd).
  rewrite !foldl_app. cbn [foldl fst snd].
  assert (Hno : forall (P : string -> bool) (l : list (string * string)) (m : PeerAddrs), i ∉ l.*1 ->
    foldl (fun (m : PeerAddrs) (r : string * string) => if P r.2 then <[r.1 := r.2]> m else m) m l !! i = m !! i).
  { intros P l. induction l as [|[j c] l IHl]; intros m Hi; [done|]. cbn in Hi. apply not_elem_of_cons in Hi as [Hij Hi].
    cbn [foldl fst snd]. rewrite IHl by done. destruct (P c); [|done]. by rewrite lookup_insert_ne. }
  assert (Hi : i ∉ rows.*1) by (intros Hin; apply (Hd i Hin); left).
  destruct (decide (loc = i)) as [->|Hne].
  - rewrite lookup_insert_eq. destruct (pings answer me api_port b) eqn:Eb.
    + rewrite lookup_insert_eq. split; [intros [= <-]; done|by intros [[= <-] _]].
    + rewrite Hno by done. rewrite lookup_empty. split; [done|]. intros [[= <-] Hp]. congruence.
  - rewrite (lookup_insert_ne _ i loc) by done. rewrite <- IH.
    destruct (pings answer me api_port b); [|done]. by rewrite lookup_insert_ne by done.
Qed.

Variables (up : string -> bool) (held : string -> string -> option bytes).
Variables (rows : list (string * string)) (db : Db) (st : ChunkStore).
Hypothesis Htruth : truthful up held.
Hypothesis Hintact : intact db st held.
Hypothesis Hids : NoDup rows.*1.

Lemma exists_read (c : ChunkStore) f : exists_ c f = true <-> exists b, read c f = Ok b.
Proof.
  unfold exists_, read. destruct (shard_path f) as [p| |]; cbn [mbind res_bind]; [|split; [done|by intros [? ?]]..].
  rewrite bool_decide_eq_true. destruct (c !! p) as [b|]; cbn [ok_or]; split; [by exists b|by eexists|by intros [? ?]|by intros [? ?]].
Qed.

Lemma reachable_obtainable s :
  s ∈ shard_rows db ->
  reachable answer (live_peers answer me api_port rows) st s = true <-> obtainable answer (peer_addrs rows) st s.
Proof.
  intros Hs. destruct (Hintact s Hs) as [Hl Hh]. unfold reachable, obtainable, fetch_shard_for_read, read_local_verified.
  destruct (same (location s) "local").
  - cbn [snd]. rewrite exists_read. split.
    + intros [b Er]. rewrite Er, (Hl b Er). by eexists.
    + destruct (read st (fragment s)) as [b| |]; [by exists b|by intros [? ?]..].
  - destruct (live_peers _ _ _ rows !! location s) as [a|] eqn:Ea.
    + apply live_lookup in Ea as [-> Hp]; [|done]. pose proof (Htruth a) as Ht.
      destruct (up a); [|unfold pings in Hp; by rewrite Ht in Hp].
      destruct Ht as [_ Ht]. destruct (Ht (fragment s)) as [-> Hg]. destruct (held a (fragment s)) as [b|] eqn:Eh; cbn [is_none negb].
      * destruct Hg as [g ->]. rewrite (Hh a b Eh). split; [by eexists|done].
      * split; [done|]. destruct (answer a (GetShard (fragment s))) as [[]|] eqn:Eg; try by intros [? ?]. by destruct (Hg _ _ eq_refl).
    + split; [done|]. destruct (peer_addrs rows !! location s) as [a|] eqn:Ep; [|by intros [? ?]].
      pose proof (Htruth a) as Ht. destruct (up a).
      * destruct Ht as [Hp _]. assert (E : live_peers answer me api_port rows !! location s = Some a) by (by apply live_lookup). congruence.
      * rewrite Ht. by intros [? ?].
Qed.

Lemma plan_counts id c :
  c ∈ get_chunks db id ->
  length (filter (fun s => reachable answer (live_peers answer me api_port rows) st s = true) (get_shards db (chunk_id_of c))) =
  length (filter (obtainable answer (peer_addrs rows) st) (get_shards db (chunk_id_of c))).
Proof.
  intros _. f_equal. apply list_filter_iff'. intros s [Hs _]%elem_of_get_shards. by apply reachable_obtainable.
Qed.

(** A file of its own. *)
Lemma health_stored user id data :
  file_stored data_key db user id data ->
  let n := min_reachable answer (live_peers answer me api_port rows) st
             ((fun c => (c, get_shards db (chunk_id_of c))) <$> get_chunks db id) in
  hash_collision \/
  if (DATA_SHARDS <=? n)%nat then download data_key answer (peer_addrs rows) arrive pick db st user id = Ok data
  else exists e, download data_key answer (peer_addrs rows) arrive pick db st user id = Err e.
Proof.
  intros Hst n. destruct (download_outcome data_key answer (peer_addrs rows) st arrive pick arrive_all db user id data Hst)
    as [?|[[Hall Hr]|[(c & Hc & Hn) Hr]]]; [by left|right..].
  - rewrite (proj2 (Nat.leb_le _ _)); [done|]. apply min_reachable_spec. split; [by apply Nat.leb_le|].
    intros c (c' & -> & Hc)%list_elem_of_fmap. cbn [snd]. rewrite (plan_counts id c' Hc). by apply Hall.
  - destruct (Nat.leb_spec DATA_SHARDS n) as [Hle|]; [exfalso|done]. apply Hn. unfold ten_obtainable.
    rewrite <- (plan_counts id c Hc). apply min_reachable_spec in Hle as [_ Hle].
    apply (Hle (c, get_shards db (chunk_id_of c))). by apply (list_elem_of_fmap_2 (fun c => (c, get_shards db (chunk_id_of c)))).
Qed.

(** A member is read through its container. *)
Lemma download_member user id f pack q :
  get_file db user id = Some f -> r_pack_id f = Some pack -> get_file db user pack = Some q -> r_pack_id q = None ->
  download data_key answer (peer_addrs rows) arrive pick db st user id =
    plain ← download data_key answer (peer_addrs rows) arrive pick db st user pack; map_err Store (member_slice plain f).
Proof.
  intros Hf Hp Hq Hn. unfold download, reconstruct_file, pull_plan. rewrite Hf, Hq. cbn [ok_or mbind res_bind fst snd].
  rewrite Hp, Hn. rewrite ?Hq. cbn [ok_or mbind res_bind fst snd is_none negb]. rewrite Hn. cbn [is_none negb].
  by destruct (fetch_and_reassemble _ _ _ _ _ _ _ _).
Qed.

End Exact.

(** ** A run *)

Module HealthRun.
Import Toy StoreRun.
#[local] Instance run_log2 : Log2 := flat_log2.

(** One peer, up, that holds nothing. *)
Definition empty_peer : Answers := fun a m =>
  if same a "a1" then
    match m with Ping _ _ => Some (Pong "p1" 3119 None) | HasShard f => Some (HasShardResult f false) | _ => None end
  else None.
Definition rows : list (string * string) := [("p1", "a1")]%string.
Definition as_listed (c : ChunkRow) (l : list ShardRow) : list ShardRow := l.

Lemma empty_truthful : truthful empty_peer "me" 3119 (fun a => same a "a1") (fun _ _ => None).
Proof.
  intros a. unfold pings, claims_shard, empty_peer. destruct (same a "a1"); [|done].
  split; [done|]. intros f. split; [done|]. by intros g b.
Defined.

Lemma w1_intact : intact w1.1 w1.2 (fun _ _ => None).
Proof.
  intros s Hs. split; [|done]. revert s Hs.
  assert (Hall : forallb (fun s => match read w1.2 (fragment s) with Ok b => verify_hash b (Manifest.hash s) | _ => true end)
    (shard_rows w1.1) = true) by (vm_compute; reflexivity).
  rewrite forallb_forall in Hall. intros s Hs b Hb. apply list_elem_of_In, Hall in Hs. by rewrite Hb in Hs.
Qed.

Lemma one_row : NoDup rows.*1.
Proof. apply NoDup_singleton. Qed.

End HealthRun.
