(* ===== verification/Recovery.v ===== *)
(** * The automatic backup and the recovery of a node ([crates/server/src/manifest_backup.rs])

    The daily pass that seals the manifest and spreads its fourteen envelopes over the peers,
    the pruning of the versions that have aged out, and the restore of a node that holds
    nothing but its key: over any peers, with the order in which concurrent requests get their
    turn as an argument. The format is [ManifestBackup.v]. Statements succeed; the events are
    the list of what was recorded. *)

From Stdlib Require Import ZArith Lia Strings.String Strings.Byte.
From stdpp Require Import base numbers list gmap strings sorting.
From S2P Require Import Prelude External Erasure Crypto Pipeline Paths Text Manifest ChunkStore Protocol Identity Backup.
From S2P Require Import ManifestBackup ReadPath Fleet.

Definition KEEP_VERSIONS : Z := 7.
Definition SWEEP_DEPTH : Z := 30.
Definition DEFAULT_LOOKBACK_DAYS : Z := 90.
Definition MAX_LOOKBACK_DAYS : Z := 400.
Definition MAX_PEER_SHARD_BYTES : Z := 8 * 1024 * 1024.

Record ManifestBackupReport := mkReport {
  rp_version : Z;
  rp_skipped : bool;
  rp_snapshot_bytes : Z;
  rp_blob_bytes : Z;
  rp_shards_placed : Z;
  rp_peers_used : Z;
  rp_recoverable : bool;
  rp_versions_swept : Z;
  rp_delete_acks : Z
}.
Record ManifestRestoreOutcome := mkOutcome {
  ro_version : Z;
  ro_snapshot_bytes : Z;
  ro_shards_used : Z;
  ro_peers_tried : Z;
  ro_versions_probed : Z
}.

(** [p2pnas.events], the kinds written here. *)
Inductive Event :=
| BackupPlaced (version shards_placed peers snapshot_bytes : Z)
| BackupFailed (version : Z) (reason : string)
| BackupShort (version shards_placed : Z)
| ManifestRestored (version snapshot_bytes shards_used : Z).

Definition already_placed (log : list Event) (version : Z) : bool :=
  existsb (fun e => match e with BackupPlaced v _ _ _ => v =? version | _ => false end) log.
Definition recorded_versions (log : list Event) (limit : nat) : list Event :=
  take limit (rev (filter (fun e => match e with BackupPlaced _ _ _ _ => true | _ => false end = true) log)).

(** [u64::checked_sub] and [saturating_sub]. *)
Definition checked_sub (a b : Z) : option Z := if b <=? a then Some (a - b) else None.
Definition saturating_sub (a b : Z) : Z := Z.max 0 (a - b).

Definition pair_le (p q : string * string) : Prop := p.1 <> q.1 /\ str_le p.1 q.1 \/ p.1 = q.1 /\ str_le p.2 q.2.
#[export] Instance pair_le_dec : RelDecision pair_le.
Proof. unfold pair_le, str_le. solve_decision. Defined.

(** [Vec::dedup]. *)
Fixpoint dedup (l : list string) : list string :=
  match l with
  | x :: ((y :: _) as rest) => if same x y then dedup rest else x :: dedup rest
  | _ => l
  end.

Section Recovery.
Context `{CryptoPrims} `{ReedSolomon} {N : Type} `{PN : !PeerNet N}.
(** [identity.peer_id], [identity.data_key], the API port. *)
Variables (me : string) (data_key : bytes) (port : Z).
(** The order in which the tasks of a join set run. *)
Variable order : forall {A}, list A -> list A.

(** ** Backup *)

Definition ping (addr : string) (n : N) : N * bool :=
  let '(n, r) := ask addr (Ping me port) n in (n, match r with Ok (Pong _ _ _) => true | _ => false end).

Definition probe_peer (acc : N * list (string * string)) (p : string * string) : N * list (string * string) :=
  let '(n, out) := acc in
  let '(n, up) := ping p.2 n in
  (n, if up then out ++ [p] else out).
Definition reachable_peers (rows : list (string * string)) (n : N) : N * list (string * string) :=
  let '(n, out) := foldl probe_peer (n, []) (order (filter (fun p => p.1 <> me) rows)) in
  (n, merge_sort pair_le out).

Definition place (addr frag : string) (shard_index : Z) (data : bytes) (n : N) : N * bool :=
  let '(n, r) := ask_signed addr (StoreShard frag me shard_index data) n in (n, is_ack r).

(** One turn of the round robin: the network and the number of shards placed. *)
Definition place_one (version : Z) (peers : list (string * string)) (acc : N * Z) (e : nat * bytes) : N * Z :=
  let '(n, placed) := acc in
  match peers !! (e.1 mod length peers)%nat with
  | Some (_, addr) =>
      let '(n, ok) := place addr (manifest_backup_fragment_id me version e.1) (Z.of_nat e.1) e.2 n in
      (n, if ok then placed + 1 else placed)
  | None => (n, placed)
  end.
Definition place_all (version : Z) (peers : list (string * string)) (shards : list bytes) (n : N) : N * Z :=
  foldl (place_one version peers) (n, 0) (imap pair shards).

(** One deletion: the network and the number of acknowledgements. *)
Definition drop_one (version : Z) (acc : N * Z) (t : nat * string) : N * Z :=
  let '(n, acks) := acc in
  let '(n, r) := ask_signed t.2 (DeleteShard (manifest_backup_fragment_id me version t.1) me) n in
  (n, if is_ack r then acks + 1 else acks).
(** Every shard of a version at every address. *)
Definition tasks (addrs : list string) : list (nat * string) :=
  i ← seq 0 TOTAL_SHARDS; (fun a => (i, a)) <$> addrs.
Definition sweep_version (peers : list (string * string)) (acc : N * Z * Z) (v : Z) : N * Z * Z :=
  let '(n, swept, acks) := acc in
  let '(n, acks) := foldl (drop_one v) (n, acks) (order (tasks peers.*2)) in
  (n, swept + 1, acks).
(** [oldest..=newest]. *)
Definition versions (oldest newest : Z) : list Z :=
  (fun k => oldest + Z.of_nat k) <$> seq 0 (Z.to_nat (newest + 1 - oldest)).
Definition sweep_old_versions (peers : list (string * string)) (current : Z) (n : N) : N * Z * Z :=
  match checked_sub current KEEP_VERSIONS with
  | None => (n, 0, 0)
  | Some newest_stale =>
      foldl (sweep_version peers) (n, 0, 0) (versions (saturating_sub newest_stale SWEEP_DEPTH) newest_stale)
  end.

(** [snapshot] is what the vacuum of the manifest wrote and the code read back. *)
Definition run_backup (now_secs : Z) (rows : list (string * string)) (snapshot : res StoreError bytes)
    (log : list Event) (n : N) : N * list Event * ManifestBackupReport :=
  let version := manifest_backup_version_now now_secs in
  let empty skipped used := mkReport version skipped 0 0 0 used false 0 0 in
  if already_placed log version then (n, log, empty true 0)
  else
    let '(n, peers) := reachable_peers rows n in
    match peers with
    | [] => (n, log ++ [BackupFailed version "no reachable peer"], empty false 0)
    | _ =>
        match build_manifest_backup snapshot data_key me version with
        | Ok built =>
            let rep placed recoverable swept acks :=
              mkReport version false (bb_snapshot_len built) (bb_blob_len built) placed (len peers) recoverable swept acks in
            if MAX_PEER_SHARD_BYTES <? len (default [] (head (bb_shards built)))
            then (n, log ++ [BackupFailed version "snapshot too large for the shard size limit"], rep 0 false 0 0)
            else
              let '(n, placed) := place_all version peers (bb_shards built) n in
              if Z.of_nat DATA_SHARDS <=? placed
              then
                let log := log ++ [BackupPlaced version placed (len peers) (bb_snapshot_len built)] in
                let '(n, swept, acks) := sweep_old_versions peers version n in
                (n, log, rep placed true swept acks)
              else (n, log ++ [BackupShort version placed], rep placed false 0 0)
        | Err e => (n, log ++ [BackupFailed version "build"], empty false (len peers))
        | Panic => (n, log, empty false (len peers))
        end
    end.

(** ** Restore *)

Definition restore_peer_addresses (rows : list (string * string)) (extra : list string) : list string :=
  dedup (merge_sort str_le
    ((filter (fun p : string * string => p.1 <> me) rows).*2 ++ filter (fun a => a <> ""%string) (trim <$> extra))).

(** One probe; the first positive answer for a slot wins. *)
Definition probe_one (version : Z) (acc : N * list (option string)) (t : nat * string) : N * list (option string) :=
  let '(n, host) := acc in
  let '(n, r) := ask t.2 (HasShard (manifest_backup_fragment_id me version t.1)) n in
  (n, match r with
      | Ok (HasShardResult _ true) =>
          match host !! t.1 with Some None => <[t.1 := Some t.2]> host | _ => host end
      | _ => host
      end).
Definition located (host : list (option string)) : list (nat * string) :=
  omap id (imap (fun i a => pair i <$> a) host).
Definition probe_version (addrs : list string) (version : Z) (n : N) : N * list (nat * string) :=
  let '(n, host) := foldl (probe_one version) (n, replicate TOTAL_SHARDS None) (order (tasks addrs)) in
  (n, located host).

Definition fetch_one (version : Z) (acc : N * list ManifestBackupShard) (t : nat * string) : N * list ManifestBackupShard :=
  let '(n, got) := acc in
  let '(n, r) := ask t.2 (GetShard (manifest_backup_fragment_id me version t.1)) n in
  (n, match r with
      | Ok (ShardData _ data) =>
          match decode_manifest_backup_shard data with
          | Ok s => if sh_version s =? version then got ++ [s] else got
          | _ => got
          end
      | _ => got
      end).
Definition fetch_and_open (version : Z) (found : list (nat * string)) (n : N) : N * res P2pError (option (bytes * Z)) :=
  let '(n, got) := foldl (fetch_one version) (n, []) (order found) in
  (n,
   if (length got <? DATA_SHARDS)%nat then Ok None
   else
     match (blob ← reassemble_manifest_backup got; open_manifest_snapshot data_key me version blob) with
     | Ok snapshot => Ok (Some (snapshot, len got))
     | Err _ => Ok None
     | Panic => Panic
     end).

Definition candidates (today : Z) (version lookback_days : option Z) : list Z :=
  match version with
  | Some v => [v]
  | None =>
      let depth := Z.min (Z.max (default DEFAULT_LOOKBACK_DAYS lookback_days) 1) MAX_LOOKBACK_DAYS in
      omap (fun d => checked_sub today (Z.of_nat d)) (seq 0 (Z.to_nat depth + 1))
  end.

(** The first version that can be rebuilt: (version, snapshot, shards used, probed). *)
Fixpoint scan (addrs : list string) (vs : list Z) (probed : Z) (n : N) : N * res P2pError (option (Z * bytes * Z * Z)) :=
  match vs with
  | [] => (n, Ok None)
  | v :: vs =>
      let '(n, found) := probe_version addrs v n in
      if (length found <? DATA_SHARDS)%nat then scan addrs vs (probed + 1) n
      else
        match fetch_and_open v found n with
        | (n, Ok (Some (snapshot, used))) => (n, Ok (Some (v, snapshot, used, probed + 1)))
        | (n, Ok None) => scan addrs vs (probed + 1) n
        | (n, Err e) => (n, Err e)
        | (n, Panic) => (n, Panic)
        end
  end.

Definition bad_request {A} (r : res StoreError A) : res P2pError A :=
  match r with Ok a => Ok a | Err _ => Err (BadRequest "store") | Panic => Panic end.

(** [connected]: the manifest of the node as it opens. *)
Definition restore (umask now_secs : Z) (rows : list (string * string)) (extra : list string)
    (version lookback_days : option Z) (connected : res StoreError Db) (d : Disk) (log : list Event) (n : N)
    : N * Disk * list Event * res P2pError ManifestRestoreOutcome :=
  match bad_request (ensure_fresh_node connected) with
  | Ok _ =>
      match restore_peer_addresses rows extra with
      | [] => (n, d, log, Err (BadRequest "no known peer"))
      | addrs =>
          match scan addrs (candidates (manifest_backup_version_now now_secs) version lookback_days) 0 n with
          | (n, Ok (Some (v, snapshot, used, probed))) =>
              match bad_request (restore_manifest_db umask d connected snapshot) with
              | Ok d => (n, d, log ++ [ManifestRestored v (len snapshot) used], Ok (mkOutcome v (len snapshot) used (len addrs) probed))
              | Err e => (n, d, log, Err e)
              | Panic => (n, d, log, Panic)
              end
          | (n, Ok None) => (n, d, log, Err (BadRequest "no backup found"))
          | (n, Err e) => (n, d, log, Err e)
          | (n, Panic) => (n, d, log, Panic)
          end
      end
  | Err e => (n, d, log, Err e)
  | Panic => (n, d, log, Panic)
  end.
End Recovery.
