(* ===== verification/RecoveryProofs.v ===== *)
(** * What the automatic backup guarantees

    The proofs over [Recovery.v]: what a backup pass changes at the peers, that whatever a
    restore installs was sealed by this very node, and that the backup of a dead node comes
    back as soon as ten of its shards are still served. *)

From Stdlib Require Import ZArith Lia Strings.String Strings.Byte.
From stdpp Require Import base numbers list gmap strings sorting.
From S2P Require Import Prelude External Erasure RSCode Crypto Pipeline Paths Text Manifest ChunkStore Protocol Identity Backup.
From S2P Require Import ManifestBackup ReadPath Fleet Recovery.

(** ** Opening a blob *)

Lemma of_be_inj l : forall l', length l = length l' -> of_be l = of_be l' -> l = l'.
Proof.
  induction l as [|b l IH]; intros [|b' l'] Hlen; try done. cbn in Hlen. injection Hlen as Hlen.
  rewrite !of_be_cons. assert (E : len l = len l') by (unfold len; lia). rewrite E.
  pose proof (of_be_range l) as H1. pose proof (of_be_range l') as H2. rewrite E in H1. intros He.
  assert (b2z b = b2z b') as Eb by nia. f_equal; [by apply b2z_inj|]. apply IH; [done|nia].
Qed.

Lemma be_u64_inv b v : be_u64 b = Ok v -> b = be_bytes 8 v.
Proof.
  unfold be_u64. destruct (Z.eqb_spec (len b) 8) as [E|]; [|done]. intros [= <-]. apply of_be_inj.
  - rewrite length_be_bytes. unfold len in E. lia.
  - symmetry. apply of_be_small. pose proof (of_be_range b) as Hr. rewrite E in Hr. exact Hr.
Qed.

Lemma slice_inv {E A} a b (v x : list A) :
  slice (E:=E) a b v = Ok x -> 0 <= a <= b /\ b <= len v /\ x = take (Z.to_nat (b - a)) (drop (Z.to_nat a) v).
Proof.
  unfold slice. destruct (_ && _) eqn:C; [|done]. intros [= <-]. rewrite !andb_true_iff, !Z.leb_le in C.
  split; [lia|split; [lia|done]].
Qed.

Lemma drop_cut {A} n a (l : list A) : drop a l = take n (drop a l) ++ drop (a + n) l.
Proof. by rewrite <- drop_drop, take_drop. Qed.

(** The fields of the plaintext, by their offsets. *)
Lemma cut_header {A} (l : list A) :
  l = take 8 l ++ take 1 (drop 8 l) ++ take 8 (drop 9 l) ++ take 32 (drop 17 l) ++ take 8 (drop 49 l) ++ drop 57 l.
Proof.
  change (drop 57 l) with (drop (49 + 8) l). rewrite <- drop_cut. change (drop 49 l) with (drop (17 + 32) l).
  rewrite <- drop_cut. change (drop 17 l) with (drop (9 + 8) l). rewrite <- drop_cut.
  change (drop 9 l) with (drop (8 + 1) l). rewrite <- drop_cut. by rewrite take_drop.
Qed.

Section Opening.
Context `{CryptoPrims} `{!CryptoLaws}.

(** What opens was sealed: the blob is the seal of the snapshot it opens to. *)
Lemma open_snapshot_sealed key p v blob s :
  len (as_bytes p) = PEER_ID_LEN -> open_manifest_snapshot key p v blob = Ok s ->
  seal_manifest_snapshot key p v s = Ok blob.
Proof.
  intros Hp. unfold open_manifest_snapshot. intros Ho.
  apply bind_ok in Ho as (sealer & Hk & Ho). apply bind_ok in Ho as (plain & Hplain & Ho).
  destruct (Z.ltb_spec (len plain) MB_HEADER) as [|Hlen]; [done|].
  apply bind_ok in Ho as (magic & Hm & Ho). apply bind_ok in Ho as (format & Hf & Ho).
  destruct (_ || _) eqn:C; [done|]. apply orb_false_iff in C as [C1 C2].
  apply negb_false_iff, bool_decide_eq_true in C1. apply negb_false_iff, bool_decide_eq_true in C2.
  apply bind_ok in Ho as (vb & Hv & Ho). apply bind_ok in Ho as (sv & Hsv & Ho).
  destruct (Z.eqb_spec sv v) as [->|]; [|done]. cbn [negb] in Ho.
  apply bind_ok in Ho as (sp & Hsp & Ho). case_bool_decide as Epeer; [|done]. cbn [negb] in Ho.
  apply bind_ok in Ho as (lb & Hl & Ho). apply bind_ok in Ho as (l & Hl' & Ho). apply bind_ok in Ho as (body & Hb & Ho).
  destruct (Z.eqb_spec (len body) l) as [<-|]; [|done]. cbn [negb] in Ho. injection Ho as <-.
  assert (Hpl : plain = snapshot_plain p v body).
  { apply slice_inv in Hm as (_ & _ & Hm), Hv as (_ & _ & Hv), Hsp as (_ & _ & Hsp), Hl as (_ & _ & Hl), Hb as (_ & _ & Hb).
    apply be_u64_inv in Hsv, Hl'. unfold index in Hf. destruct (plain !! 8%nat) as [b|] eqn:E8; [|done]. injection Hf as ->.
    change MB_HEADER with 57 in *. change PEER_ID_LEN with 32 in *. change (17 + 32) with 49 in *.
    rewrite take_ge in Hb by (rewrite length_drop; unfold len; lia).
    assert (H1 : take 1 (drop 8 plain) = [z2b MB_FORMAT]) by (rewrite <- C2, (drop_S _ format 8 E8); done).
    unfold snapshot_plain. rewrite <- C1, <- H1, <- Hsv, <- Epeer, <- Hl', Hm, Hv, Hsp, Hl, Hb. clear.
    exact (cut_header plain). }
  unfold seal_manifest_snapshot. rewrite Hp, Z.eqb_refl. cbn [negb]. rewrite Hk. cbn [mbind res_bind].
  apply map_err_ok in Hplain. unfold open in Hplain. apply ok_or_ok, aead_open_authentic in Hplain. rewrite <- Hpl.
  unfold seal, seal_inner. change (MAX_CHUNK_INDEX <? 0) with false. cbn [mbind res_bind].
  by rewrite Hplain.
Qed.
End Opening.

(** Decoding an envelope fails with an error, never with a panic: the fetch reads no other case. *)
Lemma bind_no_panic {E A B} (m : res E A) (f : A -> res E B) : m <> Panic -> (forall a, m = Ok a -> f a <> Panic) -> (a ← m; f a) <> Panic.
Proof. destruct m; cbn; [|done|done]. intros _ Hf. by apply Hf. Qed.

Lemma decode_no_panic b : decode_manifest_backup_shard b <> Panic.
Proof.
  unfold decode_manifest_backup_shard. destruct (Z.ltb_spec (len b) MS_HEADER) as [|Hlen]; [done|].
  change MS_HEADER with 46 in *.
  assert (Hs : forall x y, 0 <= x <= y -> y <= len b -> slice (E:=StoreError) x y b <> Panic) by (intros x y ? ?; by rewrite slice_ok).
  assert (Hi : forall i, (i < 46)%nat -> index (E:=StoreError) b i <> Panic).
  { intros i Hi. unfold index. destruct (lookup_lt_is_Some_2 b i) as [x ->]; [unfold len in Hlen; lia|done]. }
  assert (H64 : forall x, be_u64 x <> Panic) by (intros x; unfold be_u64; by destruct (_ =? _)).
  assert (H32 : forall x, be_u32 x <> Panic) by (intros x; unfold be_u32; by destruct (_ =? _)).
  repeat first
    [ done
    | apply bind_no_panic; [first [apply Hs; lia|apply Hi; lia|apply H64|apply H32]|intros ? _]
    | match goal with |- (if ?c then _ else _) <> Panic => destruct c end ].
Qed.

(** ** What a pass changes at the peers *)

Section Frame.
Context {N : Type} `{HN : HonestNet N}.

(** Only the shards of [P] may have changed. *)
Definition only (P : string -> Prop) (n n' : N) : Prop := forall a f, P f \/ held n' a f = held n a f.

Lemma only_refl P n : only P n n.
Proof. by right. Qed.
Lemma only_trans P n1 n2 n3 : only P n1 n2 -> only P n2 n3 -> only P n1 n3.
Proof. intros H1 H2 a f. destruct (H1 a f) as [?|<-]; [by left|apply H2]. Qed.
Lemma only_weaken (P Q : string -> Prop) n n' : (forall f, P f -> Q f) -> only P n n' -> only Q n n'.
Proof. intros HPQ Ho a f. destruct (Ho a f); [left; by apply HPQ|by right]. Qed.
Lemma only_read P n a m : read_only m -> only P n (ask a m n).1.
Proof. intros Hro x f. right. by apply ask_keeps. Qed.
Lemma only_store P n a f o i b : P f -> only P n (ask_signed a (StoreShard f o i b) n).1.
Proof.
  intros HP x g. destruct (decide (g = f)) as [->|Hne]; [by left|right]. apply store_other. congruence.
Qed.
Lemma only_delete P n a f o : P f -> only P n (ask_signed a (DeleteShard f o) n).1.
Proof.
  intros HP x g. destruct (decide (g = f)) as [->|Hne]; [by left|right]. apply delete_other. congruence.
Qed.

(** A loop whose every turn changes only the shards of [P]. *)
Lemma only_foldl {A B} (pr : B -> N) (g : B -> A -> B) P l : forall acc,
  (forall acc x, x ∈ l -> only P (pr acc) (pr (g acc x))) -> only P (pr acc) (pr (foldl g acc l)).
Proof.
  induction l as [|x l IH]; intros acc Hg; cbn [foldl]; [apply only_refl|].
  eapply only_trans; [apply Hg; by left|]. apply IH. intros acc' y Hy. apply Hg. by right.
Qed.
End Frame.

(** ** Addresses *)

(** The keys of fragments: a version in its 64 bits and a slot. *)
Definition key_ok (k : Z * nat) : Prop := 0 <= k.1 < 2 ^ 64 /\ (k.2 < TOTAL_SHARDS)%nat.

Lemma ids_distinct `{CryptoPrims} (me : string) (keys : list (Z * nat)) :
  CryptoLaws -> len (as_bytes me) = PEER_ID_LEN -> Forall key_ok keys ->
  hash16_collision \/
  forall v i v' i', (v, i) ∈ keys -> (v', i') ∈ keys ->
    manifest_backup_fragment_id me v i = manifest_backup_fragment_id me v' i' -> v = v' /\ i = i'.
Proof.
  intros Laws Hme Hok. rewrite Forall_forall in Hok.
  destruct (decide (Forall (fun x => Forall (fun y =>
    manifest_backup_fragment_id me x.1 x.2 = manifest_backup_fragment_id me y.1 y.2 -> x = y) keys) keys)) as [Hd|Hn].
  - right. rewrite Forall_forall in Hd. intros v i v' i' Hx Hy E. specialize (Hd _ Hx). rewrite Forall_forall in Hd.
    specialize (Hd _ Hy E). by injection Hd.
  - left. apply not_Forall_Exists, Exists_exists in Hn as (x & Hx & Hn); [|apply _].
    apply not_Forall_Exists, Exists_exists in Hn as (y & Hy & Hn); [|apply _].
    destruct (decide (manifest_backup_fragment_id me x.1 x.2 = manifest_backup_fragment_id me y.1 y.2)) as [E|Hne']; [|by destruct Hn].
    assert (Hne : x <> y) by (intros ->; by apply Hn). destruct (Hok x Hx), (Hok y Hy).
    destruct (fragment_collides me x.1 x.2 me y.1 y.2 Laws eq_refl) as [E'|]; try done. destruct x, y; cbn in *. congruence.
Qed.

(** ** The backup pass *)

Section Pass.
Context {CP : CryptoPrims} `{ReedSolomon} {N : Type} {PN : PeerNet N} {HN : HonestNet N}.
Variables (me : string) (data_key : bytes) (port : Z).
Variable order : forall {A}, list A -> list A.
Hypothesis order_all : forall A (l : list A), order l ≡ₚ l.

Abbreviation fid v i := (manifest_backup_fragment_id me v i).

Lemma ping_only P a n : only P n (ping me port a n).1.
Proof. unfold ping. pose proof (only_read P n a (Ping me port) I) as Ho. by destruct (ask a _ n). Qed.

Lemma reachable_spec rows n :
  let r := reachable_peers me port (@order) rows n in
  (forall P, only P n r.1) /\ forall p, p ∈ r.2 -> p ∈ rows /\ p.1 <> me.
Proof.
  unfold reachable_peers. set (l := order (filter _ rows)). set (acc := (n, @nil (string * string))).
  assert (Hp : forall P, only P n (foldl (probe_peer me port) acc l).1).
  { intros P. apply (only_foldl fst (probe_peer me port) P l acc). intros [n1 out] x _. unfold probe_peer.
    pose proof (ping_only P x.2 n1) as Ho. by destruct (ping me port x.2 n1). }
  assert (Hin : forall p, p ∈ (foldl (probe_peer me port) acc l).2 -> p ∈ l).
  { subst acc. cut (forall out n1, (forall p, p ∈ out -> p ∈ l) -> forall l', (forall p, p ∈ l' -> p ∈ l) ->
      forall p, p ∈ (foldl (probe_peer me port) (n1, out) l').2 -> p ∈ l).
    { intros Hc. apply Hc; [intros p Hp0; by apply elem_of_nil in Hp0|done]. }
    intros out n1 Ho l'. revert out n1 Ho. induction l' as [|x l' IH]; intros out n1 Ho Hl; cbn [foldl]; [done|].
    unfold probe_peer at 2. destruct (ping me port x.2 n1) as [n2 up]. apply IH; [|intros p Hp0; apply Hl; by right].
    intros p. destruct up; [|apply Ho]. intros [Hp0| ->%list_elem_of_singleton]%elem_of_app; [by apply Ho|apply Hl; by left]. }
  destruct (foldl _ acc l) as [n' out]. cbn [fst snd] in *. split; [done|]. intros p.
  rewrite merge_sort_Permutation. intros Hp0%Hin. unfold l in Hp0. rewrite order_all in Hp0.
  by apply list_elem_of_filter in Hp0 as [? ?].
Qed.

Section Version.
Variable v : Z.
Hypothesis distinct : forall i j, (i < TOTAL_SHARDS)%nat -> (j < TOTAL_SHARDS)%nat -> fid v i = fid v j -> i = j.

(** What the placement of one shard does. *)
Lemma placed_shard peers n placed i d :
  let r := place_one me v peers (n, placed) (i, d) in
  only (fun f => f = fid v i) n r.1 /\
  (forall a, held r.1 a (fid v i) = held n a (fid v i) \/ held r.1 a (fid v i) = Some d) /\
  (r.2 = placed \/ r.2 = placed + 1 /\ exists p, p ∈ peers /\ held r.1 p.2 (fid v i) = Some d).
Proof.
  unfold place_one. cbn [fst snd]. destruct (peers !! (i mod length peers)%nat) as [[pid a]|] eqn:Ep.
  2: { split; [apply only_refl|split; [by left|by left]]. }
  unfold place. pose proof (only_store (fun f => f = fid v i) n a (fid v i) me (Z.of_nat i) d eq_refl) as Ho.
  pose proof (store_self a (fid v i) me (Z.of_nat i) d n) as Hs. pose proof (store_ack a (fid v i) me (Z.of_nat i) d n) as Ha.
  assert (Hx : forall x, x <> a -> held (ask_signed a (StoreShard (fid v i) me (Z.of_nat i) d) n).1 x (fid v i) = held n x (fid v i)).
  { intros x Hx. apply store_other. congruence. }
  destruct (ask_signed a _ n) as [n' r] eqn:E. cbn [fst snd] in *. split; [done|split].
  - intros x. destruct (decide (x = a)) as [->|Hne]; [done|left; by apply Hx].
  - unfold is_ack. destruct r as [[]| |]; try by left. right. split; [done|]. exists (pid, a).
    split; [by eapply list_elem_of_lookup_2|]. by eapply Ha.
Qed.

Lemma place_fold peers es : forall n placed,
  NoDup es.*1 -> (forall e, e ∈ es -> (e.1 < TOTAL_SHARDS)%nat) ->
  let r := foldl (place_one me v peers) (n, placed) es in
  only (fun f => exists i, i ∈ es.*1 /\ f = fid v i) n r.1 /\
  (forall a i, (i < TOTAL_SHARDS)%nat ->
     held r.1 a (fid v i) = held n a (fid v i) \/ exists d, (i, d) ∈ es /\ held r.1 a (fid v i) = Some d) /\
  exists slots, r.2 = placed + len slots /\ NoDup slots /\ (forall i, i ∈ slots -> i ∈ es.*1) /\
    forall i, i ∈ slots -> exists p d, (i, d) ∈ es /\ p ∈ peers /\ held r.1 p.2 (fid v i) = Some d.
Proof.
  induction es as [|[i d] es IH]; intros n placed Hnd Hlt; cbn [foldl].
  { split; [apply only_refl|split; [by left|]]. exists []. rewrite len_nil. split; [cbn; lia|split; [constructor|]].
    split; intros i Hi; by apply elem_of_nil in Hi. }
  apply NoDup_cons in Hnd as [Hni Hnd]. pose proof (Hlt (i, d) ltac:(by left)) as Hi. cbn in Hi.
  destruct (placed_shard peers n placed i d) as (Ho & Hself & Hcnt).
  destruct (place_one me v peers (n, placed) (i, d)) as [n1 placed1]. cbn [fst snd] in *.
  destruct (IH n1 placed1 Hnd) as (Ho2 & Hself2 & slots & Hc2 & Hsn & Hsi & Hsl); [intros e He; apply Hlt; by right|].
  set (r := foldl (place_one me v peers) (n1, placed1) es) in *.
  (* the later shards leave this one alone *)
  assert (Hkeep : forall a, held r.1 a (fid v i) = held n1 a (fid v i)).
  { intros a. destruct (Ho2 a (fid v i)) as [(j & Hj & E)|?]; [|done]. exfalso. apply Hni.
    apply list_elem_of_fmap in Hj as ([j' dj] & -> & Hje). rewrite (distinct i j' Hi (Hlt _ ltac:(by right)) E). 
    exact (list_elem_of_fmap_2 fst _ _ Hje). }
  split; [|split].
  - eapply only_trans; (eapply only_weaken; [|eassumption]).
    + intros f ->. exists i. split; [by left|done].
    + intros f (j & Hj & ->). exists j. split; [by right|done].
  - intros a j Hj. destruct (decide (j = i)) as [->|Hne].
    + rewrite Hkeep. destruct (Hself a) as [?|?]; [by left|right]. exists d. split; [by left|done].
    + destruct (Hself2 a j Hj) as [->|(dj & Hdj & ->)]; [|right; exists dj; split; [by right|done]].
      destruct (Ho a (fid v j)) as [E|?]; [|by left]. by destruct (Hne (distinct j i Hj Hi E)).
  - assert (Hrest : forall j, j ∈ slots -> exists p dj, (j, dj) ∈ (i, d) :: es /\ p ∈ peers /\ held r.1 p.2 (fid v j) = Some dj).
    { intros j Hj. destruct (Hsl j Hj) as (p & dj & ? & ? & ?). exists p, dj. split; [by right|done]. }
    destruct Hcnt as [->|[-> (p & Hp & Hh)]].
    + exists slots. split; [done|split; [done|split; [intros j Hj; right; by apply Hsi|exact Hrest]]].
    + exists (i :: slots). rewrite len_cons. split; [lia|split; [|split]].
      * constructor; [|done]. intros Hin. by apply Hni, Hsi.
      * intros j [->|Hj]%elem_of_cons; [by left|right; by apply Hsi].
      * intros j [->|Hj]%elem_of_cons; [|by apply Hrest]. exists p, d. split; [by left|split; [done|by rewrite Hkeep]].
Qed.
End Version.

Lemma drop_only w acks v t : only (fun f => f = fid v t.1) w (drop_one me v (w, acks) t).1.
Proof.
  unfold drop_one. pose proof (only_delete (fun f => f = fid v t.1) w t.2 (fid v t.1) me eq_refl) as Ho.
  by destruct (ask_signed t.2 _ w).
Qed.

Lemma tasks_spec addrs i a : (i, a) ∈ tasks addrs <-> (i < TOTAL_SHARDS)%nat /\ a ∈ addrs.
Proof.
  unfold tasks. rewrite list_elem_of_bind. split.
  - intros (j & (b & [= -> ->] & Hb)%list_elem_of_fmap & Hj%elem_of_seq). split; [lia|done].
  - intros [Hi Ha]. exists i. split; [by apply (list_elem_of_fmap_2 (fun a => (i, a)))|]. apply elem_of_seq. lia.
Qed.

Lemma versions_spec o m x : x ∈ versions o m <-> o <= x <= m.
Proof.
  unfold versions. rewrite list_elem_of_fmap. split.
  - intros (k & -> & Hk%elem_of_seq). lia.
  - intros Hx. exists (Z.to_nat (x - o)). split; [lia|]. apply elem_of_seq. lia.
Qed.

(** The pruning touches the versions that have aged out, and those only. *)
Definition aged (v : Z) (f : string) : Prop :=
  exists v' i, (i < TOTAL_SHARDS)%nat /\ 0 <= v' /\ v - (KEEP_VERSIONS + SWEEP_DEPTH) <= v' <= v - KEEP_VERSIONS /\ f = fid v' i.

Lemma sweep_only peers v n : 0 <= v -> only (aged v) n (sweep_old_versions me (@order) peers v n).1.1.
Proof.
  intros Hv. unfold sweep_old_versions, checked_sub. destruct (Z.leb_spec KEEP_VERSIONS v); [|apply only_refl].
  apply (only_foldl (fun acc : N * Z * Z => acc.1.1) (sweep_version me (@order) peers) (aged v) _ (n, 0, 0)).
  intros [[n1 swept] acks] v' Hv'%versions_spec. unfold saturating_sub in Hv'. unfold sweep_version. cbn [fst snd].
  assert (Ho : only (aged v) n1 (foldl (drop_one me v') (n1, acks) (order (tasks peers.*2))).1).
  { apply (only_foldl fst (drop_one me v') (aged v) _ (n1, acks)). intros [n2 a2] t Ht. rewrite order_all in Ht.
    destruct t as [i a]. apply tasks_spec in Ht as [Hi _].
    eapply only_weaken; [|apply drop_only]. intros f ->. exists v', i. cbn. split; [done|split; [lia|split; [lia|done]]]. }
  by destruct (foldl _ (n1, acks) _).
Qed.

(** The shards of a backup, numbered. *)
Lemma numbered_elem (shards : list bytes) i d : (i, d) ∈ imap pair shards <-> shards !! i = Some d.
Proof.
  rewrite list_elem_of_lookup. split.
  - intros (k & Hk). rewrite list_lookup_imap in Hk. destruct (shards !! k) eqn:E; [|done]. by injection Hk as <- <-.
  - intros Hi. exists i. by rewrite list_lookup_imap, Hi.
Qed.
Lemma numbered_keys (shards : list bytes) : (imap pair shards).*1 = seq 0 (length shards).
Proof.
  apply list_eq. intros i. rewrite list_lookup_fmap, list_lookup_imap. destruct (shards !! i) as [d|] eqn:E; cbn.
  - apply lookup_lt_Some in E. by rewrite lookup_seq_lt.
  - apply lookup_ge_None in E. by rewrite lookup_seq_ge.
Qed.

Lemma built_shards snapshot v bb :
  ReedSolomonLaws -> build_manifest_backup snapshot data_key me v = Ok bb -> length (bb_shards bb) = TOTAL_SHARDS.
Proof.
  intros RSL (x & _ & (blob & _ & (sh & Hs & Hb)%bind_ok)%bind_ok)%bind_ok.
  unfold encode_manifest_backup_shards in Hs. apply bind_ok in Hs as (sh' & He%map_err_ok & [= <-]).
  destruct (encode_ok blob) as (sh & He' & Hl & _). injection Hb as <-. cbn. rewrite length_imap.
  rewrite He in He'. by injection He' as ->.
Qed.

(** The two ways a pass ends. *)
Lemma run_backup_spec now rows snapshot log n n' log' rep :
  ReedSolomonLaws ->
  run_backup me data_key port (@order) now rows snapshot log n = (n', log', rep) ->
  let v := manifest_backup_version_now now in
  (rp_recoverable rep = false /\ (forall v' a b c, BackupPlaced v' a b c ∈ log' -> BackupPlaced v' a b c ∈ log) /\
   exists n1 peers shards, (forall P, only P n n1) /\ length shards = TOTAL_SHARDS /\
     (n' = n1 \/ n' = (place_all me v peers shards n1).1)) \/
  (rp_recoverable rep = true /\ exists bb peers n1 n2 placed,
     build_manifest_backup snapshot data_key me v = Ok bb /\ length (bb_shards bb) = TOTAL_SHARDS /\
     (forall P, only P n n1) /\ (forall p, p ∈ peers -> p ∈ rows /\ p.1 <> me) /\
     place_all me v peers (bb_shards bb) n1 = (n2, placed) /\ Z.of_nat DATA_SHARDS <= placed /\
     n' = (sweep_old_versions me (@order) peers v n2).1.1 /\
     log' = log ++ [BackupPlaced v placed (len peers) (bb_snapshot_len bb)]).
Proof.
  intros RSL Hrun v. unfold run_backup in Hrun. fold v in Hrun.
  assert (Hlog : forall e, (forall v' a b c, e <> BackupPlaced v' a b c) ->
    forall v' a b c, BackupPlaced v' a b c ∈ log ++ [e] -> BackupPlaced v' a b c ∈ log).
  { intros e He v' a b c [?|Hx%list_elem_of_singleton]%elem_of_app; [done|]. by destruct (He v' a b c). }
  assert (Hfew : exists shards : list bytes, length shards = TOTAL_SHARDS) by (exists (replicate TOTAL_SHARDS []); by rewrite length_replicate).
  destruct Hfew as (some & Hsome).
  destruct (already_placed log v).
  { injection Hrun as <- <- <-. left. split; [done|split; [done|]]. exists n, [], some. split; [intros P; apply only_refl|auto]. }
  pose proof (reachable_spec rows n) as Hr. cbv zeta in Hr. destruct (reachable_peers me port (@order) rows n) as [n1 peers].
  cbn [fst snd] in Hr. destruct Hr as [Ho Hin].
  assert (Hend : forall e rep0, (forall v' a b c, e <> BackupPlaced v' a b c) -> rp_recoverable rep0 = false ->
    (n1, log ++ [e], rep0) = (n', log', rep) -> rp_recoverable rep = false /\ (forall v' a b c, BackupPlaced v' a b c ∈ log' -> BackupPlaced v' a b c ∈ log) /\
      exists n1 peers shards, (forall P, only P n n1) /\ length shards = TOTAL_SHARDS /\ (n' = n1 \/ n' = (place_all me v peers shards n1).1)).
  { intros e rep0 He Hrep [= <- <- <-]. split; [done|split; [by apply Hlog|]]. exists n1, [], some. auto. }
  destruct peers as [|p0 peers0] eqn:Ep; [left; refine (Hend _ _ _ _ Hrun); done|]. rewrite <- Ep in *. clear Ep p0 peers0.
  destruct (build_manifest_backup snapshot data_key me v) as [bb|e|] eqn:Eb.
  2: { left. refine (Hend _ _ _ _ Hrun); done. }
  2: { injection Hrun as <- <- <-. left. split; [done|split; [done|]]. exists n1, [], some. auto. }
  pose proof (built_shards snapshot v bb RSL Eb) as Hlen.
  destruct (MAX_PEER_SHARD_BYTES <? _). { left. refine (Hend _ _ _ _ Hrun); done. }
  destruct (place_all me v peers (bb_shards bb) n1) as [n2 placed] eqn:Epl.
  destruct (Z.leb_spec (Z.of_nat DATA_SHARDS) placed) as [Hten|Hfew].
  - right. destruct (sweep_old_versions me (@order) peers v n2) as [[n3 swept] acks] eqn:Es.
    injection Hrun as <- <- <-. split; [done|]. exists bb, peers, n1, n2, placed. by rewrite Es.
  - left. injection Hrun as <- <- <-. split; [done|split; [by apply Hlog|]].
    exists n1, peers, (bb_shards bb). split; [done|split; [done|right]]. by rewrite Epl.
Qed.

(** The addresses a pass at [v] can name: its own version and the aged ones. *)
Definition pass_keys (v : Z) : list (Z * nat) :=
  filter (fun k => 0 <= k.1) (v' ← versions (v - (KEEP_VERSIONS + SWEEP_DEPTH)) v; pair v' <$> seq 0 TOTAL_SHARDS).
Lemma pass_keys_spec v v' i :
  (v', i) ∈ pass_keys v <-> 0 <= v' /\ v - (KEEP_VERSIONS + SWEEP_DEPTH) <= v' <= v /\ (i < TOTAL_SHARDS)%nat.
Proof.
  unfold pass_keys. rewrite list_elem_of_filter, list_elem_of_bind. cbn [fst]. split.
  - intros [Hp (w & (j & [= -> ->] & Hj%elem_of_seq)%list_elem_of_fmap & Hw%versions_spec)]. split; [done|split; [done|lia]].
  - intros (Hp & Hv & Hi). split; [done|]. exists v'. split; [|by apply versions_spec].
    apply (list_elem_of_fmap_2 (pair v')), elem_of_seq. split; [lia|exact Hi].
Qed.

Lemma pass_ids v : CryptoLaws -> len (as_bytes me) = PEER_ID_LEN -> 0 <= v < 2 ^ 64 ->
  hash16_collision \/
  ((forall i j, (i < TOTAL_SHARDS)%nat -> (j < TOTAL_SHARDS)%nat -> fid v i = fid v j -> i = j) /\
   forall i, (i < TOTAL_SHARDS)%nat -> ~ aged v (fid v i)).
Proof.
  intros Laws Hme Hv. destruct (ids_distinct me (pass_keys v) Laws Hme) as [?|Hd].
  { apply Forall_forall. intros [v' i] (Hp & Hr & Hi)%pass_keys_spec. unfold key_ok. cbn [fst snd]. split; [lia|exact Hi]. }
  { by left. }
  assert (Hk : forall i, (i < TOTAL_SHARDS)%nat -> (v, i) ∈ pass_keys v).
  { intros i Hi. apply pass_keys_spec. unfold KEEP_VERSIONS, SWEEP_DEPTH. split; [lia|split; [lia|exact Hi]]. }
  right. split.
  - intros i j Hi Hj E. by apply (Hd v i v j (Hk i Hi) (Hk j Hj)).
  - intros i Hi (v' & j & Hj & Hp & Hr & E). assert (Hk' : (v', j) ∈ pass_keys v).
    { apply pass_keys_spec. unfold KEEP_VERSIONS in *. split; [lia|split; [lia|exact Hj]]. }
    destruct (Hd v i v' j (Hk i Hi) Hk' E) as [-> _]. unfold KEEP_VERSIONS in Hr. lia.
Qed.

(** The numbered shards as the loop sees them. *)
Lemma place_all_spec v peers shards n :
  (forall i j, (i < TOTAL_SHARDS)%nat -> (j < TOTAL_SHARDS)%nat -> fid v i = fid v j -> i = j) ->
  length shards = TOTAL_SHARDS ->
  let r := place_all me v peers shards n in
  (forall a i, (i < TOTAL_SHARDS)%nat ->
     held r.1 a (fid v i) = held n a (fid v i) \/ exists d, shards !! i = Some d /\ held r.1 a (fid v i) = Some d) /\
  exists slots, r.2 = len slots /\ NoDup slots /\
    forall i, i ∈ slots -> (i < TOTAL_SHARDS)%nat /\
      exists p d, shards !! i = Some d /\ p ∈ peers /\ held r.1 p.2 (fid v i) = Some d.
Proof.
  intros Hd Hlen. assert (Hkeys : (imap pair shards).*1 = seq 0 TOTAL_SHARDS) by (by rewrite numbered_keys, Hlen).
  destruct (place_fold v Hd peers (imap pair shards) n 0) as (_ & H2 & slots & Hc & Hnd & Hin & Hsl).
  { rewrite Hkeys. apply NoDup_seq. }
  { intros [i d] He%numbered_elem%lookup_lt_Some. by rewrite <- Hlen. }
  split.
  - intros a i Hi. destruct (H2 a i Hi) as [?|(d & Hdi & ?)]; [by left|right]. exists d. by apply numbered_elem in Hdi.
  - exists slots. split; [exact Hc|split; [done|]]. intros i Hi. split.
    + specialize (Hin i Hi). rewrite Hkeys in Hin. apply elem_of_seq in Hin. lia.
    + destruct (Hsl i Hi) as (p & d & Hdi & ? & ?). exists p, d. by apply numbered_elem in Hdi.
Qed.

Lemma place_only v peers shards n : length shards = TOTAL_SHARDS ->
  only (fun f => exists i, (i < TOTAL_SHARDS)%nat /\ f = fid v i) n (place_all me v peers shards n).1.
Proof.
  intros Hlen. apply (only_foldl fst (place_one me v peers) _ _ (n, 0)). intros [n1 c] [i d] He%numbered_elem%lookup_lt_Some.
  rewrite Hlen in He. destruct (placed_shard v peers n1 c i d) as [Ho _]. eapply only_weaken; [|exact Ho].
  intros f ->. by exists i.
Qed.

Lemma version_range now : 0 <= now < 2 ^ 64 -> 0 <= manifest_backup_version_now now < 2 ^ 64.
Proof.
  intros Hnow. unfold manifest_backup_version_now, DAY_SECS. rewrite (proj2 (Z.ltb_ge _ _)) by lia.
  split; [apply Z.div_pos; lia|apply Z.div_lt_upper_bound; lia].
Qed.

End Pass.

(** ** Restore: whatever the peers answer *)

Lemma install_manifest umask d connected snapshot :
  ensure_fresh_node connected = Ok () ->
  exists d', restore_manifest_db umask d connected snapshot = Ok d' /\ file_bytes d' MANIFEST_DB = Some snapshot /\
    forall name, name <> MANIFEST_DB -> name <> RESTORE_TMP -> disk_files d' !! name = disk_files d !! name.
Proof.
  intros Hf. unfold restore_manifest_db, run_steps, write_atomic. rewrite Hf. cbn [mbind res_bind foldM].
  unfold fs_write. cbn [mbind res_bind]. unfold fs_rename. cbn [disk_files set_disk_files]. rewrite lookup_insert_eq.
  cbn [ok_or mbind res_bind]. eexists. split; [reflexivity|]. unfold file_bytes. cbn [disk_files set_disk_files].
  split; [by rewrite lookup_insert_eq|]. intros name H1 H2. by rewrite lookup_insert_ne, lookup_delete_ne, lookup_insert_ne by congruence.
Qed.

Section Authentic.
Context {CP : CryptoPrims} `{ReedSolomon} {N : Type} {PN : PeerNet N}.
Variables (me : string) (data_key : bytes).
Variable order : forall {A}, list A -> list A.

Lemma fetch_opens v found n n' s used :
  fetch_and_open me data_key (@order) v found n = (n', Ok (Some (s, used))) ->
  exists blob, open_manifest_snapshot data_key me v blob = Ok s.
Proof.
  unfold fetch_and_open. destruct (foldl _ _ _) as [n1 got]. destruct (_ <? _)%nat; [done|].
  destruct (reassemble_manifest_backup got) as [blob|e|]; cbn [mbind res_bind]; [|done..].
  destruct (open_manifest_snapshot data_key me v blob) as [s'|e|] eqn:E; [|done..]. intros [= _ -> _]. by exists blob.
Qed.

Lemma scan_opens addrs vs : forall probed n n' v s used probed',
  scan me data_key (@order) addrs vs probed n = (n', Ok (Some (v, s, used, probed'))) ->
  v ∈ vs /\ exists blob, open_manifest_snapshot data_key me v blob = Ok s.
Proof.
  induction vs as [|w vs IH]; intros probed n n' v s used probed'; cbn [scan]; [done|].
  destruct (probe_version me (@order) addrs w n) as [n1 found].
  assert (Hrest : forall n2, scan me data_key (@order) addrs vs (probed + 1) n2 = (n', Ok (Some (v, s, used, probed'))) ->
    v ∈ w :: vs /\ exists blob, open_manifest_snapshot data_key me v blob = Ok s).
  { intros n2 [Hv ?]%IH. split; [by right|done]. }
  destruct (_ <? _)%nat; [apply Hrest|].
  destruct (fetch_and_open me data_key (@order) w found n1) as [n2 [[[s0 used0]|]|e|]] eqn:Ef; try done; [|apply Hrest].
  intros [= _ <- <- _ _]. split; [by left|]. by eapply fetch_opens.
Qed.

Lemma candidates_range today version lookback v :
  v ∈ candidates today version lookback ->
  version = Some v \/ version = None /\ 0 <= v <= today /\ today - v <= MAX_LOOKBACK_DAYS.
Proof.
  unfold candidates. destruct version as [w|]; [intros ->%list_elem_of_singleton; by left|]. right. split; [done|].
  apply list_elem_of_omap in H0 as (k & Hk%elem_of_seq & Hv). unfold checked_sub in Hv. unfold MAX_LOOKBACK_DAYS in *.
  destruct (Z.leb_spec (Z.of_nat k) today); [|done]. injection Hv as <-. lia.
Qed.

End Authentic.

(** ** Restore: peers that go on serving *)

Section Recover.
Context {CP : CryptoPrims} `{ReedSolomon} {N : Type} {PN : PeerNet N} {SN : ServingNet N}.
Variables (me : string) (data_key : bytes).
Variable order : forall {A}, list A -> list A.
Hypothesis order_all : forall A (l : list A), order l ≡ₚ l.

Abbreviation fid v i := (manifest_backup_fragment_id me v i).

(** Reading changed neither what is served nor what is lacking. *)
Definition settled (n n' : N) : Prop :=
  (forall a f b, serves n a f b -> serves n' a f b) /\ (forall a f, lacks n a f -> lacks n' a f).
Lemma settled_refl n : settled n n.
Proof. done. Qed.
Lemma settled_trans n1 n2 n3 : settled n1 n2 -> settled n2 n3 -> settled n1 n3.
Proof. intros [A1 A2] [B1 B2]. split; auto. Qed.
Lemma settled_ask n a m : read_only m -> settled n (ask a m n).1.
Proof. intros Hro. split; intros; [by apply serves_keeps|by apply lacks_keeps]. Qed.
Lemma serves_not_lacks n a f b : serves n a f b -> lacks n a f -> False.
Proof. intros (g & Hg)%serves_has Hl. by apply (lacks_has n a f Hl g). Qed.

(** A peer at [a] serves a shard of version [v], or claims none. *)
Definition truthful (n : N) (v : Z) (i : nat) (a : string) : Prop := lacks n a (fid v i) \/ exists b, serves n a (fid v i) b.
Lemma truthful_settled n n' v i a : settled n n' -> truthful n v i a -> truthful n' v i a.
Proof. intros [A B] [?|[b ?]]; [left; auto|right; eauto]. Qed.

Lemma probe_one_spec v n host i a :
  (i < length host)%nat -> truthful n v i a ->
  let r := probe_one me v (n, host) (i, a) in
  settled n r.1 /\ length r.2 = length host /\
  (forall j x, r.2 !! j = Some (Some x) -> host !! j = Some (Some x) \/ (j = i /\ x = a /\ exists b, serves n a (fid v i) b)) /\
  (forall j x, host !! j = Some (Some x) -> r.2 !! j = Some (Some x)) /\
  ((exists b, serves n a (fid v i) b) -> exists x, r.2 !! i = Some (Some x)).
Proof.
  intros Hi Ht. unfold probe_one. cbn [fst snd]. pose proof (settled_ask n a (HasShard (fid v i)) I) as Hs.
  assert (Hcase : (exists g b, (ask a (HasShard (fid v i)) n).2 = Ok (HasShardResult g true) /\ serves n a (fid v i) b) \/
    (forall g, (ask a (HasShard (fid v i)) n).2 <> Ok (HasShardResult g true)) /\ ~ exists b, serves n a (fid v i) b).
  { destruct Ht as [Hl|[b Hb]].
    - right. split; [by apply lacks_has|]. intros [b Hb]. by eapply serves_not_lacks.
    - left. destruct (serves_has _ _ _ _ Hb) as (g & Hg). by exists g, b. }
  destruct (ask a _ n) as [n' r]. cbn [fst snd] in *. split; [done|]. destruct Hcase as [(g & b & -> & Hb)|[Hno Hnb]].
  - destruct (lookup_lt_is_Some_2 host i Hi) as [[x0|] Hx].
    + rewrite Hx. split; [done|split; [by left|split; [done|intros _; by exists x0]]].
    + rewrite Hx. rewrite length_insert. split; [done|split; [|split]].
      * intros j x. destruct (decide (j = i)) as [->|Hne]; [|rewrite list_lookup_insert_ne by done; by left].
        rewrite list_lookup_insert_eq by done. intros [= <-]. right. eauto.
      * intros j x Hj. rewrite list_lookup_insert_ne; [done|]. intros <-. congruence.
      * intros _. exists a. by rewrite list_lookup_insert_eq.
  - assert (E : match r with Ok (HasShardResult _ true) => match host !! i with Some None => <[i:=Some a]> host | _ => host end | _ => host end = host).
    { destruct r as [[]| |]; try done. destruct present; [|done]. by destruct (Hno fragment_id). }
    rewrite E. split; [done|split; [by left|split; [done|done]]].
Qed.

Lemma probe_fold v ts : forall n host,
  length host = TOTAL_SHARDS -> (forall i a, (i, a) ∈ ts -> (i < TOTAL_SHARDS)%nat /\ truthful n v i a) ->
  let r := foldl (probe_one me v) (n, host) ts in
  settled n r.1 /\
  (forall i a, r.2 !! i = Some (Some a) -> host !! i = Some (Some a) \/ ((i, a) ∈ ts /\ exists b, serves n a (fid v i) b)) /\
  (forall i a, host !! i = Some (Some a) -> r.2 !! i = Some (Some a)) /\
  (forall i a b, (i, a) ∈ ts -> serves n a (fid v i) b -> exists x, r.2 !! i = Some (Some x)).
Proof.
  induction ts as [|[i a] ts IH]; intros n host Hl Hts; cbn [foldl].
  { split; [apply settled_refl|split; [by left|split; [done|]]]. intros i a b Hin. by apply elem_of_nil in Hin. }
  destruct (Hts i a ltac:(by left)) as [Hi Ht].
  destruct (probe_one_spec v n host i a ltac:(lia) Ht) as (Hs & Hl1 & Hnew & Hold & Hgot).
  destruct (probe_one me v (n, host) (i, a)) as [n1 host1]. cbn [fst snd] in *.
  destruct (IH n1 host1) as (Is & Inew & Iold & Igot); [congruence| |].
  { intros j x Hin. destruct (Hts j x ltac:(by right)) as [? Hj]. split; [done|]. by eapply truthful_settled. }
  split; [by eapply settled_trans|split; [|split]].
  - intros j x Hj. destruct (Inew j x Hj) as [Hj1|[Hin [b Hb]]].
    + destruct (Hnew j x Hj1) as [?|(-> & -> & Hb)]; [by left|right]. split; [by left|done].
    + right. split; [by right|]. destruct (Hts j x ltac:(by right)) as [_ [Hlk|Hsv]]; [|done].
      exfalso. eapply serves_not_lacks; [exact Hb|]. by apply Hs.
  - intros j x Hj. by apply Iold, Hold.
  - intros j x b [[= -> ->]|Hin]%elem_of_cons Hb.
    + destruct (Hgot ltac:(by exists b)) as [y Hy]. exists y. by apply Iold.
    + eapply Igot; [exact Hin|]. by apply Hs.
Qed.

Lemma located_spec host i a : (i, a) ∈ located host <-> host !! i = Some (Some a).
Proof.
  unfold located. rewrite list_elem_of_omap. split.
  - intros (o & Ho & E). apply list_elem_of_lookup in Ho as (k & Hk). rewrite list_lookup_imap in Hk.
    destruct (host !! k) as [[x|]|] eqn:Eh; cbn in Hk; [|injection Hk as <-; done|done].
    injection Hk as <-. cbn in E. injection E as <- <-. done.
  - intros Hi. exists (Some (i, a)). split; [|done]. apply list_elem_of_lookup. exists i. by rewrite list_lookup_imap, Hi.
Qed.
Lemma located_keys host : NoDup (located host).*1.
Proof.
  unfold located. cut (forall k, NoDup (omap id (imap (fun i a => pair (k + i)%nat <$> a) host)).*1 /\
    forall j, j ∈ (omap id (imap (fun i a => pair (k + i)%nat <$> a) host)).*1 -> (k <= j)%nat).
  { intros Hc. apply (Hc 0%nat). }
  induction host as [|o host IH]; intros k; [split; [constructor|intros j Hj; by apply elem_of_nil in Hj]|].
  rewrite imap_cons. assert (E : imap ((fun i a => pair (k + i)%nat <$> a) ∘ S) host = imap (fun i (a : option string) => pair (S k + i)%nat <$> a) host).
  { apply imap_ext. intros i x _. cbn. by rewrite Nat.add_succ_r. }
  rewrite E. destruct (IH (S k)) as [Hnd Hge]. destruct o as [a|]; cbn.
  - rewrite Nat.add_0_r. split.
    + constructor; [|done]. intros Hin%Hge. lia.
    + intros j [->|Hj%Hge]%elem_of_cons; lia.
  - split; [done|]. intros j Hj%Hge. lia.
Qed.

(** Probing a version at truthful peers finds a server for every shard that has one. *)
Lemma probe_spec addrs v n :
  (forall i a, (i < TOTAL_SHARDS)%nat -> a ∈ addrs -> truthful n v i a) ->
  let r := probe_version me (@order) addrs v n in
  settled n r.1 /\ NoDup r.2.*1 /\
  (forall i a, (i, a) ∈ r.2 -> (i < TOTAL_SHARDS)%nat /\ a ∈ addrs /\ exists b, serves n a (fid v i) b) /\
  (forall i a b, (i < TOTAL_SHARDS)%nat -> a ∈ addrs -> serves n a (fid v i) b -> i ∈ r.2.*1).
Proof.
  intros Ht. unfold probe_version. set (ts := order (tasks addrs)).
  assert (Hts : forall i a, (i, a) ∈ ts <-> (i < TOTAL_SHARDS)%nat /\ a ∈ addrs) by (intros i a; unfold ts; by rewrite order_all, tasks_spec).
  destruct (probe_fold v ts n (replicate TOTAL_SHARDS None)) as (Hs & Hnew & _ & Hgot);
    [by rewrite length_replicate|intros i a [Hi Ha]%Hts; split; [done|by apply Ht]|].
  destruct (foldl _ _ ts) as [n' host]. cbn [fst snd] in *. split; [done|split; [apply located_keys|split]].
  - intros i a [Hr|[Hin Hb]]%located_spec%Hnew; [by apply lookup_replicate in Hr as [? _]|]. apply Hts in Hin as [? ?]. done.
  - intros i a b Hi Ha Hb. destruct (Hgot i a b) as [x Hx]; [by apply Hts|done|].
    apply (list_elem_of_fmap_2 fst _ (i, x)). by apply located_spec.
Qed.

Lemma fetch_fold v dec ts : forall n got,
  (forall i a, (i, a) ∈ ts -> exists d, serves n a (fid v i) d /\ decode_manifest_backup_shard d = Ok (dec i) /\ sh_version (dec i) = v) ->
  let r := foldl (fetch_one me v) (n, got) ts in settled n r.1 /\ r.2 = got ++ (dec <$> ts.*1).
Proof.
  induction ts as [|[i a] ts IH]; intros n got Hts; cbn [foldl]; [split; [apply settled_refl|by rewrite app_nil_r]|].
  destruct (Hts i a ltac:(by left)) as (d & Hd & Hdec & Hver). unfold fetch_one at 2 4. cbn [fst snd].
  pose proof (settled_ask n a (GetShard (fid v i)) I) as Hs. destruct (serves_get _ _ _ _ Hd) as (g & Hg).
  destruct (ask a _ n) as [n1 r]. cbn [fst snd] in *. rewrite Hg, Hdec, Hver, Z.eqb_refl.
  destruct (IH n1 (got ++ [dec i])) as [Is ->].
  { intros j x Hin. destruct (Hts j x ltac:(by right)) as (d' & ? & ?). exists d'. split; [by apply Hs|done]. }
  split; [by eapply settled_trans|]. by rewrite <- app_assoc.
Qed.

Lemma size_distinct (l : list nat) : NoDup l -> base.size (list_to_set l : gset nat) = length l.
Proof. apply size_list_to_set. Qed.

(** A version of which ten shards are served is fetched and opened. *)
Lemma fetch_recovers v bb blob dec found n s :
  (forall i d, bb_shards bb !! i = Some d -> decode_manifest_backup_shard d = Ok (dec i) /\ sh_version (dec i) = v) ->
  (forall l, Forall (fun i => i < TOTAL_SHARDS)%nat l -> (DATA_SHARDS <= base.size (list_to_set l : gset nat))%nat ->
     reassemble_manifest_backup (dec <$> l) = Ok blob) ->
  open_manifest_snapshot data_key me v blob = Ok s ->
  NoDup found.*1 -> (DATA_SHARDS <= length found)%nat ->
  (forall i a, (i, a) ∈ found -> (i < TOTAL_SHARDS)%nat /\ exists d, bb_shards bb !! i = Some d /\ serves n a (fid v i) d) ->
  exists n', fetch_and_open me data_key (@order) v found n = (n', Ok (Some (s, len found))).
Proof.
  intros Hdec Hre Hopen Hnd Hten Hf. unfold fetch_and_open. pose proof (order_all _ found) as Hp.
  destruct (fetch_fold v dec (order found) n []) as (_ & Hgot).
  { intros i a. rewrite Hp. intros Hin. destruct (Hf i a Hin) as (_ & d & Hd & Hs). exists d.
    destruct (Hdec i d Hd). done. }
  destruct (foldl _ _ _) as [n' got]. cbn [fst snd app] in *. exists n'. f_equal.
  assert (Hlen : length got = length found) by (rewrite Hgot, !length_fmap; by rewrite Hp).
  rewrite Hlen, (proj2 (Nat.ltb_ge _ _)) by done. rewrite Hgot, Hre.
  - cbn [mbind res_bind]. rewrite Hopen. do 3 f_equal. unfold len. rewrite !length_fmap. by rewrite Hp.
  - apply Forall_fmap, Forall_forall. intros [i a]. rewrite Hp. intros Hin. by destruct (Hf i a Hin).
  - rewrite size_distinct; [by rewrite length_fmap, Hp|]. by rewrite Hp.
Qed.

(** Versions nobody claims are passed over. *)
Lemma scan_skips addrs vs vs' : forall probed n,
  (forall v i a, v ∈ vs -> (i < TOTAL_SHARDS)%nat -> a ∈ addrs -> lacks n a (fid v i)) ->
  exists n', settled n n' /\
    scan me data_key (@order) addrs (vs ++ vs') probed n = scan me data_key (@order) addrs vs' (probed + len vs) n'.
Proof.
  induction vs as [|v vs IH]; intros probed n Hl.
  { exists n. split; [apply settled_refl|]. by rewrite len_nil, Z.add_0_r. }
  cbn [app scan]. destruct (probe_spec addrs v n) as (Hs & _ & Hin & _).
  { intros i a Hi Ha. left. apply Hl; [by left|done..]. }
  destruct (probe_version me (@order) addrs v n) as [n1 found]. cbn [fst snd] in *.
  assert (found = []) as ->.
  { destruct found as [|[i a] found]; [done|]. destruct (Hin i a ltac:(by left)) as (Hi & Ha & b & Hb).
    exfalso. eapply serves_not_lacks; [exact Hb|]. apply Hl; [by left|done..]. }
  cbn [length]. change (0 <? DATA_SHARDS)%nat with true. cbn iota.
  destruct (IH (probed + 1) n1) as (n2 & Hs2 & ->).
  { intros w i a Hw Hi Ha. apply Hs, Hl; [by right|done..]. }
  exists n2. split; [by eapply settled_trans|]. f_equal. rewrite len_cons. lia.
Qed.

(** The candidates before a version are the newer ones. *)
Lemma candidates_split today lookback v :
  0 <= v <= today -> today - v <= Z.min (Z.max (default DEFAULT_LOOKBACK_DAYS lookback) 1) MAX_LOOKBACK_DAYS ->
  exists newer older, candidates today None lookback = newer ++ v :: older /\ forall w, w ∈ newer -> v < w <= today.
Proof.
  intros Hv Hd. unfold candidates. set (depth := Z.min _ _) in *.
  assert (E : seq 0 (Z.to_nat depth + 1) = seq 0 (Z.to_nat (today - v)) ++ Z.to_nat (today - v) ::
    seq (S (Z.to_nat (today - v))) (Z.to_nat depth - Z.to_nat (today - v))).
  { rewrite cons_seq. change (Z.to_nat (today - v)) with (0 + Z.to_nat (today - v))%nat at 2. rewrite <- seq_app. f_equal. lia. }
  rewrite E, omap_app. cbn [omap list_omap]. unfold checked_sub at 2.
  rewrite (proj2 (Z.leb_le _ _)) by lia. replace (today - Z.of_nat (Z.to_nat (today - v))) with v by lia.
  eexists _, _. split; [reflexivity|]. intros w (k & Hk%elem_of_seq & Hw)%list_elem_of_omap. unfold checked_sub in Hw.
  destruct (Z.leb_spec (Z.of_nat k) today); [|done]. injection Hw as <-. lia.
Qed.
End Recover.

Section Disaster.
Context {CP : CryptoPrims} {RS : ReedSolomon} {N : Type} {PN : PeerNet N} {HN : HonestNet N} {SN : ServingNet N}.
Variables (me : string) (data_key : bytes) (port : Z).
Variable order : forall {A}, list A -> list A.
Hypothesis order_all : forall A (l : list A), order l ≡ₚ l.

Abbreviation fid v i := (manifest_backup_fragment_id me v i).

(** After a recoverable pass, what the peers hold for its version is the backup. *)
Lemma held_backup now rows snapshot log n0 n1 log1 rep (addrs : list string) bb :
  CryptoLaws -> ReedSolomonLaws -> len (as_bytes me) = PEER_ID_LEN -> 0 <= manifest_backup_version_now now < 2 ^ 64 ->
  run_backup me data_key port (@order) now rows snapshot log n0 = (n1, log1, rep) -> rp_recoverable rep = true ->
  build_manifest_backup snapshot data_key me (manifest_backup_version_now now) = Ok bb ->
  (forall a i, a ∈ addrs -> (i < TOTAL_SHARDS)%nat -> held n0 a (fid (manifest_backup_version_now now) i) = None) ->
  hash16_collision \/ forall a i b, a ∈ addrs -> (i < TOTAL_SHARDS)%nat ->
    held n1 a (fid (manifest_backup_version_now now) i) = Some b -> bb_shards bb !! i = Some b.
Proof.
  intros Laws RSL Hme Hv Hrun Hrec Hbb Hno. set (v := manifest_backup_version_now now) in *.
  destruct (pass_ids me v Laws Hme Hv) as [?|[Hd Hold]]; [by left|right].
  destruct (run_backup_spec me data_key port (@order) order_all now rows snapshot log n0 n1 log1 rep RSL Hrun)
    as [(Hf & _)|(_ & bb' & peers & m1 & m2 & placed & Hb & Hlen & Ho & _ & Hpl & _ & -> & _)]; [congruence|].
  change (manifest_backup_version_now now) with v in Hb, Hpl. assert (bb' = bb) as -> by congruence.
  destruct (place_all_spec me v peers (bb_shards bb) m1 Hd Hlen) as (Hp & _). rewrite Hpl in Hp. cbn [fst] in Hp.
  intros a i b Ha Hi. destruct (sweep_only me (@order) order_all peers v m2 (proj1 Hv) a (fid v i)) as [Hag|Hsame];
    [by destruct (Hold i Hi)|]. change (manifest_backup_version_now now) with v. rewrite Hsame.
  destruct (Hp a i Hi) as [->|(d & Hdi & ->)]; [|intros [= <-]; done].
  destruct (Ho (fun _ => False) a (fid v i)) as [?| ->]; [done|]. by rewrite (Hno a i Ha Hi).
Qed.

End Disaster.
