(* ===== verification/RecoveryWitness.v ===== *)
(** * A node backed up, lost and restored

    Four hosts behind their listeners, a node that backs its manifest up, the loss of the node
    and of one host, the restore on an empty disk the next day: the theorems of
    [RecoveryProofs.v] applied to this run. *)

From Stdlib Require Import ZArith Lia Strings.Ascii Strings.String Strings.Byte.
From stdpp Require Import base numbers list gmap strings sorting.
From S2P Require Import Prelude External Erasure RSCode Crypto Pipeline Paths Text Manifest ChunkStore Protocol Server Client Host.
From S2P Require Import Identity Backup ManifestBackup ReadPath Fleet HostNet Recovery RecoveryProofs.
Import Toy ToyWire.

Module RescueRun.
Definition me : string := "0123456789abcdef0123456789abcdef".
Definition key : bytes := zeros 32.
Definition host_of (id : string) : Host :=
  mkHost id 3119 None false ∅ ∅ {[ me := None ]} (Some (1048576, 0)).
Definition net0 : Hosts := mkHosts _ _
  (list_to_map [("a1"%string, host_of "p1"); ("a2"%string, host_of "p2"); ("a3"%string, host_of "p3");
                ("a4"%string, host_of "p4")]) ("", new_session, 0%nat).
#[export] Instance net : PeerNet Hosts := host_net "ip" (fun _ => None) None me 1 None.
#[export] Instance net_honest : HonestNet Hosts := hosts_honest "ip" (fun _ => None) None me 1 None.
#[export] Instance net_serving : ServingNet Hosts := hosts_serving "ip" (fun _ => None) None me 1 None.

Definition as_is {A} (l : list A) : list A := l.
Lemma in_turn_all A (l : list A) : as_is l ≡ₚ l.
Proof. reflexivity. Qed.

Definition rows : list (string * string) := [("p1", "a1"); ("p2", "a2"); ("p3", "a3"); ("p4", "a4"); (me, "a0")]%string.
Definition snapshot : bytes := as_bytes "vacuumed manifest".
Definition monday : Z := 20000 * 86400 + 5.
Definition tuesday : Z := 20001 * 86400.

Definition pass := run_backup me key 1 (@as_is) monday rows (Ok snapshot) [] net0.
(** The run is evaluated once; what follows reads its value. *)
Definition passed := Eval vm_compute in pass.
Lemma pass_is : pass = passed.
Proof. vm_cast_no_check (eq_refl passed). Qed.
Definition net1 : Hosts := passed.1.1.
Lemma pass_eq : run_backup me key 1 (@as_is) monday rows (Ok snapshot) [] net0 = (net1, passed.1.2, passed.2).
Proof. change (pass = (passed.1.1, passed.1.2, passed.2)). rewrite pass_is. reflexivity. Qed.

(** The node dies with its tables, and so does the fourth host. *)
Definition net2 : Hosts := mkHosts _ _ (base.delete "a4"%string (hosts net1)) ("", new_session, 0%nat).
Definition empty_disk : Disk := mkDisk ∅ None.
Definition no_files : res StoreError Db := Ok (mkDb [] [] [] []).
Definition typed : list string := [" a1"; "a2 "; "a3"; "a4"; "a1"]%string.
Definition addrs : list string := restore_peer_addresses me [] typed.

Abbreviation fid v i := (manifest_backup_fragment_id me v i).

(** What is at an address is what another state has there, under a row of the host; or
    nothing. *)
Definition ok_at (n1 n2 : Hosts) (a f : string) : bool :=
  match hosts n2 !! a with
  | None => true
  | Some h =>
      match read (Host.store h) f, held_by n1 a f with
      | Ok b, Some b' => bool_decide (b = b') && bool_decide (is_Some (hosted_shards h !! f))
      | _, _ => negb (exists_ (Host.store h) f)
      end
  end.
Lemma ok_at_spec n1 n2 a f : ok_at n1 n2 a f = true ->
  lacks n2 a f \/ exists b, held n1 a f = Some b /\ serves n2 a f b.
Proof.
  unfold ok_at, lacks, serves, net_serving, hosts_serving. cbn [held net_honest hosts_honest].
  destruct (hosts n2 !! a) as [h|]; [|by left].
  destruct (read (Host.store h) f) as [b| |] eqn:Er; [|intros Hx%negb_true_iff; by left..].
  destruct (held_by n1 a f) as [b'|]; [|intros Hx%negb_true_iff; by left].
  intros Hx. apply andb_true_iff in Hx as [Hb Hrow]. apply bool_decide_eq_true in Hb, Hrow. subst b'.
  right. exists b. split; [reflexivity|]. by exists h.
Qed.
(** Nothing at an address. *)
Definition lacks_at (n : Hosts) (a f : string) : bool :=
  match hosts n !! a with None => true | Some h => negb (exists_ (Host.store h) f) end.
Lemma lacks_at_spec n a f : lacks_at n a f = true -> lacks n a f.
Proof.
  unfold lacks_at, lacks, net_serving, hosts_serving. destruct (hosts n !! a); [|done]. by intros Hx%negb_true_iff.
Qed.
(** Something at an address. *)
Definition served_at (n : Hosts) (a f : string) : bool :=
  match hosts n !! a with
  | Some h => bool_decide (is_Some (hosted_shards h !! f)) && match read (Host.store h) f with Ok _ => true | _ => false end
  | None => false
  end.
Lemma served_at_spec n a f : served_at n a f = true -> exists b, serves n a f b.
Proof.
  unfold served_at, serves, net_serving, hosts_serving. destruct (hosts n !! a) as [h|]; [|done]. intros Hx.
  apply andb_true_iff in Hx as [Hrow Hr]. apply bool_decide_eq_true in Hrow.
  destruct (read (Host.store h) f) as [b| |] eqn:Er; try done. exists b. by exists h.
Qed.

Lemma all_pairs (f : string -> nat -> bool) :
  forallb (fun a => forallb (f a) (seq 0 TOTAL_SHARDS)) addrs = true ->
  forall a i, a ∈ addrs -> (i < TOTAL_SHARDS)%nat -> f a i = true.
Proof.
  rewrite forallb_forall. intros Hf a i Ha Hi. specialize (Hf a (proj1 (list_elem_of_In _ _) Ha)).
  rewrite forallb_forall in Hf. apply Hf, list_elem_of_In, elem_of_seq. lia.
Qed.

Lemma served_now a i : a ∈ addrs -> (i < TOTAL_SHARDS)%nat ->
  lacks net2 a (fid 20000 i) \/ exists b, held net1 a (fid 20000 i) = Some b /\ serves net2 a (fid 20000 i) b.
Proof.
  intros Ha Hi. apply ok_at_spec. revert a i Ha Hi.
  apply (all_pairs (fun a i => ok_at net1 net2 a (fid 20000 i))). vm_compute. reflexivity.
Qed.

Lemma nothing_before a i : a ∈ addrs -> (i < TOTAL_SHARDS)%nat -> held net0 a (fid 20000 i) = None.
Proof.
  intros Ha Hi. assert (Hx : is_none (held_by net0 a (fid 20000 i)) = true).
  { revert a i Ha Hi. apply (all_pairs (fun a i => is_none (held_by net0 a (fid 20000 i)))). vm_compute. reflexivity. }
  change (held_by net0 a (fid 20000 i) = None). destruct (held_by net0 a (fid 20000 i)); [discriminate Hx|reflexivity].
Qed.

Lemma nothing_newer a i : a ∈ addrs -> (i < TOTAL_SHARDS)%nat -> lacks net2 a (fid 20001 i).
Proof.
  intros Ha Hi. apply lacks_at_spec. revert a i Ha Hi.
  apply (all_pairs (fun a i => lacks_at net2 a (fid 20001 i))). vm_compute. reflexivity.
Qed.

(** The slots the fourth host did not get. *)
Definition slots : list nat := filter (fun i => (i mod 4)%nat <> 3%nat) (seq 0 TOTAL_SHARDS).
Definition holder (i : nat) : string := nth (i mod 4) ["a1"; "a2"; "a3"]%string "a4"%string.
Lemma slots_served i : i ∈ slots -> (i < TOTAL_SHARDS)%nat /\ exists a b, a ∈ addrs /\ serves net2 a (fid 20000 i) b.
Proof.
  intros Hi. assert (Hs : (i <? TOTAL_SHARDS)%nat && bool_decide (holder i ∈ addrs) && served_at net2 (holder i) (fid 20000 i) = true).
  { assert (Hall : forallb (fun i => (i <? TOTAL_SHARDS)%nat && bool_decide (holder i ∈ addrs) && served_at net2 (holder i) (fid 20000 i)) slots = true)
      by (vm_compute; reflexivity). rewrite forallb_forall in Hall. apply Hall, list_elem_of_In, Hi. }
  apply andb_true_iff in Hs as [Hs Hserved]. apply andb_true_iff in Hs as [Hlt Ha]. apply Nat.ltb_lt in Hlt.
  apply bool_decide_eq_true in Ha. destruct (served_at_spec _ _ _ Hserved) as [b Hb].
  split; [exact Hlt|]. exists (holder i), b. split; [exact Ha|exact Hb].
Qed.

Lemma tomorrow_only w a i :
  manifest_backup_version_now monday < w <= manifest_backup_version_now tuesday ->
  a ∈ addrs -> (i < TOTAL_SHARDS)%nat -> lacks net2 a (fid w i).
Proof.
  assert (H1 : manifest_backup_version_now monday = 20000) by reflexivity.
  assert (H2 : manifest_backup_version_now tuesday = 20001) by reflexivity. rewrite H1, H2.
  intros Hw. assert (w = 20001) as -> by lia. apply nothing_newer.
Qed.


(** The restore of the empty node, and the same on a node that holds a file. *)
Definition rescue := restore me key (@as_is) 18 tuesday [] typed None None no_files empty_disk [] net2.
Lemma rescue_eq :
  restore me key (@as_is) 18 tuesday [] typed None None no_files empty_disk [] net2 = (rescue.1.1.1, rescue.1.1.2, rescue.1.2, rescue.2).
Proof. unfold rescue. by destruct (restore _ _ _ _ _ _ _ _ _ _ _ _ _) as [[[? ?] ?] ?]. Qed.

End RescueRun.
