(* ===== verification/Jobs.v ===== *)
(** * The job queue ([crates/server/src/jobs.rs])

    The rows of [p2pnas.jobs], one definition per statement; several workers sharing the table,
    each a program counter between its statements, so that claims race the way the code lets
    them; and the job that asks the peers to drop the shards of deleted files, with its bounded
    retries. Times are seconds, a statement succeeds; what the other passes do to the node is in
    their own files. *)

From Stdlib Require Import ZArith Lia Strings.String Strings.Byte.
From stdpp Require Import base numbers list gmap strings relations.
From S2P Require Import Prelude External Erasure Crypto Protocol ChunkStore Manifest Fleet.

Definition GC_MAX_ATTEMPTS : Z := 5.
Definition GC_RETRY_BASE_SECS : Z := 300.
Definition COALESCED_KINDS : list string := ["repair"; "retention"; "gc_trash"; "manifest_backup"]%string.
Definition STALE_RUNNING_HOURS : Z := 1.
Definition RETAIN_DAYS : Z := 30.

(** The parts of a JSON payload a job reads: [shards] when it is a list of pairs, [attempt] when
    it is an unsigned integer. *)
Record Payload := mkPayload { p_shards : option (list (string * string)); p_attempt : option Z }.
Definition no_payload : Payload := mkPayload None None.

Inductive JobState := Pending | Running | Done | Failed.
#[export] Instance JobState_eq : EqDecision JobState.
Proof. solve_decision. Defined.

Record Job := mkJob {
  kind : string;
  payload : Payload;
  state : JobState;
  attempts : Z;
  run_after : Z;
  created_at : Z
}.
(** The table, its sequence, and the creation times of the events. *)
Record Queue := mkQueue { jobs : gmap Z Job; next_id : Z; events : list Z }.

Definition is_state (s : JobState) (j : Job) : bool := bool_decide (state j = s).
Definition set_state (s : JobState) (j : Job) : Job :=
  mkJob (kind j) (payload j) s (attempts j) (run_after j) (created_at j).

(** ** The statements *)

Definition insert_job (q : Queue) (now : Z) (k : string) (p : Payload) (after : Z) : Queue :=
  mkQueue (<[next_id q := mkJob k p Pending 0 after now]> (jobs q)) (next_id q + 1) (events q).

Definition waiting (q : Queue) (k : string) : bool :=
  existsb (fun p : Z * Job => same (kind p.2) k && is_state Pending p.2) (map_to_list (jobs q)).

Definition enqueue (q : Queue) (now : Z) (k : string) (p : Payload) : Queue :=
  if bool_decide (k ∈ COALESCED_KINDS) && waiting q k then q else insert_job q now k p now.

Definition enqueue_after (q : Queue) (now : Z) (k : string) (p : Payload) (delay : Z) : Queue :=
  insert_job q now k p (now + delay).

Definition runnable (now : Z) (j : Job) : bool := is_state Pending j && (run_after j <=? now).
Definition lowest (l : list Z) : option Z :=
  foldr (fun i best => Some (match best with Some b => Z.min i b | None => i end)) None l.
(** [ORDER BY id LIMIT 1]. *)
Definition candidate (q : Queue) (now : Z) : option Z :=
  lowest (filter (fun p => runnable now p.2 = true) (map_to_list (jobs q))).*1.

(** The conditional update, and whether it took one row. *)
Definition claim_update (q : Queue) (id : Z) : Queue * bool :=
  match jobs q !! id with
  | Some j =>
      if is_state Pending j
      then (mkQueue (<[id := mkJob (kind j) (payload j) Running (attempts j + 1) (run_after j) (created_at j)]> (jobs q))
              (next_id q) (events q), true)
      else (q, false)
  | None => (q, false)
  end.

Definition finish (q : Queue) (id : Z) (ok : bool) : Queue :=
  mkQueue (alter (set_state (if ok then Done else Failed)) id (jobs q)) (next_id q) (events q).

Definition requeue (now : Z) (j : Job) : Job :=
  if is_state Running j && (created_at j <? now - STALE_RUNNING_HOURS * 3600)
  then mkJob (kind j) (payload j) Pending (attempts j) now (created_at j) else j.
Definition requeue_stale_jobs (q : Queue) (now : Z) : Queue :=
  mkQueue (requeue now <$> jobs q) (next_id q) (events q).

Definition finished (j : Job) : bool := is_state Done j || is_state Failed j.
Definition purge_old_rows (q : Queue) (now : Z) : Queue :=
  let cutoff := now - RETAIN_DAYS * 86400 in
  mkQueue (filter (fun p => (finished p.2 && (created_at p.2 <? cutoff)) = false) (jobs q)) (next_id q)
    (filter (fun at_ => (at_ <? cutoff) = false) (events q)).

(** ** The worker *)

(** The passes a kind runs, in order, and what it reports. *)
Inductive Pass := RepairAll | RebalanceAll | GcRemote (p : Payload) | RetentionSweep | RunBackup | PurgeRetired | RepackAll | CompactPacks.
Definition dispatch (k : string) (p : Payload) : list Pass * bool :=
  if same k "repair" then ([RepairAll], true)
  else if same k "rebalance_locality" then ([RepairAll; RebalanceAll], true)
  else if same k "gc_remote" then ([GcRemote p], true)
  else if same k "retention" then ([RetentionSweep], true)
  else if same k "manifest_backup" then ([RunBackup], true)
  else if same k "gc_trash" then ([PurgeRetired], true)
  else if same k "repack_small" then ([RepackAll], true)
  else if same k "compact_packs" then ([CompactPacks], true)
  else ([], false).

(** Where a worker is between two statements. *)
Inductive Turn :=
| Idle
| Selected (id : Z)
| Won (id : Z)
| Executing (id : Z) (k : string) (p : Payload)
| Finishing (id : Z) (ok : bool).

Record Cluster := mkCluster { queue : Queue; clock : Z; workers : gmap nat Turn }.
Definition turn (c : Cluster) (w : nat) : Turn := default Idle (workers c !! w).
Definition set_turn (c : Cluster) (q : Queue) (w : nat) (t : Turn) : Cluster :=
  mkCluster q (clock c) (<[w := t]> (workers c)).

(** One statement of one worker, one call of another task, time that passes, a crash. *)
Inductive Label :=
| Tick (secs : Z)
| Enqueue (k : string) (p : Payload)
| EnqueueAfter (k : string) (p : Payload) (delay : Z)
| Select (w : nat)
| Update (w : nat)
| Reselect (w : nat)
| Complete (w : nat)
| Finish (w : nat)
| Requeue (w : nat)
| Purge (w : nat)
| Crash (w : nat).

Definition cluster_step (c : Cluster) (l : Label) : option Cluster :=
  let q := queue c in
  match l with
  | Tick secs => if 0 <=? secs then Some (mkCluster q (clock c + secs) (workers c)) else None
  | Enqueue k p => Some (mkCluster (enqueue q (clock c) k p) (clock c) (workers c))
  | EnqueueAfter k p d => Some (mkCluster (enqueue_after q (clock c) k p d) (clock c) (workers c))
  | Select w =>
      match turn c w with
      | Idle => Some (set_turn c q w (match candidate q (clock c) with Some id => Selected id | None => Idle end))
      | _ => None
      end
  | Update w =>
      match turn c w with
      | Selected id => let '(q, ok) := claim_update q id in Some (set_turn c q w (if ok then Won id else Idle))
      | _ => None
      end
  | Reselect w =>
      match turn c w with
      | Won id => Some (set_turn c q w (match jobs q !! id with Some j => Executing id (kind j) (payload j) | None => Idle end))
      | _ => None
      end
  | Complete w =>
      match turn c w with
      | Executing id k p => Some (set_turn c q w (Finishing id (dispatch k p).2))
      | _ => None
      end
  | Finish w =>
      match turn c w with
      | Finishing id ok => Some (set_turn c (finish q id ok) w Idle)
      | _ => None
      end
  | Requeue w => match turn c w with Idle => Some (set_turn c (requeue_stale_jobs q (clock c)) w Idle) | _ => None end
  | Purge w => match turn c w with Idle => Some (set_turn c (purge_old_rows q (clock c)) w Idle) | _ => None end
  | Crash w => Some (set_turn c q w Idle)
  end.

Fixpoint run_cluster (c : Cluster) (ls : list Label) : option Cluster :=
  match ls with
  | [] => Some c
  | l :: ls => c' ← cluster_step c l; run_cluster c' ls
  end.

Definition fresh_cluster (now : Z) : Cluster := mkCluster (mkQueue ∅ 1 []) now ∅.

(** The job a worker runs. *)
Definition holds (t : Turn) (id : Z) : bool :=
  match t with Won i | Executing i _ _ | Finishing i _ => i =? id | _ => false end.

(** ** Deleting the remote shards of a deleted file *)

Section Gc.
Context {N : Type} `{PN : !PeerNet N}.
(** [identity.peer_id] and the addresses of [p2pnas.peers], read anew on every run. *)
Variable me : string.

Definition gc_shard (peers : gmap string string) (acc : N * list (string * string)) (s : string * string)
    : N * list (string * string) :=
  let '(n, failed) := acc in
  match peers !! s.2 with
  | None => (n, failed)
  | Some addr =>
      let '(n, reply) := ask_signed addr (DeleteShard s.1 me) n in
      (n, if is_ack reply then failed else failed ++ [s])
  end.

(** The run, and the job it leaves behind: its payload and its delay. *)
Definition gc_next (peers : gmap string string) (n : N) (p : Payload) : N * option (Payload * Z) :=
  let shards := default [] (p_shards p) in
  let attempt := default 0 (p_attempt p) in
  match shards with
  | [] => (n, None)
  | _ =>
      let '(n, failed) := foldl (gc_shard peers) (n, []) shards in
      match failed with
      | [] => (n, None)
      | _ =>
          if attempt + 1 <? GC_MAX_ATTEMPTS
          then (n, Some (mkPayload (Some failed) (Some (attempt + 1)), GC_RETRY_BASE_SECS * (attempt + 1)))
          else (n, None)
      end
  end.

Definition run_gc_remote (peers : gmap string string) (now : Z) (n : N) (q : Queue) (p : Payload) : N * Queue :=
  let '(n, again) := gc_next peers n p in
  (n, match again with Some (p', delay) => enqueue_after q now "gc_remote" p' delay | None => q end).

(** The retries a job leaves behind, with their delays. Between two runs the peers, and what
    the node knows of them, may change in any way: each run has its own table and network. *)
Fixpoint gc_retries (runs : list (gmap string string * N)) (p : Payload) : list (Payload * Z) :=
  match runs with
  | [] => []
  | (peers, n) :: runs =>
      match (gc_next peers n p).2 with
      | Some (p', delay) => (p', delay) :: gc_retries runs p'
      | None => []
      end
  end.

(** The answer to the deletion of [s] when the run gets to it, after the shards before it. *)
Definition refused_in (run : gmap string string * N) (before : list (string * string)) (s : string * string) : bool :=
  match run.1 !! s.2 with
  | None => false
  | Some addr => negb (is_ack (ask_signed addr (DeleteShard s.1 me) (foldl (gc_shard run.1) (run.2, []) before).1).2)
  end.

(** The shards of a run that stay to be deleted. *)
Fixpoint remaining (run : gmap string string * N) (before shards : list (string * string)) : list (string * string) :=
  match shards with
  | [] => []
  | s :: rest =>
      (if refused_in run before s then [s] else []) ++ remaining run (before ++ [s]) rest
  end.

Lemma gc_net peers shards : forall n f f',
  (foldl (gc_shard peers) (n, f) shards).1 = (foldl (gc_shard peers) (n, f') shards).1.
Proof.
  induction shards as [|s shards IH]; intros n f f'; cbn [foldl]; [done|]. unfold gc_shard at 2 4.
  destruct (peers !! s.2); [|apply IH]. destruct (ask_signed _ _ n) as [n' r]. apply IH.
Qed.

Lemma gc_failed peers n shards : forall before f,
  (foldl (gc_shard peers) ((foldl (gc_shard peers) (n, []) before).1, f) shards).2 = f ++ remaining (peers, n) before shards.
Proof.
  induction shards as [|s shards IH]; intros before f; cbn [foldl remaining]; [by rewrite app_nil_r|].
  assert (Hb : (gc_shard peers ((foldl (gc_shard peers) (n, []) before).1, f) s) =
    ((foldl (gc_shard peers) (n, []) (before ++ [s])).1, f ++ if refused_in (peers, n) before s then [s] else [])).
  { rewrite foldl_app. cbn [foldl]. unfold refused_in. cbn [fst snd].
    destruct (foldl (gc_shard peers) (n, []) before) as [n1 f1]. cbn [fst]. unfold gc_shard.
    destruct (peers !! s.2); [|by rewrite app_nil_r]. destruct (ask_signed _ _ n1) as [n2 r]. cbn [fst snd].
    destruct (is_ack r); cbn; [by rewrite app_nil_r|done]. }
  rewrite Hb, IH. by rewrite <- app_assoc.
Qed.

(** What one run leaves to the next: the shards refused in it, or nothing. *)
Lemma gc_next_spec peers n p shards a :
  default [] (p_shards p) = shards -> default 0 (p_attempt p) = a ->
  (gc_next peers n p).2 =
    match remaining (peers, n) [] shards with
    | [] => None
    | left_ => if a + 1 <? GC_MAX_ATTEMPTS
               then Some (mkPayload (Some left_) (Some (a + 1)), GC_RETRY_BASE_SECS * (a + 1)) else None
    end.
Proof.
  intros Hs Ha. unfold gc_next. rewrite Hs, Ha. destruct shards as [|s shards]; [done|].
  pose proof (gc_failed peers n (s :: shards) [] []) as Hf.
  change (foldl (gc_shard peers) (n, []) []) with (n, @nil (string * string)) in Hf. cbn [fst app] in Hf.
  destruct (foldl (gc_shard peers) (n, []) (s :: shards)) as [n' failed]. cbn [snd] in Hf. subst failed.
  destruct (remaining _ [] (s :: shards)); [done|]. by destruct (a + 1 <? GC_MAX_ATTEMPTS).
Qed.

(** The shards refused in every one of the runs, each run asking for what the last one left. *)
Definition left_after (runs : list (gmap string string * N)) (shards : list (string * string)) : list (string * string) :=
  foldl (fun l run => remaining run [] l) shards runs.

Lemma left_after_nil runs : left_after runs [] = [].
Proof. unfold left_after. by induction runs. Qed.

Lemma gc_retries_lookup runs : forall p shards a k,
  default [] (p_shards p) = shards -> default 0 (p_attempt p) = a ->
  gc_retries runs p !! k =
    (let l := left_after (take (S k) runs) shards in let i := a + Z.of_nat (S k) in
     if bool_decide (k < length runs)%nat && bool_decide (l <> []) && (i <? GC_MAX_ATTEMPTS)
     then Some (mkPayload (Some l) (Some i), GC_RETRY_BASE_SECS * i) else None).
Proof.
  induction runs as [|[peers n] runs IH]; intros p shards a k Hs Ha; [done|]. cbn [gc_retries take length]. cbv zeta.
  rewrite (gc_next_spec peers n p shards a Hs Ha). unfold left_after. cbn [foldl].
  set (l1 := remaining (peers, n) [] shards). fold (left_after (take k runs) l1).
  destruct l1 as [|s l1].
  - rewrite left_after_nil. rewrite (bool_decide_eq_false_2 ([] <> [])) by (intros H; by apply H). by rewrite andb_false_r.
  - destruct (Z.ltb_spec (a + 1) GC_MAX_ATTEMPTS) as [Hlt|Hge].
    + destruct k as [|k]; cbn [lookup list_lookup].
      * cbn [take]. unfold left_after. cbn [foldl]. rewrite !bool_decide_true by (done || lia). cbn [andb].
        change (Z.of_nat 1) with 1. by rewrite (proj2 (Z.ltb_lt _ _) Hlt).
      * rewrite (IH _ (s :: l1) (a + 1)) by done. cbv zeta.
        replace (a + 1 + Z.of_nat (S k)) with (a + Z.of_nat (S (S k))) by lia.
        rewrite (bool_decide_ext (S k < S (length runs))%nat (k < length runs)%nat) by lia. done.
    + rewrite (proj2 (Z.ltb_ge _ _)) by lia. by rewrite andb_false_r.
Qed.

(** Deleting the remote shards of a file ends: whatever the peers answer, and however they and
    the peer table change between the runs, a job leaves at most four retries; the k-th exists
    exactly when some shard is still to be deleted, carries exactly the shards whose known
    peer has not acknowledged in any run so far, in their order, and waits k times five
    minutes. *)
Theorem gc_remote_ends runs p shards :
  p_shards p = Some shards -> p_attempt p = None ->
  (length (gc_retries runs p) <= 4)%nat /\
  forall k, gc_retries runs p !! k =
    (let l := left_after (take (S k) runs) shards in
     if bool_decide (k < length runs)%nat && bool_decide (l <> []) && bool_decide (k < 4)%nat
     then Some (mkPayload (Some l) (Some (Z.of_nat (S k))), 300 * Z.of_nat (S k)) else None).
Proof.
  intros Hs Ha. assert (Hk : forall k, gc_retries runs p !! k =
    (let l := left_after (take (S k) runs) shards in
     if bool_decide (k < length runs)%nat && bool_decide (l <> []) && bool_decide (k < 4)%nat
     then Some (mkPayload (Some l) (Some (Z.of_nat (S k))), 300 * Z.of_nat (S k)) else None)).
  { intros k. rewrite (gc_retries_lookup runs p shards 0 k) by (by rewrite ?Hs, ?Ha). cbv zeta. rewrite !Z.add_0_l.
    unfold GC_MAX_ATTEMPTS. destruct (Z.ltb_spec (Z.of_nat (S k)) 5);
      [rewrite (bool_decide_true (k < 4)%nat) by lia|rewrite (bool_decide_false (k < 4)%nat) by lia]; done. }
  split; [|exact Hk]. apply lookup_ge_None. rewrite Hk. cbv zeta. by rewrite andb_false_r.
Qed.
End Gc.

(** ** What the statements do to the rows *)

Lemma insert_lookup q now k p after id j :
  jobs (insert_job q now k p after) !! id = Some j ->
  (id = next_id q /\ j = mkJob k p Pending 0 after now) \/ (id <> next_id q /\ jobs q !! id = Some j).
Proof. cbn. intros [[<- <-]|[Hne Hl]]%lookup_insert_Some; [by left|right; split; [congruence|done]]. Qed.

Lemma requeue_lookup q now id :
  jobs (requeue_stale_jobs q now) !! id = requeue now <$> jobs q !! id.
Proof. apply lookup_fmap. Qed.

Lemma purge_lookup q now id j :
  jobs (purge_old_rows q now) !! id = Some j <->
  jobs q !! id = Some j /\ (finished j && (created_at j <? now - RETAIN_DAYS * 86400)) = false.
Proof. cbn. by rewrite map_lookup_filter_Some. Qed.

Lemma finish_lookup q id ok i :
  jobs (finish q id ok) !! i =
    (if decide (i = id) then set_state (if ok then Done else Failed) <$> jobs q !! i else jobs q !! i).
Proof. cbn. case_decide as E; [by rewrite E, lookup_alter_eq|by rewrite lookup_alter_ne]. Qed.

Lemma claim_spec q id q' ok :
  claim_update q id = (q', ok) ->
  if ok then exists j, jobs q !! id = Some j /\ state j = Pending /\ next_id q' = next_id q /\
               jobs q' = <[id := mkJob (kind j) (payload j) Running (attempts j + 1) (run_after j) (created_at j)]> (jobs q)
  else q' = q.
Proof.
  unfold claim_update, is_state. destruct (jobs q !! id) as [j|] eqn:E; [|by intros [= <- <-]].
  case_bool_decide; intros [= <- <-]; [|done]. by exists j.
Qed.

Lemma lowest_spec l i : lowest l = Some i -> i ∈ l /\ forall j, j ∈ l -> i <= j.
Proof.
  revert i. induction l as [|x l IH]; intros i; [done|]. cbn [lowest foldr]. fold (lowest l). intros [= <-].
  destruct (lowest l) as [b|] eqn:E.
  - destruct (IH b eq_refl) as [Hb Hmin]. split.
    + destruct (Z.min_spec x b) as [[_ ->]|[_ ->]]; [by left|by right].
    + intros j [->|Hj]%elem_of_cons; [lia|]. specialize (Hmin j Hj). lia.
  - destruct l; [|done]. split; [by left|]. intros j [->|Hj]%elem_of_cons; [done|by apply elem_of_nil in Hj].
Qed.

(** A worker picks the lowest pending row that is due, and finds none only if there is none. *)
Lemma candidate_spec q now :
  match candidate q now with
  | Some id => (exists j, jobs q !! id = Some j /\ runnable now j = true) /\
      forall id' j', jobs q !! id' = Some j' -> runnable now j' = true -> id <= id'
  | None => forall id' j', jobs q !! id' = Some j' -> runnable now j' = false
  end.
Proof.
  unfold candidate. assert (Hin : forall id j, jobs q !! id = Some j -> runnable now j = true ->
    id ∈ (filter (fun p => runnable now p.2 = true) (map_to_list (jobs q))).*1).
  { intros id j Hl Hr. apply (list_elem_of_fmap_2 fst _ (id, j)), list_elem_of_filter. split; [done|]. by apply elem_of_map_to_list. }
  destruct (lowest _) as [id|] eqn:E.
  - apply lowest_spec in E as [Hid Hmin]. split; [|intros id' j' Hl Hr; eauto].
    apply list_elem_of_fmap in Hid as ([i j] & -> & [Hr Hl%elem_of_map_to_list]%list_elem_of_filter). by exists j.
  - intros id' j' Hl. destruct (runnable now j') eqn:Hr; [|done]. specialize (Hin id' j' Hl Hr).
    destruct (filter _ _).*1 as [|x l]; [by apply elem_of_nil in Hin|done].
Qed.

(** ** Claims *)

(** A row younger than the staleness window. *)
Definition young (c : Cluster) (j : Job) : Prop := clock c <= created_at j + STALE_RUNNING_HOURS * 3600.

Record cluster_inv (c : Cluster) : Prop := {
  ci_ids id j : jobs (queue c) !! id = Some j -> id < next_id (queue c);
  ci_held w id : holds (turn c w) id = true -> id < next_id (queue c);
  ci_one w id j : holds (turn c w) id = true -> jobs (queue c) !! id = Some j -> young c j ->
    state j = Running /\ forall w', holds (turn c w') id = true -> w' = w
}.

Lemma turn_set c q w t w' : turn (set_turn c q w t) w' = if decide (w' = w) then t else turn c w'.
Proof. unfold turn, set_turn. cbn. case_decide as E; [by rewrite E, lookup_insert_eq|by rewrite lookup_insert_ne]. Qed.

Lemma holds_inj t i i' : holds t i = true -> holds t i' = true -> i = i'.
Proof. destruct t; cbn; try done; by intros ->%Z.eqb_eq ->%Z.eqb_eq. Qed.

(** Steps that take no row over: whoever holds a row held it before, and a young row that
    somebody holds was there and running before. *)
Lemma inv_release c c' :
  cluster_inv c ->
  (forall w id, holds (turn c' w) id = true -> holds (turn c w) id = true) ->
  next_id (queue c) <= next_id (queue c') ->
  (forall id j, jobs (queue c') !! id = Some j -> id < next_id (queue c')) ->
  (forall w id j, holds (turn c' w) id = true -> jobs (queue c') !! id = Some j -> young c' j ->
     exists j0, jobs (queue c) !! id = Some j0 /\ young c j0 /\ (state j0 = Running -> state j = Running)) ->
  cluster_inv c'.
Proof.
  intros [H1 H2 H3] Hh Hn Hi Hj. split; [done| |].
  - intros w id Hw. specialize (H2 w id (Hh w id Hw)). lia.
  - intros w id j Hw Hl Hy. destruct (Hj w id j Hw Hl Hy) as (j0 & Hl0 & Hy0 & Hs).
    destruct (H3 w id j0 (Hh w id Hw) Hl0 Hy0) as [Hr Hu]. split; [by apply Hs|]. intros w' Hw'. by apply Hu, Hh.
Qed.

(** A turn that changes nothing but where the worker is. *)
Lemma inv_turn c w t : cluster_inv c -> (forall id, holds t id = true -> holds (turn c w) id = true) -> cluster_inv (set_turn c (queue c) w t).
Proof.
  intros Hi Ht. apply (inv_release c); [done| |done|apply Hi|].
  - intros w' id. rewrite turn_set. case_decide as E; [subst; apply Ht|done].
  - intros w' id j _ Hl Hy. by exists j.
Qed.

Lemma inv_insert c k p after : cluster_inv c -> cluster_inv (mkCluster (insert_job (queue c) (clock c) k p after) (clock c) (workers c)).
Proof.
  intros Hi. apply (inv_release c); [done|done|cbn; lia| |].
  - intros id j [[-> _]|[_ Hl]]%insert_lookup; cbn; [lia|]. pose proof (ci_ids c Hi id j Hl). lia.
  - intros w id j Hw [[-> _]|[_ Hl]]%insert_lookup Hy; [|by exists j]. pose proof (ci_held c Hi w _ Hw). lia.
Qed.

(** Statements of an idle worker over the whole table. *)
Lemma inv_sweep c q w :
  cluster_inv c -> turn c w = Idle -> next_id q = next_id (queue c) ->
  (forall id j, jobs q !! id = Some j -> exists j0, jobs (queue c) !! id = Some j0 /\ (young c j -> j = j0)) ->
  cluster_inv (set_turn c q w Idle).
Proof.
  intros Hi Ht Hn Hq. apply (inv_release c); [done| |cbn; lia| |].
  - intros w' id. rewrite turn_set. by case_decide.
  - intros id j Hl. cbn. rewrite Hn. destruct (Hq id j Hl) as (j0 & Hl0 & _). by eapply (ci_ids c Hi).
  - intros w' id j _ Hl Hy. destruct (Hq id j Hl) as (j0 & Hl0 & E). specialize (E Hy) as ->. by exists j0.
Qed.

Lemma inv_update c w id q ok :
  cluster_inv c -> turn c w = Selected id -> claim_update (queue c) id = (q, ok) ->
  cluster_inv (set_turn c q w (if ok then Won id else Idle)).
Proof.
  intros Hi Ht Hc. apply claim_spec in Hc. destruct ok.
  2: { subst q. by apply inv_turn. }
  destruct Hc as (j & Hl & Hp & Hn & Hq). split.
  - intros i j'. cbn. rewrite Hq, Hn. intros [[<- _]|[_ Hl']]%lookup_insert_Some; by eapply (ci_ids c Hi).
  - intros w' i. rewrite turn_set. cbn [queue set_turn]. rewrite Hn. case_decide as E; [|apply (ci_held c Hi)].
    cbn. intros <-%Z.eqb_eq. by eapply (ci_ids c Hi).
  - intros w' i j'. cbn [queue set_turn]. rewrite Hq. unfold young. cbn [clock set_turn].
    destruct (decide (i = id)) as [->|Hne].
    + rewrite lookup_insert_eq. intros Hw [= <-] Hy. split; [done|]. cbn in Hy.
      assert (Hnone : forall v, v <> w -> holds (turn (set_turn c q w (Won id)) v) id = true -> False).
      { intros v Hv. rewrite turn_set, decide_False by done. intros Hh.
        destruct (ci_one c Hi v id j Hh Hl Hy) as [Hr _]. congruence. }
      intros w2 Hw2. destruct (decide (w2 = w)) as [->|H2]; [|by destruct (Hnone w2 H2 Hw2)].
      destruct (decide (w' = w)) as [->|H1]; [done|by destruct (Hnone w' H1 Hw)].
    + rewrite lookup_insert_ne by done. rewrite turn_set. case_decide as E.
      { cbn. intros ->%Z.eqb_eq. done. }
      intros Hw Hl' Hy. destruct (ci_one c Hi w' i j' Hw Hl' Hy) as [Hr Hu]. split; [done|]. intros w2.
      rewrite turn_set. case_decide; [cbn; by intros ->%Z.eqb_eq|apply Hu].
Qed.

Lemma inv_finish c w id ok :
  cluster_inv c -> turn c w = Finishing id ok -> cluster_inv (set_turn c (finish (queue c) id ok) w Idle).
Proof.
  intros Hi Ht. apply (inv_release c); [done| |done| |].
  - intros w' i. rewrite turn_set. by case_decide.
  - intros i j. cbn [queue set_turn]. rewrite finish_lookup. case_decide as E; [subst i|apply (ci_ids c Hi)].
    destruct (jobs (queue c) !! id) as [j0|] eqn:E; [|done]. intros _. by eapply (ci_ids c Hi).
  - intros w' i j. rewrite turn_set. cbn [queue set_turn]. case_decide as Hw; [done|]. rewrite finish_lookup. intros Hh.
    case_decide as E; [subst i|intros Hl Hy; by exists j]. destruct (jobs (queue c) !! id) as [j0|] eqn:Hl; [|done].
    intros [= <-] Hy. assert (Hme : holds (turn c w) id = true) by (rewrite Ht; cbn; by rewrite Z.eqb_refl).
    destruct (ci_one c Hi w id j0 Hme Hl Hy) as [_ Hu]. by destruct (Hw (Hu w' Hh)).
Qed.

Lemma requeue_young c j : young c j -> requeue (clock c) j = j.
Proof. unfold young, requeue. intros Hy. rewrite (proj2 (Z.ltb_ge _ _)) by lia. by rewrite andb_false_r. Qed.
Lemma requeue_created now j : created_at (requeue now j) = created_at j.
Proof. unfold requeue. by destruct (_ && _). Qed.

Lemma cluster_step_inv c l c' : cluster_inv c -> cluster_step c l = Some c' -> cluster_inv c'.
Proof.
  intros Hi. destruct l as [s|k p|k p d|w|w|w|w|w|w|w|w]; cbn [cluster_step].
  - destruct (Z.leb_spec 0 s); [|done]. intros [= <-]. apply (inv_release c); [done|done|done|apply Hi|].
    intros w id j _ Hl Hy. exists j. split; [done|split; [|done]]. unfold young in *. cbn in Hy. lia.
  - intros [= <-]. unfold enqueue. destruct (_ && _); [by destruct c|by apply inv_insert].
  - intros [= <-]. by apply inv_insert.
  - destruct (turn c w) eqn:E; try done. intros [= <-]. apply inv_turn; [done|]. rewrite E. by destruct (candidate _ _).
  - destruct (turn c w) eqn:E; try done. destruct (claim_update _ _) as [q ok] eqn:Eq. intros [= <-]. by eapply inv_update.
  - destruct (turn c w) eqn:E; try done. intros [= <-]. apply inv_turn; [done|]. rewrite E. by destruct (jobs _ !! _).
  - destruct (turn c w) eqn:E; try done. intros [= <-]. apply inv_turn; [done|]. by rewrite E.
  - destruct (turn c w) eqn:E; try done. intros [= <-]. by apply inv_finish.
  - destruct (turn c w) eqn:E; try done. intros [= <-]. apply inv_sweep; [done|done|done|]. intros id j.
    rewrite requeue_lookup. destruct (jobs (queue c) !! id) as [j0|]; [|done]. intros [= <-]. exists j0. split; [done|].
    intros Hy. apply requeue_young. unfold young in *. by rewrite requeue_created in Hy.
  - destruct (turn c w) eqn:E; try done. intros [= <-]. apply inv_sweep; [done|done|done|].
    intros id j [Hl _]%purge_lookup. by exists j.
  - intros [= <-]. by apply inv_turn.
Qed.

Lemma cluster_run_inv ls : forall c c', cluster_inv c -> run_cluster c ls = Some c' -> cluster_inv c'.
Proof.
  induction ls as [|l ls IH]; intros c c' Hi; cbn [run_cluster]; [by intros [= <-]|].
  destruct (cluster_step c l) as [c1|] eqn:E; [|done]. cbn. apply IH. by eapply cluster_step_inv.
Qed.
Lemma fresh_inv now : cluster_inv (fresh_cluster now).
Proof. split; unfold fresh_cluster, turn; cbn; intros *; by rewrite ?lookup_empty. Qed.

(** C36. Workers sharing the table never run one job together while the job is less than an hour
    old: in any interleaving of their statements, with jobs enqueued, time passing, workers
    crashing and starting over, when two of them run the job of a row created at most an
    hour ago they are the same worker, and the row says it is running. *)
Theorem claim_exclusive now ls c w w' id j :
  run_cluster (fresh_cluster now) ls = Some c -> jobs (queue c) !! id = Some j -> young c j ->
  holds (turn c w) id = true -> holds (turn c w') id = true -> w' = w /\ state j = Running.
Proof.
  intros Hr Hl Hy Hw Hw'. pose proof (cluster_run_inv ls _ _ (fresh_inv now) Hr) as Hi.
  destruct (ci_one c Hi w id j Hw Hl Hy) as [Hs Hu]. split; [by apply Hu|done].
Qed.

(** ** No job is lost *)

(** A row still to be run, the same job as [j]. *)
Definition still (q : Queue) (id : Z) (j : Job) : Prop :=
  exists j', jobs q !! id = Some j' /\ finished j' = false /\
    kind j' = kind j /\ payload j' = payload j /\ created_at j' = created_at j.

Lemma still_row q q' id j :
  still q id j ->
  (forall j0, jobs q !! id = Some j0 -> finished j0 = false ->
     exists j1, jobs q' !! id = Some j1 /\ finished j1 = false /\ kind j1 = kind j0 /\ payload j1 = payload j0 /\ created_at j1 = created_at j0) ->
  still q' id j.
Proof.
  intros (j0 & Hl & Hf & E1 & E2 & E3) Hq. destruct (Hq j0 Hl Hf) as (j1 & Hl1 & Hf1 & F1 & F2 & F3).
  exists j1. split; [done|split; [done|split; [congruence|split; congruence]]].
Qed.

Lemma requeue_unfinished now j : finished j = false -> finished (requeue now j) = false.
Proof. unfold requeue. by destruct (_ && _). Qed.

Lemma claim_still q id id' q' ok j : claim_update q id = (q', ok) -> still q id' j -> still q' id' j.
Proof.
  intros Hc Hs. apply claim_spec in Hc. destruct ok; [|by subst]. destruct Hc as (j0 & Hl0 & Hp & Hn & Hq).
  eapply still_row; [exact Hs|]. intros j1 Hl Hf. rewrite Hq. destruct (decide (id' = id)) as [->|Hne].
  - rewrite lookup_insert_eq. assert (j1 = j0) as -> by congruence. by eexists.
  - rewrite lookup_insert_ne by done. by exists j1.
Qed.

Lemma step_still c l c' id j :
  cluster_inv c -> still (queue c) id j -> cluster_step c l = Some c' ->
  still (queue c') id j \/ exists w ok, l = Finish w /\ turn c w = Finishing id ok.
Proof.
  intros Hi Hs. pose proof Hs as (j0 & Hl0 & _). pose proof (ci_ids c Hi id j0 Hl0) as Hid.
  assert (Hins : forall k p a, still (insert_job (queue c) (clock c) k p a) id j).
  { intros k p a. eapply still_row; [exact Hs|]. intros j1 Hl Hf. cbn. rewrite lookup_insert_ne by lia. by exists j1. }
  destruct l as [s|k p|k p d|w|w|w|w|w|w|w|w]; cbn [cluster_step].
  - destruct (0 <=? s); [|done]. intros [= <-]. by left.
  - intros [= <-]. left. cbn. unfold enqueue. by destruct (_ && _).
  - intros [= <-]. left. apply Hins.
  - destruct (turn c w); try done. intros [= <-]. by left.
  - destruct (turn c w); try done. destruct (claim_update _ _) as [q ok] eqn:Eq. intros [= <-]. left. by eapply claim_still.
  - destruct (turn c w); try done. intros [= <-]. by left.
  - destruct (turn c w); try done. intros [= <-]. by left.
  - destruct (turn c w) as [| | | |i ok] eqn:Et; try done. intros [= <-].
    destruct (decide (i = id)) as [->|Hne]; [right; by exists w, ok|left].
    eapply still_row; [exact Hs|]. intros j1 Hl Hf. cbn [queue set_turn]. rewrite finish_lookup, decide_False by congruence. by exists j1.
  - destruct (turn c w); try done. intros [= <-]. left. eapply still_row; [exact Hs|]. intros j1 Hl Hf.
    cbn [queue set_turn]. rewrite requeue_lookup, Hl. eexists. split; [done|]. split; [by apply requeue_unfinished|].
    unfold requeue. by destruct (_ && _).
  - destruct (turn c w); try done. intros [= <-]. left. eapply still_row; [exact Hs|]. intros j1 Hl Hf.
    exists j1. split; [|done]. apply purge_lookup. by rewrite Hf.
  - intros [= <-]. by left.
Qed.

(** C37. No job is lost: a row that waits or runs stays in the table, with its kind, payload and
    creation time, until a worker that executed it to the end records the outcome - whatever
    the interleaving and however many workers crash; and when it has been running for more
    than an hour, the next housekeeping makes it due again. *)
Theorem job_never_lost now ls ls' c c' id j :
  run_cluster (fresh_cluster now) ls = Some c -> jobs (queue c) !! id = Some j -> finished j = false ->
  run_cluster c ls' = Some c' ->
  (still (queue c') id j \/
   exists pre w post c1 ok, ls' = pre ++ Finish w :: post /\ run_cluster c pre = Some c1 /\ turn c1 w = Finishing id ok) /\
  (created_at j < clock c - STALE_RUNNING_HOURS * 3600 ->
   exists j', jobs (requeue_stale_jobs (queue c) (clock c)) !! id = Some j' /\ state j' = Pending /\
     (state j = Running -> runnable (clock c) j' = true)).
Proof.
  intros Hr Hl Hf Hr'. split.
  - pose proof (cluster_run_inv ls _ _ (fresh_inv now) Hr) as Hi. assert (Hs : still (queue c) id j) by (by exists j).
    clear Hr Hl. revert c Hi Hs Hr'. induction ls' as [|l ls' IH]; intros c Hi Hs; cbn [run_cluster]; [intros [= <-]; by left|].
    destruct (cluster_step c l) as [c1|] eqn:E; [|done]. cbn. intros Hr'.
    destruct (step_still _ _ _ _ _ Hi Hs E) as [Hs1|(w & ok & -> & Ht)]; [|right; by exists [], w, ls', c, ok].
    destruct (IH c1 (cluster_step_inv _ _ _ Hi E) Hs1 Hr') as [Hd|(pre & w & post & c2 & ok & -> & Hp & Ht)]; [by left|right].
    exists (l :: pre), w, post, c2, ok. split; [done|]. cbn. by rewrite E.
  - intros Hold. rewrite requeue_lookup, Hl. eexists. split; [done|]. unfold requeue.
    rewrite (proj2 (Z.ltb_lt _ _)) by done. rewrite andb_true_r. unfold finished, is_state in *.
    destruct (state j) eqn:E; cbn in *; try discriminate; (split; [done|]); [done|]. intros _.
    unfold runnable, is_state. cbn. by rewrite (proj2 (Z.leb_le _ _)).
Qed.

(** ** The theorems on concrete queues *)
Module QueueRun.

(** A repair is enqueued; worker 0 runs it; worker 1 looks for a job and finds none. *)
Definition schedule : list Label :=
  [Enqueue "repair" no_payload; Select 0; Select 1; Update 0; Update 1; Reselect 0; Tick 60]%string.
Definition after : option Cluster := Eval vm_compute in run_cluster (fresh_cluster 1000) schedule.
Definition repair_row : Job := mkJob "repair" no_payload Running 1 1000 1000.

Lemma after_run : exists c, run_cluster (fresh_cluster 1000) schedule = Some c /\ jobs (queue c) !! 1 = Some repair_row /\
  clock c = 1060 /\ holds (turn c 0) 1 = true /\ holds (turn c 1) 1 = false.
Proof. eexists. split; [vm_compute; reflexivity|]. vm_compute. done. Qed.

Lemma claim_exclusive_witness :
  exists c, holds (turn c 0) 1 = true /\ (forall w', holds (turn c w') 1 = true -> w' = 0%nat /\ state repair_row = Running).
Proof.
  destruct after_run as (c & Hr & Hl & Hc & H0 & _). exists c. split; [exact H0|]. intros w' Hw'.
  apply (claim_exclusive 1000 schedule c 0 w' 1 repair_row Hr Hl); [|exact H0|exact Hw'].
  unfold young, repair_row, STALE_RUNNING_HOURS. rewrite Hc. cbn. lia.
Defined.

(** The worker crashes; an hour later the row is put back. *)
Definition crashed : list Label := [Crash 0; Tick 3600; Requeue 1]%nat.
Lemma job_never_lost_witness :
  exists c c', run_cluster (fresh_cluster 1000) schedule = Some c /\ run_cluster c crashed = Some c' /\
    (still (queue c') 1 repair_row \/ exists pre w post c1 ok,
      crashed = pre ++ Finish w :: post /\ run_cluster c pre = Some c1 /\ turn c1 w = Finishing 1 ok).
Proof.
  destruct (run_cluster (fresh_cluster 1000) schedule) as [c|] eqn:Hr; [|vm_compute in Hr; discriminate].
  destruct (run_cluster c crashed) as [c'|] eqn:Hr'; [|vm_compute in Hr; injection Hr as <-; vm_compute in Hr'; discriminate].
  exists c, c'. split; [reflexivity|split; [exact Hr'|]].
  assert (Hl : jobs (queue c) !! 1 = Some repair_row) by (vm_compute in Hr; injection Hr as <-; vm_compute; reflexivity).
  exact (proj1 (job_never_lost 1000 schedule crashed c c' 1 repair_row Hr Hl eq_refl Hr')).
Defined.

(** The age of a running job counts from its creation, not from its claim: a job that waited
    an hour in the queue, claimed just now, is put back at once by the housekeeping of another
    worker, which then runs it alongside the first. *)
Definition waited : list Label :=
  [Enqueue "repair" no_payload; Tick 3601; Select 0; Update 0; Reselect 0; Requeue 1; Select 1; Update 1; Reselect 1]%string.
Lemma waiting_job_runs_twice :
  exists c, run_cluster (fresh_cluster 1000) waited = Some c /\
    turn c 0 = Executing 1 "repair" no_payload /\ turn c 1 = Executing 1 "repair" no_payload.
Proof. eexists. split; [vm_compute; reflexivity|]. vm_compute. done. Qed.

(** A peer that never acknowledges and one that always does. *)
#[local] Instance half_net : PeerNet unit := {|
  ask _ _ n := (n, Err UnexpectedEof);
  ask_signed a m n := (n, if same a "deaf" then Err UnexpectedEof else match m with DeleteShard f _ => Ok (Ack f) | _ => Err UnexpectedEof end)
|}.
Definition known : gmap string string := {["p" := "deaf"; "q" := "good"]}%string.
Definition doomed : list (string * string) := [("f1", "p"); ("f2", "q"); ("f3", "gone"); ("f4", "p")]%string.
Definition runs : list (gmap string string * unit) := replicate 7 (known, ()).

Lemma gc_remote_ends_witness :
  (length (gc_retries "me" runs (mkPayload (Some doomed) None)) <= 4)%nat /\
  gc_retries "me" runs (mkPayload (Some doomed) None) !! 3%nat =
    Some (mkPayload (Some [("f1", "p"); ("f4", "p")]%string) (Some 4), 1200).
Proof.
  destruct (gc_remote_ends "me" runs (mkPayload (Some doomed) None) doomed eq_refl eq_refl) as [Hlen Hk].
  split; [exact Hlen|]. rewrite Hk. vm_compute. reflexivity.
Defined.
End QueueRun.
