(* ===== verification/Wiring.v ===== *)
(** * The background of the node ([crates/server/src/main.rs], [repair.rs], [config/instance.rs])

    Registration with the core and the heartbeat, the refresh of the instance settings, the
    timers that feed the job queue, and the change of the node's own address a repair pass may
    notice. A timer fires at a time given by the run; the start-up itself (logging, pools,
    sockets) is not modelled. *)

From Stdlib Require Import ZArith Lia Strings.String Strings.Byte.
From stdpp Require Import base numbers list gmap strings relations.
From S2P Require Import Prelude External Erasure Crypto Protocol ChunkStore Manifest Instance Fleet Jobs.

(** ** The core *)

(** What the core answers a request. *)
Inductive CoreAnswer := Status (code : Z) | Unreachable.
Definition is_success (a : CoreAnswer) : bool :=
  match a with Status c => (200 <=? c) && (c <=? 299) | Unreachable => false end.
Definition has_status (c : Z) (a : CoreAnswer) : bool :=
  match a with Status d => d =? c | Unreachable => false end.

Definition backoff (attempt : Z) : Z := if attempt <=? 10 then attempt * 2 else 30.

(** The sleep after a refused attempt. *)
Definition register_wait (attempt : Z) (a : CoreAnswer) : Z := if has_status 403 a then 30 else backoff attempt.

(** The attempts over the answers of a run: the sleeps, and whether the node is registered. *)
Fixpoint register_with_core (attempt : Z) (answers : list CoreAnswer) : list Z * bool :=
  match answers with
  | [] => ([], false)
  | a :: answers =>
      if is_success a then ([], true)
      else let r := register_with_core (attempt + 1) answers in (register_wait attempt a :: r.1, r.2)
  end.

(** One heartbeat: whether it registers again. *)
Definition heartbeat (a : CoreAnswer) : bool := negb (is_success a) && has_status 404 a.

(** The refresh: a failed read keeps the values. *)
Definition refresh (cfg : InstanceConfig) (fetched : option InstanceConfig) : InstanceConfig := default cfg fetched.

(** Registration waits at least two and at most thirty seconds between attempts, and ends at
    the first attempt the core accepts. *)
Theorem register_ends answers attempt :
  1 <= attempt ->
  let r := register_with_core attempt answers in
  Forall (fun w => 2 <= w <= 30) r.1 /\ (r.2 = true <-> exists a, a ∈ answers /\ is_success a = true) /\
  (forall k, answers !! k = None \/ (exists a, answers !! k = Some a /\ is_success a = true) -> (length r.1 <= k)%nat).
Proof.
  cbv zeta. revert attempt. induction answers as [|a answers IH]; intros attempt Ha; cbn [register_with_core].
  { split; [constructor|split; [split; [done|by intros (? & ?%elem_of_nil & _)]|cbn; lia]]. }
  destruct (is_success a) eqn:Es.
  - split; [constructor|split; [split; [intros _; exists a; split; [left|done]|done]|cbn; lia]].
  - destruct (IH (attempt + 1) ltac:(lia)) as (H1 & H2 & H3). cbn [fst snd]. split; [|split].
    + constructor; [|done]. unfold register_wait, backoff. destruct (has_status 403 a); [lia|].
      destruct (Z.leb_spec attempt 10); lia.
    + rewrite H2. split; intros (b & Hb & Hs); exists b; (split; [|done]); [by right|].
      apply elem_of_cons in Hb as [->|?]; [congruence|done].
    + intros [|k] Hk; cbn in Hk.
      * destruct Hk as [?|(b & [= <-] & ?)]; [done|congruence].
      * cbn. apply le_n_S, H3. exact Hk.
Qed.

(** ** The timers *)

Inductive Timer := RepairTimer | RetentionTimer | PackingTimer | ManifestBackupTimer | TrashTimer.
(** What a timer enqueues, in order. *)
Definition enqueues (t : Timer) : list string :=
  match t with
  | RepairTimer => ["repair"]
  | RetentionTimer => ["retention"]
  | PackingTimer => ["repack_small"; "compact_packs"]
  | ManifestBackupTimer => ["manifest_backup"]
  | TrashTimer => ["gc_trash"]
  end%string.
(** The seconds before the first firing, and between two. *)
Definition first_delay (cfg : InstanceConfig) (t : Timer) : Z :=
  match t with
  | RepairTimer => repair_interval_secs cfg | RetentionTimer => 86400 | PackingTimer => 600
  | ManifestBackupTimer => 300 | TrashTimer => 3600
  end.
Definition period (cfg : InstanceConfig) (t : Timer) : Z :=
  match t with
  | RepairTimer => repair_interval_secs cfg | RetentionTimer => 86400 | PackingTimer => 21600
  | ManifestBackupTimer => 86400 | TrashTimer => 3600
  end.

Definition fire (q : Queue) (e : Z * Timer) : Queue :=
  foldl (fun q k => enqueue q e.1 k no_payload) q (enqueues e.2).

(** The rows of a kind that wait. *)
Definition waits (k : string) (j : Job) : bool := same (kind j) k && is_state Pending j.
Definition waiting_rows (q : Queue) (k : string) : nat := base.size (filter (fun p : Z * Job => waits k p.2 = true) (jobs q)).

(** The sequence is ahead of the table. *)
Definition seq_ahead (q : Queue) : Prop := forall i j, jobs q !! i = Some j -> i < next_id q.

Lemma insert_ahead q now k p after : seq_ahead q -> seq_ahead (insert_job q now k p after).
Proof.
  intros Hq i j Hi. cbn in *. destruct (decide (i = next_id q)) as [->|Hne]; [lia|].
  rewrite lookup_insert_ne in Hi by done. apply Hq in Hi. lia.
Qed.

Lemma insert_waiting q now k p after k' :
  seq_ahead q -> waiting_rows (insert_job q now k p after) k' = (waiting_rows q k' + (if decide (k = k') then 1 else 0))%nat.
Proof.
  intros Hq. unfold waiting_rows. cbn [jobs insert_job].
  assert (Hn : jobs q !! next_id q = None).
  { destruct (jobs q !! next_id q) eqn:E; [|done]. apply Hq in E. lia. }
  set (j := mkJob k p Pending 0 after now).
  destruct (decide (k = k')) as [<-|Hne].
  - rewrite map_filter_insert_True by (cbn; unfold waits, j; cbn; unfold same, is_state; cbn; by rewrite !bool_decide_eq_true_2).
    rewrite map_size_insert_None; [lia|]. apply map_lookup_filter_None. left. done.
  - rewrite map_filter_insert_not'; [lia| |].
    + cbn. unfold waits, j, same. cbn. by rewrite bool_decide_eq_false_2.
    + intros y Hy. congruence.
Qed.

Lemma waiting_spec q k : waiting q k = true <-> (0 < waiting_rows q k)%nat.
Proof.
  unfold waiting, waiting_rows. rewrite existsb_exists. split.
  - intros ([i j] & Hin%list_elem_of_In%elem_of_map_to_list & Hw). cbn in Hw.
    apply Nat.neq_0_lt_0. intros Hz. apply map_size_empty_inv in Hz.
    assert (Hl : filter (fun p : Z * Job => waits k p.2 = true) (jobs q) !! i = Some j) by (by apply map_lookup_filter_Some).
    rewrite Hz in Hl. by rewrite lookup_empty in Hl.
  - intros Hpos. destruct (map_choose (filter (fun p : Z * Job => waits k p.2 = true) (jobs q))) as (i & j & Hl).
    { intros E. rewrite E, map_size_empty in Hpos. lia. }
    apply map_lookup_filter_Some in Hl as [Hl Hw]. exists (i, j). split; [|done].
    by apply list_elem_of_In, elem_of_map_to_list.
Qed.

Lemma enqueue_waiting q now k k' :
  seq_ahead q ->
  seq_ahead (enqueue q now k no_payload) /\
  waiting_rows (enqueue q now k no_payload) k' =
    (waiting_rows q k' + (if decide (k = k') then if bool_decide (k ∈ COALESCED_KINDS) && (0 <? waiting_rows q k')%nat then 0 else 1 else 0))%nat.
Proof.
  intros Hq. unfold enqueue. destruct (bool_decide (k ∈ COALESCED_KINDS) && waiting q k) eqn:E.
  - split; [done|]. apply andb_true_iff in E as [E1 E2]. destruct (decide (k = k')) as [<-|Hk]; [|lia]. apply waiting_spec in E2.
    rewrite E1. cbn [andb]. destruct (Nat.ltb_spec 0 (waiting_rows q k)); lia.
  - split; [by apply insert_ahead|]. rewrite insert_waiting by done. destruct (decide (k = k')) as [<-|Hk]; [|lia].
    destruct (bool_decide (k ∈ COALESCED_KINDS)); [|done]. cbn [andb] in *. destruct (Nat.ltb_spec 0 (waiting_rows q k)) as [Hp|]; [|lia].
    apply waiting_spec in Hp. congruence.
Qed.

(** Jobs left by timers firing, no worker in between. *)
Definition fires (k : string) (es : list (Z * Timer)) : nat :=
  length (filter (fun e : Z * Timer => k ∈ enqueues e.2) es).

Lemma fire_waiting q e k :
  seq_ahead q ->
  seq_ahead (fire q e) /\
  waiting_rows (fire q e) k =
    (waiting_rows q k + (if decide (k ∈ enqueues e.2)
                         then if bool_decide (k ∈ COALESCED_KINDS) && (0 <? waiting_rows q k)%nat then 0 else 1 else 0))%nat.
Proof.
  intros Hq. destruct e as [now t]. unfold fire. cbn [fst snd].
  assert (Hone : forall k0, enqueues t = [k0] -> seq_ahead (enqueue q now k0 no_payload) /\
    waiting_rows (enqueue q now k0 no_payload) k =
    (waiting_rows q k + (if decide (k ∈ [k0]) then if bool_decide (k ∈ COALESCED_KINDS) && (0 <? waiting_rows q k)%nat then 0 else 1 else 0))%nat).
  { intros k0 _. destruct (enqueue_waiting q now k0 k Hq) as [H1 H2]. split; [done|]. rewrite H2.
    destruct (decide (k0 = k)) as [->|Hne]; [rewrite decide_True by left; done|].
    rewrite decide_False; [done|]. rewrite list_elem_of_singleton. congruence. }
  destruct t; try (by apply Hone). cbn [enqueues foldl].
  destruct (enqueue_waiting q now "repack_small" k Hq) as [Ha Hw].
  destruct (enqueue_waiting _ now "compact_packs" k Ha) as [Hb Hw']. split; [done|]. rewrite Hw', Hw.
  assert (Hnot : bool_decide ("repack_small"%string ∈ COALESCED_KINDS) = false /\ bool_decide ("compact_packs"%string ∈ COALESCED_KINDS) = false)
    by (split; reflexivity). destruct Hnot as [Hn1 Hn2].
  destruct (decide ("repack_small"%string = k)) as [<-|Hne1].
  { rewrite (decide_True (P := _ ∈ _)) by (by left). rewrite Hn1. cbn [andb]. destruct (decide _) as [[=]|_]. lia. }
  destruct (decide ("compact_packs"%string = k)) as [<-|Hne2].
  { rewrite (decide_True (P := _ ∈ _)) by (right; by left). rewrite Hn2. cbn [andb]. lia. }
  rewrite (decide_False (P := _ ∈ _)); [lia|]. rewrite !elem_of_cons, elem_of_nil. naive_solver.
Qed.

(** The timers do not drown the queue, except one: however often they fire while no worker
    runs, each kind the queue coalesces waits at most once; but the packing timer, whose kinds
    are not coalesced, leaves one job of each of its two kinds per firing. *)
Theorem timers_coalesce es q :
  seq_ahead q ->
  let q' := foldl fire q es in
  (forall k, k ∈ COALESCED_KINDS -> (waiting_rows q' k <= Nat.max 1 (waiting_rows q k))%nat) /\
  (forall k, k ∈ enqueues PackingTimer -> waiting_rows q' k = (waiting_rows q k + fires k es)%nat).
Proof.
  cbv zeta. revert q. induction es as [|e es IH]; intros q Hq; cbn [foldl].
  { split; intros k _; [lia|cbn; lia]. }
  pose proof (fun k => fire_waiting q e k Hq) as Hfire. destruct (IH _ (proj1 (Hfire ""%string))) as [H1 H2]. split; intros k Hk.
  - pose proof (H1 k Hk) as Hle. destruct (Hfire k) as [_ Hw]. rewrite Hw, bool_decide_eq_true_2 in Hle by done. cbn [andb] in Hle.
    destruct (decide (k ∈ enqueues e.2)); [|lia]. destruct (Nat.ltb_spec 0 (waiting_rows q k)); lia.
  - rewrite (H2 k Hk). destruct (Hfire k) as [_ ->]. unfold fires. rewrite filter_cons.
    assert (Hc : bool_decide (k ∈ COALESCED_KINDS) = false).
    { revert k Hk. apply Forall_forall. repeat constructor. }
    rewrite Hc. cbn [andb]. destruct (decide (k ∈ enqueues e.2)); cbn [length]; lia.
Qed.

(** ** The address of the node *)

(** The row of [node_local], and the jobs and events of the node. *)
Record SelfNode := mkSelf { public_ip : option string; last_rebalance_at : option Z; ip_changes : list (string * string); queue : Queue }.

(** [max_by_key]: the last of the greatest, in the order of the map. *)
Definition most_observed (observed : list (string * nat)) : option (string * nat) :=
  foldl (fun best x => match best with Some b => Some (if (b.2 <=? x.2)%nat then x else b) | None => Some x end) None observed.

Definition REBALANCE_COOLDOWN_SECS : Z := 30 * 60.

Definition detect_self_ip_change (now : Z) (observed : list (string * nat)) (s : SelfNode) : SelfNode :=
  match most_observed observed with
  | None => s
  | Some (ip, _) =>
      if bool_decide (public_ip s = Some ip) then s
      else
        match public_ip s with
        | None => mkSelf (Some ip) (last_rebalance_at s) (ip_changes s) (queue s)
        | Some old =>
            let recent := match last_rebalance_at s with Some t => now - REBALANCE_COOLDOWN_SECS <? t | None => false end in
            mkSelf (Some ip) (last_rebalance_at s) (ip_changes s ++ [(old, ip)])
              (if recent then queue s else enqueue (queue s) now "rebalance_locality" no_payload)
        end
  end.

Lemma most_observed_spec observed :
  match most_observed observed with
  | None => observed = []
  | Some b => b ∈ observed /\ forall x, x ∈ observed -> (x.2 <= b.2)%nat
  end.
Proof.
  unfold most_observed. induction observed as [|x l IH] using rev_ind; [done|]. rewrite foldl_app. cbn [foldl].
  destruct (foldl _ None l) as [b|].
  - destruct IH as [Hb Hall]. destruct (Nat.leb_spec b.2 x.2).
    + split; [apply elem_of_app; right; left|]. intros y [Hy|Hy]%elem_of_app; [apply Hall in Hy; lia|].
      apply list_elem_of_singleton in Hy as ->. lia.
    + split; [apply elem_of_app; by left|]. intros y [Hy|Hy]%elem_of_app; [by apply Hall|].
      apply list_elem_of_singleton in Hy as ->. lia.
  - subst l. split; [left|]. intros y Hy. apply list_elem_of_singleton in Hy as ->. lia.
Qed.

(** The address believed is one a peer reported, with the most votes; a move is recorded, and
    triggers a rebalance unless one ran within half an hour; the same address changes nothing. *)
Theorem ip_change_detected now observed s :
  let s' := detect_self_ip_change now observed s in
  match most_observed observed with
  | None => s' = s
  | Some (ip, n) =>
      (ip, n) ∈ observed /\ (forall x, x ∈ observed -> (x.2 <= n)%nat) /\ public_ip s' = Some ip /\
      (public_ip s = Some ip -> s' = s) /\
      forall old, public_ip s = Some old -> old <> ip ->
        ip_changes s' = ip_changes s ++ [(old, ip)] /\
        (queue s' <> queue s -> forall t, last_rebalance_at s = Some t -> t <= now - REBALANCE_COOLDOWN_SECS)
  end.
Proof.
  cbv zeta. pose proof (most_observed_spec observed) as Hm. unfold detect_self_ip_change.
  destruct (most_observed observed) as [[ip n]|]; [|done]. destruct Hm as [Hin Hmax].
  split; [done|split; [done|]]. case_bool_decide as Eip; [split; [done|split; [done|]]; intros old; congruence|].
  destruct (public_ip s) as [old|]; cbn; (split; [done|split; [congruence|]]); intros old' [= <-] Hne.
  split; [done|]. intros Hq t Et. rewrite Et in Hq. destruct (Z.ltb_spec (now - REBALANCE_COOLDOWN_SECS) t); [by destruct Hq|lia].
Qed.

(** One report is a majority: a single peer that claims another address makes the node believe
    it, and enqueue a rebalance. *)
Theorem one_vote_moves_the_node :
  let s := mkSelf (Some "1.1.1.1"%string) None [] (mkQueue ∅ 0 []) in
  let s' := detect_self_ip_change 100 [("6.6.6.6"%string, 1%nat)] s in
  public_ip s' = Some "6.6.6.6"%string /\ waiting (queue s') "rebalance_locality" = true.
Proof. split; reflexivity. Qed.

(** ** Runs *)

Module WiringRun.
Definition idle : Queue := mkQueue ∅ 0 [].
Lemma timers_coalesce_witness :
  let es := [(0, PackingTimer); (10, RepairTimer); (20, RepairTimer); (30, PackingTimer)] in
  waiting_rows (foldl fire idle es) "repack_small" = 2%nat /\ (waiting_rows (foldl fire idle es) "repair" <= 1)%nat.
Proof.
  assert (Ha : seq_ahead idle) by (intros i j Hi; cbn in Hi; by rewrite lookup_empty in Hi).
  destruct (timers_coalesce [(0, PackingTimer); (10, RepairTimer); (20, RepairTimer); (30, PackingTimer)] idle Ha) as [H1 H2].
  split; [exact (H2 "repack_small"%string ltac:(by left))|exact (H1 "repair"%string ltac:(by left))].
Defined.
Lemma register_ends_witness :
  register_with_core 1 [Status 503; Unreachable; Status 403; Status 200] = ([2; 4; 30], true) /\
  Forall (fun w => 2 <= w <= 30) [2; 4; 30].
Proof.
  split; [reflexivity|]. exact (proj1 (register_ends [Status 503; Unreachable; Status 403; Status 200] 1 ltac:(lia))).
Defined.
End WiringRun.
