(* ===== verification/Departure.v ===== *)
(** * Account deletion ([crates/server/src/events/mod.rs])

    The one event the core sends the module: an account was deleted. What the sweep removes
    from the manifest, the store and the ledger, the job it leaves for the peers, and what the
    other accounts keep. *)

From Stdlib Require Import ZArith Lia Strings.Ascii Strings.String Strings.Byte.
From stdpp Require Import base numbers list gmap strings sorting relations.
From S2P Require Import Prelude External Erasure RSCode Crypto Pipeline Paths Manifest ManifestInv ChunkStore Text.
From S2P Require Import Service ServiceProofs ServiceSpec Packs PackProofs ServiceInv ServiceWitness Protocol ReadPath.
From S2P Require Import Instance Quotas Accounts AccountsProofs AccountsSpec AccountsWitness Fleet Jobs.

Inductive P2pnasEvent := UserDeleted (user_id : string).

(** One file of the sweep; an error is logged and skipped. *)
Definition purge_one (user : string) (acc : Db * ChunkStore * Z * Z * list RemoteShard) (f : FileRow)
    : Db * ChunkStore * Z * Z * list RemoteShard :=
  let '(db, st, deleted, stored, remote) := acc in
  match purge_file db st user (r_file_id f) with
  | Ok (db, st, (row, r)) => (db, st, deleted + 1, stored + r_stored_bytes row, remote ++ r)
  | _ => acc
  end.

Definition purge_user (now : Z) (n : AppState) (q : Queue) (user : string) : AppState * Queue :=
  let '(db, st, deleted, stored, remote) :=
    foldl (purge_one user) (n_db n, n_store n, 0, 0, []) (list_user_rows (n_db n) user) in
  let q := if bool_decide (remote = []) then q else enqueue q now "gc_remote" (mkPayload (Some remote) (Some 0)) in
  let l := if 0 <? stored then add_stored (n_ledger n) (- stored) else n_ledger n in
  let l := set_rows l (base.delete user (user_quota l)) in
  (mkState db st l, mkQueue (jobs q) (next_id q) (events q ++ [now])).

Definition handle_event (now : Z) (n : AppState) (q : Queue) (e : P2pnasEvent) : AppState * Queue :=
  match e with UserDeleted user => purge_user now n q user end.

(** [ingest]: a body that is none of the module's events is ignored. *)
Definition ingest (now : Z) (n : AppState) (q : Queue) (body : option P2pnasEvent) : AppState * Queue :=
  match body with Some e => handle_event now n q e | None => (n, q) end.

(** ** The sweep, as one purge of the account's rows *)

Definition keys_of (user : string) (l : list FileRow) : list (string * string) := (fun f => (user, r_file_id f)) <$> l.

(** After the rows [l] were purged. *)
Definition swept_to (user : string) (db : Db) (st : ChunkStore) (l : list FileRow)
    : Db * ChunkStore * Z * Z * list RemoteShard :=
  let r := purge_rows db (keys_of user l) in
  let x := purge_local_collect_remote st r.2 in
  (r.1, x.1, len l, zsum (r_stored_bytes <$> l), x.2).

Lemma purge_local_app st a b :
  purge_local_collect_remote st (a ++ b) =
    ((purge_local_collect_remote (purge_local_collect_remote st a).1 b).1,
     (purge_local_collect_remote st a).2 ++ (purge_local_collect_remote st b).2).
Proof. unfold purge_local_collect_remote. cbn [fst snd]. by rewrite foldl_app, filter_app. Qed.

Lemma swept_next user db st l f :
  db_inv db -> get_file db user (r_file_id f) = Some f -> r_file_id f ∉ r_file_id <$> l ->
  purge_one user (swept_to user db st l) f = swept_to user db st (l ++ [f]).
Proof.
  intros Hinv Hf Hn. unfold swept_to, keys_of. rewrite fmap_app. cbn [fmap list_fmap]. rewrite purge_rows_snoc. cbn [fst snd].
  destruct (purge_rows_spec db st (keys_of user l) Hinv) as (Hinv' & _ & _ & Hfiles).
  unfold keys_of in *. set (r := purge_rows db _) in *.
  assert (Hf' : get_file r.1 user (r_file_id f) = Some f).
  { apply get_file_elem in Hf as (a & Ha & Hr & ->). apply get_file_found; [done| |exact Hr].
    rewrite Hfiles. apply list_elem_of_filter. split; [|done]. apply is_row_true in Hr as [Hu Hi]. rewrite Hu.
    intros (g & [= Eg] & Hg)%list_elem_of_fmap. apply Hn. cbn [map_file r_file_id]. rewrite Eg. by apply list_elem_of_fmap_2. }
  unfold purge_one, purge_file. rewrite Hf'. cbn [ok_or mbind res_bind]. unfold purge_file_row.
  rewrite (purge_local_app st r.2). cbn [fst snd].
  destruct (purge_local_collect_remote (purge_local_collect_remote st r.2).1 _) as [st' rem] eqn:E. cbn [fst].
  assert (rem = (purge_local_collect_remote st (file_frags r.1 user (r_file_id f))).2) as -> by (by injection E as _ <-).
  rewrite fmap_app, zsum_app. cbn [fmap list_fmap zsum foldr]. unfold len. rewrite length_app. cbn [length].
  f_equal; f_equal; [f_equal; lia|lia].
Qed.

Lemma sweep_user user db st l : forall dn,
  db_inv db -> NoDup (r_file_id <$> dn ++ l) -> (forall f, f ∈ l -> get_file db user (r_file_id f) = Some f) ->
  foldl (purge_one user) (swept_to user db st dn) l = swept_to user db st (dn ++ l).
Proof.
  induction l as [|f l IH]; intros dn Hinv Hnd Hall; [by rewrite app_nil_r|]. cbn [foldl].
  rewrite swept_next; [|done|apply Hall; by left|].
  - rewrite IH; [by rewrite <- app_assoc|done|by rewrite <- app_assoc|]. intros g Hg. apply Hall. by right.
  - rewrite fmap_app in Hnd. apply NoDup_app in Hnd as (_ & Hd & _). intros Hin. apply (Hd _ Hin). left.
Qed.

Lemma user_rows db user :
  db_inv db -> list_user_rows db user ≡ₚ map_file <$> of_user user (files db).
Proof.
  intros Hinv. unfold list_user_rows. rewrite merge_sort_Permutation. unfold select, of_user.
  erewrite list_filter_iff; [reflexivity|]. intros f. apply same_true.
Qed.

(** The whole sweep. *)
Lemma sweep_all db st user :
  db_inv db ->
  foldl (purge_one user) (db, st, 0, 0, []) (list_user_rows db user) = swept_to user db st (list_user_rows db user).
Proof.
  intros Hinv. pose proof (user_rows db user Hinv) as Hp.
  change (db, st, 0, 0, []) with (swept_to user db st []). rewrite sweep_user; [done|done| |].
  - cbn [app]. rewrite Hp, <- list_fmap_compose. unfold compose. cbn [map_file r_file_id].
    eapply (sublist_NoDup _ (file_id <$> files db)); [apply (inv_ids _ Hinv)|]. apply fmap_sublist, sublist_filter.
  - intros f Hf. rewrite Hp in Hf. apply list_elem_of_fmap in Hf as (a & -> & Ha). unfold of_user in Ha.
    apply list_elem_of_filter in Ha as [Hu Ha]. apply get_file_found; [done|done|by apply is_row_true].
Qed.

(** ** The shards of the purged rows *)

Lemma delete_files_shards db u i s :
  s ∈ shard_rows db -> s ∈ shard_rows (delete_files db (is_row u i)) \/ (fragment s, location s) ∈ file_frags db u i.
Proof.
  intros Hs. unfold delete_files, delete_chunks. cbn [shard_rows set_files chunk_rows].
  match goal with |- context [filter (fun s => shard_chunk s ∉ ?gone) (shard_rows db)] => set (g := gone) end.
  destruct (decide (shard_chunk s ∈ g)) as [Hin|Hin]; [right|left; by apply list_elem_of_filter].
  apply list_elem_of_fmap in Hin as (c & Ec & [Hg Hc]%list_elem_of_filter).
  apply bool_decide_eq_true, list_elem_of_fmap in Hg as (f & Ef & [Hr Hf]%list_elem_of_filter).
  unfold file_frags. apply list_elem_of_fmap. exists s. split; [done|]. apply list_elem_of_filter. split; [|done].
  apply existsb_exists. exists c. split; [by apply list_elem_of_In|]. apply is_row_true in Hr as Hr'. destruct Hr' as [_ Hid].
  rewrite !andb_true_iff. split; [split; apply same_true; congruence|].
  apply existsb_exists. exists f. split; [by apply list_elem_of_In|done].
Qed.

Lemma purge_rows_shards db keys s :
  s ∈ shard_rows db -> s ∈ shard_rows (purge_rows db keys).1 \/ (fragment s, location s) ∈ (purge_rows db keys).2.
Proof.
  intros Hs. induction keys as [|k keys IH] using rev_ind; [by left|]. rewrite purge_rows_snoc. cbn [fst snd].
  destruct IH as [IH|IH]; [|right; apply elem_of_app; by left].
  destruct (delete_files_shards _ k.1 k.2 s IH) as [?|?]; [by left|]. right. apply elem_of_app. by right.
Qed.

Lemma purge_rows_sub db keys : forall c, c ∈ chunk_rows (purge_rows db keys).1 -> c ∈ chunk_rows db.
Proof.
  induction keys as [|k keys IH] using rev_ind; [done|]. rewrite purge_rows_snoc. cbn [fst]. intros c Hc.
  unfold delete_files, delete_chunks in Hc. cbn in Hc. apply list_elem_of_filter in Hc as [_ Hc]. by apply IH.
Qed.

(** A shard of a file of the account. *)
Definition shard_of_user (db : Db) (user : string) (s : ShardRow) : Prop :=
  s ∈ shard_rows db /\ exists c f, c ∈ chunk_rows db /\ chunk_id_of c = shard_chunk s /\
    f ∈ files db /\ file_id f = chunk_file c /\ user_id f = user.

Lemma swept_shards db user s :
  db_inv db -> shard_of_user db user s -> (fragment s, location s) ∈ (purge_rows db (keys_of user (list_user_rows db user))).2.
Proof.
  intros Hinv (Hs & c & f & Hc & Ec & Hf & Ef & Hu). set (keys := keys_of _ _).
  destruct (purge_rows_shards db keys s Hs) as [Hin|]; [exfalso|done].
  destruct (purge_rows_spec db ∅ keys Hinv) as (Hinv' & _ & _ & Hfiles). set (r := purge_rows db keys) in *.
  pose proof (inv_shard_fk _ Hinv') as Hsf. rewrite Forall_forall in Hsf. specialize (Hsf _ Hin).
  apply list_elem_of_fmap in Hsf as (c' & Ec' & Hc').
  assert (c' = c) as ->.
  { apply (purge_rows_sub db keys) in Hc' as Hc0. apply list_elem_of_lookup in Hc0 as (a & Ha), Hc as (b & Hb).
    assert (a = b) as ->; [|congruence].
    eapply NoDup_lookup; [apply (inv_chunks _ Hinv)| |]; rewrite list_lookup_fmap; [by rewrite Ha|by rewrite Hb; cbn; congruence]. }
  pose proof (inv_chunk_fk _ Hinv') as Hcf. rewrite Forall_forall in Hcf. specialize (Hcf _ Hc').
  apply list_elem_of_fmap in Hcf as (g & Eg & Hg). rewrite Hfiles in Hg. apply list_elem_of_filter in Hg as [Hkey Hg].
  assert (g = f) as -> by (eapply unique_id; [exact Hinv|done|done|congruence]). apply Hkey.
  unfold keys, keys_of. apply list_elem_of_fmap. exists (map_file f). split; [cbn; congruence|].
  rewrite (user_rows db user Hinv). apply list_elem_of_fmap_2. unfold of_user. by apply list_elem_of_filter.
Qed.

(** A local shard is no longer in the store. *)
Lemma purged_local st frags x b : (x, "local"%string) ∈ frags -> read (purge_local_collect_remote st frags).1 x <> Ok b.
Proof.
  unfold purge_local_collect_remote. cbn [fst]. revert st.
  assert (Hgone : forall frags st, (forall b, read st x <> Ok b) ->
    forall b, read (foldl (fun st p => if same p.2 "local" then match delete st p.1 with Ok st => st | _ => st end else st) st frags) x <> Ok b).
  { clear frags b. induction frags as [|[y loc] frags IH]; intros st Hst; [done|]. cbn [foldl fst snd]. apply IH.
    destruct (same loc "local"); [|done]. destruct (delete st y) as [st1| |] eqn:E; [|done..]. intros b.
    destruct (decide (x = y)) as [->|Hne]; [|by rewrite (delete_read_ne _ _ _ _ E Hne)].
    unfold delete, read in *. step_ok. rewrite Ha. cbn [mbind res_bind]. by rewrite lookup_delete_eq. }
  induction frags as [|[y loc] frags IH]; intros st; [by intros ?%elem_of_nil|].
  intros [[= <- <-]|Hin]%elem_of_cons; cbn [foldl fst snd]; [|by apply IH]. apply Hgone. intros b'.
  replace (same "local" "local") with true by done.
  unfold delete, read. destruct (shard_path x) as [p| |]; cbn [mbind res_bind]; [|done..].
  by rewrite lookup_delete_eq.
Qed.

Lemma purged_remote st frags p : p ∈ frags -> p.2 <> "local"%string -> p ∈ (purge_local_collect_remote st frags).2.
Proof. intros Hp Hl. by apply list_elem_of_filter. Qed.

(** ** What the account leaves behind, and what the others keep *)

Definition user_stored (db : Db) (user : string) : Z := total stored_bytes (of_user user (files db)).

Lemma swept_stored db user : db_inv db -> zsum (r_stored_bytes <$> list_user_rows db user) = user_stored db user.
Proof.
  intros Hinv. unfold user_stored, total. rewrite (user_rows db user Hinv), <- list_fmap_compose. done.
Qed.

(** The job handed to the queue: the shards to drop at peers, retried from attempt 0. *)
Definition gc_job (q : Queue) (now : Z) (remote : list RemoteShard) : Prop :=
  exists id j, jobs q !! id = Some j /\ kind j = "gc_remote"%string /\ state j = Pending /\
    payload j = mkPayload (Some remote) (Some 0) /\ run_after j = now.

Section Departure.
Context {CP : CryptoPrims} {ZS : Zstd} {L2 : Log2} {RS : ReedSolomon}.
Variable data_key : bytes.

End Departure.

(** ** Runs *)

Module DepartureRun.
Import Toy StoreRun LedgerRun.

Definition queue0 : Queue := mkQueue ∅ 0 [].
Definition node2 : AppState := mkState w2.1 w2.2 (mkLedger 1000 300 {[ "u"%string := (10, 8); "v"%string := (5, 0) ]}).


(** An upload that was charged before the account was deleted stores its file afterwards: the
    row stays in the manifest of an account that no longer exists, and has no quota. *)
Theorem upload_outlives_account :
  let s := foldl turn_of (node0, take 1 uploads) [0; 0]%nat in
  let n := (ingest 7 s.1 queue0 (Some (UserDeleted "u"))).1 in
  let n' := (foldl turn_of (n, s.2) [0; 0; 0]%nat).1 in
  files (n_db n) = [] /\ user_id <$> files (n_db n') = ["u"%string] /\ user_quota (n_ledger n') !! "u"%string = None.
Proof. split; [|split]; vm_compute; reflexivity. Qed.
End DepartureRun.
