(* ===== verification/Access.v ===== *)
(** * Who may call what ([crates/server/src/{router,middleware,errors}], small handlers)

    The route table as [router::build] composes it, the three gates, and the answers of the
    handlers that only read the ledger. The router itself (axum) and the verification of the
    core's tokens (kubuno_modauth) are outside the repository: arguments with their laws. *)

From Stdlib Require Import ZArith Lia Strings.Ascii Strings.String Strings.Byte.
From stdpp Require Import base numbers list gmap strings sorting.
From S2P Require Import Prelude External Erasure Paths Manifest ManifestInv ReadPath Instance Quotas.

(** ** The shared secret *)

Definition constant_time_eq (a b : bytes) : bool :=
  if negb (len a =? len b) then false
  else foldl (fun diff (p : u8 * u8) => Z.lor diff (Z.lxor (b2z p.1) (b2z p.2))) 0 (zip a b) =? 0.

Lemma lor_fold_zero l : forall d, 0 <= d ->
  foldl (fun diff (p : u8 * u8) => Z.lor diff (Z.lxor (b2z p.1) (b2z p.2))) d l = 0 <->
  d = 0 /\ Forall (fun p => p.1 = p.2) l.
Proof.
  induction l as [|[x y] l IH]; intros d Hd; cbn [foldl fst snd].
  - split; [by intros ->|by intros [-> _]].
  - pose proof (b2z_range x) as Hx. pose proof (b2z_range y) as Hy.
    assert (Hxor : 0 <= Z.lxor (b2z x) (b2z y)) by (apply Z.lxor_nonneg; lia).
    rewrite IH by (apply Z.lor_nonneg; lia). rewrite Z.lor_eq_0_iff, Z.lxor_eq_0_iff, Forall_cons. cbn [fst snd].
    split; [intros ((-> & E) & Hl); split; [done|split; [by apply b2z_inj|done]]|].
    intros (-> & E & Hl). by subst.
Qed.

(** ** Errors on the wire *)

Definition into_response (e : P2pError) : Z * string :=
  match e with
  | Unauthorized => (401, "unauthorized")
  | Forbidden => (403, "forbidden")
  | NoSuchFile => (404, "not found")
  | BadRequest m => (400, m)
  | DbError => (500, "internal error")
  | Store NotFound => (404, "not found")
  | Store _ => (500, "internal error")
  end%string.

(** ** Routes *)

Inductive Method := GET | POST | DELETE.
#[export] Instance Method_eq : EqDecision Method.
Proof. solve_decision. Defined.

Inductive Endpoint :=
| Health | Ingest
| Status | QuotaMe | ListFiles | Upload | Download | DeleteFile | FileHealth | FilePlacement
| Browse | DownloadPath | Mkdir | Rename | DeletePath | TrashList | Restore | Purge | EmptyTrash | Versions
| ListQuotas | SetQuota | SetContribution | ListPeers | AddPeer | RemovePeer | RunRepair | ListEvents | Metrics
| Rebalance | RunRetentionPurge | ManifestBackupStatus | ManifestBackupNow | ManifestBackupRestore
| RunRepack | RunPackCompaction | BackupExport | BackupRestore.
#[export] Instance Endpoint_eq : EqDecision Endpoint.
Proof. solve_decision. Defined.

Inductive Layer := RequireAuth | RequireAdmin | RequireIpcSecret.
(** The layers of a route, the outermost first. *)
Record Route := mkRoute { rt_method : Method; rt_path : string; rt_endpoint : Endpoint; rt_layers : list Layer }.

Definition route (p : string) (hs : list (Method * Endpoint)) : list Route :=
  (fun h => mkRoute h.1 p h.2 []) <$> hs.
(** A layer added to a router wraps the routes it has so far. *)
Definition route_layer (l : Layer) (rs : list Route) : list Route :=
  (fun r => mkRoute (rt_method r) (rt_path r) (rt_endpoint r) (l :: rt_layers r)) <$> rs.

Definition admin_routes : list Route := route_layer RequireAdmin (
  route "/admin/quotas" [(GET, ListQuotas); (POST, SetQuota)] ++
  route "/admin/contribution" [(POST, SetContribution)] ++
  route "/admin/peers" [(GET, ListPeers); (POST, AddPeer)] ++
  route "/admin/peers/:peer_id" [(DELETE, RemovePeer)] ++
  route "/admin/repair" [(POST, RunRepair)] ++
  route "/admin/events" [(GET, ListEvents)] ++
  route "/admin/metrics" [(GET, Metrics)] ++
  route "/admin/rebalance" [(POST, Rebalance)] ++
  route "/admin/retention/purge" [(POST, RunRetentionPurge)] ++
  route "/admin/manifest-backup" [(GET, ManifestBackupStatus); (POST, ManifestBackupNow)] ++
  route "/admin/manifest-backup/restore" [(POST, ManifestBackupRestore)] ++
  route "/admin/repack/run" [(POST, RunRepack)] ++
  route "/admin/packs/compact" [(POST, RunPackCompaction)] ++
  route "/admin/backup" [(GET, BackupExport)] ++
  route "/admin/restore" [(POST, BackupRestore)]).

Definition authed : list Route := route_layer RequireAuth (
  route "/status" [(GET, Status)] ++
  route "/quota/me" [(GET, QuotaMe)] ++
  route "/files" [(GET, ListFiles); (POST, Upload)] ++
  route "/files/:id" [(GET, Download); (DELETE, DeleteFile)] ++
  route "/files/:id/health" [(GET, FileHealth)] ++
  route "/files/:id/placement" [(GET, FilePlacement)] ++
  route "/browse" [(GET, Browse)] ++
  route "/download" [(GET, DownloadPath)] ++
  route "/folders" [(POST, Mkdir)] ++
  route "/rename" [(POST, Rename)] ++
  route "/delete" [(POST, DeletePath)] ++
  route "/trash" [(GET, TrashList)] ++
  route "/trash/restore" [(POST, Restore)] ++
  route "/trash/purge" [(POST, Purge)] ++
  route "/trash/empty" [(POST, EmptyTrash)] ++
  route "/files/:id/versions" [(GET, Versions)] ++
  admin_routes).

Definition ipc_routes : list Route := route_layer RequireIpcSecret (route "/ipc/events" [(POST, Ingest)]).
Definition system : list Route := route "/health" [(GET, Health)].
Definition build : list Route := system ++ ipc_routes ++ authed.

(** ** The gates *)

(** What the core's token says of its bearer. *)
Record Claims := mkClaims { cl_id : string; cl_role : string; cl_email : string }.
Record P2pUser := mkUser { u_id : string; u_role : string; u_email : string }.
Definition is_admin (u : P2pUser) : bool := bool_decide (u_role u = "admin"%string).

Definition MODULE_ID : string := "p2pnas".
Definition SECRET_HEADER : string := "x-internal-secret".

(** A request as the gates see it: its headers that read as text, and the user a gate left in
    its extensions. *)
Record Request := mkRequest {
  rq_method : Method; rq_path : string; rq_headers : gmap string string; rq_user : option P2pUser
}.

(** The router and the token library. *)
Class Web := {
  (** The route a request is dispatched to. *)
  route_for : list Route -> Method -> string -> option Route;
  TOKEN_HEADER : string;
  (** The claims of a token under a secret, for an audience. *)
  verify_token : bytes -> string -> string -> option Claims
}.
Class WebLaws `{Web} := {
  route_listed rs m p r : route_for rs m p = Some r -> r ∈ rs /\ rt_method r = m
}.

Section Gates.
Context `{Web}.
Variable internal_secret : string.

Definition require_ipc_secret (q : Request) : res P2pError Request :=
  let provided := default ""%string (rq_headers q !! SECRET_HEADER) in
  if same internal_secret "" || negb (constant_time_eq (as_bytes provided) (as_bytes internal_secret))
  then Err Unauthorized else Ok q.

Definition require_auth (q : Request) : res P2pError Request :=
  token ← ok_or (rq_headers q !! TOKEN_HEADER) Unauthorized;
  c ← ok_or (verify_token (as_bytes internal_secret) token MODULE_ID) Unauthorized;
  Ok (mkRequest (rq_method q) (rq_path q) (rq_headers q) (Some (mkUser (cl_id c) (cl_role c) (cl_email c)))).

Definition require_admin (q : Request) : res P2pError Request :=
  match rq_user q with
  | Some u => if is_admin u then Ok q else Err Forbidden
  | None => Err Forbidden
  end.

Definition run_layer (q : Request) (l : Layer) : res P2pError Request :=
  match l with
  | RequireAuth => require_auth q
  | RequireAdmin => require_admin q
  | RequireIpcSecret => require_ipc_secret q
  end.

Inductive Outcome :=
| Unrouted
| Refused (e : P2pError)
| Served (h : Endpoint) (u : option P2pUser).

(** A request as it arrives carries no extension. *)
Definition serve (m : Method) (p : string) (headers : gmap string string) : Outcome :=
  match route_for build m p with
  | None => Unrouted
  | Some r =>
      match foldM run_layer (mkRequest m p headers None) (rt_layers r) with
      | Ok q => Served (rt_endpoint r) (rq_user q)
      | Err e => Refused e
      | Panic => Unrouted
      end
  end.
End Gates.

(** ** Who gets through *)

(** The handlers that run for an administrator only, those that act for a user, and the one the
    core calls. *)
Inductive Audience := Anyone | AnyUser | Administrators | TheCore.
Definition audience (h : Endpoint) : Audience :=
  match h with
  | Health => Anyone
  | Ingest => TheCore
  | Status | QuotaMe | ListFiles | Upload | Download | DeleteFile | FileHealth | FilePlacement | Browse
  | DownloadPath | Mkdir | Rename | DeletePath | TrashList | Restore | Purge | EmptyTrash | Versions => AnyUser
  | _ => Administrators
  end.

Definition layers_of (a : Audience) : list Layer :=
  match a with
  | Anyone => []
  | AnyUser => [RequireAuth]
  | Administrators => [RequireAuth; RequireAdmin]
  | TheCore => [RequireIpcSecret]
  end.

Lemma constant_time_eq_spec a b : constant_time_eq a b = true <-> a = b.
Proof.
  unfold constant_time_eq. destruct (Z.eqb_spec (len a) (len b)) as [Hl|Hl]; cbn [negb].
  - rewrite Z.eqb_eq, lor_fold_zero by lia. split; [intros [_ Hf]|intros ->; split; [done|]].
    + unfold len in Hl. apply Nat2Z.inj in Hl. revert b Hl Hf. induction a as [|x a IH]; intros [|y b]; try done.
      cbn [zip zip_with]. intros [= Hl] [E Hf]%Forall_cons. cbn in E. subst y. f_equal. by apply IH.
    + clear. induction b as [|x b IH]; constructor; [done|exact IH].
  - split; [done|]. by intros ->.
Qed.

(** Every route is behind the gates of the audience of its handler. *)
Lemma routes_gated : Forall (fun r => rt_layers r = layers_of (audience (rt_endpoint r))) build.
Proof. repeat constructor. Qed.

(** No method of a path is declared twice, and no handler serves two routes. *)
Lemma routes_distinct : NoDup ((fun r => (rt_method r, rt_path r)) <$> build) /\ NoDup (rt_endpoint <$> build).
Proof. split; apply (bool_decide_unpack _); vm_compute; exact I. Qed.

Section Access.
Context `{WL : WebLaws}.
Variable internal_secret : string.

(** What the headers prove. *)
Definition bearer (headers : gmap string string) : option Claims :=
  token ← headers !! TOKEN_HEADER; verify_token (as_bytes internal_secret) token MODULE_ID.
Definition user_of (c : Claims) : P2pUser := mkUser (cl_id c) (cl_role c) (cl_email c).
Definition from_core (headers : gmap string string) : Prop :=
  internal_secret <> ""%string /\ default ""%string (headers !! SECRET_HEADER) = internal_secret.
#[export] Instance from_core_dec h : Decision (from_core h).
Proof. unfold from_core. apply _. Defined.

(** What a routed request gets. *)
Definition verdict (h : Endpoint) (headers : gmap string string) : Outcome :=
  match audience h, bearer headers with
  | Anyone, _ => Served h None
  | TheCore, _ => if decide (from_core headers) then Served h None else Refused Unauthorized
  | _, None => Refused Unauthorized
  | AnyUser, Some c => Served h (Some (user_of c))
  | Administrators, Some c =>
      if decide (cl_role c = "admin"%string) then Served h (Some (user_of c)) else Refused Forbidden
  end.

Lemma ipc_gate q : require_ipc_secret internal_secret q = if decide (from_core (rq_headers q)) then Ok q else Err Unauthorized.
Proof.
  unfold require_ipc_secret, from_core.
  destruct (constant_time_eq _ _) eqn:Ec; [apply constant_time_eq_spec, as_bytes_inj in Ec|];
    destruct (same internal_secret "") eqn:Es; cbn [negb orb].
  - apply same_true in Es. by rewrite decide_False by naive_solver.
  - rewrite decide_True; [done|]. split; [|done]. intros E. by rewrite (proj2 (same_true _ _) E) in Es.
  - apply same_true in Es. by rewrite decide_False by naive_solver.
  - rewrite decide_False; [done|]. intros [_ E]. rewrite E in Ec. by rewrite (proj2 (constant_time_eq_spec _ _) eq_refl) in Ec.
Qed.

Lemma gates_verdict m p headers h :
  match foldM (run_layer internal_secret) (mkRequest m p headers None) (layers_of (audience h)) with
  | Ok q => Served h (rq_user q)
  | Err e => Refused e
  | Panic => Unrouted
  end = verdict h headers.
Proof.
  assert (Ha : require_auth internal_secret (mkRequest m p headers None) =
    match bearer headers with Some c => Ok (mkRequest m p headers (Some (user_of c))) | None => Err Unauthorized end).
  { unfold require_auth, bearer. cbn [rq_headers]. destruct (headers !! TOKEN_HEADER); cbn; [|done]. by destruct (verify_token _ _ _). }
  unfold verdict. destruct (audience h); cbn [layers_of foldM run_layer].
  - done.
  - rewrite Ha. by destruct (bearer headers).
  - rewrite Ha. destruct (bearer headers) as [c|]; [|done]. cbn [mbind res_bind]. unfold require_admin, is_admin.
    cbn [rq_user u_role user_of]. by case_decide; [rewrite bool_decide_eq_true_2|rewrite bool_decide_eq_false_2].
  - rewrite ipc_gate. cbn [rq_headers]. by destruct (decide _).
Qed.

(** C29. A handler runs for exactly the callers it is meant for. Whatever the request, it reaches
    a handler only on one of the routes; then a handler of the administration runs exactly when
    the token verifies for this module and its role is admin, a handler of a user exactly when
    the token verifies, the event route exactly when the secret is set and matches, and the
    handler sees the identity of the token and no other. A refusal is 401 without a valid
    credential and 403 for a valid one that is not an administrator's. *)
Theorem access_control m p headers :
  match serve internal_secret m p headers with
  | Unrouted => route_for build m p = None
  | o => exists h, (exists r, r ∈ build /\ rt_method r = m /\ rt_endpoint r = h) /\ o = verdict h headers
  end.
Proof.
  unfold serve. destruct (route_for build m p) as [r|] eqn:Er; [|done].
  destruct (route_listed _ _ _ _ Er) as [Hin Hm]. pose proof routes_gated as Hg. rewrite Forall_forall in Hg.
  rewrite (Hg r Hin), gates_verdict. set (h := rt_endpoint r).
  assert (Hv : exists h', (exists r, r ∈ build /\ rt_method r = m /\ rt_endpoint r = h') /\ verdict h headers = verdict h' headers).
  { exists h. split; [by exists r|done]. }
  destruct (verdict h headers) eqn:E; [|done..]. exfalso. revert E. unfold verdict.
  destruct (audience h), (bearer headers); try done; by case_decide.
Qed.
End Access.

(** ** Handlers that read the ledger *)

(** [quota::me]: quota, used, available, provisional. *)
Record QuotaView := mkQuotaView { qv_quota : Z; qv_used : Z; qv_available : Z; qv_provisional : bool }.
Definition me (cfg : InstanceConfig) (l : Ledger) (user : string) : QuotaView :=
  let '(quota, used, provisional) := effective cfg l user in
  mkQuotaView quota used (Z.max (quota - used) 0) provisional.

Definition by_account (a b : string * (Z * Z)) : Prop := str_le a.1 b.1.
#[export] Instance by_account_dec a b : Decision (by_account a b).
Proof. unfold by_account. apply _. Defined.
(** [admin::list_quotas]: one line per row, in the order of the accounts. *)
Definition list_quotas (l : Ledger) : list (string * QuotaView) :=
  (fun r : string * (Z * Z) => (r.1, mkQuotaView r.2.1 r.2.2 (Z.max (r.2.1 - r.2.2) 0) false)) <$>
    merge_sort by_account (map_to_list (user_quota l)).

(** [status::status]: contributed, used, available. *)
Definition status (l : Ledger) : Z * Z * Z :=
  (contributed l, node_used l, Z.max (contributed l - node_used l) 0).

Lemma fits_some {A} (a b : Z) (x : A) (P : Prop) : (P <-> a <= b) -> is_Some (if a <=? b then Some x else None) <-> P.
Proof. intros ->. destruct (Z.leb_spec a b); split; [done|by eexists|by intros [? ?]|lia]. Qed.

(** What an account is told it has is what its next upload gets: the first upload
    materialises the very figures shown, an upload of [size] bytes, [0 < size], is admitted
    exactly when it fits the space announced as available, and the row that was created shows
    the same figures. *)
Theorem quota_preview_exact cfg l user size :
  0 < size ->
  let v := me cfg l user in
  let '(l', row) := ensure cfg l user in
  row = (qv_quota v, qv_used v) /\ (is_Some (charge l' user size) <-> size <= qv_available v) /\
  qv_quota (me cfg l' user) = qv_quota v /\ qv_available (me cfg l' user) = qv_available v.
Proof.
  intros Hs. unfold me, ensure, effective, charge, unallocated. destruct (user_quota l !! user) as [[quota used]|] eqn:E.
  - rewrite E. cbn. split; [done|split; [|done]]. apply fits_some. lia.
  - destruct (Z.leb_spec (default_quota_bytes cfg) 0).
    { rewrite E. cbn. split; [done|split; [|done]]. split; [by intros [? ?]|lia]. }
    destruct (Z.leb_spec (Z.min (default_quota_bytes cfg) (Z.max (contributed l - allocated l) 0)) 0).
    { rewrite E. cbn. split; [f_equal; lia|split; [|done]]. split; [by intros [? ?]|lia]. }
    cbn [set_rows user_quota]. rewrite lookup_insert_eq. cbn. split; [done|split; [|lia]]. apply fits_some. lia.
Qed.

(** ** A run *)

Module AccessRun.
(** A router that matches paths to the letter, and tokens that name their secret. *)
#[local] Instance toy_web : Web := {|
  route_for rs m p := find (fun r => bool_decide (rt_method r = m) && same (rt_path r) p) rs;
  TOKEN_HEADER := "x-kubuno-auth";
  verify_token secret token aud :=
    if same token (of_bytes secret ++ "/" ++ aud ++ "/root") then Some (mkClaims "u1" "admin" "root@x")
    else if same token (of_bytes secret ++ "/" ++ aud ++ "/bob") then Some (mkClaims "u2" "user" "bob@x")
    else None
|}.
#[local] Instance toy_laws : WebLaws.
Proof.
  constructor. intros rs m p r Hf. cbn in Hf. apply List.find_some in Hf as [Hin Hm]. split; [by apply list_elem_of_In|].
  apply andb_true_iff in Hm as [Hm _]. by apply bool_decide_eq_true in Hm.
Qed.

Definition bob : gmap string string := {[ "x-kubuno-auth"%string := "s3cret/p2pnas/bob"%string ]}.
Lemma access_control_witness :
  serve "s3cret" POST "/admin/repair" bob = Refused Forbidden /\
  serve "s3cret" POST "/rename" bob = Served Rename (Some (mkUser "u2" "user" "bob@x")) /\
  serve "" POST "/ipc/events" ∅ = Refused Unauthorized /\
  exists h, (exists r, r ∈ build /\ rt_method r = POST /\ rt_endpoint r = h) /\ Refused Forbidden = verdict "s3cret" h bob.
Proof.
  assert (E : serve "s3cret" POST "/admin/repair" bob = Refused Forbidden) by (vm_compute; reflexivity).
  split; [exact E|split; [vm_compute; reflexivity|split; [vm_compute; reflexivity|]]].
  pose proof (access_control "s3cret" POST "/admin/repair" bob) as H. rewrite E in H. exact H.
Defined.

Lemma quota_preview_exact_witness :
  let cfg := mkInstance 100 1000 600 5 [] 14 45 180 in let l := mkLedger 1000 0 ∅ in
  qv_available (me cfg l "u") = 100 /\ is_Some (charge (ensure cfg l "u").1 "u" 100).
Proof.
  cbv zeta. pose proof (quota_preview_exact (mkInstance 100 1000 600 5 [] 14 45 180) (mkLedger 1000 0 ∅) "u" 100 ltac:(lia)) as H.
  assert (Ea : qv_available (me (mkInstance 100 1000 600 5 [] 14 45 180) (mkLedger 1000 0 ∅) "u") = 100) by (vm_compute; reflexivity).
  split; [exact Ea|]. destruct (ensure _ _ _) as [l' row]. cbv zeta in H. rewrite Ea in H.
  destruct H as (_ & Hc & _). apply (proj2 Hc). lia.
Defined.
End AccessRun.
