(* ===== verification/Browse.v ===== *)
(** * The folder view of the files ([service.rs]: browse; handlers of [files.rs])

    What the mount shows of a directory, and what the list handlers answer: which files and
    folders appear where, and that descending from the root reaches every file whose path has
    no empty segment. *)

From Stdlib Require Import ZArith Lia Strings.Ascii Strings.String Strings.Byte.
From stdpp Require Import base numbers list gmap strings relations sorting.
From S2P Require Import Prelude External Erasure Crypto Pipeline Paths Manifest ManifestInv ChunkStore Text.
From S2P Require Import Service ServiceProofs ServiceSpec ServiceWitness Accounts.

(** ** The answers of the handlers *)

(** [rsplit('/').next()]. *)
Record BrowseFolder := mkBrowseFolder { bf_name : string; bf_path : string }.
Record BrowseFile := mkBrowseFile { bl_name : string; bl_path : string; bl_file_id : string; bl_size : Z; bl_created_at : string }.

Definition browse_answer (db : Db) (user : string) (path : option string) : list BrowseFolder * list BrowseFile :=
  let l := browse db user (default ""%string path) in
  ((fun p => mkBrowseFolder (basename p) p) <$> l.1,
   (fun f => mkBrowseFile (basename (r_path f)) (r_path f) (r_file_id f) (r_size f) (r_created_at f)) <$> l.2).

Definition TRASH_COUNTS_AGAINST_QUOTA : bool := true.
(** The trash, its bytes, whether they count, and how long it is kept. *)
Definition trash_list (db : Db) (user : string) : list FileRow * Z * bool * Z :=
  let fs := list_trashed db user in
  (fs, zsum (r_size <$> fs), TRASH_COUNTS_AGAINST_QUOTA, trash_days retention_policy).

(** The versions, how many are kept, and how long. *)
Definition versions (db : Db) (user id : string) : res StoreError (list FileRow * Z * Z) :=
  l ← list_versions db user id; Ok (l, keep_versions retention_policy, version_days retention_policy).

(** ** Directories and names *)

(** A name in a directory. *)
Definition join (d n : string) : string := if same d "" then n else (d ++ "/" ++ n)%string.
Definition plain_name (n : string) : Prop := n <> ""%string /\ slash ∉ chars n.
#[export] Instance plain_name_dec n : Decision (plain_name n).
Proof. unfold plain_name. apply _. Defined.

Lemma split_once_none l : split_once_slash l = None <-> slash ∉ l.
Proof.
  induction l as [|c l IH]; cbn [split_once_slash]; [split; [by intros _ ?%elem_of_nil|done]|].
  case_bool_decide as E.
  - subst c. split; [done|]. intros H. destruct H. left.
  - rewrite not_elem_of_cons. destruct (split_once_slash l) as [[a b]|]; split; try done.
    + intros [_ H]. by apply IH in H.
    + intros _. split; [congruence|by apply IH].
Qed.

Lemma split_once_some l a b : split_once_slash l = Some (a, b) <-> l = a ++ slash :: b /\ slash ∉ a.
Proof.
  revert a b. induction l as [|c l IH]; intros a b; cbn [split_once_slash].
  - split; [done|]. intros [E _]. by destruct a.
  - case_bool_decide as E.
    + subst c. split; [intros [= <- <-]; split; [done|apply not_elem_of_nil]|]. intros [Hl Ha]. destruct a as [|d a].
      * cbn in Hl. congruence.
      * cbn in Hl. injection Hl as <- _. destruct Ha. left.
    + destruct (split_once_slash l) as [[x y]|] eqn:Es.
      * split.
        -- intros [= <- <-]. destruct (proj1 (IH x y) eq_refl) as [-> Hx]. split; [done|]. apply not_elem_of_cons. split; [congruence|done].
        -- intros [Hl Ha]. destruct a as [|d a]; cbn in Hl; [congruence|]. injection Hl as <- Hl.
           apply not_elem_of_cons in Ha as [_ Ha]. assert (Some (x, y) = Some (a, b)) as [= -> ->] by (by apply IH). done.
      * split; [done|]. intros [Hl Ha]. destruct a as [|d a]; cbn in Hl; [congruence|]. injection Hl as <- Hl.
        apply not_elem_of_cons in Ha as [_ Ha]. assert (None = Some (a, b)) by (by apply IH). done.
Qed.

(** What follows a directory in a path. *)
Definition rel_to (d p : string) : option (list ascii) :=
  if same d "" then Some (chars p)
  else match strip_prefix (chars d) (chars p) with Some r => strip_prefix [slash] r | None => None end.

Lemma rel_to_spec d p rel : rel_to d p = Some rel <-> p = join d (unchars rel).
Proof.
  unfold rel_to, join. destruct (same d "") eqn:Ed.
  - split; [intros [= <-]; by rewrite unchars_chars|]. intros ->. by rewrite chars_unchars.
  - destruct (strip_prefix (chars d) (chars p)) as [r|] eqn:Er.
    + apply strip_prefix_spec in Er. rewrite strip_prefix_spec. split.
      * intros ->. apply chars_inj. rewrite !chars_app, chars_unchars. exact Er.
      * intros E. apply (f_equal chars) in E. rewrite !chars_app, chars_unchars, Er in E. by apply app_inv_head in E.
    + split; [done|]. intros ->. assert (E : strip_prefix (chars d) (chars (d ++ "/" ++ unchars rel)) = Some (chars ("/" ++ unchars rel)%string))
        by (apply strip_prefix_spec; by rewrite chars_app). congruence.
Qed.

Lemma classify_rel d f :
  classify d f = match rel_to d (r_path f) with
                 | None | Some [] => Elsewhere
                 | Some rel => match split_once_slash rel with
                               | Some (c, _) => ChildFolder (join d (unchars c))
                               | None => ChildFile f
                               end
                 end.
Proof. unfold classify, rel_to, join. by destruct (same d ""). Qed.

Lemma classify_file d f g : classify d f = ChildFile g <-> g = f /\ exists n, plain_name n /\ r_path f = join d n.
Proof.
  rewrite classify_rel. destruct (rel_to d (r_path f)) as [rel|] eqn:Er.
  - pose proof Er as Ep%rel_to_spec. split.
    + destruct rel as [|c rel]; [done|]. destruct (split_once_slash _) as [[a b]|] eqn:Es; [done|]. intros [= <-].
      split; [done|]. exists (unchars (c :: rel)). split; [split; [done|]|done]. rewrite chars_unchars. by apply split_once_none.
    + intros (-> & n & [Hne Hn] & E). assert (Hrel : rel_to d (r_path f) = Some (chars n)) by (apply rel_to_spec; by rewrite unchars_chars).
      assert (rel = chars n) as -> by congruence. apply split_once_none in Hn.
      destruct (chars n) as [|c l] eqn:Ec; [destruct Hne; by apply chars_inj|]. by rewrite Hn.
  - split; [done|]. intros (_ & n & _ & E). assert (rel_to d (r_path f) = Some (chars n)) by (apply rel_to_spec; by rewrite unchars_chars). congruence.
Qed.

Lemma classify_folder d f p :
  classify d f = ChildFolder p <->
  exists c rest, slash ∉ chars c /\ r_path f = join d (c ++ "/" ++ rest)%string /\ p = join d c.
Proof.
  rewrite classify_rel. destruct (rel_to d (r_path f)) as [rel|] eqn:Er.
  - pose proof Er as Ep%rel_to_spec. split.
    + destruct rel as [|c rel]; [done|]. destruct (split_once_slash _) as [[a b]|] eqn:Es; [|done]. intros [= <-].
      apply split_once_some in Es as [Es Ha]. exists (unchars a), (unchars b). rewrite chars_unchars. split; [done|split; [|done]].
      rewrite Ep. f_equal. apply chars_inj. rewrite !chars_app, !chars_unchars. exact Es.
    + intros (c & rest & Hc & E & ->).
      assert (Hrel : rel_to d (r_path f) = Some (chars (c ++ "/" ++ rest)%string)) by (apply rel_to_spec; by rewrite unchars_chars).
      assert (rel = chars (c ++ "/" ++ rest)%string) as -> by congruence.
      assert (Hs : split_once_slash (chars (c ++ "/" ++ rest)) = Some (chars c, chars rest)).
      { apply split_once_some. split; [|done]. by rewrite !chars_app. }
      rewrite Hs. rewrite unchars_chars. destruct (chars (c ++ "/" ++ rest)) eqn:El; [|done].
      rewrite !chars_app in El. by destruct (chars c).
  - split; [done|]. intros (c & rest & _ & E & _).
    assert (rel_to d (r_path f) = Some (chars (c ++ "/" ++ rest)%string)) by (apply rel_to_spec; by rewrite unchars_chars). congruence.
Qed.

(** ** What a directory shows *)

Lemma browse_members db user dir :
  let d := trim_slashes dir in let l := browse db user dir in
  (forall f, f ∈ l.2 <-> f ∈ list_files db user /\ exists n, plain_name n /\ r_path f = join d n) /\
  (forall p, p ∈ l.1 <-> p ∈ folders_in db user d \/
     exists f c rest, f ∈ list_files db user /\ slash ∉ chars c /\ r_path f = join d (c ++ "/" ++ rest)%string /\ p = join d c).
Proof.
  cbv zeta. unfold browse. cbn [fst snd]. split.
  - intros f. rewrite list_elem_of_omap. split.
    + intros (k & (g & -> & Hg)%list_elem_of_fmap & Hk). destruct (classify _ g) eqn:E; try discriminate. injection Hk as ->.
      apply classify_file in E as [-> Hn]. done.
    + intros [Hf Hn]. exists (ChildFile f). split; [|done]. apply list_elem_of_fmap. exists f. split; [|done].
      symmetry. by apply classify_file.
  - intros p. rewrite merge_sort_Permutation, elem_of_remove_dups, elem_of_app, list_elem_of_omap. split.
    + intros [?|(k & (g & -> & Hg)%list_elem_of_fmap & Hk)]; [by left|right].
      destruct (classify _ g) eqn:E; try discriminate. injection Hk as ->.
      apply classify_folder in E as (c & rest & H1 & H2 & H3). by exists g, c, rest.
    + intros [?|(f & c & rest & Hf & Hs)]; [by left|right]. exists (ChildFolder p). split; [|done].
      apply list_elem_of_fmap. exists f. split; [|done]. symmetry. apply classify_folder. by exists c, rest.
Qed.

(** A path without a slash at either end. *)
Definition tidy (s : string) : Prop :=
  (forall c l, chars s = c :: l -> c <> slash) /\ (forall l c, chars s = l ++ [c] -> c <> slash).

Lemma trim_start_id l : (forall c k, l = c :: k -> c <> slash) -> trim_start l = l.
Proof. destruct l as [|c l]; [done|]. intros H. cbn. by rewrite bool_decide_eq_false_2 by (by eapply H). Qed.
Lemma trim_tidy s : tidy s -> trim_slashes s = s.
Proof.
  intros [Hh Hl]. unfold trim_slashes. rewrite (trim_start_id (chars s)) by exact Hh. rewrite trim_start_id.
  - by rewrite reverse_involutive, unchars_chars.
  - intros c k E. apply (Hl (reverse k) c). by rewrite <- (reverse_involutive (chars s)), E, reverse_cons.
Qed.

Lemma plain_ends n : plain_name n -> tidy n.
Proof.
  intros [_ Hn]. split; [intros c l E|intros l c E]; intros ->; apply Hn; rewrite E; [left|]. apply elem_of_app. right. left.
Qed.

(** The path a list of segments spells. *)
Definition path_of (segs : list string) : string := foldl join "" segs.

Lemma path_of_snoc segs n : path_of (segs ++ [n]) = join (path_of segs) n.
Proof. unfold path_of. by rewrite foldl_app. Qed.

Lemma path_of_tidy segs : Forall plain_name segs -> tidy (path_of segs) /\ (segs <> [] -> path_of segs <> ""%string).
Proof.
  induction segs as [|n segs IH] using rev_ind; intros Hall.
  { split; [split; [done|by intros [|? ?] ?]|done]. }
  apply Forall_app in Hall as [Hall Hn]. apply Forall_cons in Hn as [Hn _]. destruct (IH Hall) as [[Hh Hl] _]. rewrite path_of_snoc.
  pose proof (plain_ends n Hn) as [Nh Nl]. destruct Hn as [Hne _]. unfold join. destruct (same (path_of segs) "") eqn:Ed; [done|].
  split; [split|].
  - intros c l E. rewrite !chars_app in E. destruct (chars (path_of segs)) as [|c' l'] eqn:Ec.
    + assert (path_of segs = ""%string) as E0 by (by apply chars_inj). by rewrite (proj2 (same_true _ _) E0) in Ed.
    + injection E as <- _. by eapply Hh.
  - intros l c E. rewrite !chars_app in E. destruct (exists_last (l := chars n)) as (k & x & En); [intros E0; apply Hne; by apply chars_inj|].
    rewrite En, !app_assoc in E. apply app_inj_tail in E as [_ <-]. by eapply Nl.
  - intros _ E. apply (f_equal chars) in E. rewrite !chars_app in E. by destruct (chars (path_of segs)).
Qed.

(** The path continues below a directory it passes through. *)
Lemma path_of_through pre n post :
  Forall plain_name (pre ++ n :: post) -> post <> [] ->
  exists rest, path_of (pre ++ n :: post) = join (path_of pre) (n ++ "/" ++ rest)%string.
Proof.
  intros Hall. induction post as [|m post IH] using rev_ind; [done|]. intros _.
  assert (Hpre : Forall plain_name (pre ++ n :: post)).
  { replace (pre ++ n :: post ++ [m]) with ((pre ++ n :: post) ++ [m]) in Hall by (by rewrite <- app_assoc). by apply Forall_app in Hall as [? _]. }
  replace (pre ++ n :: post ++ [m]) with ((pre ++ n :: post) ++ [m]) by (by rewrite <- app_assoc). rewrite path_of_snoc.
  assert (Hne : path_of (pre ++ n :: post) <> ""%string) by (apply path_of_tidy; [done|by destruct pre]).
  unfold join at 1. rewrite (same_false _ _ Hne). destruct post as [|m' post].
  - exists m. rewrite path_of_snoc. unfold join. destruct (same (path_of pre) ""); [done|]. apply chars_inj. rewrite !chars_app. by rewrite <- !app_assoc.
  - destruct (IH Hpre) as (rest & ->); [done|]. exists (rest ++ "/" ++ m)%string. unfold join.
    destruct (same (path_of pre) ""); apply chars_inj; rewrite !chars_app; by rewrite <- ?app_assoc.
Qed.

(** The mount shows every file where its path says. A directory lists exactly the live files
    whose path is the directory and one name, and exactly the folders that were created in it
    or that the paths of live files go through. So a file whose path has no empty segment is
    found by descending from the root: each directory of its path shows the next one, and the
    last shows the file. *)
Theorem browse_exact db user :
  (forall dir, let d := trim_slashes dir in let l := browse db user dir in
     (forall f, f ∈ l.2 <-> f ∈ list_files db user /\ exists n, plain_name n /\ r_path f = join d n) /\
     (forall p, p ∈ l.1 <-> p ∈ folders_in db user d \/
        exists f c rest, f ∈ list_files db user /\ slash ∉ chars c /\ r_path f = join d (c ++ "/" ++ rest)%string /\ p = join d c)) /\
  forall f segs n, f ∈ list_files db user -> Forall plain_name (segs ++ [n]) -> r_path f = path_of (segs ++ [n]) ->
    f ∈ (browse db user (path_of segs)).2 /\
    forall pre s post, segs = pre ++ s :: post -> path_of (pre ++ [s]) ∈ (browse db user (path_of pre)).1.
Proof.
  split; [intros dir; apply browse_members|]. intros f segs n Hf Hall Hp.
  pose proof Hall as Hall2. apply Forall_app in Hall2 as [Hsegs Hn]. apply Forall_cons in Hn as [Hn _]. split.
  - apply (browse_members db user (path_of segs)). rewrite trim_tidy by (by apply path_of_tidy). split; [done|].
    exists n. split; [done|]. by rewrite Hp, path_of_snoc.
  - intros pre s post ->. apply (browse_members db user (path_of pre)). right.
    rewrite trim_tidy by (apply path_of_tidy; by apply Forall_app in Hsegs as [? _]).
    rewrite <- app_assoc in Hall, Hp. cbn [app] in Hall, Hp.
    destruct (path_of_through pre s (post ++ [n]) Hall) as (rest & E); [by destruct post|].
    exists f, s, rest. split; [done|]. rewrite Hp, E, path_of_snoc. split; [|done].
    apply Forall_app in Hall as [_ [[_ Hs] _]%Forall_cons]. exact Hs.
Qed.

(** ** Runs *)

Module BrowseRun.
Import Toy StoreRun.

Lemma browse_exact_witness :
  exists f, f ∈ list_files w2.1 "u" /\ r_path f = "notes/b"%string /\ f ∈ (browse w2.1 "u" "notes").2 /\
    "notes"%string ∈ (browse w2.1 "u" "").1.
Proof.
  assert (Hp : plain_name "notes" /\ plain_name "b") by (split; apply (bool_decide_unpack _); vm_compute; exact I).
  assert (Hex : existsb (fun f => same (r_path f) "notes/b") (list_files w2.1 "u") = true) by (vm_compute; reflexivity).
  apply existsb_exists in Hex as (f & Hf%list_elem_of_In & E%same_true).
  destruct (proj2 (browse_exact w2.1 "u") f ["notes"%string] "b"%string Hf) as [Hb Hr].
  - destruct Hp as [Ha Hb]. apply Forall_cons_2; [exact Ha|]. by apply Forall_singleton.
  - exact E.
  - exists f. split; [exact Hf|split; [exact E|split; [exact Hb|]]]. exact (Hr [] "notes"%string [] eq_refl).
Defined.

(** An upload keeps the slashes at the ends of its path, which every call by path trims: the
    file stored at "/a" is shown as a folder without a name, which leads back to the root, and
    can be neither deleted nor renamed by its path. *)
Definition slashed : Db := (next w0 "/a" (as_bytes "hello") rnd1 "t1").1.
Theorem leading_slash_hides :
  is_none (get_file_by_path slashed "u" "/a") = false /\
  browse slashed "u" "" = ([""%string], []) /\ browse slashed "u" "/" = ([""%string], []) /\
  trash_path slashed "u" "/a" "t2" = Err NotFound /\ rename slashed "u" "/a" "b" = Err NotFound.
Proof. split; [|split; [|split; [|split]]]; vm_compute; reflexivity. Qed.
End BrowseRun.
