(* ===== verification/Discovery.v ===== *)
(** * Peer discovery ([crates/server/src/discovery/{dht,mdns}.rs], receive loop of [p2p/src/dht.rs])

    The tasks that find peers: the receive loop of the DHT node, the discovery task that
    restores, joins, refreshes and harvests the overlay, and the task that listens on the LAN.
    Each step is one task from an await to its next, so a run is any interleaving of them; what
    a run may contact and register is what these tasks promise the peer table. *)

From Stdlib Require Import ZArith Lia Strings.Ascii Strings.String Strings.Byte.
From stdpp Require Import base numbers list gmap strings pretty.
From S2P Require Import Prelude External Erasure Crypto Paths Text Manifest ChunkStore Service Protocol Server Client.
From S2P Require Import ManifestInv ReadPath Dht DhtProofs DhtWitness Placement Peers.

(** ** Switches of the environment *)

Definition env_on (v : option string) : bool :=
  match v with Some x => same x "1" || same x "true" || same x "yes" | None => false end.
(** [AddrPolicy::from_env] and [strict_peer_auth], of the variable's value. *)
Definition from_env (v : option string) : AddrPolicy := if env_on v then AllowPrivate else PublicOnly.
Definition strict_peer_auth (v : option string) : bool := env_on v.

(** ** Addresses as text *)

Definition addr_text (a : string * Z) : string := (a.1 ++ ":" ++ pretty a.2)%string.

(** [str::parse::<SocketAddr>]: the text of an IPv6 address needs brackets. *)
Class SockText `{IpText} := {
  parse_sock : string -> option (IpAddr * Z);
  parse_sock_v4 a b c d port : 0 <= port < 65536 -> parse_sock (addr_text (ip_to_string (V4 a b c d), port)) = Some (V4 a b c d, port);
  parse_sock_v6 s port : parse_sock (addr_text (ip_to_string (V6 s), port)) = None
}.

(** [serde_json::from_slice::<DhtMsg>]. *)
Class DhtWire := { decode_msg : bytes -> option DhtMsg }.

Definition MAX_DATAGRAM : Z := 16 * 1024.
Definition SERVICE_TYPE : string := "_p2pnas._tcp.local.".

(** An instance resolved on the LAN. *)
Record ServiceInfo := mkService { fullname : string; announced : option string; sv_port : Z; addresses : list string }.

Abbreviation DhtLog := (list (Event * list Datagram)).

Section Discovery.
Context `{CryptoPrims} `{SockText} `{DhtWire} `{Ed25519} {R : Type} `{!Remote R}.
Variables (me : string) (api_port p2p_port : Z).
(** The two variables of the environment. *)
Variables (allow_private strict_auth : option string).
Variable fetch_first : list string -> option string.

Definition is_routable_peer_addr (addr : string) : bool :=
  match parse_sock addr with Some (ip, port) => is_contactable_port port && is_routable_ip ip | None => false end.
Definition contactable (addr : string) (p : AddrPolicy) : bool :=
  match parse_sock addr with Some (ip, port) => accepts p ip port | None => false end.

(** Where the discovery task is. *)
Inductive Pc := Importing | Joining | Ticking | Settling | Registering (todo : list string).
(** The node, the task, the addresses the LAN task has yet to try, the file of the routing
    table as it parses, and the peers. *)
Record Disco := mkDisco {
  node : DhtNode; pc : Pc; lan : list string; state_file : option (list NodeRec); remote : R; peers : Table
}.
Definition with_node (s : Disco) (d : DhtNode) : Disco := mkDisco d (pc s) (lan s) (state_file s) (remote s) (peers s).
Definition with_pc (s : Disco) (p : Pc) : Disco := mkDisco (node s) p (lan s) (state_file s) (remote s) (peers s).
Definition with_lan (s : Disco) (l : list string) : Disco := mkDisco (node s) (pc s) l (state_file s) (remote s) (peers s).

Definition register (s : Disco) (addr : string) (now : Z) (rnd : option bytes) : Disco * option string :=
  let '(r, t, pid) := register_peer parse_sock me api_port (strict_peer_auth strict_auth) fetch_first now addr rnd (remote s) (peers s) in
  (mkDisco (node s) (pc s) (lan s) (state_file s) r t, pid).

Inductive Label :=
| Packet (data : bytes) (src : SocketAddr) (now : Z)
| Task (now : Z) (rnd : option bytes) (names : list (option SocketAddr))
| Resolved (info : ServiceInfo)
| Lan (now : Z) (rnd : option bytes).

(** The addresses a resolved instance offers; none when it is this node. *)
Definition offered (info : ServiceInfo) : list string :=
  if same (fullname info) (me ++ "." ++ SERVICE_TYPE) || bool_decide (announced info = Some me) then []
  else (fun ip => addr_text (ip, sv_port info)) <$> addresses info.

(** The event of the DHT node a step is, if any. *)
Definition event_of (s : Disco) (l : Label) : option Event :=
  match l with
  | Packet data src now => (fun m => Recv m src now) <$> decode_msg (take (Z.to_nat MAX_DATAGRAM) data)
  | Task now _ names =>
      match pc s with
      | Importing => (fun nodes => Import (take MAX_PERSIST_NODES nodes) now) <$> state_file s
      | Joining => if bool_decide (names = []) then None else Some (Bootstrap names now)
      | Ticking => Some (Refresh now)
      | _ => None
      end
  | _ => None
  end.

(** The datagram loop and the discovery task on the node. *)
Definition run_dht (s : Disco) (l : Label) : Disco :=
  match event_of s l with Some e => with_node s (exec (node s) e).1 | None => s end.

Definition disco_step (s : Disco) (l : Label) : Disco :=
  let s := run_dht s l in
  match l with
  | Packet _ _ _ => s
  | Task now rnd _ =>
      match pc s with
      | Importing => with_pc s Joining
      | Joining => with_pc s Ticking
      | Ticking => with_pc s Settling
      | Settling => with_pc s (Registering (addr_text <$> peer_addrs_verified (node s)))
      | Registering [] => mkDisco (node s) Ticking (lan s) (Some (export_nodes (node s))) (remote s) (peers s)
      | Registering (a :: todo) =>
          with_pc (if contactable a (from_env allow_private) then (register s a now rnd).1 else s) (Registering todo)
      end
  | Resolved info => match lan s with [] => with_lan s (offered info) | _ => s end
  | Lan now rnd =>
      match lan s with
      | [] => s
      | a :: rest => let '(s, pid) := register s a now rnd in with_lan s (if is_none pid then rest else [])
      end
  end.

(** The address a step opens a connection to, when the peer there was not seen lately. *)
Definition dials (s : Disco) (l : Label) : option string :=
  match l with
  | Task _ _ _ => match pc s with
                  | Registering (a :: _) => if contactable a (from_env allow_private) then Some a else None
                  | _ => None
                  end
  | Lan _ _ => match lan s with a :: _ => Some a | [] => None end
  | _ => None
  end.

Definition start (file : option (list NodeRec)) (r : R) (t : Table) : Disco :=
  mkDisco (bind_with_policy me p2p_port (from_env allow_private)) Importing [] file r t.

(** A run, with the events of the DHT node and the instances resolved. *)
Inductive disco_run (s0 : Disco) : DhtLog -> list ServiceInfo -> Disco -> Prop :=
| disco_start : disco_run s0 [] [] s0
| disco_next log heard s l :
    disco_run s0 log heard s ->
    disco_run s0 (log ++ match event_of s l with Some e => [(e, (exec (node s) e).2)] | None => [] end)
      (heard ++ match l with Resolved info => [info] | _ => [] end) (disco_step s l).

(** ** What may be contacted *)

(** An address the overlay earned: its host answered, in time, a query this node sent it, and
    the policy accepts the address. *)
Definition earned (log : DhtLog) (a : string) : Prop :=
  exists ip udp_port port, a = addr_text (ip_to_string ip, port) /\ accepts (from_env allow_private) ip port = true /\
    proved log (ip, udp_port).
(** An address another node announced on the LAN. *)
Definition announced_there (heard : list ServiceInfo) (a : string) : Prop := exists info, info ∈ heard /\ a ∈ offered info.

Lemma earned_app log log' a : earned log a -> earned (log ++ log') a.
Proof. intros (ip & u & port & -> & Ha & Hp). exists ip, u, port. split; [done|split; [done|by apply proved_app]]. Qed.
Lemma announced_app heard heard' a : announced_there heard a -> announced_there (heard ++ heard') a.
Proof. intros (info & Hi & Ha). exists info. split; [apply elem_of_app; by left|done]. Qed.

Definition allowed (log : DhtLog) (heard : list ServiceInfo) (a : string) : Prop := earned log a \/ announced_there heard a.

Record disco_inv (s0 : Disco) (log : DhtLog) (heard : list ServiceInfo) (s : Disco) : Prop := {
  di_run : dht_run (node s0) log (node s);
  di_todo : match pc s with Registering todo => Forall (earned log) todo | _ => True end;
  di_lan : Forall (announced_there heard) (lan s);
  di_file : state_file s = state_file s0 \/
    exists recs, state_file s = Some recs /\
      forall r, r ∈ recs -> exists n, r = to_rec n /\ accepts (from_env allow_private) (udp n).1 (Dht.p2p_port n) = true /\ proved log (udp n);
  di_rows pid row : peers s !! pid = Some row ->
    (exists row0, peers s0 !! pid = Some row0 /\ p_addr row0 = p_addr row) \/ allowed log heard (p_addr row)
}.

(** The node part of a step, and what it leaves alone. *)
Lemma run_dht_same s l : let s' := run_dht s l in
  pc s' = pc s /\ lan s' = lan s /\ state_file s' = state_file s /\ remote s' = remote s /\ peers s' = peers s.
Proof. unfold run_dht. by destruct (event_of s l). Qed.

Lemma run_dht_run d0 log s l :
  dht_run d0 log (node s) ->
  dht_run d0 (log ++ match event_of s l with Some e => [(e, (exec (node s) e).2)] | None => [] end) (node (run_dht s l)).
Proof.
  intros Hr. unfold run_dht. destruct (event_of s l) as [e|]; [by apply run_step|]. by rewrite app_nil_r.
Qed.

(** Registering an address writes rows at that address only. *)
Lemma register_rows s a now rnd s' pid :
  register s a now rnd = (s', pid) ->
  node s' = node s /\ pc s' = pc s /\ lan s' = lan s /\ state_file s' = state_file s /\
  forall i row, peers s' !! i = Some row -> (exists row0, peers s !! i = Some row0 /\ p_addr row0 = p_addr row) \/ p_addr row = a.
Proof.
  unfold register. destruct (register_peer _ _ _ _ _ _ _ _ _ _) as [[r t] ans] eqn:E. intros [= <- <-].
  split; [done|split; [done|split; [done|split; [done|]]]]. cbn [peers]. intros i row Hi.
  destruct (discover_guarded _ _ _ _ _ _ _ _ _ _ _ _ _ E) as [G1 G2]. destruct (peers s !! i) as [row0|] eqn:E0.
  - destruct (G1 i row0 E0) as (row' & Hr' & Hc). assert (row' = row) as -> by congruence.
    destruct Hc as [->|(Ha & _)]; [left; by exists row0|by right].
  - right. by apply (G2 i row).
Qed.

(** What the node hands to the discovery was earned. *)
Lemma verified_earned d0 log d n :
  DhtProofs.dht_inv d0 -> (forall m, m ∈ all (table d0) -> verified m = false) -> pending (sources d0) = ∅ ->
  policy d0 = from_env allow_private -> dht_run d0 log d ->
  n ∈ filter (fun n => verified n && accepts (policy d) (udp n).1 (Dht.p2p_port n) = true) (all (table d)) ->
  accepts (from_env allow_private) (udp n).1 (Dht.p2p_port n) = true /\ proved log (udp n).
Proof.
  intros Hi Hv Hp Hpol Hr [Hn Hin]%list_elem_of_filter.
  destruct (run_inv d0 log d Hi Hv Hp Hr) as (_ & Hpol' & _ & Hver & _). apply andb_true_iff in Hn as [Hvn Ha].
  split; [by rewrite <- Hpol, <- Hpol'|by apply Hver].
Qed.

Section Run.
Variables (file : option (list NodeRec)) (r0 : R) (t0 : Table).
Hypothesis id_length : length (id_from_peer me) = ID_LEN.
#[local] Abbreviation s0 := (start file r0 t0).

Lemma harvest_earned log s n :
  dht_run (node s0) log (node s) ->
  n ∈ filter (fun n => verified n && accepts (policy (node s)) (udp n).1 (Dht.p2p_port n) = true) (all (table (node s))) ->
  accepts (from_env allow_private) (udp n).1 (Dht.p2p_port n) = true /\ proved log (udp n).
Proof.
  destruct (bound_inv me p2p_port (from_env allow_private) id_length) as [Hi Hv]. intros Hr Hn.
  by eapply (verified_earned (node s0)).
Qed.

(** The invariant survives the node's part of a step. *)
Lemma inv_dht log heard s l log' heard' :
  disco_inv s0 log heard s ->
  log' = log ++ match event_of s l with Some e => [(e, (exec (node s) e).2)] | None => [] end ->
  heard' = heard ++ match l with Resolved info => [info] | _ => [] end ->
  disco_inv s0 log' heard' (run_dht s l).
Proof.
  intros [I1 I2 I3 I4 I5] -> ->. destruct (run_dht_same s l) as (E1 & E2 & E3 & _ & E5).
  split; rewrite ?E1, ?E2, ?E3, ?E5.
  - by apply run_dht_run.
  - destruct (pc s); try done. eapply Forall_impl; [exact I2|]. intros a. apply earned_app.
  - eapply Forall_impl; [exact I3|]. intros a. apply announced_app.
  - destruct I4 as [?|(recs & Hs & Hrecs)]; [by left|right]. exists recs. split; [done|]. intros r Hr.
    destruct (Hrecs r Hr) as (n & -> & Ha & Hp). exists n. split; [done|split; [done|by apply proved_app]].
  - intros pid row Hrow. destruct (I5 pid row Hrow) as [?|[Ha|Ha]]; [by left|right; left; by apply earned_app|].
    right; right. by apply announced_app.
Qed.

(** Registering an address that may be contacted keeps it. *)
Lemma inv_register log heard s a now rnd s' pid :
  disco_inv s0 log heard s -> allowed log heard a -> register s a now rnd = (s', pid) -> disco_inv s0 log heard s'.
Proof.
  intros [I1 I2 I3 I4 I5] Ha Hreg. destruct (register_rows _ _ _ _ _ _ Hreg) as (E1 & E2 & E3 & E4 & Hrows).
  split; rewrite ?E1, ?E2, ?E3, ?E4; try done.
  intros i row Hi. destruct (Hrows i row Hi) as [(row1 & G1 & E)| ->]; [|by right].
  destruct (I5 i row1 G1) as [(row2 & G2 & E')|Hal]; [left; exists row2; split; [done|congruence]|right; by rewrite <- E].
Qed.

Lemma inv_pc log heard s p :
  disco_inv s0 log heard s -> match p with Registering todo => Forall (earned log) todo | _ => True end ->
  disco_inv s0 log heard (with_pc s p).
Proof. intros [] Hp. by split. Qed.
Lemma inv_lan log heard s l :
  disco_inv s0 log heard s -> Forall (announced_there heard) l -> disco_inv s0 log heard (with_lan s l).
Proof. intros [] Hp. by split. Qed.

Lemma task_inv log heard s now rnd :
  disco_inv s0 log heard s ->
  disco_inv s0 log heard
    match pc s with
    | Importing => with_pc s Joining
    | Joining => with_pc s Ticking
    | Ticking => with_pc s Settling
    | Settling => with_pc s (Registering (addr_text <$> peer_addrs_verified (node s)))
    | Registering [] => mkDisco (node s) Ticking (lan s) (Some (export_nodes (node s))) (remote s) (peers s)
    | Registering (a :: todo) =>
        with_pc (if contactable a (from_env allow_private) then (register s a now rnd).1 else s) (Registering todo)
    end.
Proof.
  intros Hs. destruct (pc s) as [| | | |[|a todo]] eqn:Epc; try (by apply inv_pc).
  - apply inv_pc; [done|]. apply Forall_forall. intros a (x & -> & Hx)%list_elem_of_fmap.
    unfold peer_addrs_verified, collect_addrs in Hx. apply list_elem_of_fmap in Hx as (n & -> & Hn). cbn [negb orb] in Hn.
    destruct (harvest_earned log s n (di_run _ _ _ _ Hs) Hn) as [Ha Hp].
    exists (udp n).1, (udp n).2, (Dht.p2p_port n). split; [done|split; [done|by destruct (udp n)]].
  - destruct Hs as [I1 I2 I3 I4 I5]. split; cbn [node pc lan state_file peers]; try done. right. exists (export_nodes (node s)).
    split; [done|]. intros r Hr. unfold export_nodes in Hr. apply list_elem_of_fmap in Hr as (n & -> & Hn).
    exists n. split; [done|]. apply (harvest_earned log s n I1).
    apply elem_of_take in Hn as (k & Hk & _). by eapply list_elem_of_lookup_2.
  - pose proof (di_todo _ _ _ _ Hs) as Htodo. rewrite Epc in Htodo. apply Forall_cons in Htodo as [Ha Htodo].
    apply inv_pc; [|done]. destruct (contactable _ _); [|done]. destruct (register s a now rnd) as [s' pid] eqn:E.
    eapply inv_register; [exact Hs|by left|exact E].
Qed.

Lemma disco_step_inv log heard s l :
  disco_inv s0 log heard s ->
  disco_inv s0 (log ++ match event_of s l with Some e => [(e, (exec (node s) e).2)] | None => [] end)
    (heard ++ match l with Resolved info => [info] | _ => [] end) (disco_step s l).
Proof.
  intros Hs. pose proof (inv_dht log heard s l _ _ Hs eq_refl eq_refl) as Hs1. unfold disco_step.
  set (log' := log ++ _) in *. set (s1 := run_dht s l) in *. destruct l as [data src now|now rnd names|info|now rnd].
  - done.
  - by apply task_inv.
  - destruct (lan s1) eqn:El; [|done]. apply inv_lan; [done|]. apply Forall_forall. intros a Ha. exists info.
    split; [apply elem_of_app; right; left|done].
  - pose proof (di_lan _ _ _ _ Hs1) as Hl. destruct (lan s1) as [|a rest] eqn:El; [done|]. apply Forall_cons in Hl as [Ha Hrest].
    destruct (register s1 a now rnd) as [s' pid] eqn:E. apply inv_lan; [|by destruct pid].
    eapply inv_register; [exact Hs1|by right|exact E].
Qed.

Lemma run_disco_inv log heard s : disco_run s0 log heard s -> disco_inv s0 log heard s.
Proof.
  intros Hr. induction Hr as [|log heard s l Hr IH]; [|by apply disco_step_inv].
  split; cbn; [apply run_start|done|constructor|by left|]. intros pid row Hrow. left. by exists row.
Qed.

(** C26. Discovery contacts only what was earned. In every interleaving of the receive loop, the
    discovery task and the task on the LAN, whatever datagrams, snapshots, bootstrap names and
    announcements arrive: an address the node opens a connection to is one whose host answered,
    within the time limit, a query this node had sent there, on a port and at an address the
    policy accepts, or one another node announced on the LAN; each row of the peers is at the
    address it had or at such an address; and the routing table it writes for the next start
    holds only nodes that proved themselves so. *)
Theorem discovery_earned log heard s :
  disco_run s0 log heard s ->
  (forall l a, dials s l = Some a -> allowed log heard a) /\
  (forall pid row, peers s !! pid = Some row ->
     (exists row0, t0 !! pid = Some row0 /\ p_addr row0 = p_addr row) \/ allowed log heard (p_addr row)) /\
  (state_file s = file \/ exists recs, state_file s = Some recs /\
     forall r, r ∈ recs -> exists n, r = to_rec n /\ accepts (from_env allow_private) (udp n).1 (Dht.p2p_port n) = true /\ proved log (udp n)).
Proof.
  intros [I1 I2 I3 I4 I5]%run_disco_inv. split; [|split; [exact I5|exact I4]].
  intros l a. unfold dials. destruct l; try done.
  - destruct (pc s) as [| | | |[|b todo]]; try done. destruct (contactable b _); [|done]. intros [= <-].
    apply Forall_cons in I2 as [Hb _]. by left.
  - destruct (lan s) as [|b rest]; [done|]. intros [= <-]. apply Forall_cons in I3 as [Hb _]. by right.
Qed.
End Run.

(** ** What a harvest reaches *)

(** A verified IPv4 node is contacted when the policy accepts it, an IPv6 node never: its
    address is written without the brackets its parsing needs. *)
Theorem contactable_exact ip port :
  0 <= port < 65536 ->
  contactable (addr_text (ip_to_string ip, port)) (from_env allow_private) =
    match ip with V4 _ _ _ _ => accepts (from_env allow_private) ip port | V6 _ => false end.
Proof.
  intros Hp. unfold contactable. destruct ip as [a b c d|segs]; [by rewrite parse_sock_v4|by rewrite parse_sock_v6].
Qed.
End Discovery.

(** ** A run *)

Module DiscoveryRun.
Import Toy ToyWire DhtRun.

(** A parser of [ip:port] over the toy address text, whose digits hold no colon. *)
Fixpoint cut (s : string) : option (string * string) :=
  match s with
  | EmptyString => None
  | String c s => if Ascii.eqb c ":" then Some (""%string, s) else (fun p => (String c p.1, p.2)) <$> cut s
  end.
Lemma cut_digits p rest : cut (digits p ++ ":" ++ rest) = Some (digits p, rest).
Proof.
  assert (Hcons : forall c s, Ascii.eqb c ":" = false -> cut (String c s) = (fun q => (String c q.1, q.2)) <$> cut s) by (intros c s E; cbn; by rewrite E).
  induction p as [p IH|p IH|]; [..|done]; cbn [digits].
  - change (String "1" (digits p) ++ ":" ++ rest)%string with (String "1" (digits p ++ ":" ++ rest)). by rewrite Hcons, IH.
  - change (String "0" (digits p) ++ ":" ++ rest)%string with (String "0" (digits p ++ ":" ++ rest)). by rewrite Hcons, IH.
Qed.

Definition port_of (s : string) : option Z := find (fun q => same (pretty q) s) (seqZ 0 65536).
Lemma port_of_pretty q : 0 <= q < 65536 -> port_of (pretty q) = Some q.
Proof.
  intros Hq. unfold port_of. destruct (find _ _) as [q'|] eqn:E.
  - apply List.find_some in E as [_ E%same_true]. apply (inj pretty) in E. by subst.
  - assert (Hin : List.In q (seqZ 0 65536)) by (apply list_elem_of_In, elem_of_seqZ; lia).
    pose proof (List.find_none _ _ E q Hin) as Hn. cbn beta in Hn. by rewrite (proj2 (same_true _ _) eq_refl) in Hn.
Qed.

#[local] Instance sock_text : SockText.
Proof.
  refine {| parse_sock := fun s =>
    p ← cut s; ip ← ip_parse p.1; match ip with V4 _ _ _ _ => (fun port => (ip, port)) <$> port_of p.2 | V6 _ => None end |}.
  - intros a b c d port Hp. unfold addr_text. cbn [fst snd ip_to_string ip_text]. rewrite cut_digits. cbn [mbind option_bind fst snd].
    pose proof (ip_parse_to_string (V4 a b c d)) as E. cbn [ip_to_string ip_text] in E. rewrite E. cbn [mbind option_bind].
    by rewrite port_of_pretty.
  - intros segs port. unfold addr_text. cbn [fst snd ip_to_string ip_text]. rewrite cut_digits. cbn [mbind option_bind fst snd].
    pose proof (ip_parse_to_string (V6 segs)) as E. cbn [ip_to_string ip_text] in E. by rewrite E.
Defined.
(** The empty datagram stands for the friend's answer. *)
#[local] Instance wire : DhtWire := {| decode_msg := fun b => if bool_decide (b = []) then Some (Nodes friend_id 3119 []) else None |}.
#[local] Instance silent : Remote nat := {| connect := fun _ i => Ok i; exchange := fun i _ => (i, Err (PermissionDenied "silent")) |}.

Definition begin : Disco := start "me" 3119 None None 0%nat ∅.
Definition step : Disco -> Label -> Disco := disco_step "me" 1 None None (fun l => head l).
Definition labels : list Label :=
  [Task 0 None []; Task 0 None [Some friend]; Packet [] friend 5; Task 60 None []; Task 62 None []].
Definition harvested : Disco := foldl step begin labels.

Lemma harvested_run : exists log, disco_run "me" 1 None None (fun l => head l) begin log [] harvested.
Proof.
  assert (Hrun : forall ls log s, Forall (fun l => match l with Resolved _ => False | _ => True end) ls ->
    disco_run "me" 1 None None (fun l => head l) begin log [] s ->
    exists log', disco_run "me" 1 None None (fun l => head l) begin log' [] (foldl step s ls)).
  { induction ls as [|l ls IH]; intros log s Hls Hs; [by exists log|]. apply Forall_cons in Hls as [Hl Hls].
    cbn [foldl]. eapply IH; [exact Hls|]. apply (disco_next _ _ _ _ _ _ _ _ _ l) in Hs. by destruct l. }
  eapply Hrun; [by repeat constructor|apply disco_start].
Qed.

Lemma discovery_earned_witness :
  let a := addr_text (ip_to_string friend.1, 3119) in
  dials None harvested (Task 62 None []) = Some a /\
  exists log, earned None log a.
Proof.
  cbv zeta. set (a := addr_text (ip_to_string friend.1, 3119)).
  assert (Hd : dials None harvested (Task 62 None []) = Some a).
  { unfold dials. assert (Hpc : pc harvested = Registering [a]) by (vm_compute; reflexivity). rewrite Hpc. unfold a.
    rewrite contactable_exact by lia. unfold friend, fst.
    assert (Hacc : accepts (from_env None) (V4 9 9 9 9) 3119 = true) by (vm_compute; reflexivity). by rewrite Hacc. }
  split; [exact Hd|]. destruct harvested_run as (log & Hr). exists log.
  destruct (proj1 (discovery_earned "me" 1 3119 None None (fun l => head l) None 0%nat ∅ id_ok log [] harvested Hr) _ _ Hd) as [He|(info & Hi & _)].
  - exact He.
  - destruct (not_elem_of_nil _ Hi).
Defined.
End DiscoveryRun.
