(* ===== verification/Reports.v ===== *)
(** * Administration reports ([crates/server/src/handlers/admin.rs])

    What an administrator is shown of the node - its space, peers, jobs and risks, the recent
    events, the backups - and the passes that can be asked for. The tables are arguments; JSON
    is left out. *)

From Stdlib Require Import ZArith Lia Strings.Ascii Strings.String Strings.Byte.
From stdpp Require Import base numbers list gmap strings sorting.
From S2P Require Import Prelude External Erasure Crypto Paths Manifest ManifestInv ChunkStore Service Protocol Server Host.
From S2P Require Import ReadPath Quotas Peers ManifestBackup Recovery Jobs Access.

(** A row of [p2pnas.events]. *)
Record EventRow := mkEventRow { ev_id : Z; ev_kind : string; ev_created_at : Z }.

(** [SUM(CASE WHEN .. THEN 1 ELSE 0 END)] over the values of a table. *)
Definition count_if {A} (p : A -> bool) (l : list A) : Z := zsum ((fun x => if p x then 1 else 0) <$> l).

Record Metrics := mkMetrics {
  mt_contributed : Z; mt_used : Z; mt_hosted : Z; mt_available : Z;
  mt_files : Z; mt_chunks : Z; mt_stored : Z; mt_hosted_shards : Z;
  mt_peers : Z; mt_active : Z; mt_down : Z;
  mt_pending : Z; mt_running : Z; mt_unrepairable : Z
}.

Definition metrics (l : Ledger) (hosted : Z) (peers : list Peer) (shards : gmap string HostedShard) (jobs : list Job)
    (events : list EventRow) (db : Db) : Metrics :=
  let '(files, chunks, stored) := node_stats db in
  mkMetrics (contributed l) (node_used l) hosted (Z.max (contributed l - node_used l - hosted) 0)
    files chunks stored (Z.of_nat (base.size shards))
    (len peers) (count_if (fun p => same (p_status p) "active") peers) (count_if (fun p => same (p_status p) "down") peers)
    (count_if (is_state Pending) jobs) (count_if (is_state Running) jobs)
    (count_if (fun e => same (ev_kind e) "chunk_unrepairable") events).

Definition newest (a b : EventRow) : Prop := ev_id b <= ev_id a.
#[export] Instance newest_dec a b : Decision (newest a b).
Proof. unfold newest. apply _. Defined.
Definition list_events (events : list EventRow) : list EventRow := take 50 (merge_sort newest events).

Definition manifest_backup_status (now : Z) (log : list Recovery.Event) : Z * list Recovery.Event :=
  (manifest_backup_version_now now, recorded_versions log 20).
Definition manifest_backup_now (q : Queue) (now : Z) : Queue := enqueue q now "manifest_backup" no_payload.
Definition rebalance (q : Queue) (now : Z) : Queue := enqueue q now "rebalance_locality" no_payload.

(** ** What they say *)

Lemma count_if_length {A} (p : A -> bool) l : count_if p l = len (filter (fun x => p x = true) l).
Proof.
  unfold count_if, zsum, len. induction l as [|x l IH]; [done|]. cbn [fmap list_fmap foldr]. rewrite filter_cons.
  cbn in IH |- *. rewrite IH. destruct (p x); [rewrite decide_True by done; cbn [length]; lia|by rewrite decide_False].
Qed.

#[export] Instance newest_total : Total newest.
Proof. intros a b. unfold newest. lia. Qed.
#[export] Instance newest_trans : Transitive newest.
Proof. intros a b c. unfold newest. lia. Qed.

(** The events shown are the fifty newest: in descending order of id, and none left out is
    newer than one shown. *)
Theorem list_events_exact events :
  (length (list_events events) = Nat.min 50 (length events))%nat /\ StronglySorted newest (list_events events) /\
  exists rest, events ≡ₚ list_events events ++ rest /\ forall e r, e ∈ list_events events -> r ∈ rest -> newest e r.
Proof.
  unfold list_events. pose proof (merge_sort_Permutation newest events) as Hp.
  assert (Hs : StronglySorted newest (merge_sort newest events)) by (apply StronglySorted_merge_sort; apply _).
  split; [by rewrite length_take, Hp|]. rewrite <- (take_drop 50 (merge_sort newest events)) in Hs. split.
  - by apply StronglySorted_app_1_l in Hs.
  - exists (drop 50 (merge_sort newest events)). rewrite take_drop. split; [done|]. intros e r He Hr.
    eapply StronglySorted_app_1_elem_of; [exact Hs|done|done].
Qed.

(** Two answers to one question: the space [status] shows every user as available is that of
    the administrator's report and the bytes hosted for peers besides, so far as there is room. *)
Theorem available_twice l hosted peers shards jobs events db :
  0 <= hosted ->
  let a := mt_available (metrics l hosted peers shards jobs events db) in
  let b := (Access.status l).2 in
  a <= b /\ (hosted <= b -> b = a + hosted).
Proof. intros Hh. unfold metrics, Access.status. destruct (node_stats db) as [[files chunks] stored]. cbn. lia. Qed.

(** A peer is counted once at most as active or down, and a pending job is not running. *)
Lemma metrics_bounds l hosted peers shards jobs events db :
  let m := metrics l hosted peers shards jobs events db in
  mt_active m + mt_down m <= mt_peers m /\ mt_pending m + mt_running m <= len jobs /\ mt_unrepairable m <= len events.
Proof.
  unfold metrics. destruct (node_stats db) as [[files chunks] stored].
  cbn [mt_active mt_down mt_peers mt_pending mt_running mt_unrepairable].
  assert (Htwo : forall {A} (p q : A -> bool) xs, (forall x, p x && q x = false) -> count_if p xs + count_if q xs <= len xs).
  { intros A p q xs Hd. unfold count_if, len. induction xs as [|x xs IH]; [done|]. cbn [fmap list_fmap length]. specialize (Hd x).
    unfold zsum in *. cbn [foldr]. destruct (p x), (q x); cbn in Hd; [done|lia..]. }
  split; [|split].
  - apply Htwo. intros p. apply andb_false_iff. destruct (same (p_status p) "active") eqn:E; [right|by left].
    apply same_true in E. apply bool_decide_eq_false. rewrite E. done.
  - apply Htwo. intros j. unfold is_state. apply andb_false_iff.
    destruct (bool_decide (state j = Pending)) eqn:E; [right|by left]. apply bool_decide_eq_true in E. rewrite E. by apply bool_decide_eq_false.
  - pose proof (Htwo EventRow (fun e => same (ev_kind e) "chunk_unrepairable") (fun _ => false) events ltac:(intros; by rewrite andb_false_r)) as H.
    assert (E : count_if (fun _ : EventRow => false) events = 0).
    { unfold count_if, zsum. clear. induction events as [|e es IH]; [done|]. exact IH. }
    lia.
Qed.
